(* ===== verification/_CoqProject ===== *)
-Q . S2P
Prelude.v
Types.v
Clock.v
Errors.v
StateMachine.v
Ticket.v
LicenseKey.v
Catalog.v
Entitlement.v
Policy.v
Version.v
Subscription.v
Device.v
License.v
Validate.v
Cbor.v
Anomaly.v
Field.v
Artifacts.v
Chain.v
Requests.v
Messages.v
Armor.v
Suite.v
StdSuite.v
Seal.v
Keys.v
Analytics.v
StoreRecord.v
Host.v
Store.v
Snapshot.v
Scheduler.v
ClientWire.v
Client.v
ClientRuns.v
ClientSpec.v
ClientDemo.v
ClientTheorems.v
Simulator.v
Events.v
Projection.v
LicenseTables.v
LicenseDO.v
LicenseMoves.v
LicenseInv.v
LicenseKeeps.v
LicenseSpec.v
LicenseRuns.v
LicenseDemo.v
LicenseTheorems.v
LicenseAlarm.v
