(* ===== verification/Prelude.v ===== *)
(** * CopyLocker: a verification development

    CopyLocker is a software-licensing system.  A vendor's server sells and manages licences;
    an application embeds a client that holds a signed credential and must keep working
    offline, within limits, without ever extending its own rights.  This library models the
    system's decision logic - the code both sides share and the code each side trusts - and
    proves the properties that make it correct.

    ** The program and its model

    The Rust workspace is layered.  [copylocker-types] holds the shared vocabulary;
    [copylocker-suite] the canonical CBOR codec, the device attributes and the cryptographic
    slots, which [copylocker-suite-std] fills; [copylocker-proto] the wire artifacts, requests,
    envelopes, trust chain, key wrapping and the licence key; [copylocker-core] the client's
    clock guard, state machine, ticket checks and feature keys; [copylocker-store] the credential
    store; [copylocker-client] the facade an application holds, which drives all of these
    against the server; [copylocker-server-core] the server's catalog, policies, releases,
    subscriptions, seats, validation, analytics and the policy simulator; [copylocker-worker] the
    deployed server, whose durable object per licence keeps the seats in SQL tables and publishes
    every change through an outbox and a queue to the database that administrators read.  The
    command line, the bindings and the platform code call these.

    One file of the library per component, in dependency order:

    - [Prelude]: Rust's [Result] and its [?] operator, loops over fallible bodies, machine
      integers (values are [Z]; saturation and overflow written out), list and map helpers,
      the tactics [bprop], [split_ifs], [inv_result], [int_lia] and the hint databases.
    - [Types] ([crates/copylocker-types/src]): the wire enumerations behind the class
      [WireEnum] (encode/decode laws), byte identifiers, time windows, entitlement snapshots.
    - [Clock] ([copylocker-core/src/clock.rs]): the high-water clock guard.
    - [Errors] (the [error.rs] files): the error families and the wire codes.
    - [StateMachine] ([copylocker-core/src/state.rs]): the client state machine - [handle] with
      its eight per-state sections, every public mutator, runs of arbitrary operations.
    - [Ticket] ([copylocker-core/src/ticket.rs]): the checks on a validation ticket; [None] is
      the abort of [i64::abs] on the one difference it cannot represent.
    - [LicenseKey] ([copylocker-proto/src/license_key.rs]): bit packing, the CRC-12, printing
      and parsing with Crockford confusables.
    - [Catalog], [Entitlement] ([copylocker-server-core/src/catalog.rs], [entitlement.rs]):
      features, groups, tiers, structural validation, evolution, and resolution.
    - [Policy] ([policy.rs]): the five-axis policy, its validation, warnings, expiry, presets.
    - [Version] ([version.rs]): releases, the decision on a reported release, semver ranges.
    - [Subscription] ([subscription.rs]): the webhook-driven subscription state machine.
    - [Device] ([copylocker-suite/src/device.rs], [fingerprint_match.rs], [DefaultFpr]): device
      attributes and tolerant matching, against the class [FingerprintScheme] with the laws
      [ScoreLaws]; [DefaultFpr] is the instance that discharges them.
    - [License] ([store.rs], [activate.rs], [heartbeat.rs], [deactivate.rs], [revoke.rs]): the
      licence record and every operation that changes it.
    - [Validate] ([validate.rs]): the server's verdict on a validation request.
    - [Cbor] ([copylocker-suite/src/cbor.rs]): values, canonical writer, strict parser, map
      builder, with UTF-8 validity.
    - [Anomaly] ([anomaly.rs]): the suspicion score of an activation.
    - [Field], [Artifacts] ([copylocker-proto/src/field.rs], [artifacts.rs],
      [entitlements.rs]): the typed accessors and the eight signed artifacts, both directions.
    - [Chain] ([domain.rs], [envelope.rs], [chain.rs], the client's [trust.rs]): envelopes, the
      verified chain with its revocation knowledge, trust anchors and keysets, over the classes
      [SignatureScheme] and [HashScheme].
    - [Requests], [Messages], [Armor] ([requests.rs], [responses.rs], [challenge.rs],
      [offline_bundle.rs], [offline_armor.rs]): the device-signed requests and what they prove,
      the other messages, and offline bundles in their armor.
    - [Suite], [StdSuite] ([copylocker-suite/src], [copylocker-suite-std/src]): the slots as
      classes with their laws ([SuiteLaws]) and the reference suite over the class [Primitives].
    - [Seal], [Keys] ([keywrap.rs], [sealed_asset.rs], [copylocker-core/src/keys.rs]): associated
      data, sealed assets and the feature-key hierarchy.
    - [Analytics] ([copylocker-server-core/src/analytics]): the metric catalog, clipping,
      k-anonymity and the HyperLogLog sketch.
    - [StoreRecord], [Host], [Store] ([copylocker-store/src]): the stored record and its marks,
      files whose calls may fail, and the two-replica credential store above them.
    - [Snapshot], [Scheduler], [ClientWire] ([copylocker-client/src/snapshot.rs], [config.rs],
      [scheduler.rs], [error.rs], [host.rs], [transport.rs] and the pure functions of
      [client.rs]): the client's persisted payload, its configuration over the class
      [UrlParser], its schedule, its errors, and the opening of credentials.
    - [Client] ([client.rs], [platform.rs]): the runtime, every lock region as an action on the
      shared state, every method as a program ([Prog]) over actions and over the class
      [Platform] (time, randomness, network, key store).
    - [ClientRuns], [ClientSpec]: the invariant, a predicate transformer for regions and one for
      programs, the contract of every region and method, and the pool of concurrent calls.
    - [ClientDemo], [ClientTheorems]: a scripted platform, the client's theorems and departures.
    - [Simulator] ([copylocker-server-core/src/simulator.rs]): a scenario replayed over the
      subscription and release models, and its rendering.
    - [Events], [Projection] ([copylocker-worker/src/events.rs], [projection.rs] and its branch of
      [consumer.rs]): the events a licence publishes, and the guarded writes of the read model.
    - [LicenseTables], [LicenseDO] ([copylocker-worker/src/durable/license.rs]): the object's
      tables with their rows and messages; every handler and the alarm's regions as programs on
      the tables, over the class [LicenseHost] (the object's identity, JSON, SQLite's casts).
    - [LicenseMoves], [LicenseInv], [LicenseSpec], [LicenseKeeps]: the abstract specification (an
      invariant and the relation [move]), the proof that moves keep the invariant, a predicate
      transformer with the contract of every handler, and what every handler preserves.
    - [LicenseRuns]: requests, alarms and sends interleaved, with the queue.
    - [LicenseDemo], [LicenseTheorems], [LicenseAlarm]: a toy host, and the object's theorems.

    State is passed explicitly: a method on [&mut self] takes the record and returns it with
    its result.  Fallible code returns [result]; a possible abort (an unchecked addition with
    overflow checks on) is an [option].  Maps and sets with ordered iteration are [gmap] and
    [gset] with [bt_iter]/[bt_elems], sorted by key.  Secrets are byte lists; zeroisation has no
    counterpart.

    ** What the theorems show

    - Client core: the clock mark only ratchets forward under any readings and merges of
      persisted copies form a join (Clock); no run of events lets keys be derived without an
      installed credential, fatal events fail closed from every state, transient ones fail
      open, an expired machine locks (StateMachine); a ticket is accepted exactly when every
      check of the list passes, with the error of the first that fails (Ticket).
    - Codec: the decoder accepts exactly the canonical encodings of in-limit values, and map
      encodings do not depend on insertion order (Cbor); artifacts, requests and messages decode
      to what was encoded (Artifacts, Requests, Messages); an armored bundle survives
      transcription (Armor); a printed licence key parses back, and any single-character typo or
      adjacent transposition is detected (LicenseKey).
    - Trust and keys: an accepted artifact was vouched for by a certified, unrevoked epoch in its
      time window and a keyset is accepted exactly when every relevant certificate is sound
      (Chain); a device proof pins every field of its request (Requests); a hybrid signature
      needs both halves and the reference suite fills its slots (StdSuite); associated data
      determine their context and what is sealed opens (Seal); keys are derived exactly in
      permitted states for entitled features, online and offline alike (Keys).
    - Storage: no sequence of operations with failing calls lowers a high-water mark that a
      replica shows, what is saved is loaded, the root key is never replaced (Store).
    - The client: along every interleaving of calls the invariant holds and the marks only rise,
      no call loops, fatal errors leave nothing held, benign ones cost nothing, revocations reach
      what they name, keys need a credential, a permitted state and the entitlement, and a
      reported success is on disk (ClientTheorems); a configuration that can be built is safe
      and a failed attempt is retried in bounded time (Scheduler); a decoded snapshot is well
      typed (Snapshot).
    - Server: a validated catalog has no cycles and identifiers never disappear (Catalog);
      resolution yields exactly the conferred features minus exclusions, succeeds exactly on
      known references, and limits under the default policy are least upper bounds
      (Entitlement); validation of policies is exact and presets pass (Policy); the decision on
      a release is exact and range operators are intervals (Version); replays are ignored,
      fallbacks are write-once and never early, previews are accurate (Subscription); matching
      is sound and complete (Device); seats are never oversubscribed under any interleaving,
      the two-phase protocol works, each activation follows its lifecycle (License); kill
      orders and tickets are given exactly where warranted and revocation is final (Validate);
      sketches are functions of the set they have seen (Analytics); a simulation is a history of
      the real operations and its lines report them truly (Simulator).
    - The licence object: along every run its tables keep their invariant and change only by
      moves; seats are never oversold, the revocation of a licence and of a machine is final, the
      marks never fall, a nonce is accepted once, a reservation can be repeated
      (LicenseTheorems); the outbox is the numbered history of what was published, a sent row is
      in the queue, an alarm without failures empties the outbox, frees what is over and is never
      set too late, and the read model converges to the object's state whatever the order and the
      repetitions of the deliveries (LicenseAlarm).

    Where the code departs from its own documentation or intent the departure is a theorem too:
    [StateMachine.terminal_left_by_rollbacks], [StateMachine.throttle_never_consulted],
    [Subscription.terminal_states], [Subscription.refund_reinstates_fallback],
    [Version.garbage_minor_reads_as_zero], [Validate.ticket_expiry_slides],
    [Policy.warnings_exposure], [Armor.bundle_item_limit_too_small],
    [StdSuite.hmac_similarity_sound], [Store.blind_repair_lowers_marks],
    [Snapshot.revoked_epochs_outgrow_snapshot] and, of the client,
    [ClientTheorems.restart_locked_out], [garbage_import_wipes], [validation_error_without_wipe],
    [rollbacks_before_activation_lock] and [one_key_after_grace]; of the licence object
    [LicenseDemo.alarm_due_again_at_once] and [LicenseAlarm.erased_machine_comes_back].

    ** Bounds and termination

    The recursions that carry a depth counter in the source ([walk_group], [collect_group], the
    CBOR parser's [value]) recurse on the remaining depth, [MAX_GROUP_DEPTH + 1 - depth] and
    [max_depth + 1 - depth]; the loops recurse on their list or count.  Fuel appears four times:
    [Armor.Crockford.drain] (the buffered bits), [Host.overwrite] (the bytes left),
    [ClientWire.strip_any] (the length of the text) and [Client.sync_loop], whose [target + 2]
    rounds are proved enough under any interleaving ([pending_calls_terminate]).  Text is a byte
    string; whitespace trimming in [Version] knows the ASCII whitespace, and character classes
    are ASCII.

    ** Not modelled

    The cryptographic primitives (parameters, with their laws as classes) and the X-Wing
    adapter; the HyperLogLog estimate, which is floating point; the platform keychains and the
    reqwest transport; state subscriptions, the wake-up of the background task and lock poisoning
    in the client; Unicode normalisation of device attributes; of the worker the schema migrations,
    the issuer, account and audit objects with their events, the database and key-value adapters
    and the HTTP routing; the command line, the FFI, Node, WASM and Tauri bindings,
    platform fingerprint collection, the test kit and the TypeScript packages. *)

From Stdlib Require Export ZArith Lia Bool Ascii String.
From stdpp Require Export base tactics numbers list gmap strings sorting.
#[global] Open Scope list_scope.

#[global] Open Scope Z_scope.

(** ** Results: Rust's [Result<T, E>]

    [Ok] and [Err] keep the source's names.  [x <-? m ;; k] is the [?] operator
    (same error type); [x <-? m !! f ;; k] is [m.map_err(f)?]. *)

Inductive result (A E : Type) : Type :=
| Ok (a : A)
| Err (e : E).
Arguments Ok {A E} a.
Arguments Err {A E} e.

#[global] Instance result_eq_dec `{EqDecision A, EqDecision E} : EqDecision (result A E).
Proof. solve_decision. Defined.

Definition rbind {A B E} (m : result A E) (k : A -> result B E) : result B E :=
  match m with Ok a => k a | Err e => Err e end.

Definition map_err {A E F} (f : E -> F) (m : result A E) : result A F :=
  match m with Ok a => Ok a | Err e => Err (f e) end.

Definition is_ok {A E} (m : result A E) : bool :=
  match m with Ok _ => true | Err _ => false end.

Definition ok_of_option {A E} (o : option A) (e : E) : result A E :=
  match o with Some a => Ok a | None => Err e end.

Definition result_ok {A E} (m : result A E) : option A :=
  match m with Ok a => Some a | Err _ => None end.

Declare Scope rust_scope.
Delimit Scope rust_scope with rust.
Notation "x <-? m ;; k" := (rbind m (fun x => k))
  (at level 100, m at next level, right associativity) : rust_scope.
Notation "' x <-? m ;; k" := (rbind m (fun x => k))
  (at level 20, x pattern, m at level 99, k at level 200) : rust_scope.
Notation "'check?' m ;; k" := (rbind m (fun _ => k))
  (at level 100, m at next level, right associativity) : rust_scope.
Notation "'guard?' b 'else' e ;; k" := (if b then k else Err e)
  (at level 100, b at level 99, e at level 99, right associativity) : rust_scope.
#[global] Open Scope rust_scope.

(** A loop [for x in xs { body? }] with no state of its own. *)
Fixpoint for_each {A E} (body : A -> result unit E) (xs : list A) : result unit E :=
  match xs with
  | [] => Ok tt
  | x :: xs => check? body x ;; for_each body xs
  end.

(** A loop [for x in xs { acc = body(acc, x)? }]. *)
Fixpoint try_fold {A B E} (body : B -> A -> result B E) (acc : B) (xs : list A) : result B E :=
  match xs with
  | [] => Ok acc
  | x :: xs => acc' <-? body acc x ;; try_fold body acc' xs
  end.

Lemma rbind_ok {A B E} (m : result A E) (k : A -> result B E) b :
  rbind m k = Ok b <-> exists a, m = Ok a /\ k a = Ok b.
Proof. destruct m; simpl; naive_solver. Qed.

Lemma rbind_err {A B E} (m : result A E) (k : A -> result B E) e :
  rbind m k = Err e <-> m = Err e \/ exists a, m = Ok a /\ k a = Err e.
Proof. destruct m; simpl; naive_solver. Qed.

Lemma for_each_ok {A E} (body : A -> result unit E) xs :
  for_each body xs = Ok tt <-> forall x, x ∈ xs -> body x = Ok tt.
Proof.
  induction xs as [|x xs IH]; simpl; [set_solver|].
  rewrite rbind_ok. setoid_rewrite IH. split.
  - intros ([] & Hx & Hxs) y [->|Hy]%elem_of_cons; auto.
  - intros H. exists tt. split; [apply H; set_solver|]. intros y Hy. apply H. set_solver.
Qed.

Lemma for_each_err {A E} (body : A -> result unit E) xs e :
  for_each body xs = Err e -> exists x, x ∈ xs /\ body x = Err e.
Proof.
  induction xs as [|x xs IH]; simpl; [done|].
  rewrite rbind_err. intros [Hx|(_ & _ & Hxs)].
  - exists x. split; [set_solver|done].
  - destruct (IH Hxs) as (y & Hy & ?). exists y. split; [set_solver|done].
Qed.

(** The state of a successful [try_fold] is the state of the fold, by an invariant. *)
Lemma try_fold_inv {A B E} (P : B -> Prop) (body : B -> A -> result B E) xs :
  (forall acc x acc', x ∈ xs -> P acc -> body acc x = Ok acc' -> P acc') ->
  forall acc acc', P acc -> try_fold body acc xs = Ok acc' -> P acc'.
Proof.
  induction xs as [|x xs IH]; simpl; intros Hb acc acc' HP; [naive_solver|].
  rewrite rbind_ok. intros (acc1 & H1 & H2).
  eapply (IH ltac:(intros; eapply Hb; [apply elem_of_cons; right|..]; eauto)); [|exact H2].
  eapply Hb; [apply elem_of_cons; left|..]; eauto.
Qed.

Lemma try_fold_total {A B E} (body : B -> A -> result B E) xs acc :
  (forall acc x, x ∈ xs -> exists acc', body acc x = Ok acc') ->
  exists acc', try_fold body acc xs = Ok acc'.
Proof.
  revert acc. induction xs as [|x xs IH]; simpl; intros acc H; [eauto|].
  destruct (H acc x ltac:(set_solver)) as [acc1 E1]. rewrite E1. simpl.
  apply IH. intros a y Hy. apply H. set_solver.
Qed.

(** ** Machine integers

    Every integer of the source is a [Z]; the width appears where the source's
    arithmetic depends on it.  The release profile keeps [overflow-checks] on, so
    unchecked [+], [-], [*] abort on overflow: [checked] is the value when it fits and
    [None] for the abort. *)

Definition i64_min : Z := -9223372036854775808.
Definition i64_max : Z := 9223372036854775807.
Definition u64_max : Z := 18446744073709551615.
Definition u32_max : Z := 4294967295.
Definition u16_max : Z := 65535.
Definition u8_max : Z := 255.

Definition in_i64 (x : Z) : Prop := i64_min <= x <= i64_max.
Definition in_u64 (x : Z) : Prop := 0 <= x <= u64_max.
Definition in_u32 (x : Z) : Prop := 0 <= x <= u32_max.
Definition in_u8 (x : Z) : Prop := 0 <= x <= u8_max.

#[global] Instance in_i64_dec x : Decision (in_i64 x).
Proof. unfold in_i64. apply _. Defined.
#[global] Instance in_u64_dec x : Decision (in_u64 x).
Proof. unfold in_u64. apply _. Defined.
#[global] Instance in_u32_dec x : Decision (in_u32 x).
Proof. unfold in_u32. apply _. Defined.
#[global] Instance in_u8_dec x : Decision (in_u8 x).
Proof. unfold in_u8. apply _. Defined.

Definition clamp (lo hi x : Z) : Z := Z.max lo (Z.min hi x).

Definition sat_i64 (x : Z) : Z := clamp i64_min i64_max x.
Definition sat_u32 (x : Z) : Z := clamp 0 u32_max x.

(** [i64::saturating_add], [saturating_sub], [saturating_mul]; the [u32] versions. *)
Definition sat_add_i64 (x y : Z) : Z := sat_i64 (x + y).
Definition sat_sub_i64 (x y : Z) : Z := sat_i64 (x - y).
Definition sat_mul_i64 (x y : Z) : Z := sat_i64 (x * y).
Definition sat_add_u32 (x y : Z) : Z := sat_u32 (x + y).
Definition sat_sub_u32 (x y : Z) : Z := sat_u32 (x - y).
Definition sat_mul_u32 (x y : Z) : Z := sat_u32 (x * y).

(** Overflow-checked arithmetic: [None] is the abort. *)
Definition checked (lo hi x : Z) : option Z :=
  if (lo <=? x) && (x <=? hi) then Some x else None.
Definition add_i64 (x y : Z) : option Z := checked i64_min i64_max (x + y).

(** [T::try_from(x).unwrap_or(d)] for an unsigned [T] with greatest value [hi]. *)
Definition try_into_or (hi x d : Z) : Z := if (0 <=? x) && (x <=? hi) then x else d.

Ltac unfold_int :=
  unfold sat_add_i64, sat_sub_i64, sat_mul_i64, sat_add_u32, sat_sub_u32, sat_mul_u32,
         sat_i64, sat_u32, clamp, in_i64, in_u64, in_u32, in_u8,
         i64_min, i64_max, u64_max, u32_max, u16_max, u8_max in *.
Ltac int_lia := unfold_int; lia.

Lemma sat_add_i64_range x y : in_i64 (sat_add_i64 x y).
Proof. int_lia. Qed.
Lemma sat_sub_i64_range x y : in_i64 (sat_sub_i64 x y).
Proof. int_lia. Qed.
Lemma sat_add_u32_range x y : in_u32 (sat_add_u32 x y).
Proof. int_lia. Qed.
Lemma sat_add_i64_exact x y : in_i64 (x + y) -> sat_add_i64 x y = x + y.
Proof. int_lia. Qed.
Lemma sat_sub_i64_exact x y : in_i64 (x - y) -> sat_sub_i64 x y = x - y.
Proof. int_lia. Qed.
Lemma checked_Some lo hi x y : checked lo hi x = Some y <-> y = x /\ lo <= x <= hi.
Proof. unfold checked. destruct (Z.leb_spec lo x), (Z.leb_spec x hi); naive_solver lia. Qed.
Lemma checked_None lo hi x : checked lo hi x = None <-> x < lo \/ hi < x.
Proof. unfold checked. destruct (Z.leb_spec lo x), (Z.leb_spec x hi); naive_solver lia. Qed.

Create HintDb rust.
Create HintDb clock.
#[export] Hint Resolve sat_add_i64_range sat_sub_i64_range sat_add_u32_range : rust.

(** ** Bits *)

Lemma land_lxor_distr a b c : Z.land (Z.lxor a b) c = Z.lxor (Z.land a c) (Z.land b c).
Proof.
  apply Z.bits_inj'. intros i Hi. rewrite Z.land_spec, !Z.lxor_spec, !Z.land_spec.
  by destruct (Z.testbit a i), (Z.testbit b i), (Z.testbit c i).
Qed.

Lemma lxor_lt_pow2 k a b :
  0 <= k -> 0 <= a < 2 ^ k -> 0 <= b < 2 ^ k -> 0 <= Z.lxor a b < 2 ^ k.
Proof.
  intros Hk Ha Hb. rewrite <- (Z.mod_small a (2 ^ k)), <- (Z.mod_small b (2 ^ k)) by done.
  rewrite <- !Z.land_ones, <- land_lxor_distr, Z.land_ones by done.
  apply Z.mod_pos_bound. by apply Z.pow_pos_nonneg.
Qed.

(** ** Tactics *)

(** Turn boolean comparisons of the context and goal into propositions. *)
Ltac bprop :=
  repeat match goal with
  | H : _ && _ = true |- _ => apply andb_true_iff in H; destruct H
  | H : _ || _ = false |- _ => apply orb_false_iff in H; destruct H
  | H : negb _ = true |- _ => apply negb_true_iff in H
  | H : negb _ = false |- _ => apply negb_false_iff in H
  | H : (_ <=? _) = true |- _ => apply Z.leb_le in H
  | H : (_ <=? _) = false |- _ => apply Z.leb_gt in H
  | H : (_ <? _) = true |- _ => apply Z.ltb_lt in H
  | H : (_ <? _) = false |- _ => apply Z.ltb_ge in H
  | H : (_ =? _) = true |- _ => apply Z.eqb_eq in H
  | H : (_ =? _) = false |- _ => apply Z.eqb_neq in H
  | H : bool_decide _ = true |- _ => apply bool_decide_eq_true in H
  | H : bool_decide _ = false |- _ => apply bool_decide_eq_false in H
  end.

(** Split every [if] and [match] on a boolean or option scrutinee in the goal. *)
Ltac split_ifs :=
  repeat match goal with
  | |- context [ if ?b then _ else _ ] => let E := fresh "E" in destruct b eqn:E
  end; bprop.

(** Invert [Ok _ = Ok _], [Err _ = Err _] and the monadic binds of a hypothesis. *)
Ltac inv_result :=
  repeat match goal with
  | H : Ok _ = Ok _ |- _ => injection H as H; subst
  | H : Err _ = Err _ |- _ => injection H as H; subst
  | H : Ok _ = Err _ |- _ => discriminate H
  | H : Err _ = Ok _ |- _ => discriminate H
  | H : rbind _ _ = Ok _ |- _ =>
      let a := fresh "a" in let E := fresh "E" in
      apply rbind_ok in H as (a & E & H)
  | H : (if ?b then _ else _) = Ok _ |- _ =>
      let E := fresh "E" in destruct b eqn:E; try discriminate H
  end.

(** ** Lists *)

(** [iter().find(p)]. *)
Definition find_first {A} (p : A -> bool) (l : list A) : option A := List.find p l.

(** [if let Some(x) = iter_mut().find(p) { *x = f(x) }]: the first match is updated. *)
Fixpoint update_first {A} (p : A -> bool) (f : A -> A) (l : list A) : list A :=
  match l with
  | [] => []
  | x :: l => if p x then f x :: l else x :: update_first p f l
  end.

(** [iter().filter(p).count()]. *)
Definition count_if {A} (p : A -> bool) (l : list A) : nat := length (List.filter p l).

Lemma find_first_Some {A} (p : A -> bool) l x :
  find_first p l = Some x -> x ∈ l /\ p x = true.
Proof. intros H. apply List.find_some in H as [H1 H2]. by rewrite list_elem_of_In. Qed.

Lemma find_first_None {A} (p : A -> bool) l :
  find_first p l = None <-> forall x, x ∈ l -> p x = false.
Proof.
  split.
  - intros H x Hx. eapply List.find_none in H; [done|]. by apply list_elem_of_In.
  - intros H. destruct (find_first p l) as [x|] eqn:E; [|done].
    apply find_first_Some in E as [Hx Hp]. rewrite H in Hp by done. done.
Qed.

Lemma find_first_is_Some {A} (p : A -> bool) l x :
  x ∈ l -> p x = true -> exists y, find_first p l = Some y.
Proof.
  intros Hx Hp. destruct (find_first p l) eqn:E; [eauto|].
  apply find_first_None with (x := x) in E; [congruence|done].
Qed.

Lemma update_first_length {A} p (f : A -> A) l : length (update_first p f l) = length l.
Proof. induction l as [|x l IH]; simpl; [done|]. destruct (p x); simpl; auto. Qed.

Lemma elem_of_update_first {A} p (f : A -> A) l y :
  y ∈ update_first p f l -> y ∈ l \/ exists x, x ∈ l /\ p x = true /\ y = f x.
Proof.
  induction l as [|x l IH]; simpl; [set_solver|].
  destruct (p x) eqn:E; intros [->|H]%elem_of_cons.
  - right. exists x. split_and!; [apply list_elem_of_here|done|done].
  - left. by apply list_elem_of_further.
  - left. apply list_elem_of_here.
  - destruct (IH H) as [?|(z & ? & ? & ->)]; [left; by apply list_elem_of_further|].
    right. exists z. split_and!; [by apply list_elem_of_further|done|done].
Qed.

Lemma update_first_none {A} p (f : A -> A) l :
  find_first p l = None -> update_first p f l = l.
Proof.
  induction l as [|x l IH]; simpl; [done|].
  unfold find_first. simpl. destruct (p x); [done|]. intros. by rewrite IH.
Qed.

Lemma update_first_map {A B} p (f : A -> A) (g : A -> B) l :
  (forall x, p x = true -> g (f x) = g x) -> map g (update_first p f l) = map g l.
Proof.
  intros H. induction l as [|x l IH]; simpl; [done|].
  destruct (p x) eqn:E; simpl; [by rewrite H|by rewrite IH].
Qed.

Lemma find_first_update_first {A} p (f : A -> A) l x :
  (forall y, p y = true -> p (f y) = true) ->
  find_first p l = Some x -> find_first p (update_first p f l) = Some (f x).
Proof.
  intros Hp. unfold find_first. induction l as [|y l IH]; simpl; [done|].
  destruct (p y) eqn:E; simpl.
  - intros [= ->]. by rewrite (Hp _ E).
  - rewrite E. auto.
Qed.

Lemma count_if_update_first {A} q p (f : A -> A) l :
  (forall x, p x = true -> q (f x) = q x) -> count_if q (update_first p f l) = count_if q l.
Proof.
  intros H. unfold count_if. induction l as [|x l IH]; simpl; [done|].
  destruct (p x) eqn:E; simpl; [rewrite (H _ E)|]; destruct (q x); simpl; congruence.
Qed.

Lemma count_if_update_found {A} q p (f : A -> A) l a :
  find_first p l = Some a -> q (f a) = q a -> count_if q (update_first p f l) = count_if q l.
Proof.
  unfold count_if, find_first. induction l as [|x l IH]; simpl; [done|].
  destruct (p x) eqn:E; simpl.
  - intros [= ->] ->. by destruct (q a).
  - intros Hf Hq. destruct (q x); simpl; by rewrite IH.
Qed.

Lemma count_if_mono {A} (q : A -> bool) p (f : A -> A) l :
  (forall x, p x = true -> q (f x) = true -> q x = true) ->
  (count_if q (update_first p f l) <= count_if q l)%nat.
Proof.
  intros H. unfold count_if. induction l as [|x l IH]; simpl; [done|].
  destruct (p x) eqn:E; simpl.
  - destruct (q (f x)) eqn:Ef; [rewrite (H _ E Ef); simpl; lia|].
    destruct (q x); simpl; lia.
  - destruct (q x); simpl; lia.
Qed.

Lemma count_if_map_mono {A} (q : A -> bool) (f : A -> A) l :
  (forall x, q (f x) = true -> q x = true) -> (count_if q (map f l) <= count_if q l)%nat.
Proof.
  intros H. unfold count_if. induction l as [|x l IH]; simpl; [done|].
  destruct (q (f x)) eqn:Ef; [rewrite (H _ Ef); simpl; lia|].
  destruct (q x); simpl; lia.
Qed.

Lemma count_if_app {A} (q : A -> bool) l1 l2 :
  count_if q (l1 ++ l2) = (count_if q l1 + count_if q l2)%nat.
Proof. unfold count_if. by rewrite List.filter_app, length_app. Qed.

(** ** Ordered containers

    [BTreeMap<String, _>] is a [gmap string _] and [BTreeSet<String>] a [gset string];
    iteration is in key order, the order of [str], which is bytewise. *)

Definition key_le {A} (x y : string * A) : Prop := String.le x.1 y.1.
#[global] Instance key_le_dec {A} (x y : string * A) : Decision (key_le x y).
Proof. unfold key_le. apply _. Defined.

Definition bt_iter {A} (m : gmap string A) : list (string * A) :=
  merge_sort key_le (map_to_list m).
Definition bt_keys {A} (m : gmap string A) : list string := map fst (bt_iter m).
Definition bt_elems (s : gset string) : list string := merge_sort String.le (elements s).

Lemma bt_iter_perm {A} (m : gmap string A) : bt_iter m ≡ₚ map_to_list m.
Proof. apply merge_sort_Permutation. Qed.

Lemma elem_of_bt_iter {A} (m : gmap string A) k v : (k, v) ∈ bt_iter m <-> m !! k = Some v.
Proof. rewrite bt_iter_perm. apply elem_of_map_to_list. Qed.

Lemma bt_keys_NoDup {A} (m : gmap string A) : NoDup (bt_keys m).
Proof.
  unfold bt_keys. rewrite bt_iter_perm. apply NoDup_fst_map_to_list.
Qed.

Lemma elem_of_bt_keys {A} (m : gmap string A) k : k ∈ bt_keys m <-> is_Some (m !! k).
Proof.
  unfold bt_keys. rewrite list_elem_of_fmap. split.
  - intros ([k' v] & -> & H%elem_of_bt_iter). eauto.
  - intros [v H%elem_of_bt_iter]. exists (k, v). eauto.
Qed.

Lemma elem_of_bt_elems (s : gset string) x : x ∈ bt_elems s <-> x ∈ s.
Proof. unfold bt_elems. rewrite merge_sort_Permutation. apply elem_of_elements. Qed.
