(* ===== verification/Types.v ===== *)
(** * Shared data types ([crates/copylocker-types/src])

    The protocol's enums with their wire codes, time windows, identifiers and the
    entitlement snapshot.  One [Module] per Rust type; inside it the type, its
    constructors and its methods keep their Rust names. *)

From S2P Require Import Prelude.

(** ** Enums with a wire representation

    Every enum of the crate that crosses the wire as a small integer has a discriminant
    and a [from_u8]; the class states what the decoders of the protocol rely on. *)

Class WireEnum (A : Type) := {
  to_u8 : A -> Z;
  from_u8 : Z -> option A;
  from_to_u8 : forall a, from_u8 (to_u8 a) = Some a;
  to_from_u8 : forall v a, from_u8 v = Some a -> to_u8 a = v;
  to_u8_range : forall a, in_u8 (to_u8 a);
}.

(** A law of the interface, proved once: distinct values have distinct codes. *)
Lemma to_u8_inj `{WireEnum A} (a b : A) : to_u8 a = to_u8 b -> a = b.
Proof. intros E. apply (f_equal from_u8) in E. rewrite !from_to_u8 in E. congruence. Qed.

(** Discharge of [to_from_u8] for a [from_u8] written as a cascade of [if]s. *)
Ltac wire_decode :=
  intros v a H;
  repeat match type of H with
  | (if ?b then _ else _) = Some _ =>
      destruct b eqn:?; [injection H as <-; bprop; simpl; congruence|]
  | None = Some _ => discriminate H
  end.

Module KillReason.
Inductive KillReason :=
| RevokedLicense | RevokedActivation | SeatReclaimed | Fraud | Refund | EpochRevoked.

Definition discriminant (k : KillReason) : Z :=
  match k with
  | RevokedLicense => 1 | RevokedActivation => 2 | SeatReclaimed => 3
  | Fraud => 4 | Refund => 5 | EpochRevoked => 6
  end.

Definition from_u8 (v : Z) : option KillReason :=
  if v =? 1 then Some RevokedLicense
  else if v =? 2 then Some RevokedActivation
  else if v =? 3 then Some SeatReclaimed
  else if v =? 4 then Some Fraud
  else if v =? 5 then Some Refund
  else if v =? 6 then Some EpochRevoked
  else None.

#[global] Instance KillReason_eq_dec : EqDecision KillReason.
Proof. solve_decision. Defined.
#[global] Instance KillReason_wire : WireEnum KillReason.
Proof.
  refine {| Types.to_u8 := discriminant; Types.from_u8 := from_u8 |};
    unfold from_u8; [intros []; reflexivity|wire_decode|intros []; by split].
Defined.
End KillReason.
Notation KillReason := KillReason.KillReason.

Module ArtifactKind.
Inductive ArtifactKind :=
| EpochCert | MachineCred | ValidationTicket | KillOrder | RevocationBatch
| OfflineLicenseKey | IntegrityManifest | ActivationRequest | ActivationResponse
| ValidateRequest | HeartbeatRequest | DeactivateRequest.

Definition discriminant (k : ArtifactKind) : Z :=
  match k with
  | EpochCert => 1 | MachineCred => 2 | ValidationTicket => 3 | KillOrder => 4
  | RevocationBatch => 5 | OfflineLicenseKey => 6 | IntegrityManifest => 7
  | ActivationRequest => 8 | ActivationResponse => 9 | ValidateRequest => 10
  | HeartbeatRequest => 11 | DeactivateRequest => 12
  end.

Definition ctx_name (k : ArtifactKind) : string :=
  match k with
  | EpochCert => "epoch-cert"
  | MachineCred => "machine-cred"
  | ValidationTicket => "validation-ticket"
  | KillOrder => "kill-order"
  | RevocationBatch => "revocation-batch"
  | OfflineLicenseKey => "olk"
  | IntegrityManifest => "manifest"
  | ActivationRequest => "ar"
  | ActivationResponse => "aresp"
  | ValidateRequest => "validate-request"
  | HeartbeatRequest => "heartbeat-request"
  | DeactivateRequest => "deactivate-request"
  end.

Definition from_u8 (v : Z) : option ArtifactKind :=
  if v =? 1 then Some EpochCert
  else if v =? 2 then Some MachineCred
  else if v =? 3 then Some ValidationTicket
  else if v =? 4 then Some KillOrder
  else if v =? 5 then Some RevocationBatch
  else if v =? 6 then Some OfflineLicenseKey
  else if v =? 7 then Some IntegrityManifest
  else if v =? 8 then Some ActivationRequest
  else if v =? 9 then Some ActivationResponse
  else if v =? 10 then Some ValidateRequest
  else if v =? 11 then Some HeartbeatRequest
  else if v =? 12 then Some DeactivateRequest
  else None.

Definition ALL : list ArtifactKind :=
  [EpochCert; MachineCred; ValidationTicket; KillOrder; RevocationBatch;
   OfflineLicenseKey; IntegrityManifest; ActivationRequest; ActivationResponse;
   ValidateRequest; HeartbeatRequest; DeactivateRequest].

#[global] Instance ArtifactKind_eq_dec : EqDecision ArtifactKind.
Proof. solve_decision. Defined.
#[global] Instance ArtifactKind_wire : WireEnum ArtifactKind.
Proof.
  refine {| Types.to_u8 := discriminant; Types.from_u8 := from_u8 |};
    unfold from_u8; [intros []; reflexivity|wire_decode|intros []; by split].
Defined.
End ArtifactKind.
Notation ArtifactKind := ArtifactKind.ArtifactKind.

Module Mode.
Inductive Mode := OfflineHybrid | EnforcedOnline.

Definition discriminant (m : Mode) : Z :=
  match m with OfflineHybrid => 0 | EnforcedOnline => 1 end.

Definition from_u8 (v : Z) : option Mode :=
  if v =? 0 then Some OfflineHybrid
  else if v =? 1 then Some EnforcedOnline
  else None.

#[global] Instance Mode_eq_dec : EqDecision Mode.
Proof. solve_decision. Defined.
#[global] Instance Mode_wire : WireEnum Mode.
Proof.
  refine {| Types.to_u8 := discriminant; Types.from_u8 := from_u8 |};
    unfold from_u8; [intros []; reflexivity|wire_decode|intros []; by split].
Defined.
End Mode.
Notation Mode := Mode.Mode.

Module Verdict.
(** The source's [Verdict::Ok] is [Accepted] here: [Ok] is the result constructor. *)
Inductive Verdict := Accepted | NeedsReactivation | VersionOutOfScope.

Definition discriminant (m : Verdict) : Z :=
  match m with Accepted => 0 | NeedsReactivation => 1 | VersionOutOfScope => 2 end.

Definition from_u8 (v : Z) : option Verdict :=
  if v =? 0 then Some Accepted
  else if v =? 1 then Some NeedsReactivation
  else if v =? 2 then Some VersionOutOfScope
  else None.

#[global] Instance Verdict_eq_dec : EqDecision Verdict.
Proof. solve_decision. Defined.
#[global] Instance Verdict_wire : WireEnum Verdict.
Proof.
  refine {| Types.to_u8 := discriminant; Types.from_u8 := from_u8 |};
    unfold from_u8; [intros []; reflexivity|wire_decode|intros []; by split].
Defined.
End Verdict.
Notation Verdict := Verdict.Verdict.

Module SubscriptionState.
Inductive SubscriptionState := Active | PastDue | Canceling | Suspended.

Definition discriminant (m : SubscriptionState) : Z :=
  match m with Active => 0 | PastDue => 1 | Canceling => 2 | Suspended => 3 end.

Definition from_u8 (v : Z) : option SubscriptionState :=
  if v =? 0 then Some Active
  else if v =? 1 then Some PastDue
  else if v =? 2 then Some Canceling
  else if v =? 3 then Some Suspended
  else None.

#[global] Instance SubscriptionState_eq_dec : EqDecision SubscriptionState.
Proof. solve_decision. Defined.
#[global] Instance SubscriptionState_wire : WireEnum SubscriptionState.
Proof.
  refine {| Types.to_u8 := discriminant; Types.from_u8 := from_u8 |};
    unfold from_u8; [intros []; reflexivity|wire_decode|intros []; by split].
Defined.
End SubscriptionState.

Module LicenseState.
Inductive LicenseState :=
| Unlicensed | Activating | Active | NeedsRevalidation | Grace | Locked | Revoked | Tampered.

Definition permits_key_derivation (s : LicenseState) : bool :=
  match s with Active | NeedsRevalidation | Grace => true | _ => false end.

Definition requires_wipe (s : LicenseState) : bool :=
  match s with Revoked | Tampered => true | _ => false end.

Definition as_str (s : LicenseState) : string :=
  match s with
  | Unlicensed => "unlicensed"
  | Activating => "activating"
  | Active => "active"
  | NeedsRevalidation => "needs_revalidation"
  | Grace => "grace"
  | Locked => "locked"
  | Revoked => "revoked"
  | Tampered => "tampered"
  end.

#[global] Instance LicenseState_eq_dec : EqDecision LicenseState.
Proof. solve_decision. Defined.
End LicenseState.
Notation LicenseState := LicenseState.LicenseState.

Module StateReason.
Inductive StateReason :=
| Activated | Validated | ReactivationRequired | VersionOutOfScope | RefreshDue
| NetworkUnavailable | GraceExhausted | CredentialExpired | ClockRollback
| KillOrder (r : KillReason) | IntegrityFailure | UserRequested.
#[global] Instance StateReason_eq_dec : EqDecision StateReason.
Proof. solve_decision. Defined.
End StateReason.
Notation StateReason := StateReason.StateReason.

Module SecurityLevel.
Inductive SecurityLevel := Category1 | Category3 | Category5.

(** The derived order is the order of the discriminants. *)
Definition discriminant (s : SecurityLevel) : Z :=
  match s with Category1 => 1 | Category3 => 3 | Category5 => 5 end.
End SecurityLevel.

(** ** Time windows ([time.rs]) *)
Module TimeWindow.
Record TimeWindow := new { not_before : Z; not_after : Z }.

Definition UNLIMITED : Z := 0.

Definition unbounded : TimeWindow := new i64_min UNLIMITED.

Definition is_unlimited (w : TimeWindow) : bool := not_after w =? UNLIMITED.

Definition contains (w : TimeWindow) (now : Z) : bool :=
  if now <? not_before w then false
  else is_unlimited w || (now <? not_after w).

Definition is_expired (w : TimeWindow) (now : Z) : bool :=
  negb (is_unlimited w) && (not_after w <=? now).

Definition is_not_yet_valid (w : TimeWindow) (now : Z) : bool := now <? not_before w.

Definition remaining (w : TimeWindow) (now : Z) : option Z :=
  if is_unlimited w then None
  else let left := sat_sub_i64 (not_after w) now in
       Some (if left <? 0 then 0 else left).

Definition is_well_formed (w : TimeWindow) : bool :=
  is_unlimited w || (not_before w <? not_after w).
End TimeWindow.
Notation TimeWindow := TimeWindow.TimeWindow.

(** ** Identifiers ([ids.rs])

    A fixed-width identifier is its list of bytes; the [byte_id!] macro's methods take the
    width as an argument.  Bytes are integers of [0..=255]. *)
Notation byte := Z (only parsing).
Definition is_bytes (l : list byte) : Prop := Forall in_u8 l.

Module ByteId.
Definition from_slice (len : nat) (b : list byte) : option (list byte) :=
  if bool_decide (length b = len) then Some b else None.

Definition HEX : list ascii := String.list_ascii_of_string "0123456789abcdef".

Definition push_hex (s : string) (b : byte) : string :=
  String.append s (String (nth (Z.to_nat (Z.shiftr b 4)) HEX Ascii.zero)
    (String (nth (Z.to_nat (Z.land b 15)) HEX Ascii.zero) EmptyString)).

Definition to_hex (id : list byte) : string := fold_left push_hex id "".
End ByteId.

Notation LicenseId := (list byte) (only parsing).
Notation MachineId := (list byte) (only parsing).
Notation EpochId := (list byte) (only parsing).
Notation Digest := (list byte) (only parsing).
(** A fingerprint digest is of variable length. *)
Notation Fingerprint := (list byte) (only parsing).

(** Big-endian bytes of an unsigned integer, [to_be_bytes] and [from_be_bytes]. *)
Fixpoint be_bytes (n : nat) (v : Z) : list byte :=
  match n with
  | O => []
  | S n => Z.land (Z.shiftr v (8 * Z.of_nat n)) 255 :: be_bytes n v
  end.

Definition of_be_bytes (bs : list byte) : Z := fold_left (fun acc b => acc * 256 + b) bs 0.

Module SuiteId.
Definition LEN : nat := 4.
Definition from_u32 (v : Z) : list byte := be_bytes 4 v.
Definition to_u32 (s : list byte) : Z := of_be_bytes s.
Definition from_slice (b : list byte) : option (list byte) := ByteId.from_slice 4 b.
End SuiteId.

Definition PROTO_VER : Z := 1.
Definition MAX_CBOR_DEPTH : Z := 16.
Definition MAX_BODY_BYTES : Z := 16 * 1024.

(** ** Entitlements ([entitlements.rs]) *)
Definition LIMIT_UNLIMITED : Z := -1.

Module VersionScope.
Inductive VersionScope :=
| Unlimited
| SemverRange (range : string)
| ReleasedBefore (cutoff : Z)
| Pinned (ids : list string).
#[global] Instance VersionScope_eq_dec : EqDecision VersionScope.
Proof. solve_decision. Defined.
End VersionScope.
Notation VersionScope := VersionScope.VersionScope.

Module SubscriptionHint.
Record SubscriptionHint := mk {
  state : SubscriptionState.SubscriptionState;
  current_period_end : Z;
  fallback_progress_months : option Z;
  fallback_required_months : option Z;
}.
End SubscriptionHint.
Notation SubscriptionHint := SubscriptionHint.SubscriptionHint.

Module Entitlements.
Record Entitlements := mk {
  features : gset string;
  limits : gmap string Z;
  tier_id : string;
  tier_label : string;
  catalog_version : Z;
  version_scope : option VersionScope;
  subscription_hint : option SubscriptionHint;
}.

Definition has_feature (e : Entitlements) (feature : string) : bool :=
  bool_decide (feature ∈ features e).

Definition limit (e : Entitlements) (key : string) : option Z := limits e !! key.

Definition is_unlimited (e : Entitlements) (key : string) : bool :=
  bool_decide (limit e key = Some LIMIT_UNLIMITED).
End Entitlements.
Notation Entitlements := Entitlements.Entitlements.

(** ** Properties of the shared types *)

(** The three predicates on a window are exhaustive, and exclusive when the window is
    well formed: one inclusive/exclusive convention for every deadline. *)
Lemma window_exhaustive w now :
  TimeWindow.contains w now =
  negb (TimeWindow.is_not_yet_valid w now) && negb (TimeWindow.is_expired w now).
Proof.
  unfold TimeWindow.contains, TimeWindow.is_not_yet_valid, TimeWindow.is_expired.
  destruct (now <? TimeWindow.not_before w); simpl; [done|].
  destruct (TimeWindow.is_unlimited w); simpl; [done|].
  destruct (Z.ltb_spec now (TimeWindow.not_after w)),
    (Z.leb_spec (TimeWindow.not_after w) now); simpl; lia || done.
Qed.

Theorem window_trichotomy (w : TimeWindow) (now : Z)
    (Hwf : TimeWindow.is_well_formed w = true)
    (Hna : in_i64 (TimeWindow.not_after w)) (Hnow : in_i64 now) :
  (TimeWindow.is_not_yet_valid w now = true /\ TimeWindow.contains w now = false
     /\ TimeWindow.is_expired w now = false) \/
  (TimeWindow.is_not_yet_valid w now = false /\ TimeWindow.contains w now = true
     /\ TimeWindow.is_expired w now = false
     /\ TimeWindow.remaining w now <> Some 0) \/
  (TimeWindow.is_not_yet_valid w now = false /\ TimeWindow.contains w now = false
     /\ TimeWindow.is_expired w now = true
     /\ TimeWindow.remaining w now = Some 0).
Proof.
  rewrite window_exhaustive.
  unfold TimeWindow.is_well_formed, TimeWindow.is_not_yet_valid, TimeWindow.is_expired,
    TimeWindow.remaining in *.
  destruct (TimeWindow.is_unlimited w); simpl in *.
  - destruct (now <? _); naive_solver.
  - bprop. destruct (Z.ltb_spec now (TimeWindow.not_before w)),
      (Z.leb_spec (TimeWindow.not_after w) now); simpl; try lia.
    + right; right. split_and!; auto. f_equal. split_ifs; int_lia.
    + right; left. split_and!; auto. split_ifs; [exfalso; int_lia|]. intros HS; injection HS; int_lia.
Qed.

Lemma window_trichotomy_witness :
  TimeWindow.contains (TimeWindow.new 100 200) 199 = true /\
  ((TimeWindow.is_not_yet_valid (TimeWindow.new 100 200) 200 = true
     /\ TimeWindow.contains (TimeWindow.new 100 200) 200 = false
     /\ TimeWindow.is_expired (TimeWindow.new 100 200) 200 = false) \/
  (TimeWindow.is_not_yet_valid (TimeWindow.new 100 200) 200 = false
     /\ TimeWindow.contains (TimeWindow.new 100 200) 200 = true
     /\ TimeWindow.is_expired (TimeWindow.new 100 200) 200 = false
     /\ TimeWindow.remaining (TimeWindow.new 100 200) 200 <> Some 0) \/
  (TimeWindow.is_not_yet_valid (TimeWindow.new 100 200) 200 = false
     /\ TimeWindow.contains (TimeWindow.new 100 200) 200 = false
     /\ TimeWindow.is_expired (TimeWindow.new 100 200) 200 = true
     /\ TimeWindow.remaining (TimeWindow.new 100 200) 200 = Some 0)).
Proof.
  split; [reflexivity|].
  apply (window_trichotomy (TimeWindow.new 100 200) 200); [reflexivity|simpl; int_lia|int_lia].
Defined.

(** Domain separation: no two artifact kinds share a signing context, and every kind is
    listed in [ALL] exactly once. *)
Lemma ctx_name_inj a b : ArtifactKind.ctx_name a = ArtifactKind.ctx_name b -> a = b.
Proof. destruct a, b; simpl; congruence. Qed.

Theorem artifact_domain_separation :
  (forall a b, ArtifactKind.ctx_name a = ArtifactKind.ctx_name b -> a = b) /\
  (forall a, a ∈ ArtifactKind.ALL) /\ NoDup ArtifactKind.ALL /\
  (forall v a, ArtifactKind.from_u8 v = Some a <-> ArtifactKind.discriminant a = v).
Proof.
  split_and!.
  - apply ctx_name_inj.
  - intros []; unfold ArtifactKind.ALL; repeat (apply elem_of_cons; (left; reflexivity) || right).
  - vm_compute. repeat constructor; set_solver.
  - intros v a. split; [exact (@to_from_u8 _ ArtifactKind.ArtifactKind_wire v a)|].
    intros <-. exact (@from_to_u8 _ ArtifactKind.ArtifactKind_wire a).
Qed.
