(* ===== verification/Clock.v ===== *)
(** * The clock guard ([crates/copylocker-core/src/clock.rs])

    A persisted high-water mark of the wall clock.  The methods that take [&mut self]
    return the new state (and the verdict).  The properties: the mark never decreases and
    the persisted ordering is kept by every operation, so no sequence of clock readings can
    re-open a deadline that has passed; merging redundant copies is a least upper bound. *)

From S2P Require Import Prelude Types.

Module ClockVerdict.
Inductive ClockVerdict :=
| Ok
| Rollback (delta : Z)
| ImplausibleJump (delta : Z).
#[global] Instance ClockVerdict_eq_dec : EqDecision ClockVerdict.
Proof. solve_decision. Defined.
End ClockVerdict.
Notation ClockVerdict := ClockVerdict.ClockVerdict.

Definition SKEW_TOLERANCE_SECS : Z := 300.
Definition FORWARD_JUMP_TOLERANCE_SECS : Z := 86400.
Definition DEFAULT_ROLLBACK_THRESHOLD : Z := 3.

Module ClockState.
Record ClockState := mk {
  last_seen_max : Z;
  last_server_time : Z;
  rollback_events : Z;
}.
#[global] Instance ClockState_eq_dec : EqDecision ClockState.
Proof. solve_decision. Defined.

Definition new (seed : Z) : ClockState := mk seed seed 0.

Definition from_persisted (last_seen_max last_server_time rollback_events : Z)
    : option ClockState :=
  if last_server_time >? last_seen_max then None
  else Some (mk last_seen_max last_server_time rollback_events).

Definition effective_now (c : ClockState) (wall_clock : Z) : Z :=
  if wall_clock >? last_seen_max c then wall_clock else last_seen_max c.

Definition check (c : ClockState) (wall_clock : Z) : ClockState * ClockVerdict :=
  if sat_add_i64 wall_clock SKEW_TOLERANCE_SECS <? last_seen_max c then
    (mk (last_seen_max c) (last_server_time c) (sat_add_u32 (rollback_events c) 1),
     ClockVerdict.Rollback (sat_sub_i64 (last_seen_max c) wall_clock))
  else
    (mk (if wall_clock >? last_seen_max c then wall_clock else last_seen_max c)
        (last_server_time c) (rollback_events c),
     ClockVerdict.Ok).

Definition check_against_monotonic (c : ClockState)
    (wall_clock monotonic_elapsed_secs session_start_wall : Z) : ClockState * ClockVerdict :=
  let (c, verdict) := check c wall_clock in
  if negb (bool_decide (verdict = ClockVerdict.Ok)) then (c, verdict)
  else
    let wall_elapsed := sat_sub_i64 wall_clock session_start_wall in
    let divergence := sat_sub_i64 wall_elapsed monotonic_elapsed_secs in
    if divergence >? FORWARD_JUMP_TOLERANCE_SECS
    then (c, ClockVerdict.ImplausibleJump divergence)
    else (c, ClockVerdict.Ok).

Definition observe_server_time (c : ClockState) (server_time : Z) : ClockState :=
  mk (if server_time >? last_seen_max c then server_time else last_seen_max c)
     server_time (rollback_events c).

Definition merge (c other : ClockState) : ClockState :=
  mk (if last_seen_max other >? last_seen_max c then last_seen_max other else last_seen_max c)
     (if last_server_time other >? last_server_time c
      then last_server_time other else last_server_time c)
     (Z.max (rollback_events c) (rollback_events other)).

Definition exceeds_rollback_threshold (c : ClockState) (threshold : Z) : bool :=
  rollback_events c >? threshold.
End ClockState.
Notation ClockState := ClockState.ClockState.
Import ClockState.

(** ** Invariant and order *)

(** What [from_persisted] demands, together with the field widths. *)
Definition clock_wf (c : ClockState) : Prop :=
  last_server_time c <= last_seen_max c /\ in_i64 (last_seen_max c) /\
  in_i64 (last_server_time c) /\ in_u32 (rollback_events c).

(** Information order: a later state knows at least as much. *)
Definition clock_le (a b : ClockState) : Prop :=
  last_seen_max a <= last_seen_max b /\ rollback_events a <= rollback_events b.

#[global] Instance clock_le_preorder : PreOrder clock_le.
Proof. split; red; unfold clock_le; intros; lia. Qed.

(** Conditions on the two [>]-style maxima of the source. *)
Lemma if_gtb_max a b : (if a >? b then a else b) = Z.max a b.
Proof. rewrite Z.gtb_ltb. destruct (Z.ltb_spec b a); lia. Qed.

Lemma effective_now_max c w : effective_now c w = Z.max w (last_seen_max c).
Proof. apply if_gtb_max. Qed.

#[export] Hint Rewrite if_gtb_max effective_now_max : clock.

(** Every way the rest of the client changes the clock state. *)
Inductive clock_op :=
| OpCheck (wall_clock : Z)
| OpMonotonic (wall_clock monotonic_elapsed_secs session_start_wall : Z)
| OpServerTime (server_time : Z)
| OpMerge (other : ClockState).

Definition run_clock_op (c : ClockState) (o : clock_op) : ClockState :=
  match o with
  | OpCheck w => fst (check c w)
  | OpMonotonic w m s => fst (check_against_monotonic c w m s)
  | OpServerTime t => observe_server_time c t
  | OpMerge other => merge c other
  end.

(** The arguments are machine values, and a merged copy comes from the authenticated store. *)
Definition clock_op_wf (o : clock_op) : Prop :=
  match o with
  | OpCheck w => in_i64 w
  | OpMonotonic w m s => in_i64 w /\ in_i64 m /\ in_i64 s
  | OpServerTime t => in_i64 t
  | OpMerge other => clock_wf other
  end.

Lemma fst_check_monotonic c w m s :
  fst (check_against_monotonic c w m s) = fst (check c w).
Proof.
  unfold check_against_monotonic. destruct (check c w) as [c' v].
  destruct (bool_decide _); simpl; [|done]. by destruct (_ >? _).
Qed.

Lemma check_le c w : clock_wf c -> clock_le c (fst (check c w)).
Proof.
  unfold clock_wf, clock_le, check. intros (? & ? & ? & ?).
  destruct (_ <? _); simpl; autorewrite with clock; int_lia.
Qed.

Lemma check_wf c w : clock_wf c -> in_i64 w -> clock_wf (fst (check c w)).
Proof.
  unfold clock_wf, check. intros (? & ? & ? & ?) ?.
  destruct (_ <? _); simpl; autorewrite with clock; int_lia.
Qed.

Lemma observe_server_time_wf c t :
  clock_wf c -> in_i64 t -> clock_wf (observe_server_time c t) /\ clock_le c (observe_server_time c t).
Proof.
  unfold clock_wf, clock_le, observe_server_time. intros (? & ? & ? & ?) ?. simpl.
  autorewrite with clock. int_lia.
Qed.

Lemma merge_wf c o : clock_wf c -> clock_wf o -> clock_wf (merge c o) /\ clock_le c (merge c o).
Proof.
  unfold clock_wf, clock_le, merge. intros (? & ? & ? & ?) (? & ? & ? & ?). simpl.
  autorewrite with clock. int_lia.
Qed.

Lemma clock_op_step c o :
  clock_wf c -> clock_op_wf o -> clock_wf (run_clock_op c o) /\ clock_le c (run_clock_op c o).
Proof.
  intros Hc Ho. destruct o; simpl in *.
  - auto using check_wf, check_le.
  - rewrite fst_check_monotonic. destruct Ho. auto using check_wf, check_le.
  - by apply observe_server_time_wf.
  - by apply merge_wf.
Qed.
#[export] Hint Resolve check_wf check_le : clock.

(** A whole history of operations. *)
Definition run_clock (c : ClockState) (os : list clock_op) : ClockState :=
  fold_left run_clock_op os c.

Lemma run_clock_inv c os :
  clock_wf c -> Forall clock_op_wf os -> clock_wf (run_clock c os) /\ clock_le c (run_clock c os).
Proof.
  intros Hc Hos. revert c Hc. induction Hos as [|o os Ho _ IH]; simpl; intros c Hc.
  - split; [done|reflexivity].
  - destruct (clock_op_step c o Hc Ho) as [H1 H2].
    destruct (IH _ H1) as [H3 H4]. split; [done|by etransitivity].
Qed.

(** C36 The high-water mark is a ratchet: along any history of clock operations starting
    from a state the store may hold, the persisted ordering is kept (so the state can be
    restored by [from_persisted]), nothing is lowered, and a deadline [d] that was reached
    at an earlier accepted reading [w] is still reached at every later reading, however far
    back the wall clock is set. *)
Theorem clock_ratchet (c : ClockState) (w d : Z) (os : list clock_op) (w' : Z)
    (Hc : clock_wf c) (Hw : in_i64 w) (Hos : Forall clock_op_wf os)
    (Hd : d <= effective_now c w)
    (Hacc : snd (check c w) = ClockVerdict.Ok) :
  let c' := run_clock (fst (check c w)) os in
  d <= effective_now c' w' /\
  last_seen_max c <= last_seen_max c' /\ rollback_events c <= rollback_events c' /\
  from_persisted (last_seen_max c') (last_server_time c') (rollback_events c') = Some c'.
Proof.
  intros c'. assert (clock_wf (fst (check c w))) as H1 by eauto with clock.
  assert (clock_le c (fst (check c w))) as H2 by eauto with clock.
  destruct (run_clock_inv _ os H1 Hos) as [Hwf Hle]. fold c' in Hwf, Hle.
  assert (last_seen_max (fst (check c w)) = effective_now c w) as Em.
  { unfold check, effective_now in *. destruct (_ <? _); [discriminate Hacc|done]. }
  rewrite effective_now_max in *. destruct Hle, H2. rewrite Em in *.
  split_and!; [lia|lia|lia|].
  unfold from_persisted. rewrite Z.gtb_ltb.
  destruct (Z.ltb_spec (last_seen_max c') (last_server_time c')); [destruct Hwf; lia|].
  by destruct c'.
Qed.

Lemma clock_ratchet_witness :
  let c := new 1800000000 in
  let c' := run_clock (fst (check c 1800001000)) [OpCheck 1768464000; OpServerTime 1800000500] in
  1800001000 <= effective_now c' 0 /\
  last_seen_max c <= last_seen_max c' /\ rollback_events c <= rollback_events c' /\
  from_persisted (last_seen_max c') (last_server_time c') (rollback_events c') = Some c'.
Proof.
  apply (clock_ratchet (new 1800000000) 1800001000 1800001000
           [OpCheck 1768464000; OpServerTime 1800000500] 0);
    [vm_compute; intuition discriminate | int_lia
    | repeat constructor; int_lia | vm_compute; discriminate | reflexivity].
Defined.

(** Verdicts of the clock check, without the skew hidden in them: a reading is a rollback
    exactly when it is more than the tolerated skew behind the mark (no saturation effect at
    either end of [i64]), the reported distance is then positive, the counter goes up by one
    (saturating at [u32::MAX]) and the mark stays; otherwise the mark becomes the maximum. *)
Theorem check_verdict (c : ClockState) (w : Z) (Hc : clock_wf c) (Hw : in_i64 w) :
  if bool_decide (w + SKEW_TOLERANCE_SECS < last_seen_max c) then
    exists delta, check c w =
      (mk (last_seen_max c) (last_server_time c) (Z.min u32_max (rollback_events c + 1)),
       ClockVerdict.Rollback delta) /\
    SKEW_TOLERANCE_SECS < delta /\ delta = Z.min i64_max (last_seen_max c - w)
  else
    check c w =
      (mk (Z.max w (last_seen_max c)) (last_server_time c) (rollback_events c), ClockVerdict.Ok).
Proof.
  destruct Hc as (? & ? & ? & ?). unfold check, SKEW_TOLERANCE_SECS.
  assert (sat_add_i64 w 300 <? last_seen_max c = bool_decide (w + 300 < last_seen_max c)) as ->.
  { destruct (Z.ltb_spec (sat_add_i64 w 300) (last_seen_max c));
      symmetry; [apply bool_decide_eq_true|apply bool_decide_eq_false]; int_lia. }
  case_bool_decide; [|by rewrite if_gtb_max].
  exists (sat_sub_i64 (last_seen_max c) w).
  split_and!; [|int_lia|int_lia]. do 2 f_equal. int_lia.
Qed.

Lemma check_verdict_witness :
  exists delta, check (new 1800000000) 1799913600 =
      (mk 1800000000 1800000000 (Z.min u32_max 1), ClockVerdict.Rollback delta) /\
    SKEW_TOLERANCE_SECS < delta /\ delta = Z.min i64_max (1800000000 - 1799913600).
Proof.
  apply (check_verdict (new 1800000000) 1799913600); [vm_compute; intuition discriminate|int_lia].
Defined.

(** Merging the copies read from redundant storage is a least upper bound: commutative,
    associative, idempotent, above both arguments, and below every state above both, so the
    order and the number of surviving copies do not matter. *)
Theorem merge_semilattice (a b c : ClockState) :
  merge a b = merge b a /\ merge a (merge b c) = merge (merge a b) c /\ merge a a = a /\
  clock_le a (merge a b) /\ (clock_le a c -> clock_le b c -> clock_le (merge a b) c) /\
  (forall w, effective_now (merge a b) w = Z.max (effective_now a w) (effective_now b w)).
Proof.
  unfold merge, clock_le, effective_now. destruct a, b, c. simpl. autorewrite with clock.
  split_and!; try (f_equal; lia); try lia. intros w. autorewrite with clock. lia.
Qed.
