(* ===== verification/Errors.v ===== *)
(** * The error families

    The codec and protocol errors ([crates/copylocker-suite/src/error.rs],
    [crates/copylocker-proto/src/error.rs]), the client's transient and fatal families
    ([crates/copylocker-core/src/error.rs]) and the server's client and server faults
    ([crates/copylocker-server-core/src/error.rs]). *)

From S2P Require Import Prelude Types.

Module CryptoError.
Inductive CryptoError :=
| Invalid | BadLength | OutputTooLong | HybridStripDetected | RngFailure.
End CryptoError.
Notation CryptoError := CryptoError.CryptoError.

Module CodecError.
Inductive CodecError :=
| Malformed | MissingField (k : Z) | TypeMismatch (k : Z) | DepthExceeded | TooLong
| NotCanonical | TrailingBytes | UnknownDiscriminant.
#[global] Instance CodecError_eq_dec : EqDecision CodecError.
Proof. solve_decision. Defined.
End CodecError.
Notation CodecError := CodecError.CodecError.

Module ProtoError.
Inductive ProtoError :=
| Codec (e : CodecError) | Crypto (e : CryptoError) | UnsupportedProtoVersion (v : Z)
| UnsupportedSuite | ArtifactKindMismatch | RootPinMismatch | OutsideValidityWindow
| EpochRevoked | UnknownEpoch | MonotonicityViolation | NonceMismatch | MachineMismatch
| FieldOutOfRange (k : Z) | MalformedLicenseKey.
End ProtoError.
Notation ProtoError := ProtoError.ProtoError.

Module TransientError.
Inductive TransientError :=
| Offline
| Timeout
| ServerError (code : Z)
| RateLimited (retry_after : Z)
| TransportFailure.
End TransientError.
Notation TransientError := TransientError.TransientError.

Module FatalError.
Inductive FatalError :=
| SignatureInvalid | ChainInvalid | EpochRevoked | NonceMismatch | MachineMismatch
| RevocationRollback | CredentialCorrupt | Revoked (r : KillReason)
| SecurityFloorRegression | IntegrityFailure.
#[global] Instance FatalError_eq_dec : EqDecision FatalError.
Proof. solve_decision. Defined.

(** [impl From<ProtoError> for FatalError]. *)
Definition from_proto (e : ProtoError) : FatalError :=
  match e with
  | ProtoError.RootPinMismatch | ProtoError.UnknownEpoch
  | ProtoError.OutsideValidityWindow => ChainInvalid
  | ProtoError.EpochRevoked => EpochRevoked
  | ProtoError.NonceMismatch => NonceMismatch
  | ProtoError.MachineMismatch => MachineMismatch
  | ProtoError.MonotonicityViolation => RevocationRollback
  | ProtoError.Crypto _ => SignatureInvalid
  | _ => CredentialCorrupt
  end.
End FatalError.
Notation FatalError := FatalError.FatalError.

Module CoreError.
Inductive CoreError :=
| NoCredential | NotEntitled | DerivationFailed | AssetCorrupt | Fatal (e : FatalError).
#[global] Instance CoreError_eq_dec : EqDecision CoreError.
Proof. solve_decision. Defined.
End CoreError.
Notation CoreError := CoreError.CoreError.

(** ** The server's faults *)

Module ClientFault.
Inductive ClientFault :=
| InvalidCredential
| SeatExhausted
| NeedsReactivation
| NeedsLogin
| UnsupportedProto
| RateLimited (retry_after : Z)
| FingerprintMismatch
| ReleaseNotRegistered (release_id : string)
| VersionOutOfScope (highest_allowed : option string)
| ReleaseCompromised (action : string)
| ProofInvalid
| ReplayedNonce
| RollbackAttempt
| VirtualMachineNotAllowed.
#[global] Instance ClientFault_eq_dec : EqDecision ClientFault.
Proof. solve_decision. Defined.

Definition code (f : ClientFault) : Z :=
  match f with
  | InvalidCredential | ProofInvalid | ReplayedNonce | RollbackAttempt
  | VirtualMachineNotAllowed => 1000
  | SeatExhausted => 1001
  | NeedsReactivation => 1002
  | NeedsLogin => 1003
  | UnsupportedProto => 1004
  | RateLimited _ => 1005
  | FingerprintMismatch => 1006
  | ReleaseNotRegistered _ => 1007
  | VersionOutOfScope _ => 1008
  | ReleaseCompromised _ => 1009
  end.

Definition retry_after (f : ClientFault) : option Z :=
  match f with RateLimited r => Some r | _ => None end.

Definition http_status (f : ClientFault) : Z :=
  match f with
  | UnsupportedProto => 426
  | RateLimited _ => 429
  | SeatExhausted | VersionOutOfScope _ => 409
  | _ => 403
  end.
End ClientFault.
Notation ClientFault := ClientFault.ClientFault.

Module ServerFault.
Inductive ServerFault :=
| Storage (s : string) | Issuer (s : string) | Configuration (s : string) | Internal (s : string).

Definition code (f : ServerFault) : Z := 5000.
Definition http_status (f : ServerFault) : Z := 500.
Definition detail (f : ServerFault) : string :=
  match f with Storage s | Issuer s | Configuration s | Internal s => s end.
End ServerFault.
Notation ServerFault := ServerFault.ServerFault.

(** The two server families stay apart on the wire: a client fault is always answered with
    a 4xx status and a code in [1000..=1009], a server fault with a 5xx status and code 5000,
    so a client that fails open exactly on 5xx never fails open on a client fault; and the
    five conditions an attacker could probe share one code and one status. *)
Theorem fault_families_disjoint (c : ClientFault) (s : ServerFault) :
  400 <= ClientFault.http_status c < 500 /\ 1000 <= ClientFault.code c <= 1009 /\
  500 <= ServerFault.http_status s < 600 /\ ServerFault.code s <> ClientFault.code c /\
  (ClientFault.code c = 1000 <->
     c = ClientFault.InvalidCredential \/ c = ClientFault.ProofInvalid \/
     c = ClientFault.ReplayedNonce \/ c = ClientFault.RollbackAttempt \/
     c = ClientFault.VirtualMachineNotAllowed) /\
  (ClientFault.code c = 1000 -> ClientFault.http_status c = 403).
Proof.
  unfold ServerFault.http_status, ServerFault.code.
  destruct c; simpl; split_and!; try lia; naive_solver lia.
Qed.
