(* ===== verification/StateMachine.v ===== *)
(** * The client state machine ([crates/copylocker-core/src/state.rs])

    [handle] is the source's [StateMachine::handle]: the clock gate in front, then the
    [(state, event)] table, one function per state of the source's sections.  A method with
    [&mut self] returns the new machine and the effects it pushes, in order.

    The properties: what each event can and cannot do to the held credential, the fail-open
    and fail-closed sides of the table, the deadlines under an adversarial clock, and what a
    terminal state guarantees.  Runs are sequences of the machine's public mutators. *)

From S2P Require Import Prelude Types Clock Errors.
Import ClockState(last_seen_max, effective_now, exceeds_rollback_threshold).

Module Deadlines.
Record Deadlines := mk { refresh_after : Z; grace_deadline : Z; not_after : Z }.

Definition default : Deadlines := mk 0 0 0.

Definition refresh_due (d : Deadlines) (now : Z) : bool := refresh_after d <=? now.

Definition hard_expired (d : Deadlines) (now : Z) : bool :=
  negb (not_after d =? 0) && (not_after d <=? now).

Definition grace_exhausted (d : Deadlines) (now : Z) : bool :=
  (grace_deadline d <=? now) || hard_expired d now.
End Deadlines.
Notation Deadlines := Deadlines.Deadlines.

Module Event.
Inductive Event :=
| Tick
| NetworkAvailable
| AppResumed (monotonic_gap_ms : Z)
| CredentialLoaded
| ActivationVerified
| TicketVerified
| TicketDenied (v : Verdict)
| KillOrderVerified (r : KillReason)
| NetworkFailed (e : TransientError)
| VerificationFailed (e : FatalError)
| UserDeactivate.
End Event.
Notation Event := Event.Event.

Module Effect.
Inductive Effect :=
| Persist (blob : list byte)
| SendValidation
| WipeAll
| StateChanged (s : LicenseState) (r : StateReason)
| ScheduleWake (at_ : Z).
#[global] Instance Effect_eq_dec : EqDecision Effect.
Proof. solve_decision. Defined.
End Effect.
Notation Effect := Effect.Effect.

Module CoreConfig.
Record CoreConfig := mk { rollback_threshold : Z; min_validation_interval_secs : Z }.
Definition default : CoreConfig := mk DEFAULT_ROLLBACK_THRESHOLD 60.
End CoreConfig.
Notation CoreConfig := CoreConfig.CoreConfig.

Module StateMachine.
Record StateMachine := mk {
  state : LicenseState;
  clock : ClockState;
  deadlines : Deadlines;
  config : CoreConfig;
  last_validation_attempt : Z;
  has_credential : bool;
}.

Definition new (config : CoreConfig) (seed_time : Z) : StateMachine :=
  mk LicenseState.Unlicensed (ClockState.new seed_time) Deadlines.default config i64_min false.

Definition set_state m s :=
  mk s (clock m) (deadlines m) (config m) (last_validation_attempt m) (has_credential m).
Definition set_clock m c :=
  mk (state m) c (deadlines m) (config m) (last_validation_attempt m) (has_credential m).
Definition set_deadlines m d :=
  mk (state m) (clock m) d (config m) (last_validation_attempt m) (has_credential m).
Definition set_has_credential m b :=
  mk (state m) (clock m) (deadlines m) (config m) (last_validation_attempt m) b.

Definition note_validation_attempt m now :=
  mk (state m) (clock m) (deadlines m) (config m) now (has_credential m).

Definition permits_key_derivation (m : StateMachine) : bool :=
  has_credential m && LicenseState.permits_key_derivation (state m).

Definition should_opportunistically_validate (m : StateMachine) (now : Z) : bool :=
  if Deadlines.refresh_due (deadlines m) now then true
  else (CoreConfig.min_validation_interval_secs (config m) <=?
          sat_sub_i64 now (last_validation_attempt m))
       && negb (bool_decide (state m = LicenseState.Active)).

Definition transition (m : StateMachine) (to : LicenseState) (reason : StateReason)
    : StateMachine * list Effect :=
  if bool_decide (state m = to) then (m, [])
  else (set_state m to, [Effect.StateChanged to reason]).

Definition accept_ticket (m : StateMachine) : StateMachine * list Effect :=
  let (m, e) := transition m LicenseState.Active StateReason.Validated in
  (m, e ++ [Effect.ScheduleWake (Deadlines.refresh_after (deadlines m))]).

Definition deny_ticket (m : StateMachine) (verdict : Verdict) : StateMachine * list Effect :=
  let reason := match verdict with
                | Verdict.Accepted => StateReason.Validated
                | Verdict.NeedsReactivation => StateReason.ReactivationRequired
                | Verdict.VersionOutOfScope => StateReason.VersionOutOfScope
                end in
  transition m LicenseState.Locked reason.

Definition revoke (m : StateMachine) (reason : KillReason) : StateMachine * list Effect :=
  (set_state (set_has_credential m false) LicenseState.Revoked,
   [Effect.WipeAll; Effect.StateChanged LicenseState.Revoked (StateReason.KillOrder reason)]).

Definition tamper (m : StateMachine) : StateMachine * list Effect :=
  (set_state (set_has_credential m false) LicenseState.Tampered,
   [Effect.WipeAll; Effect.StateChanged LicenseState.Tampered StateReason.IntegrityFailure]).

Definition wipe (m : StateMachine) (reason : StateReason) : StateMachine * list Effect :=
  (set_state (set_has_credential m false) LicenseState.Unlicensed,
   [Effect.WipeAll; Effect.StateChanged LicenseState.Unlicensed reason]).

(** [effects.push(SendValidation); self.last_validation_attempt = now]. *)
Definition send_validation (m : StateMachine) (now : Z) : StateMachine * list Effect :=
  (note_validation_attempt m now, [Effect.SendValidation]).

(** [self.has_credential = true; transition(Active, Activated)]. *)
Definition activate (m : StateMachine) : StateMachine * list Effect :=
  transition (set_has_credential m true) LicenseState.Active StateReason.Activated.

(** The same, with the wake-up the first two sections schedule. *)
Definition activate_and_wake (m : StateMachine) : StateMachine * list Effect :=
  let (m, e) := activate m in
  (m, e ++ [Effect.ScheduleWake (Deadlines.refresh_after (deadlines m))]).

(** The sections of the source's table, by state. *)
Definition handle_unlicensed (m : StateMachine) (event : Event) : StateMachine * list Effect :=
  match event with
  | Event.CredentialLoaded | Event.ActivationVerified => activate_and_wake m
  | Event.VerificationFailed _ =>
      transition m LicenseState.Tampered StateReason.IntegrityFailure
  | Event.KillOrderVerified r => revoke m r
  | Event.Tick | Event.NetworkAvailable | Event.AppResumed _ | Event.NetworkFailed _
  | Event.TicketVerified | Event.TicketDenied _ | Event.UserDeactivate => (m, [])
  end.

Definition handle_activating (m : StateMachine) (event : Event) : StateMachine * list Effect :=
  match event with
  | Event.ActivationVerified => activate_and_wake m
  | Event.NetworkFailed _ =>
      transition m LicenseState.Unlicensed StateReason.NetworkUnavailable
  | Event.VerificationFailed _ =>
      transition m LicenseState.Tampered StateReason.IntegrityFailure
  | Event.KillOrderVerified r => revoke m r
  | Event.Tick | Event.NetworkAvailable | Event.AppResumed _ | Event.CredentialLoaded
  | Event.TicketVerified | Event.TicketDenied _ => (m, [])
  | Event.UserDeactivate => wipe m StateReason.UserRequested
  end.

Definition handle_active (m : StateMachine) (event : Event) (now : Z)
    : StateMachine * list Effect :=
  match event with
  | Event.Tick | Event.AppResumed _ =>
      if Deadlines.hard_expired (deadlines m) now then
        transition m LicenseState.Locked StateReason.CredentialExpired
      else if Deadlines.refresh_due (deadlines m) now then
        let (m, e) := transition m LicenseState.NeedsRevalidation StateReason.RefreshDue in
        let (m, e') := send_validation m now in (m, e ++ e')
      else (m, [])
  | Event.NetworkAvailable =>
      if should_opportunistically_validate m now then send_validation m now else (m, [])
  | Event.TicketVerified => accept_ticket m
  | Event.TicketDenied verdict => deny_ticket m verdict
  | Event.NetworkFailed _ => (m, [])
  | Event.KillOrderVerified r => revoke m r
  | Event.VerificationFailed _ => tamper m
  | Event.UserDeactivate => wipe m StateReason.UserRequested
  | Event.CredentialLoaded | Event.ActivationVerified => (m, [])
  end.

Definition handle_needs_revalidation (m : StateMachine) (event : Event) (now : Z)
    : StateMachine * list Effect :=
  match event with
  | Event.TicketVerified => accept_ticket m
  | Event.TicketDenied verdict => deny_ticket m verdict
  | Event.NetworkFailed _ =>
      if Deadlines.grace_exhausted (deadlines m) now then
        transition m LicenseState.Locked StateReason.GraceExhausted
      else
        let (m, e) := transition m LicenseState.Grace StateReason.NetworkUnavailable in
        (m, e ++ [Effect.ScheduleWake (Deadlines.grace_deadline (deadlines m))])
  | Event.Tick | Event.AppResumed _ =>
      if Deadlines.grace_exhausted (deadlines m) now then
        transition m LicenseState.Locked StateReason.GraceExhausted
      else (m, [])
  | Event.NetworkAvailable => send_validation m now
  | Event.KillOrderVerified r => revoke m r
  | Event.VerificationFailed _ => tamper m
  | Event.UserDeactivate => wipe m StateReason.UserRequested
  | Event.CredentialLoaded | Event.ActivationVerified => (m, [])
  end.

Definition handle_grace (m : StateMachine) (event : Event) (now : Z)
    : StateMachine * list Effect :=
  match event with
  | Event.TicketVerified => accept_ticket m
  | Event.TicketDenied verdict => deny_ticket m verdict
  | Event.Tick | Event.AppResumed _ =>
      if Deadlines.grace_exhausted (deadlines m) now then
        transition m LicenseState.Locked StateReason.GraceExhausted
      else (m, [])
  | Event.NetworkAvailable => send_validation m now
  | Event.NetworkFailed _ => (m, [])
  | Event.KillOrderVerified r => revoke m r
  | Event.VerificationFailed _ => tamper m
  | Event.UserDeactivate => wipe m StateReason.UserRequested
  | Event.CredentialLoaded | Event.ActivationVerified => (m, [])
  end.

Definition handle_locked (m : StateMachine) (event : Event) (now : Z)
    : StateMachine * list Effect :=
  match event with
  | Event.TicketVerified => accept_ticket m
  | Event.TicketDenied verdict => deny_ticket m verdict
  | Event.NetworkAvailable => send_validation m now
  | Event.KillOrderVerified r => revoke m r
  | Event.VerificationFailed _ => tamper m
  | Event.UserDeactivate => wipe m StateReason.UserRequested
  | Event.Tick | Event.AppResumed _ | Event.NetworkFailed _ | Event.CredentialLoaded
  | Event.ActivationVerified => (m, [])
  end.

(** The Revoked section; the Tampered one has the same arms. *)
Definition handle_revoked (m : StateMachine) (event : Event) : StateMachine * list Effect :=
  match event with
  | Event.ActivationVerified => activate m
  | Event.Tick | Event.NetworkAvailable | Event.AppResumed _ | Event.CredentialLoaded
  | Event.TicketVerified | Event.TicketDenied _ | Event.NetworkFailed _
  | Event.VerificationFailed _ | Event.KillOrderVerified _ | Event.UserDeactivate => (m, [])
  end.

Definition handle_tampered (m : StateMachine) (event : Event) : StateMachine * list Effect :=
  match event with
  | Event.ActivationVerified => activate m
  | Event.Tick | Event.NetworkAvailable | Event.AppResumed _ | Event.CredentialLoaded
  | Event.TicketVerified | Event.TicketDenied _ | Event.NetworkFailed _
  | Event.VerificationFailed _ | Event.KillOrderVerified _ | Event.UserDeactivate => (m, [])
  end.

(** The whole table. *)
Definition dispatch (m : StateMachine) (event : Event) (now : Z) : StateMachine * list Effect :=
  match state m with
  | LicenseState.Unlicensed => handle_unlicensed m event
  | LicenseState.Activating => handle_activating m event
  | LicenseState.Active => handle_active m event now
  | LicenseState.NeedsRevalidation => handle_needs_revalidation m event now
  | LicenseState.Grace => handle_grace m event now
  | LicenseState.Locked => handle_locked m event now
  | LicenseState.Revoked => handle_revoked m event
  | LicenseState.Tampered => handle_tampered m event
  end.

(** The clock gate runs first for time-driven events and may return early. *)
Definition handle (m : StateMachine) (event : Event) (wall_clock : Z)
    : StateMachine * list Effect :=
  match event with
  | Event.Tick | Event.AppResumed _ =>
      let (c, verdict) := ClockState.check (clock m) wall_clock in
      let m := set_clock m c in
      match verdict with
      | ClockVerdict.Rollback _ | ClockVerdict.ImplausibleJump _ =>
          if exceeds_rollback_threshold c (CoreConfig.rollback_threshold (config m)) then
            transition m LicenseState.Locked StateReason.ClockRollback
          else if bool_decide (state m = LicenseState.Active) then
            let (m, e) :=
              transition m LicenseState.NeedsRevalidation StateReason.ClockRollback in
            (m, e ++ [Effect.SendValidation])
          else dispatch m event (effective_now c wall_clock)
      | ClockVerdict.Ok => dispatch m event (effective_now c wall_clock)
      end
  | _ => dispatch m event (effective_now (clock m) wall_clock)
  end.
End StateMachine.
Notation StateMachine := StateMachine.StateMachine.
Import StateMachine.

(** ** Runs of the public mutators *)

Inductive op :=
| OpEvent (e : Event) (wall_clock : Z)
| OpSetDeadlines (d : Deadlines)
| OpClock (c : ClockState)
| OpNoteAttempt (now : Z).

Definition run_op (m : StateMachine) (o : op) : StateMachine :=
  match o with
  | OpEvent e w => fst (handle m e w)
  | OpSetDeadlines d => set_deadlines m d
  | OpClock c => set_clock m c
  | OpNoteAttempt now => note_validation_attempt m now
  end.

Definition run (m : StateMachine) (os : list op) : StateMachine := fold_left run_op os m.

(** An event that can install a credential. *)
Definition installs (e : Event) : bool :=
  match e with Event.CredentialLoaded | Event.ActivationVerified => true | _ => false end.

Definition time_driven (e : Event) : bool :=
  match e with Event.Tick | Event.AppResumed _ => true | _ => false end.

(** ** Proof automation: unfold the table and split every guard *)

Ltac unfold_table :=
  unfold handle, dispatch, handle_unlicensed, handle_activating, handle_active,
    handle_needs_revalidation, handle_grace, handle_locked, handle_revoked, handle_tampered,
    activate_and_wake, activate, send_validation, accept_ticket, deny_ticket, revoke, tamper,
    wipe, transition, note_validation_attempt, set_state, set_clock, set_has_credential,
    set_deadlines in *.

(** Work on a machine given by its fields, one goal per reachable row of the table. *)
Ltac table_cases m e :=
  destruct m as [st ck dl cf la hc]; unfold_table; simpl in *;
  destruct e, st; simpl in *; try done;
  repeat (case_match; simpl in *; simplify_eq); try done.

(** The clock after an event. *)
Lemma handle_clock m e w :
  clock (fst (handle m e w)) = if time_driven e then fst (ClockState.check (clock m) w) else clock m.
Proof. table_cases m e. Qed.

(** The credential flag is set by an installing event, cleared by a wipe, and otherwise kept. *)
Lemma handle_credential m e w :
  has_credential (fst (handle m e w)) = true ->
  has_credential m = true \/ installs e = true.
Proof. table_cases m e; auto. Qed.

Lemma handle_no_install m e w :
  installs e = false -> has_credential m = false -> has_credential (fst (handle m e w)) = false.
Proof.
  intros He Hm. destruct (has_credential (fst (handle m e w))) eqn:E; [|done].
  apply handle_credential in E as [?|?]; congruence.
Qed.

(** Ledger of the credential, one event at a time: the effects contain [WipeAll] exactly
    when the event ends in a wipe; after a wipe no credential is held and the state is one
    from which no key is derived; without a wipe, the flag can only change from unset to set,
    and only by [CredentialLoaded] or [ActivationVerified]; and every [StateChanged] effect
    reports the state the machine is in. *)
Theorem credential_ledger (m : StateMachine) (e : Event) (w : Z) :
  let (m', eff) := handle m e w in
  (Effect.WipeAll ∈ eff ->
     has_credential m' = false /\ LicenseState.permits_key_derivation (state m') = false) /\
  (Effect.WipeAll ∉ eff ->
     has_credential m' = has_credential m \/ (has_credential m' = true /\ installs e = true)) /\
  (forall s r, Effect.StateChanged s r ∈ eff -> s = state m') /\
  (state m' <> state m -> exists r, Effect.StateChanged (state m') r ∈ eff).
Proof. table_cases m e; split_and!; set_solver. Qed.

(** C1 No ticket, network event, deadline update or clock manipulation yields a key on a
    client that holds no credential: along every run of the public mutators without an
    installing event, key derivation stays refused - even on the paths where the displayed
    state returns to [Active]. *)
Theorem no_keys_without_credential (m : StateMachine) (os : list op)
    (Hm : has_credential m = false)
    (Hos : Forall (fun o => match o with OpEvent e _ => installs e = false | _ => True end) os) :
  permits_key_derivation (run m os) = false.
Proof.
  assert (has_credential (run m os) = false) as H.
  { unfold run. revert m Hm. induction Hos as [|o os Ho _ IH]; simpl; intros m Hm; [done|].
    apply IH. destruct o; simpl; auto using handle_no_install. }
  unfold permits_key_derivation. by rewrite H.
Qed.

Lemma no_keys_without_credential_witness :
  permits_key_derivation (run (new CoreConfig.default 1000)
    [OpEvent (Event.KillOrderVerified KillReason.Fraud) 1000;
     OpEvent Event.Tick 0; OpEvent Event.Tick 0; OpEvent Event.Tick 0; OpEvent Event.Tick 0;
     OpEvent Event.TicketVerified 2000]) = false.
Proof. apply no_keys_without_credential; [reflexivity|repeat constructor]. Defined.

(** Fail closed: after a verified kill order or a failed verification no key is derived,
    whatever the state was, and a credential that was held in a usable state is wiped. *)
Theorem fatal_events_fail_closed (m : StateMachine) (e : Event) (w : Z)
    (He : match e with
          | Event.KillOrderVerified _ | Event.VerificationFailed _ => True | _ => False end) :
  let (m', eff) := handle m e w in
  permits_key_derivation m' = false /\
  (permits_key_derivation m = true -> Effect.WipeAll ∈ eff /\ has_credential m' = false /\
     LicenseState.requires_wipe (state m') = true).
Proof.
  destruct m as [st ck dl cf la hc]. unfold permits_key_derivation.
  destruct e; try done; unfold_table; simpl; destruct st; simpl;
    rewrite ?andb_false_r; set_solver.
Qed.

Lemma fatal_events_fail_closed_witness :
  let m := fst (handle (new CoreConfig.default 1000) Event.ActivationVerified 1000) in
  permits_key_derivation m = true /\
  let (m', eff) := handle m (Event.VerificationFailed FatalError.SignatureInvalid) 1000 in
  permits_key_derivation m' = false /\
  (permits_key_derivation m = true -> Effect.WipeAll ∈ eff /\ has_credential m' = false /\
     LicenseState.requires_wipe (state m') = true).
Proof.
  split; [reflexivity|].
  apply (fatal_events_fail_closed
           (fst (handle (new CoreConfig.default 1000) Event.ActivationVerified 1000))
           (Event.VerificationFailed FatalError.SignatureInvalid) 1000).
  exact I.
Defined.

(** Fail open: a transient failure never wipes and never touches the credential; a client
    that could derive keys still can afterwards, except when the grace window (or the hard
    expiry) had already passed, and then it is locked, not revoked. *)
Theorem transient_failures_fail_open (m : StateMachine) (t : TransientError) (w : Z) :
  let (m', eff) := handle m (Event.NetworkFailed t) w in
  Effect.WipeAll ∉ eff /\ has_credential m' = has_credential m /\
  (permits_key_derivation m = true -> permits_key_derivation m' = true \/
     (state m' = LicenseState.Locked /\
      Deadlines.grace_exhausted (deadlines m) (effective_now (clock m) w) = true)).
Proof.
  destruct m as [st ck dl cf la hc]. unfold_table. simpl.
  destruct st; simpl; unfold permits_key_derivation; simpl;
    repeat (case_match; simpl; simplify_eq); split_and!; set_solver.
Qed.

(** ** Deadlines under an adversarial clock *)

Lemma hard_expired_mono d t t' :
  t <= t' -> Deadlines.hard_expired d t = true -> Deadlines.hard_expired d t' = true.
Proof.
  unfold Deadlines.hard_expired. intros Ht H. bprop. apply andb_true_iff.
  split; [by apply negb_true_iff, Z.eqb_neq|by apply Z.leb_le; lia].
Qed.

Lemma grace_exhausted_mono d t t' :
  t <= t' -> Deadlines.grace_exhausted d t = true -> Deadlines.grace_exhausted d t' = true.
Proof.
  unfold Deadlines.grace_exhausted. rewrite !orb_true_iff, !Z.leb_le.
  intros Ht [?|?]; [left; lia|right; eauto using hard_expired_mono].
Qed.

Lemma effective_now_ge c w : last_seen_max c <= effective_now c w.
Proof. rewrite effective_now_max. lia. Qed.

(** What a time-driven event does to a machine past its grace window, by state. *)
Lemma expired_tick m e w :
  clock_wf (clock m) ->
  time_driven e = true ->
  Deadlines.refresh_after (deadlines m) <= Deadlines.grace_deadline (deadlines m) ->
  Deadlines.grace_exhausted (deadlines m) (last_seen_max (clock m)) = true ->
  let m' := fst (handle m e w) in
  deadlines m' = deadlines m /\ (last_seen_max (clock m) <= last_seen_max (clock m')) /\
  (state m' = LicenseState.NeedsRevalidation -> state m = LicenseState.Active) /\
  (LicenseState.permits_key_derivation (state m') = true ->
     state m = LicenseState.Active /\ state m' = LicenseState.NeedsRevalidation).
Proof.
  intros Hwf He Hr Hx.
  pose proof (check_le (clock m) w Hwf) as [Hle _].
  pose proof (effective_now_ge (fst (ClockState.check (clock m) w)) w) as Hge.
  assert (Deadlines.grace_exhausted (deadlines m)
            (effective_now (fst (ClockState.check (clock m) w)) w) = true) as Hx'
    by (eapply grace_exhausted_mono; [|exact Hx]; lia).
  assert (Deadlines.hard_expired (deadlines m)
            (effective_now (fst (ClockState.check (clock m) w)) w) = false ->
          Deadlines.refresh_due (deadlines m)
            (effective_now (fst (ClockState.check (clock m) w)) w) = true) as Hdue.
  { intros Hh. unfold Deadlines.grace_exhausted in Hx'. rewrite Hh, orb_false_r in Hx'.
    unfold Deadlines.refresh_due. bprop. apply Z.leb_le. lia. }
  destruct (ClockState.check (clock m) w) as [c v] eqn:Ec. simpl in *.
  destruct m as [st ck dl cf la hc]. simpl in *. unfold_table.
  destruct e; try discriminate He; simpl; rewrite Ec; simpl;
    destruct st; simpl; repeat (case_match; simpl in *; simplify_eq); split_and!;
    auto; try congruence; naive_solver.
Qed.

(** A closed grace window cannot be kept open by the clock.  For any machine whose grace
    window (or hard expiry) has passed at the high-water mark, with deadlines ordered as the
    server issues them, at most two time-driven events later key derivation is refused - for
    any wall-clock readings the host reports, including arbitrary rollbacks. *)
Theorem expired_machine_locks (m : StateMachine) (e1 e2 : Event) (w1 w2 : Z)
    (Hwf : clock_wf (clock m)) (H1 : time_driven e1 = true) (H2 : time_driven e2 = true)
    (Hw1 : in_i64 w1)
    (Hord : Deadlines.refresh_after (deadlines m) <= Deadlines.grace_deadline (deadlines m))
    (Hexp : Deadlines.grace_exhausted (deadlines m) (last_seen_max (clock m)) = true) :
  permits_key_derivation (fst (handle (fst (handle m e1 w1)) e2 w2)) = false.
Proof.
  destruct (expired_tick m e1 w1 Hwf H1 Hord Hexp) as (Hd & Hc & _ & Hs1).
  set (m1 := fst (handle m e1 w1)) in *.
  assert (clock_wf (clock m1)) as Hwf1.
  { unfold m1. rewrite handle_clock, H1. by apply check_wf. }
  destruct (expired_tick m1 e2 w2) as (_ & _ & _ & Hs2); [done|done|by rewrite Hd| |].
  { rewrite Hd. eapply grace_exhausted_mono; [exact Hc|done]. }
  set (m2 := fst (handle m1 e2 w2)) in *. unfold permits_key_derivation.
  destruct (LicenseState.permits_key_derivation (state m2)) eqn:E; [|apply andb_false_r].
  destruct (Hs2 eq_refl) as [Ha _]. rewrite Ha in Hs1. destruct (Hs1 eq_refl); discriminate.
Qed.

Lemma expired_machine_locks_witness :
  let m := set_deadlines (fst (handle (new CoreConfig.default 5000) Event.ActivationVerified 5000))
             (Deadlines.mk 1000 2000 0) in
  permits_key_derivation m = true /\
  permits_key_derivation (fst (handle (fst (handle m Event.Tick 100)) (Event.AppResumed 7) 0))
    = false.
Proof.
  split; [reflexivity|].
  apply expired_machine_locks;
    [vm_compute; intuition discriminate|reflexivity|reflexivity|int_lia|vm_compute; discriminate
    |reflexivity].
Defined.

(** Leaving the terminal states without an activation: a time-driven event whose clock
    reading is a rollback locks the machine once the rollback counter passes the threshold,
    also from [Revoked] and [Tampered]; a verified ticket then shows [Active] again.  (Keys
    stay refused, see [no_keys_without_credential]; the section comment of the source says a
    revoked client must not be able to talk its way back with a ticket.) *)
Theorem terminal_left_by_rollbacks (m : StateMachine) (w w' : Z)
    (Hs : LicenseState.requires_wipe (state m) = true)
    (Hroll : snd (ClockState.check (clock m) w) <> ClockVerdict.Ok)
    (Hthr : CoreConfig.rollback_threshold (config m) <=
              ClockState.rollback_events (clock m) < u32_max) :
  state (fst (handle m Event.Tick w)) = LicenseState.Locked /\
  state (fst (handle (fst (handle m Event.Tick w)) Event.TicketVerified w')) =
    LicenseState.Active.
Proof.
  assert (exceeds_rollback_threshold (fst (ClockState.check (clock m) w))
            (CoreConfig.rollback_threshold (config m)) = true) as Hx.
  { unfold ClockState.check in *. destruct (_ <? _); [|done]. simpl.
    unfold exceeds_rollback_threshold. simpl. rewrite Z.gtb_ltb. apply Z.ltb_lt. int_lia. }
  destruct m as [st ck dl cf la hc]. simpl in *. unfold_table. simpl.
  destruct (ClockState.check ck w) as [c v]. simpl in *. rewrite Hx.
  destruct v; [done| |]; destruct st; done.
Qed.

Lemma terminal_left_by_rollbacks_witness :
  let m := run (new CoreConfig.default 100000)
             [OpEvent (Event.KillOrderVerified KillReason.Refund) 100000;
              OpEvent Event.Tick 1; OpEvent Event.Tick 1; OpEvent Event.Tick 1] in
  state m = LicenseState.Revoked /\
  state (fst (handle m Event.Tick 1)) = LicenseState.Locked /\
  state (fst (handle (fst (handle m Event.Tick 1)) Event.TicketVerified 1)) = LicenseState.Active.
Proof.
  split; [reflexivity|].
  apply terminal_left_by_rollbacks; [reflexivity|vm_compute; discriminate|vm_compute; split; done || discriminate].
Defined.

(** The machine with another throttle interval. *)
Definition set_interval (m : StateMachine) (n : Z) : StateMachine :=
  mk (state m) (clock m) (deadlines m)
     (CoreConfig.mk (CoreConfig.rollback_threshold (config m)) n)
     (last_validation_attempt m) (has_credential m).

Lemma opportunistic_active m now :
  state m = LicenseState.Active ->
  should_opportunistically_validate m now = Deadlines.refresh_due (deadlines m) now.
Proof.
  intros H. unfold should_opportunistically_validate. rewrite H.
  rewrite bool_decide_eq_true_2 by done. rewrite andb_false_r. by destruct (Deadlines.refresh_due _ _).
Qed.

(** The validation throttle has no effect on the table: the effects and the next state of
    every event are independent of [min_validation_interval_secs] (the only caller of
    [should_opportunistically_validate] is in the [Active] section, where its second clause
    is false; the other sections send a validation on every [NetworkAvailable]). *)
Theorem throttle_never_consulted (m : StateMachine) (n : Z) (e : Event) (w : Z) :
  snd (handle (set_interval m n) e w) = snd (handle m e w) /\
  fst (handle (set_interval m n) e w) = set_interval (fst (handle m e w)) n /\
  (forall now, state m = LicenseState.Active ->
     should_opportunistically_validate m now = Deadlines.refresh_due (deadlines m) now).
Proof.
  split_and!; [| |intros; by apply opportunistic_active];
    destruct m as [st ck dl [th iv] la hc]; unfold set_interval; unfold_table; simpl;
    destruct e; simpl; repeat (case_match; simpl in *; simplify_eq); try done;
    rewrite opportunistic_active in * by done; simpl in *; congruence.
Qed.
