(* ===== verification/Ticket.v ===== *)
(** * The validation-ticket checklist ([crates/copylocker-core/src/ticket.rs])

    [check_ticket] runs the semantic checks on a signature-verified ticket and, only when all
    pass, lets the server time into the clock guard.  [None] is the abort of the overflow
    check in [i64::abs]. *)

From S2P Require Import Prelude Types Clock Errors.

Module ValidationTicket.
Record ValidationTicket := mk {
  proto_ver : Z;
  suite_id : list byte;
  machine_id : MachineId;
  nonce_c_echo : list byte;
  server_nonce : list byte;
  server_time : Z;
  next_refresh_after : Z;
  not_after : Z;
  revocation_epoch : Z;
  verdict : Verdict;
  entitlements : option Entitlements;
  epoch_id : EpochId;
  suspicion_score : option Z;
  security_floor : Z;
  release_status : option Z;
  wrapped_keks : option (gmap string (list byte));
  refresh_now : option bool;
}.
End ValidationTicket.
Notation ValidationTicket := ValidationTicket.ValidationTicket.
Import ValidationTicket.

Module TicketChecks.
Record TicketChecks := mk {
  supported_suites : list (list byte);
  verified_epoch : EpochId;
  sent_nonce : list byte;
  machine_id : MachineId;
  known_revocation_epoch : Z;
  known_security_floor : Z;
}.
End TicketChecks.
Notation TicketChecks := TicketChecks.TicketChecks.
Import TicketChecks(supported_suites, verified_epoch, sent_nonce, known_revocation_epoch,
  known_security_floor).

Definition MAX_SKEW_SECS : Z := 24 * 3600.

(** [TicketObservations.clock_divergence]. *)
Record TicketObservations := mkObs { clock_divergence : option Z }.

(** [i64::abs] under overflow checks. *)
Definition abs_i64 (x : Z) : option Z := checked i64_min i64_max (Z.abs x).

Definition check_ticket (vt : ValidationTicket) (ctx : TicketChecks) (clock : ClockState)
    (local_now : Z) : option (ClockState * result TicketObservations FatalError) :=
  if negb (proto_ver vt =? PROTO_VER) then Some (clock, Err FatalError.CredentialCorrupt)
  else if negb (bool_decide (suite_id vt ∈ supported_suites ctx)) then
    Some (clock, Err FatalError.CredentialCorrupt)
  else if negb (bool_decide (epoch_id vt = verified_epoch ctx)) then
    Some (clock, Err FatalError.ChainInvalid)
  else if negb (bool_decide (nonce_c_echo vt = sent_nonce ctx)) then
    Some (clock, Err FatalError.NonceMismatch)
  else if negb (bool_decide (machine_id vt = TicketChecks.machine_id ctx)) then
    Some (clock, Err FatalError.MachineMismatch)
  else
    match abs_i64 (sat_sub_i64 (server_time vt) local_now) with
    | None => None
    | Some divergence =>
        let observations :=
          mkObs (if divergence >? MAX_SKEW_SECS then Some divergence else None) in
        if revocation_epoch vt <? known_revocation_epoch ctx then
          Some (clock, Err FatalError.RevocationRollback)
        else if security_floor vt <? known_security_floor ctx then
          Some (clock, Err FatalError.SecurityFloorRegression)
        else if next_refresh_after vt <=? server_time vt then
          Some (clock, Err FatalError.CredentialCorrupt)
        else
          Some (ClockState.observe_server_time clock (server_time vt), Ok observations)
    end.

(** ** The checklist as data

    The specification the source's module comment asks for: the mandatory checks in order,
    each with the error it raises; a ticket is judged by the first failing one. *)
Definition checklist (vt : ValidationTicket) (ctx : TicketChecks) : list (bool * FatalError) :=
  [ (bool_decide (proto_ver vt = PROTO_VER), FatalError.CredentialCorrupt);
    (bool_decide (suite_id vt ∈ supported_suites ctx), FatalError.CredentialCorrupt);
    (bool_decide (epoch_id vt = verified_epoch ctx), FatalError.ChainInvalid);
    (bool_decide (nonce_c_echo vt = sent_nonce ctx), FatalError.NonceMismatch);
    (bool_decide (machine_id vt = TicketChecks.machine_id ctx), FatalError.MachineMismatch);
    (bool_decide (known_revocation_epoch ctx <= revocation_epoch vt),
       FatalError.RevocationRollback);
    (bool_decide (known_security_floor ctx <= security_floor vt),
       FatalError.SecurityFloorRegression);
    (bool_decide (server_time vt < next_refresh_after vt), FatalError.CredentialCorrupt) ].

Definition first_failing (cs : list (bool * FatalError)) : option FatalError :=
  option_map snd (find_first (fun c => negb c.1) cs).

Lemma first_failing_cons b e cs :
  first_failing ((b, e) :: cs) = if b then first_failing cs else Some e.
Proof. unfold first_failing, find_first. simpl. by destruct b. Qed.

Lemma first_failing_None cs :
  first_failing cs = None <-> forall c, c ∈ cs -> c.1 = true.
Proof.
  unfold first_failing.
  destruct (find_first _ cs) as [c|] eqn:E; simpl.
  - apply find_first_Some in E as [Hin Hc]. split; [done|].
    intros H. rewrite (H _ Hin) in Hc. done.
  - split; [|done]. intros _ c Hc.
    apply find_first_None with (x := c) in E; [|done]. by apply negb_false_iff in E.
Qed.

(** The abort cannot happen for times a clock can show: both in the non-negative range. *)
Lemma divergence_total t n :
  0 <= t <= i64_max -> 0 <= n <= i64_max -> exists d, abs_i64 (sat_sub_i64 t n) = Some d.
Proof.
  intros Ht Hn. exists (Z.abs (t - n)). unfold abs_i64.
  rewrite sat_sub_i64_exact by int_lia. apply checked_Some. int_lia.
Qed.

(** The implementation is the checklist: for non-negative server and local times the call
    returns (no overflow abort); it fails with exactly the first failing check of the list
    and then leaves the clock alone; it accepts exactly when every check passes, and only
    then records the server time. *)
Theorem check_ticket_checklist (vt : ValidationTicket) (ctx : TicketChecks)
    (clock : ClockState) (local_now : Z)
    (Ht : 0 <= server_time vt <= i64_max) (Hn : 0 <= local_now <= i64_max) :
  match first_failing (checklist vt ctx) with
  | Some e => check_ticket vt ctx clock local_now = Some (clock, Err e)
  | None => exists obs, check_ticket vt ctx clock local_now =
      Some (ClockState.observe_server_time clock (server_time vt), Ok obs) /\
      (clock_divergence obs = None <-> Z.abs (server_time vt - local_now) <= MAX_SKEW_SECS)
  end.
Proof.
  unfold checklist, check_ticket. rewrite !first_failing_cons.
  destruct (divergence_total (server_time vt) local_now Ht Hn) as [d Hd]. rewrite Hd.
  rewrite sat_sub_i64_exact in Hd by int_lia. unfold abs_i64 in Hd. apply checked_Some in Hd as [-> _].
  repeat (case_bool_decide; simpl); split_ifs; try done; try lia.
  all: eexists; split; [reflexivity|]; simpl; rewrite Z.gtb_ltb in *; bprop; naive_solver lia.
Qed.

(** What an accepted ticket guarantees: it answers the request this client sent, on this
    machine, under the verified epoch; neither monotonic counter moves backwards; the next
    deadline is in the server's future; and the clock keeps its invariant and never falls. *)
Theorem check_ticket_sound (vt : ValidationTicket) (ctx : TicketChecks)
    (clock clock' : ClockState) (local_now : Z) (obs : TicketObservations)
    (Hwf : clock_wf clock) (Ht : in_i64 (server_time vt))
    (Hok : check_ticket vt ctx clock local_now = Some (clock', Ok obs)) :
  nonce_c_echo vt = sent_nonce ctx /\ machine_id vt = TicketChecks.machine_id ctx /\
  epoch_id vt = verified_epoch ctx /\ suite_id vt ∈ supported_suites ctx /\
  known_revocation_epoch ctx <= revocation_epoch vt /\
  known_security_floor ctx <= security_floor vt /\
  server_time vt < next_refresh_after vt /\
  clock_wf clock' /\ clock_le clock clock' /\
  ClockState.last_server_time clock' = server_time vt /\
  server_time vt <= ClockState.last_seen_max clock'.
Proof.
  unfold check_ticket in Hok.
  repeat match type of Hok with
  | (if ?b then _ else _) = _ => destruct b eqn:?; [discriminate Hok|]
  | match ?o with _ => _ end = _ => destruct o eqn:?; [|discriminate Hok]
  end.
  injection Hok as <- _. bprop. destruct (observe_server_time_wf clock (server_time vt) Hwf Ht).
  split_and!; auto. unfold ClockState.observe_server_time. simpl. autorewrite with clock. lia.
Qed.

Definition ticket_demo : ValidationTicket :=
  ValidationTicket.mk 1 [1;0;0;1] [7] [9] [3] 1000 2000 0 5 Verdict.Accepted None [4] None 2
    None None None.
Definition checks_demo : TicketChecks := TicketChecks.mk [[1;0;0;1]] [4] [9] [7] 5 1.

Lemma check_ticket_checklist_witness :
  first_failing (checklist ticket_demo checks_demo) = None /\
  exists obs, check_ticket ticket_demo checks_demo (ClockState.new 900) 950 =
      Some (ClockState.observe_server_time (ClockState.new 900) 1000, Ok obs) /\
      (clock_divergence obs = None <-> Z.abs (1000 - 950) <= MAX_SKEW_SECS).
Proof.
  split; [reflexivity|].
  apply (check_ticket_checklist ticket_demo checks_demo (ClockState.new 900) 950);
    vm_compute; split; discriminate.
Defined.

Lemma check_ticket_sound_witness :
  known_revocation_epoch checks_demo <= revocation_epoch ticket_demo /\
  1000 <= ClockState.last_seen_max (ClockState.observe_server_time (ClockState.new 900) 1000).
Proof.
  destruct (check_ticket_sound ticket_demo checks_demo (ClockState.new 900)
    (ClockState.observe_server_time (ClockState.new 900) 1000) 950 (mkObs None))
    as (_ & _ & _ & _ & H1 & _ & _ & _ & _ & _ & H2);
    [vm_compute; intuition discriminate|vm_compute; split; discriminate|reflexivity|].
  split; [exact H1|exact H2].
Defined.
