(* ===== verification/LicenseKey.v ===== *)
(** * The user-visible license key ([crates/copylocker-proto/src/license_key.rs])

    The 100-bit payload (product tag, 80 random bits, CRC-12), its Crockford Base32
    rendering and the forgiving parser.  Strings are lists of bytes: the parser looks at
    ASCII characters only and skips every other character, so skipping the bytes of a
    non-ASCII character is the same.

    Proved: parsing what was rendered gives the key back, in every presentation the parser
    forgives; a single mistyped character and a swap of two adjacent characters are always
    rejected (or denote the same character), by linearity of the CRC. *)

From S2P Require Import Prelude Types Errors.

(** ** Packing digits of [k] bits, most significant first *)
Section Pack.
Context (k : Z).

Definition pack_from (acc : Z) (ds : list Z) : Z :=
  fold_left (fun acc d => Z.lor (Z.shiftl acc k) d) ds acc.
Definition pack (ds : list Z) : Z := pack_from 0 ds.

(** The [n] low digits of [v]. *)
Fixpoint unpack (n : nat) (v : Z) : list Z :=
  match n with
  | O => []
  | S n => Z.land (Z.shiftr v (k * Z.of_nat n)) (Z.ones k) :: unpack n v
  end.

Hypothesis Hk : 0 < k.

Definition digit (d : Z) : Prop := 0 <= d < 2 ^ k.

Lemma unpack_length n v : length (unpack n v) = n.
Proof. induction n; simpl; auto. Qed.

Lemma unpack_digits n v : Forall digit (unpack n v).
Proof.
  induction n as [|n IH]; simpl; constructor; [|done].
  unfold digit. rewrite Z.land_ones by lia. apply Z.mod_pos_bound. apply Z.pow_pos_nonneg; lia.
Qed.

Lemma land_shiftl_digit acc d : digit d -> Z.land (Z.shiftl acc k) d = 0.
Proof.
  intros [H0 H1]. apply Z.bits_inj'. intros i Hi. rewrite Z.land_spec, Z.bits_0.
  destruct (Z.lt_ge_cases i k).
  - by rewrite Z.shiftl_spec_low.
  - destruct (decide (d = 0)) as [->|]; [by rewrite Z.bits_0, andb_false_r|].
    rewrite (Z.bits_above_log2 d); [apply andb_false_r|done|].
    apply Z.log2_lt_pow2; [lia|]. eapply Z.lt_le_trans; [exact H1|].
    apply Z.pow_le_mono_r; lia.
Qed.

Lemma lor_shiftl_add acc d : digit d -> Z.lor (Z.shiftl acc k) d = acc * 2 ^ k + d.
Proof.
  intros Hd. rewrite <- Z.lxor_lor by (by apply land_shiftl_digit).
  rewrite <- Z.add_nocarry_lxor by (by apply land_shiftl_digit).
  rewrite Z.shiftl_mul_pow2 by lia. done.
Qed.

Lemma pack_from_add acc ds :
  Forall digit ds -> pack_from acc ds = acc * 2 ^ (k * Z.of_nat (length ds)) + pack ds.
Proof.
  unfold pack, pack_from. intros Hds. revert acc.
  assert (forall acc, fold_left (fun acc d => Z.lor (Z.shiftl acc k) d) ds acc =
    acc * 2 ^ (k * Z.of_nat (length ds)) +
    fold_left (fun acc d => Z.lor (Z.shiftl acc k) d) ds 0) as H; [|exact H].
  induction Hds as [|d ds Hd Hds IH]; intros acc; simpl.
  - rewrite Z.mul_0_r, Z.pow_0_r. lia.
  - rewrite (IH (Z.lor (Z.shiftl acc k) d)), (IH (Z.lor (Z.shiftl 0 k) d)), lor_shiftl_add by done.
    rewrite Z.shiftl_0_l, Z.lor_0_l.
    replace (k * Z.of_nat (S (length ds))) with (k + k * Z.of_nat (length ds)) by lia.
    rewrite Z.pow_add_r by lia. lia.
Qed.

Lemma pack_cons d ds :
  digit d -> Forall digit ds -> pack (d :: ds) = d * 2 ^ (k * Z.of_nat (length ds)) + pack ds.
Proof.
  intros Hd Hds. unfold pack at 1. unfold pack_from. simpl.
  rewrite Z.shiftl_0_l, Z.lor_0_l. fold (pack_from d ds). by apply pack_from_add.
Qed.

Lemma pack_bound ds : Forall digit ds -> 0 <= pack ds < 2 ^ (k * Z.of_nat (length ds)).
Proof.
  induction 1 as [|d ds Hd Hds IH].
  - unfold pack. simpl. rewrite Z.mul_0_r. lia.
  - rewrite pack_cons by done. simpl length.
    replace (k * Z.of_nat (S (length ds))) with (k + k * Z.of_nat (length ds)) by lia.
    rewrite Z.pow_add_r by lia. unfold digit in Hd. nia.
Qed.

Lemma unpack_pack ds : Forall digit ds -> unpack (length ds) (pack ds) = ds.
Proof.
  assert (forall ds, Forall digit ds -> forall hi,
    unpack (length ds) (hi * 2 ^ (k * Z.of_nat (length ds)) + pack ds) = ds) as H.
  { clear ds. induction 1 as [|d ds Hd Hds IH]; intros hi; [done|]. simpl length. simpl unpack.
    rewrite pack_cons by done.
    replace (k * Z.of_nat (S (length ds))) with (k + k * Z.of_nat (length ds)) by lia.
    set (p := 2 ^ (k * Z.of_nat (length ds))).
    assert (0 < p) by (apply Z.pow_pos_nonneg; lia).
    pose proof (pack_bound ds Hds) as Hb. fold p in Hb.
    rewrite Z.pow_add_r by lia. fold p.
    replace (hi * (2 ^ k * p) + (d * p + pack ds)) with ((hi * 2 ^ k + d) * p + pack ds) by lia.
    f_equal; [|apply IH].
    rewrite Z.shiftr_div_pow2 by lia. fold p. rewrite Z.div_add_l, (Z.div_small _ p) by lia.
    rewrite Z.land_ones by lia. rewrite Z.add_0_r, Z.add_comm, Z.mod_add by lia.
    by apply Z.mod_small. }
  intros Hds. specialize (H ds Hds 0). by rewrite Z.mul_0_l, Z.add_0_l in H.
Qed.

Lemma pack_unpack n v : 0 <= v < 2 ^ (k * Z.of_nat n) -> pack (unpack n v) = v.
Proof.
  assert (forall n v, 0 <= v -> pack (unpack n v) = v mod 2 ^ (k * Z.of_nat n)) as H.
  { clear n v. intros n v Hv. induction n as [|n IH].
    - simpl. by rewrite Z.mul_0_r, Z.mod_1_r.
    - simpl. pose proof (unpack_digits (S n) v) as Hd. simpl in Hd.
      apply Forall_cons in Hd as [Hd1 Hd2]. rewrite pack_cons, IH, unpack_length by done.
      rewrite Z.shiftr_div_pow2, Z.land_ones by lia.
      replace (k * Z.of_nat (S n)) with (k * Z.of_nat n + k) by lia.
      rewrite Z.pow_add_r by lia. rewrite Z.rem_mul_r; [lia|apply Z.pow_nonzero; lia|].
      apply Z.pow_pos_nonneg; lia. }
  intros Hv. rewrite H by lia. by apply Z.mod_small.
Qed.

Lemma lxor_digit a b : digit a -> digit b -> digit (Z.lxor a b).
Proof. apply lxor_lt_pow2. lia. Qed.

(** Packing is linear over exclusive or. *)
Lemma pack_lxor ds es :
  Forall digit ds -> Forall digit es -> length ds = length es ->
  pack (zip_with Z.lxor ds es) = Z.lxor (pack ds) (pack es).
Proof.
  unfold pack, pack_from. intros Hds.
  assert (forall es a b, Forall digit es -> length ds = length es ->
    fold_left (fun acc d => Z.lor (Z.shiftl acc k) d) (zip_with Z.lxor ds es) (Z.lxor a b) =
    Z.lxor (fold_left (fun acc d => Z.lor (Z.shiftl acc k) d) ds a)
           (fold_left (fun acc d => Z.lor (Z.shiftl acc k) d) es b)) as H.
  { induction Hds as [|d ds Hd Hds IH]; intros [|e es'] a b Hes Hl; try done.
    apply Forall_cons in Hes as [He Hes]. simpl. rewrite <- IH by (done || simpl in Hl; lia).
    f_equal. rewrite <- !Z.lxor_lor by auto using land_shiftl_digit, lxor_digit.
    rewrite Z.shiftl_lxor. rewrite !Z.lxor_assoc. f_equal.
    rewrite <- !Z.lxor_assoc. f_equal. apply Z.lxor_comm. }
  intros Hes Hl. rewrite <- (H es 0 0 Hes Hl). done.
Qed.

End Pack.

(** ** The key *)

(** [ALPHABET], as character codes. *)
Definition ALPHABET : list byte :=
  map (fun c => Z.of_N (N_of_ascii c))
      (String.list_ascii_of_string "0123456789ABCDEFGHJKMNPQRSTVWXYZ").

Definition KEY_CHARS : nat := 20.
Definition KEY_BITS : Z := 100.
Definition CHECKED_BITS : nat := 88.
Definition CRC_BITS : Z := 12.
Definition CRC12_POLY : Z := 0xF13.

Module LicenseKey.
Record LicenseKey := new { product_short : Z; random : list byte }.
#[global] Instance LicenseKey_eq_dec : EqDecision LicenseKey.
Proof. solve_decision. Defined.
End LicenseKey.
Notation LicenseKey := LicenseKey.LicenseKey.
Import LicenseKey(product_short, random).

Definition product_short_from_digest (product_id_digest : list byte) : Z :=
  match product_id_digest with b :: _ => b | [] => 0 end.

Definition to_bytes (k : LicenseKey) : list byte := product_short k :: random k.

(** One iteration of the CRC loop, with [bit] the next message bit. *)
Definition crc12_step (crc bit : Z) : Z :=
  let top := Z.land (Z.shiftr crc (CRC_BITS - 1)) 1 in
  let crc := Z.land (Z.shiftl crc 1) 0xfff in
  if Z.lxor top bit =? 1 then Z.lxor crc (Z.land CRC12_POLY 0xfff) else crc.

(** [for i in (0..n).rev()] over the bits of [value], from [crc]. *)
Fixpoint crc12_loop (n : nat) (value crc : Z) : Z :=
  match n with
  | O => crc
  | S i => crc12_loop i value (crc12_step crc (Z.land (Z.shiftr value (Z.of_nat i)) 1))
  end.

Definition crc12 (value : Z) : Z := Z.land (crc12_loop CHECKED_BITS value 0) 0xfff.

Definition payload_bits (k : LicenseKey) : Z :=
  let v := fold_left (fun v b => Z.lor (Z.shiftl v 8) b) (random k) (product_short k) in
  let crc := crc12 v in
  Z.lor (Z.shiftl v CRC_BITS) crc.

(** The twenty characters, before grouping. *)
Definition key_chars (k : LicenseKey) : list byte :=
  let bits := payload_bits k in
  map (fun i => let shift := KEY_BITS - 5 * (Z.of_nat i + 1) in
                let idx := Z.land (Z.shiftr bits shift) 0x1f in
                nth (Z.to_nat idx) ALPHABET 0)
      (seq 0 KEY_CHARS).

(** [for (i, c) in chars { if i % 5 == 0 { '-' }; c }]. *)
Fixpoint group (i : nat) (chars : list byte) : list byte :=
  match chars with
  | [] => []
  | c :: chars => (if Nat.eqb (i mod 5) 0 then [45] else []) ++ c :: group (S i) chars
  end.

Definition render (chars : list byte) : list byte := [67; 76; 48 + PROTO_VER] ++ group 0 chars.

Definition to_string_grouped (k : LicenseKey) : list byte := render (key_chars k).

Definition confusable (c : byte) : byte :=
  if (c =? 73) || (c =? 76) then 49 else if c =? 79 then 48 else c.

Fixpoint position (p : byte -> bool) (l : list byte) : option Z :=
  match l with
  | [] => None
  | x :: l => if p x then Some 0 else option_map (Z.add 1) (position p l)
  end.

Definition decode_char (c : byte) : result Z ProtoError :=
  ok_of_option (position (fun a => a =? confusable c) ALPHABET) ProtoError.MalformedLicenseKey.

Definition is_ascii_digit (c : byte) : bool := (48 <=? c) && (c <=? 57).
Definition is_ascii_upper (c : byte) : bool := (65 <=? c) && (c <=? 90).
Definition is_ascii_lower (c : byte) : bool := (97 <=? c) && (c <=? 122).
Definition is_ascii_alphanumeric (c : byte) : bool :=
  is_ascii_digit c || is_ascii_upper c || is_ascii_lower c.
Definition to_ascii_uppercase (c : byte) : byte := if is_ascii_lower c then c - 32 else c.

(** Presentation is dropped: separators skipped, case folded. *)
Definition normalise (input : list byte) : list byte :=
  map to_ascii_uppercase (List.filter is_ascii_alphanumeric input).

Definition decode_bits (body : list byte) : result Z ProtoError :=
  try_fold (fun bits c => d <-? decode_char c ;; Ok (Z.lor (Z.shiftl bits 5) d)) 0 body.

(** The 100 bits to a key: the checksum, then the fields. *)
Definition of_bits (bits : Z) : result LicenseKey ProtoError :=
  let checked := Z.shiftr bits CRC_BITS in
  let crc := Z.land bits (2 ^ CRC_BITS - 1) in
  if negb (crc12 checked =? crc) then Err ProtoError.MalformedLicenseKey
  else
    let product_short := Z.land (Z.shiftr checked 80) 0xff in
    let random := map (fun i => Z.land (Z.shiftr checked (72 - 8 * Z.of_nat i)) 0xff) (seq 0 10) in
    Ok (LicenseKey.new product_short random).

Definition parse_body (body : list byte) : result LicenseKey ProtoError :=
  if negb (Nat.eqb (length body) KEY_CHARS) then Err ProtoError.MalformedLicenseKey
  else bits <-? decode_bits body ;; of_bits bits.

Definition parse (input : list byte) : result LicenseKey ProtoError :=
  let chars := normalise input in
  match chars with
  | 67 :: 76 :: v :: rest =>
      let ver := (confusable v - 48) mod 256 in
      if negb (ver =? PROTO_VER) then Err (ProtoError.UnsupportedProtoVersion ver)
      else parse_body rest
  | _ => parse_body chars
  end.

(** ** Well-formed keys and the alphabet *)

Definition key_wf (k : LicenseKey) : Prop :=
  in_u8 (product_short k) /\ length (random k) = 10%nat /\ is_bytes (random k).

(** Finite checks over the first [n] integers, by computation. *)
Lemma below_forall (n : nat) (P : Z -> bool) :
  forallb P (map Z.of_nat (seq 0 n)) = true -> forall d, 0 <= d < Z.of_nat n -> P d = true.
Proof.
  rewrite forallb_forall. intros H d Hd. apply H. apply in_map_iff. exists (Z.to_nat d).
  rewrite in_seq. lia.
Qed.

Definition alpha (d : Z) : byte := nth (Z.to_nat d) ALPHABET 0.

Lemma digit5 d : digit 5 d <-> 0 <= d < 32.
Proof. done. Qed.

Lemma decode_alpha d : 0 <= d < 32 -> decode_char (alpha d) = Ok d.
Proof.
  intros Hd.
  assert (match decode_char (alpha d) with Ok x => x =? d | Err _ => false end = true) as H.
  { revert d Hd. apply (below_forall 32). vm_compute. reflexivity. }
  destruct (decode_char (alpha d)); [bprop; by subst|done].
Qed.

Lemma normalise_alpha d :
  0 <= d < 32 ->
  is_ascii_alphanumeric (alpha d) = true /\ to_ascii_uppercase (alpha d) = alpha d.
Proof.
  intros Hd.
  assert (is_ascii_alphanumeric (alpha d) && (to_ascii_uppercase (alpha d) =? alpha d) = true) as H.
  { revert d Hd. apply (below_forall 32). vm_compute. reflexivity. }
  by bprop.
Qed.

(** A decoded character is a digit, and its canonical spelling decodes to it. *)
Lemma position_Some p l i :
  position p l = Some i -> 0 <= i < Z.of_nat (length l) /\ p (nth (Z.to_nat i) l 0) = true.
Proof.
  revert i. induction l as [|x l IH]; intros i; simpl; [done|].
  destruct (p x) eqn:E.
  - intros [= <-]. simpl. split; [lia|done].
  - destruct (position p l) as [j|]; [|done]. intros [= <-].
    destruct (IH j eq_refl) as [H1 H2]. split; [lia|].
    replace (Z.to_nat (1 + j)) with (S (Z.to_nat j)) by lia. done.
Qed.

Lemma decode_char_range c d : decode_char c = Ok d -> 0 <= d < 32.
Proof.
  unfold decode_char. destruct (position _ ALPHABET) as [i|] eqn:E; [|done].
  simpl. intros [= <-]. apply position_Some in E as [? _]. exact H.
Qed.

Lemma decode_char_err c e : decode_char c = Err e -> e = ProtoError.MalformedLicenseKey.
Proof. unfold decode_char. destruct (position _ _); simpl; congruence. Qed.

(** ** Normalisation *)

Lemma normalise_app a b : normalise (a ++ b) = normalise a ++ normalise b.
Proof. unfold normalise. by rewrite List.filter_app, map_app. Qed.

Lemma normalise_group i cs : normalise (group i cs) = normalise cs.
Proof.
  revert i. induction cs as [|c cs IH]; intros i; [done|]. simpl group.
  rewrite normalise_app. change (c :: group (S i) cs) with ([c] ++ group (S i) cs).
  rewrite normalise_app, IH, <- normalise_app.
  by destruct (_ =? 0)%nat.
Qed.

Lemma parse_render cs : parse (render cs) = parse_body (normalise cs).
Proof.
  unfold parse, render. rewrite normalise_app, normalise_group. reflexivity.
Qed.

Lemma normalise_digits ds : Forall (digit 5) ds -> normalise (map alpha ds) = map alpha ds.
Proof.
  induction 1 as [|d ds Hd _ IH]; [done|].
  destruct (normalise_alpha d Hd) as [H1 H2]. unfold normalise in *. simpl.
  rewrite H1. simpl. by rewrite H2, IH.
Qed.

(** ** Decoding the body *)

Lemma decode_bits_from ds acc :
  Forall (digit 5) ds ->
  try_fold (fun bits c => d <-? decode_char c ;; Ok (Z.lor (Z.shiftl bits 5) d)) acc (map alpha ds)
  = Ok (pack_from 5 acc ds).
Proof.
  intros H. revert acc. induction H as [|d ds Hd _ IH]; intros acc; [done|].
  simpl. rewrite decode_alpha by done. simpl. apply IH.
Qed.

Lemma decode_bits_digits ds : Forall (digit 5) ds -> decode_bits (map alpha ds) = Ok (pack 5 ds).
Proof. apply decode_bits_from. Qed.

(** The general shape: a body decodes to the packing of its characters' digits. *)
Lemma decode_bits_Ok cs ds :
  Forall2 (fun c d => decode_char c = Ok d) cs ds -> decode_bits cs = Ok (pack 5 ds).
Proof.
  unfold decode_bits, pack, pack_from. intros H. generalize 0 at 1 2.
  induction H as [|c d cs ds Hc _ IH]; intros acc; [done|]. simpl. rewrite Hc. simpl. apply IH.
Qed.

Lemma decode_bits_Err cs c :
  c ∈ cs -> (forall d, decode_char c <> Ok d) ->
  decode_bits cs = Err ProtoError.MalformedLicenseKey.
Proof.
  unfold decode_bits. generalize 0. induction cs as [|x cs IH]; intros acc Hc Hn; [set_solver|].
  simpl. destruct (decode_char x) as [d|e] eqn:E.
  - simpl. apply IH; [|done]. apply elem_of_cons in Hc as [->|?]; [exfalso; by eapply Hn|done].
  - simpl. by apply decode_char_err in E as ->.
Qed.

(** ** The checksum *)

Lemma crc12_range v : 0 <= crc12 v < 2 ^ 12.
Proof. unfold crc12. change 0xfff with (Z.ones 12). rewrite Z.land_ones by lia. by apply Z.mod_pos_bound. Qed.

Lemma payload_bits_split k :
  key_wf k ->
  let v := pack 8 (to_bytes k) in
  0 <= v < 2 ^ 88 /\ payload_bits k = v * 2 ^ 12 + crc12 v /\ 0 <= payload_bits k < 2 ^ 100.
Proof.
  intros (Hp & Hl & Hr) v.
  assert (Forall (digit 8) (to_bytes k)) as Hd.
  { constructor; [unfold digit; simpl; int_lia|].
    eapply Forall_impl; [exact Hr|]. intros x Hx. unfold digit. simpl. int_lia. }
  assert (0 <= v < 2 ^ 88) as Hv.
  { pose proof (pack_bound 8 ltac:(lia) _ Hd) as Hb.
    replace (length (to_bytes k)) with 11%nat in Hb by (simpl; by rewrite Hl). exact Hb. }
  assert (payload_bits k = v * 2 ^ 12 + crc12 v) as E.
  { unfold payload_bits. change (fold_left _ (random k) (product_short k))
      with (pack_from 8 (product_short k) (random k)).
    replace (pack_from 8 (product_short k) (random k)) with v;
      [|unfold v, pack, to_bytes, pack_from; simpl; by rewrite Z.shiftl_0_l, Z.lor_0_l].
    apply lor_shiftl_add; [done|]. apply crc12_range. }
  pose proof (crc12_range v). split_and!; [lia|lia|exact E|lia|].
  rewrite E. change (2 ^ 100) with (2 ^ 88 * 2 ^ 12). lia.
Qed.

Lemma key_chars_digits k : key_chars k = map alpha (unpack 5 20 (payload_bits k)).
Proof. reflexivity. Qed.

Lemma of_bits_payload k : key_wf k -> of_bits (payload_bits k) = Ok k.
Proof.
  intros Hk. destruct (payload_bits_split k Hk) as (Hv & E & _).
  set (v := pack 8 (to_bytes k)) in *. pose proof (crc12_range v) as Hc.
  unfold of_bits.
  assert (Z.shiftr (payload_bits k) CRC_BITS = v) as ->.
  { rewrite Z.shiftr_div_pow2 by done. rewrite E. change (2 ^ CRC_BITS) with (2 ^ 12). 
    rewrite Z.div_add_l by done. rewrite Z.div_small by lia. lia. }
  change (2 ^ CRC_BITS - 1) with (Z.ones 12). rewrite Z.land_ones by done.
  rewrite E, Z.add_comm, Z.mod_add, Z.mod_small by done. rewrite Z.eqb_refl. simpl negb. cbv iota.
  destruct Hk as (Hp & Hl & Hr).
  assert (unpack 8 11 v = to_bytes k) as Hu.
  { replace 11%nat with (length (to_bytes k)) by (simpl; by rewrite Hl).
    apply unpack_pack; [done|]. constructor; [unfold digit; simpl; int_lia|].
    eapply Forall_impl; [exact Hr|]. intros x Hx. unfold digit. simpl. int_lia. }
  unfold to_bytes in Hu. destruct k as [ps rnd]. simpl in *.
  injection Hu as Hps Hrnd. f_equal. f_equal; [exact Hps|]. rewrite <- Hrnd. reflexivity.
Qed.

(** Round trip: every well-formed key parses back from its printed form. *)
Theorem parse_to_string (k : LicenseKey) (Hk : key_wf k) : parse (to_string_grouped k) = Ok k.
Proof.
  unfold to_string_grouped. rewrite parse_render, key_chars_digits.
  pose proof (unpack_digits 5 ltac:(lia) 20 (payload_bits k)) as Hd.
  rewrite normalise_digits by done. unfold parse_body.
  rewrite length_map, unpack_length. simpl negb. cbv iota.
  rewrite decode_bits_digits by done.
  destruct (payload_bits_split k Hk) as (_ & _ & Hb).
  rewrite (pack_unpack 5 ltac:(lia) 20) by exact Hb. by apply of_bits_payload.
Qed.

Definition key_demo : LicenseKey := LicenseKey.new 0xAB [1; 2; 3; 4; 5; 6; 7; 8; 9; 255].

Lemma parse_to_string_witness : parse (to_string_grouped key_demo) = Ok key_demo.
Proof.
  apply parse_to_string. vm_compute. intuition (try discriminate).
  repeat constructor; discriminate.
Defined.

(** ** Typing errors: linearity of the checksum *)

Lemma land_1_b2z v i : 0 <= i -> Z.land (Z.shiftr v i) 1 = Z.b2z (Z.testbit v i).
Proof.
  intros Hi. change 1 with (Z.ones 1) at 1. rewrite Z.land_ones by lia.
  rewrite Z.shiftr_div_pow2 by lia. change (2 ^ 1) with 2. symmetry. by apply Z.testbit_spec'.
Qed.

Lemma crc12_step_spec c b :
  crc12_step c (Z.b2z b) =
  Z.lxor (Z.land (Z.shiftl c 1) 0xfff) (if xorb (Z.testbit c 11) b then 0xF13 else 0).
Proof.
  unfold crc12_step. change (CRC_BITS - 1) with 11. rewrite land_1_b2z by lia.
  destruct (Z.testbit c 11), b; simpl Z.lxor; simpl xorb; cbv iota;
    rewrite ?Z.lxor_0_r; reflexivity.
Qed.

Lemma lxor_swap a b c d : Z.lxor (Z.lxor a b) (Z.lxor c d) = Z.lxor (Z.lxor a c) (Z.lxor b d).
Proof. rewrite !Z.lxor_assoc. f_equal. rewrite <- !Z.lxor_assoc. f_equal. apply Z.lxor_comm. Qed.

Lemma crc12_step_linear c d b e :
  crc12_step (Z.lxor c d) (Z.b2z (xorb b e)) =
  Z.lxor (crc12_step c (Z.b2z b)) (crc12_step d (Z.b2z e)).
Proof.
  rewrite !crc12_step_spec, lxor_swap, Z.shiftl_lxor, land_lxor_distr, Z.lxor_spec. f_equal.
  by destruct (Z.testbit c 11), (Z.testbit d 11), b, e.
Qed.

Lemma crc12_loop_linear n v w c d :
  crc12_loop n (Z.lxor v w) (Z.lxor c d) = Z.lxor (crc12_loop n v c) (crc12_loop n w d).
Proof.
  revert c d. induction n as [|n IH]; intros c d; [done|]. simpl.
  rewrite !land_1_b2z, Z.lxor_spec, crc12_step_linear by lia. apply IH.
Qed.

Lemma crc12_linear v w : crc12 (Z.lxor v w) = Z.lxor (crc12 v) (crc12 w).
Proof. unfold crc12. by rewrite <- land_lxor_distr, <- crc12_loop_linear, Z.lxor_0_r. Qed.

(** The syndrome of a 100-bit word: zero exactly for words with a matching checksum. *)
Definition syndrome (bits : Z) : Z :=
  Z.lxor (crc12 (Z.shiftr bits CRC_BITS)) (Z.land bits (2 ^ CRC_BITS - 1)).

Lemma syndrome_linear a b : syndrome (Z.lxor a b) = Z.lxor (syndrome a) (syndrome b).
Proof. unfold syndrome. by rewrite Z.shiftr_lxor, crc12_linear, land_lxor_distr, lxor_swap. Qed.

Lemma of_bits_syndrome bits :
  syndrome bits <> 0 -> of_bits bits = Err ProtoError.MalformedLicenseKey.
Proof.
  unfold syndrome, of_bits. intros H.
  destruct (Z.eqb_spec (crc12 (Z.shiftr bits CRC_BITS)) (Z.land bits (2 ^ CRC_BITS - 1))) as [E|];
    [|done]. rewrite E, Z.lxor_nilpotent in H. done.
Qed.

Lemma of_bits_ok_syndrome bits k : of_bits bits = Ok k -> syndrome bits = 0.
Proof.
  unfold syndrome, of_bits.
  destruct (Z.eqb_spec (crc12 (Z.shiftr bits CRC_BITS)) (Z.land bits (2 ^ CRC_BITS - 1))) as [E|];
    [|done]. rewrite E, Z.lxor_nilpotent. done.
Qed.

(** Two digit lists whose difference has a non-zero syndrome cannot both be valid keys. *)
Lemma damaged_word ds ds' k :
  Forall (digit 5) ds -> Forall (digit 5) ds' -> length ds = length ds' ->
  syndrome (pack 5 (zip_with Z.lxor ds ds')) <> 0 ->
  of_bits (pack 5 ds) = Ok k -> of_bits (pack 5 ds') = Err ProtoError.MalformedLicenseKey.
Proof.
  intros Hd Hd' Hl Hs Hok. apply of_bits_syndrome. intros E. apply Hs.
  rewrite pack_lxor by (done || lia). rewrite syndrome_linear, E.
  by rewrite (of_bits_ok_syndrome _ _ Hok).
Qed.

Definition zeros : list Z := replicate 20 0.

Lemma zip_lxor_self ds : zip_with Z.lxor ds ds = replicate (length ds) 0.
Proof. induction ds as [|d ds IH]; simpl; [done|]. by rewrite Z.lxor_nilpotent, IH. Qed.

(** Error patterns of one character, and of one adjacent swap, have non-zero syndromes:
    20 * 31 and 19 * 31 cases by computation. *)
Lemma single_error_syndrome j x :
  (j < 20)%nat -> 0 < x < 32 -> syndrome (pack 5 (<[j:=x]> zeros)) <> 0.
Proof.
  intros Hj Hx.
  assert (forallb (fun j => forallb (fun x => (x =? 0) || negb (syndrome (pack 5
    (<[Z.to_nat j:=x]> zeros)) =? 0)) (map Z.of_nat (seq 0 32))) (map Z.of_nat (seq 0 20)) = true)
    as H by (vm_compute; reflexivity).
  pose proof (below_forall 20 _ H (Z.of_nat j) ltac:(lia)) as H1. cbv beta in H1.
  pose proof (below_forall 32 _ H1 x ltac:(lia)) as H2. cbv beta in H2.
  rewrite Nat2Z.id in H2. apply orb_true_iff in H2 as [?|?]; bprop; [lia|done].
Qed.

Lemma swap_error_syndrome j x :
  (S j < 20)%nat -> 0 < x < 32 -> syndrome (pack 5 (<[j:=x]> (<[S j:=x]> zeros))) <> 0.
Proof.
  intros Hj Hx.
  assert (forallb (fun j => forallb (fun x => (x =? 0) || negb (syndrome (pack 5
    (<[Z.to_nat j:=x]> (<[S (Z.to_nat j):=x]> zeros))) =? 0)) (map Z.of_nat (seq 0 32)))
    (map Z.of_nat (seq 0 19)) = true) as H by (vm_compute; reflexivity).
  pose proof (below_forall 19 _ H (Z.of_nat j) ltac:(lia)) as H1. cbv beta in H1.
  pose proof (below_forall 32 _ H1 x ltac:(lia)) as H2. cbv beta in H2.
  rewrite Nat2Z.id in H2. apply orb_true_iff in H2 as [?|?]; bprop; [lia|done].
Qed.

Lemma lxor_digit_pos a b : digit 5 a -> digit 5 b -> a <> b -> 0 < Z.lxor a b < 32.
Proof.
  intros Ha Hb Hne. pose proof (lxor_digit 5 ltac:(lia) a b Ha Hb) as [H0 H1].
  split; [|exact H1]. destruct (Z.eq_dec (Z.lxor a b) 0) as [E|]; [|lia].
  apply Z.lxor_eq in E. done.
Qed.

(** The digits of a printed key, and a body that spells digits. *)
Definition key_digits (k : LicenseKey) : list Z := unpack 5 20 (payload_bits k).

Lemma key_digits_ok k : Forall (digit 5) (key_digits k) /\ length (key_digits k) = 20%nat.
Proof. split; [by apply unpack_digits|apply unpack_length]. Qed.

Lemma key_digits_bits k : key_wf k -> of_bits (pack 5 (key_digits k)) = Ok k.
Proof.
  intros Hk. destruct (payload_bits_split k Hk) as (_ & _ & Hb). unfold key_digits.
  rewrite (pack_unpack 5 ltac:(lia) 20) by exact Hb. by apply of_bits_payload.
Qed.

Lemma parse_body_spelled cs ds :
  Forall2 (fun c d => decode_char c = Ok d) cs ds -> length ds = 20%nat ->
  parse_body cs = of_bits (pack 5 ds).
Proof.
  intros H Hl. unfold parse_body. rewrite (Forall2_length _ _ _ H), Hl. simpl negb. cbv iota.
  by rewrite (decode_bits_Ok cs ds).
Qed.

Lemma spelled_alpha ds : Forall (digit 5) ds ->
  Forall2 (fun c d => decode_char c = Ok d) (map alpha ds) ds.
Proof. induction 1; simpl; constructor; auto using decode_alpha. Qed.

(** Replacing one character of a body of alphabet characters, after normalisation. *)
Lemma normalise_replaced ds j c :
  Forall (digit 5) ds -> (j < length ds)%nat ->
  normalise (<[j:=c]> (map alpha ds)) =
  if is_ascii_alphanumeric c then <[j:=to_ascii_uppercase c]> (map alpha ds)
  else take j (map alpha ds) ++ drop (S j) (map alpha ds).
Proof.
  intros Hd Hj.
  rewrite !insert_take_drop by (rewrite length_map; lia).
  assert (forall n, normalise (take n (map alpha ds)) = take n (map alpha ds) /\
                    normalise (drop n (map alpha ds)) = drop n (map alpha ds)) as Hn.
  { intros n. rewrite <- !fmap_take, <- !fmap_drop.
    split; apply normalise_digits; [by apply Forall_take|by apply Forall_drop]. }
  rewrite normalise_app. change (c :: drop (S j) (map alpha ds))
    with ([c] ++ drop (S j) (map alpha ds)). rewrite normalise_app.
  rewrite (proj1 (Hn j)), (proj2 (Hn (S j))). unfold normalise. simpl.
  by destruct (is_ascii_alphanumeric c).
Qed.

(** Single-character typing errors: replace any one of the twenty characters of a printed
    key by any character [c] whatsoever.  If [c] is just another spelling of the character it
    replaces (other case, [I]/[L] for [1], [O] for [0]), the key still parses to itself;
    in every other case the parser reports a malformed key and never another key. *)
Theorem single_typo_detected (k : LicenseKey) (j : nat) (c : byte)
    (Hk : key_wf k) (Hj : (j < KEY_CHARS)%nat) :
  parse (render (<[j:=c]> (key_chars k))) =
  if is_ascii_alphanumeric c &&
     bool_decide (result_ok (decode_char (to_ascii_uppercase c)) =
                  result_ok (decode_char (nth j (key_chars k) 0)))
  then Ok k else Err ProtoError.MalformedLicenseKey.
Proof.
  unfold KEY_CHARS in Hj. rewrite parse_render, key_chars_digits. fold (key_digits k).
  destruct (key_digits_ok k) as [Hd Hl]. pose proof (key_digits_bits k Hk) as Hok.
  set (ds := key_digits k) in *. clearbody ds. rewrite normalise_replaced by (done || lia).
  destruct (lookup_lt_is_Some_2 ds j ltac:(lia)) as [dj Hdj].
  assert (digit 5 dj) as Hdig by (eapply Forall_lookup_1; eauto).
  assert (nth j (map alpha ds) 0 = alpha dj) as ->.
  { apply nth_lookup_Some. change (map alpha ds) with (alpha <$> ds).
    by rewrite list_lookup_fmap, Hdj. }
  rewrite decode_alpha by exact Hdig.
  destruct (is_ascii_alphanumeric c); simpl andb; cycle 1.
  { unfold parse_body. rewrite length_app, length_take, length_drop, length_map, Hl.
    replace (Nat.eqb (Nat.min j 20 + (20 - S j)) KEY_CHARS) with false; [done|].
    symmetry. apply Nat.eqb_neq. unfold KEY_CHARS. lia. }
  destruct (decode_char (to_ascii_uppercase c)) as [d|e] eqn:Ec; simpl result_ok.
  - assert (digit 5 d) as Hdd by (by eapply decode_char_range).
    rewrite (parse_body_spelled _ (<[j:=d]> ds)).
    2: { by apply Forall2_insert; [apply spelled_alpha|]. }
    2: { by rewrite length_insert. }
    case_bool_decide as E.
    + injection E as ->. by rewrite list_insert_id.
    + eapply (damaged_word ds); eauto using Forall_insert; [by rewrite length_insert|].
      rewrite <- (list_insert_id ds j dj Hdj) at 1. rewrite <- insert_zip_with, zip_lxor_self, Hl.
      apply single_error_syndrome; [done|]. apply lxor_digit_pos; congruence.
  - rewrite bool_decide_eq_false_2 by done. unfold parse_body.
    rewrite length_insert, length_map, Hl. simpl negb. cbv iota.
    rewrite (decode_bits_Err _ (to_ascii_uppercase c)); [done| |congruence].
    apply list_elem_of_lookup. exists j. apply list_lookup_insert_eq. rewrite length_map. lia.
Qed.

Lemma key_demo_wf : key_wf key_demo.
Proof. vm_compute. intuition (try discriminate). repeat constructor; discriminate. Qed.

Lemma single_typo_detected_witness :
  parse (render (<[3%nat:=90]> (key_chars key_demo))) = Err ProtoError.MalformedLicenseKey.
Proof. apply (single_typo_detected key_demo 3 90 key_demo_wf). unfold KEY_CHARS. lia. Defined.

(** Transpositions: swapping two adjacent characters of a printed key is always reported as
    a malformed key, unless the two characters are equal and nothing changed. *)
Theorem transposition_detected (k : LicenseKey) (j : nat)
    (Hk : key_wf k) (Hj : (S j < KEY_CHARS)%nat) :
  let a := nth j (key_chars k) 0 in
  let b := nth (S j) (key_chars k) 0 in
  parse (render (<[j:=b]> (<[S j:=a]> (key_chars k)))) =
  if a =? b then Ok k else Err ProtoError.MalformedLicenseKey.
Proof.
  unfold KEY_CHARS in Hj. rewrite key_chars_digits. fold (key_digits k).
  destruct (key_digits_ok k) as [Hd Hl]. pose proof (key_digits_bits k Hk) as Hok.
  set (ds := key_digits k) in *. clearbody ds.
  destruct (lookup_lt_is_Some_2 ds j ltac:(lia)) as [x Hx].
  destruct (lookup_lt_is_Some_2 ds (S j) ltac:(lia)) as [y Hy].
  assert (digit 5 x /\ digit 5 y) as [Hdx Hdy] by (split; eapply Forall_lookup_1; eauto).
  assert (forall i z, ds !! i = Some z -> nth i (map alpha ds) 0 = alpha z) as Hn.
  { intros i z Hz. apply nth_lookup_Some. change (map alpha ds) with (alpha <$> ds).
    by rewrite list_lookup_fmap, Hz. }
  rewrite (Hn _ _ Hx), (Hn _ _ Hy). intros a b. subst a b.
  change (map alpha ds) with (alpha <$> ds). rewrite <- !list_fmap_insert, parse_render.
  set (ds' := <[j:=y]> (<[S j:=x]> ds)).
  assert (Forall (digit 5) ds') as Hd' by (by repeat apply Forall_insert).
  assert (length ds' = 20%nat) as Hl' by (unfold ds'; by rewrite !length_insert).
  change (alpha <$> ds') with (map alpha ds'). rewrite normalise_digits by done.
  rewrite (parse_body_spelled _ ds') by auto using spelled_alpha.
  destruct (Z.eqb_spec (alpha x) (alpha y)) as [E|Hne].
  - assert (x = y) as <- by (apply (f_equal decode_char) in E; rewrite !decode_alpha in E by done; congruence).
    unfold ds'. rewrite (list_insert_id ds (S j)) by done. by rewrite list_insert_id.
  - eapply (damaged_word ds); eauto; [lia|].
    unfold ds'. rewrite <- (list_insert_id ds j x Hx) at 1.
    rewrite <- insert_zip_with. rewrite <- (list_insert_id ds (S j) y Hy) at 1.
    rewrite <- insert_zip_with, zip_lxor_self, Hl, (Z.lxor_comm y x).
    apply swap_error_syndrome; [done|]. apply lxor_digit_pos; [done|done|]. congruence.
Qed.

Lemma transposition_detected_witness :
  nth 1 (key_chars key_demo) 0 <> nth 2 (key_chars key_demo) 0 /\
  parse (render (<[1%nat:=nth 2 (key_chars key_demo) 0]>
                  (<[2%nat:=nth 1 (key_chars key_demo) 0]> (key_chars key_demo))))
  = Err ProtoError.MalformedLicenseKey.
Proof.
  split; [vm_compute; discriminate|].
  apply (transposition_detected key_demo 1 key_demo_wf). unfold KEY_CHARS. lia.
Defined.
