(* ===== verification/Catalog.v ===== *)
(** * The entitlement catalog ([crates/copylocker-server-core/src/catalog.rs])

    Features, groups and tiers, the structural validation, the depth-first walk over nested
    groups and the evolution rules.  The walk's [depth] argument is represented by
    [remaining = MAX_GROUP_DEPTH + 1 - depth], on which it recurses: [depth > MAX_GROUP_DEPTH]
    is [remaining = 0], so the walk needs no fuel. *)

From S2P Require Import Prelude Types.

Module Feature.
Record Feature := mk {
  id : string; label : string; description : option string; deprecated_at : option Z;
}.
End Feature.
Notation Feature := Feature.Feature.

Module GroupMembers.
Record GroupMembers := mk { includes : list string; features : list string }.
End GroupMembers.
Notation GroupMembers := GroupMembers.GroupMembers.

Module FeatureGroup.
Record FeatureGroup := mk { id : string; label : string; members : GroupMembers }.
End FeatureGroup.
Notation FeatureGroup := FeatureGroup.FeatureGroup.

Module Tier.
Record Tier := mk {
  id : string; label : string; rank : Z;
  groups : list string; features : list string;
  limits : gmap string Z; archived_at : option Z;
}.
End Tier.
Notation Tier := Tier.Tier.

Module CatalogError.
Inductive CatalogError :=
| DuplicateId (id : string)
| UnknownReference (from to : string)
| CyclicGroup (id : string)
| DepthExceeded (id : string)
| FeatureIdRemoved (id : string)
| LimitKeyRemoved (key : string)
| VersionNotAdvanced (previous proposed : Z)
| BadGlob (pattern : string).
#[global] Instance CatalogError_eq_dec : EqDecision CatalogError.
Proof. solve_decision. Defined.
End CatalogError.
Notation CatalogError := CatalogError.CatalogError.

Definition MAX_GROUP_DEPTH : nat := 8.

(** ** String patterns of the source *)

Definition star : ascii := Ascii.ascii_of_nat 42.

Fixpoint count_char (a : ascii) (s : string) : nat :=
  match s with
  | EmptyString => O
  | String c s => ((if Ascii.eqb c a then 1 else 0) + count_char a s)%nat
  end.

(** [str::ends_with(char)]. *)
Fixpoint ends_with_char (a : ascii) (s : string) : bool :=
  match s with
  | EmptyString => false
  | String c EmptyString => Ascii.eqb c a
  | String _ s => ends_with_char a s
  end.

(** [str::trim_end_matches(char)]. *)
Fixpoint trim_end_char (a : ascii) (s : string) : string :=
  match s with
  | EmptyString => EmptyString
  | String c s =>
      match trim_end_char a s with
      | EmptyString => if Ascii.eqb c a then EmptyString else String c EmptyString
      | s' => String c s'
      end
  end.

Module Catalog.
Record Catalog := mk {
  product_id : string;
  version : Z;
  features : list Feature;
  groups : list FeatureGroup;
  tiers : list Tier;
}.

Definition feature (c : Catalog) (id : string) : option Feature :=
  find_first (fun f => bool_decide (Feature.id f = id)) (features c).
Definition group (c : Catalog) (id : string) : option FeatureGroup :=
  find_first (fun g => bool_decide (FeatureGroup.id g = id)) (groups c).
Definition tier (c : Catalog) (id : string) : option Tier :=
  find_first (fun t => bool_decide (Tier.id t = id)) (tiers c).

Definition feature_ids (c : Catalog) : gset string := list_to_set (map Feature.id (features c)).

Definition expand_pattern (c : Catalog) (pattern : string) : result (list string) CatalogError :=
  let star_count := count_char star pattern in
  match star_count with
  | 0%nat =>
      match feature c pattern with
      | Some _ => Ok [pattern]
      | None => Err (CatalogError.UnknownReference "pattern" pattern)
      end
  | 1%nat =>
      if ends_with_char star pattern then
        let prefix := trim_end_char star pattern in
        Ok (map Feature.id
              (List.filter (fun f => String.prefix prefix (Feature.id f)) (features c)))
      else Err (CatalogError.BadGlob pattern)
  | _ => Err (CatalogError.BadGlob pattern)
  end.

(** The three duplicate loops: [if !seen.insert(id) { return Err(DuplicateId(id)) }]. *)
Fixpoint check_unique (seen : gset string) (ids : list string) : result unit CatalogError :=
  match ids with
  | [] => Ok tt
  | id :: ids => if bool_decide (id ∈ seen) then Err (CatalogError.DuplicateId id)
                 else check_unique ({[id]} ∪ seen) ids
  end.

(** [expand_pattern(pat).map_err(...)] with the referrer's identifier put in. *)
Definition check_pattern (c : Catalog) (from pat : string) : result unit CatalogError :=
  check? map_err (fun e => match e with
                           | CatalogError.UnknownReference _ to =>
                               CatalogError.UnknownReference from to
                           | other => other
                           end) (expand_pattern c pat) ;; Ok tt.

Definition check_group_ref (c : Catalog) (from to : string) : result unit CatalogError :=
  match group c to with
  | None => Err (CatalogError.UnknownReference from to)
  | Some _ => Ok tt
  end.

Definition check_group_members (c : Catalog) (g : FeatureGroup) : result unit CatalogError :=
  check? for_each (check_group_ref c (FeatureGroup.id g))
                  (GroupMembers.includes (FeatureGroup.members g)) ;;
  for_each (check_pattern c (FeatureGroup.id g)) (GroupMembers.features (FeatureGroup.members g)).

Definition check_tier (c : Catalog) (t : Tier) : result unit CatalogError :=
  check? for_each (check_group_ref c (Tier.id t)) (Tier.groups t) ;;
  for_each (check_pattern c (Tier.id t)) (Tier.features t).

Fixpoint walk_group (c : Catalog) (remaining : nat) (id : string) (path : list string)
    : result unit CatalogError :=
  if bool_decide (id ∈ path) then Err (CatalogError.CyclicGroup id)
  else
    match remaining with
    | O => Err (CatalogError.DepthExceeded id)
    | S remaining =>
        match group c id with
        | None => Err (CatalogError.UnknownReference (default "" (last path)) id)
        | Some g =>
            for_each (fun inc => walk_group c remaining inc (path ++ [id]))
                     (GroupMembers.includes (FeatureGroup.members g))
        end
    end.

Definition validate (c : Catalog) : result unit CatalogError :=
  check? check_unique ∅ (map Feature.id (features c)) ;;
  check? check_unique ∅ (map FeatureGroup.id (groups c)) ;;
  check? check_unique ∅ (map Tier.id (tiers c)) ;;
  check? for_each (check_group_members c) (groups c) ;;
  check? for_each (check_tier c) (tiers c) ;;
  for_each (fun g => walk_group c (S MAX_GROUP_DEPTH) (FeatureGroup.id g) []) (groups c).

(** [tiers.iter().flat_map(|t| t.limits.keys())]. *)
Definition limit_keys (c : Catalog) : list string :=
  flat_map (fun t => bt_keys (Tier.limits t)) (tiers c).

Definition validate_evolution (c proposed : Catalog) : result unit CatalogError :=
  check? validate proposed ;;
  if version proposed <=? version c then
    Err (CatalogError.VersionNotAdvanced (version c) (version proposed))
  else
    let new_ids := feature_ids proposed in
    check? for_each (fun f => if bool_decide (Feature.id f ∈ new_ids) then Ok tt
                              else Err (CatalogError.FeatureIdRemoved (Feature.id f)))
                    (features c) ;;
    let new_limit_keys : gset string := list_to_set (limit_keys proposed) in
    for_each (fun k => if bool_decide (k ∈ new_limit_keys) then Ok tt
                       else Err (CatalogError.LimitKeyRemoved k))
             (limit_keys c).
End Catalog.
Notation Catalog := Catalog.Catalog.
Import Catalog.

(** ** Lookups *)

Lemma feature_Some c id f : feature c id = Some f -> f ∈ features c /\ Feature.id f = id.
Proof. intros [? ?]%find_first_Some. by bprop. Qed.

Lemma feature_ids_spec c id : id ∈ feature_ids c <-> exists f, feature c id = Some f.
Proof.
  unfold feature_ids. rewrite elem_of_list_to_set, list_elem_of_fmap. split.
  - intros (f & -> & Hf). eapply find_first_is_Some; [exact Hf|]. by apply bool_decide_eq_true.
  - intros [f [Hf Hid]%feature_Some]. eauto.
Qed.

Lemma group_Some c id g : group c id = Some g -> g ∈ groups c /\ FeatureGroup.id g = id.
Proof. intros [? ?]%find_first_Some. by bprop. Qed.

Lemma tier_Some c id t : tier c id = Some t -> t ∈ tiers c /\ Tier.id t = id.
Proof. intros [? ?]%find_first_Some. by bprop. Qed.

(** ** Patterns: what a pattern denotes

    An exact identifier denotes itself; [prefix*] denotes the declared features whose
    identifier starts with the prefix. *)
Definition denotes (c : Catalog) (pattern f : string) : Prop :=
  f ∈ feature_ids c /\
  ((count_char star pattern = 0%nat /\ f = pattern) \/
   (count_char star pattern = 1%nat /\ ends_with_char star pattern = true /\
    String.prefix (trim_end_char star pattern) f = true)).

Lemma expand_pattern_spec c pattern ids :
  expand_pattern c pattern = Ok ids -> forall f, f ∈ ids <-> denotes c pattern f.
Proof.
  unfold expand_pattern, denotes. intros H f.
  destruct (count_char star pattern) as [|[|n]] eqn:Ec; [| |done].
  - destruct (feature c pattern) as [x|] eqn:Ef; [|done]. injection H as <-.
    rewrite list_elem_of_singleton, feature_ids_spec. naive_solver.
  - destruct (ends_with_char star pattern); [|done]. injection H as <-.
    rewrite list_elem_of_fmap. setoid_rewrite list_elem_of_In.
    setoid_rewrite filter_In. setoid_rewrite <- list_elem_of_In. split.
    + intros (x & -> & Hx & Hp). split; [|right; eauto].
      unfold feature_ids. rewrite elem_of_list_to_set, list_elem_of_fmap. eauto.
    + intros [Hf [[? _]|(_ & _ & Hp)]]; [lia|].
      unfold feature_ids in Hf. rewrite elem_of_list_to_set, list_elem_of_fmap in Hf.
      destruct Hf as (x & -> & Hx). eauto.
Qed.

(** ** What validation establishes *)

Lemma check_unique_ok seen ids :
  check_unique seen ids = Ok tt <-> NoDup ids /\ forall x, x ∈ ids -> x ∉ seen.
Proof.
  revert seen. induction ids as [|id ids IH]; intros seen; simpl.
  - split; [split; [constructor|set_solver]|done].
  - rewrite NoDup_cons. case_bool_decide as Hin.
    + split; [done|]. intros [_ H]. exfalso. apply (H id); [set_solver|done].
    + rewrite IH. set_solver.
Qed.

(** The facts the rest of the server takes from [validate]. *)
Record well_formed (c : Catalog) : Prop := {
  wf_features : NoDup (map Feature.id (features c));
  wf_groups : NoDup (map FeatureGroup.id (groups c));
  wf_tiers : NoDup (map Tier.id (tiers c));
  wf_group_refs : forall g inc, g ∈ groups c ->
    inc ∈ GroupMembers.includes (FeatureGroup.members g) -> is_Some (group c inc);
  wf_group_pats : forall g pat, g ∈ groups c ->
    pat ∈ GroupMembers.features (FeatureGroup.members g) ->
    exists ids, expand_pattern c pat = Ok ids;
  wf_tier_refs : forall t gid, t ∈ tiers c -> gid ∈ Tier.groups t -> is_Some (group c gid);
  wf_tier_pats : forall t pat, t ∈ tiers c -> pat ∈ Tier.features t ->
    exists ids, expand_pattern c pat = Ok ids;
  wf_walk : forall g, g ∈ groups c ->
    walk_group c (S MAX_GROUP_DEPTH) (FeatureGroup.id g) [] = Ok tt;
}.

Lemma check_pattern_ok c from pat :
  check_pattern c from pat = Ok tt <-> exists ids, expand_pattern c pat = Ok ids.
Proof. unfold check_pattern. destruct (expand_pattern c pat); simpl; naive_solver. Qed.

Lemma check_group_ref_ok c from to :
  check_group_ref c from to = Ok tt <-> is_Some (group c to).
Proof. unfold check_group_ref. destruct (group c to); [|rewrite is_Some_alt]; naive_solver. Qed.

Lemma rbind_unit_ok {E} (m k : result unit E) :
  (check? m ;; k) = Ok tt <-> m = Ok tt /\ k = Ok tt.
Proof. destruct m as [[]|]; simpl; naive_solver. Qed.

Lemma validate_ok c : validate c = Ok tt <-> well_formed c.
Proof.
  unfold validate. rewrite !rbind_unit_ok, !check_unique_ok, !for_each_ok.
  unfold check_group_members, check_tier. setoid_rewrite rbind_unit_ok.
  setoid_rewrite for_each_ok. setoid_rewrite check_group_ref_ok.
  setoid_rewrite check_pattern_ok. split.
  - intros ([] & [] & [] & Hg & Ht & Hw). split; naive_solver.
  - intros []. split_and!; try done; try (intros; set_solver); naive_solver.
Qed.

(** ** Acyclicity and depth *)

(** [b] is listed directly in group [a]. *)
Definition includes_group (c : Catalog) (a b : string) : Prop :=
  exists g, group c a = Some g /\ b ∈ GroupMembers.includes (FeatureGroup.members g).

Lemma walk_group_step c r id path g :
  walk_group c (S r) id path = Ok tt -> group c id = Some g ->
  forall inc, inc ∈ GroupMembers.includes (FeatureGroup.members g) ->
  walk_group c r inc (path ++ [id]) = Ok tt.
Proof. simpl. case_bool_decide; [done|]. intros Hw Hg. by rewrite Hg, for_each_ok in Hw. Qed.

Lemma walk_group_chain c r id path n b :
  walk_group c r id path = Ok tt -> nsteps (includes_group c) n id b ->
  (n < r)%nat /\ b ∉ path /\ is_Some (group c b).
Proof.
  revert id path n. induction r as [|r IH]; intros id path n; simpl;
    (case_bool_decide as Hin; [done|]); [done|].
  destruct (group c id) as [g|] eqn:Eg; [|done]. rewrite for_each_ok. intros Hw Hn.
  destruct n as [|n].
  - inversion Hn; subst. split_and!; [lia|done|by eexists].
  - inversion Hn as [|? ? y ? (g' & Eg' & Hy) Hn']; subst.
    assert (g' = g) as -> by congruence.
    destruct (IH y (path ++ [id]) n (Hw y Hy) Hn') as (? & ? & ?).
    split_and!; [lia|set_solver|done].
Qed.

(** A catalog that validates has a finite, acyclic, closed group graph: no group reaches
    itself through nested includes, no include chain is longer than [MAX_GROUP_DEPTH], and
    every group reached is declared - so resolution cannot loop, overflow the stack or meet
    a dangling reference. *)
Theorem validated_groups_acyclic (c : Catalog) (a b : string) (n : nat)
    (Hc : validate c = Ok tt) (Ha : is_Some (group c a)) (Hn : nsteps (includes_group c) n a b) :
  (n <= MAX_GROUP_DEPTH)%nat /\ is_Some (group c b) /\ (n <> 0%nat -> b <> a).
Proof.
  apply validate_ok in Hc. destruct Ha as [g Hg]. destruct (group_Some _ _ _ Hg) as [Hin <-].
  pose proof (wf_walk c Hc g Hin) as Hw.
  destruct (walk_group_chain _ _ _ _ _ _ Hw Hn) as (? & _ & ?).
  split_and!; [unfold MAX_GROUP_DEPTH in *; lia|done|]. intros Hn0 ->.
  destruct n as [|n]; [done|]. inversion Hn as [|? ? y ? (g' & Eg' & Hy) Hn']; subst.
  pose proof (walk_group_step _ _ _ _ _ Hw Eg' y Hy) as Hw'.
  destruct (walk_group_chain _ _ _ _ _ _ Hw' Hn') as (_ & Hp & _). set_solver.
Qed.

Definition demo_feature (id : string) : Feature := Feature.mk id id None None.
Definition demo_catalog : Catalog :=
  Catalog.mk "p" 1 (map demo_feature ["export.pdf"; "export.svg"; "sync"])
    [FeatureGroup.mk "exports" "e" (GroupMembers.mk [] ["export.*"]);
     FeatureGroup.mk "all" "a" (GroupMembers.mk ["exports"] ["sync"])]
    [Tier.mk "pro" "Pro" 1 ["all"] [] {["seats" := 5]} None].

Lemma validated_groups_acyclic_witness :
  (1 <= MAX_GROUP_DEPTH)%nat /\ is_Some (group demo_catalog "exports") /\
  (1 <> 0 -> "exports" <> "all")%nat.
Proof.
  apply (validated_groups_acyclic demo_catalog "all" "exports" 1);
    [reflexivity|by eexists|].
  apply nsteps_once. eexists. split; [reflexivity|]. apply list_elem_of_here.
Defined.

(** ** Evolution *)

Lemma for_each_guard_ok {A E} (P : A -> Prop) `{!forall x, Decision (P x)} (e : A -> E) xs :
  for_each (fun x => if bool_decide (P x) then Ok tt else Err (e x)) xs = Ok tt <->
  forall x, x ∈ xs -> P x.
Proof.
  rewrite for_each_ok. split; intros Hall x Hx; specialize (Hall x Hx); case_bool_decide; done.
Qed.

Lemma validate_evolution_ok c p :
  validate_evolution c p = Ok tt <->
  well_formed p /\ version c < version p /\
  (forall f, f ∈ feature_ids c -> f ∈ feature_ids p) /\
  (forall k, k ∈ limit_keys c -> k ∈ limit_keys p).
Proof.
  unfold validate_evolution. rewrite rbind_unit_ok, validate_ok.
  destruct (Z.leb_spec (version p) (version c)).
  - split; [by intros []|]. intros (_ & ? & _). lia.
  - rewrite rbind_unit_ok, !for_each_guard_ok. setoid_rewrite elem_of_list_to_set.
    setoid_rewrite (list_elem_of_fmap _ (features c)).
    split; [intros (? & Hf & ?)|intros (? & ? & Hf & ?)]; split_and!; try done.
    + intros ? (f & -> & Hin). by apply Hf.
    + intros f Hin. apply Hf. eauto.
Qed.

(** Published identifiers are permanent: along any chain of accepted catalog updates, every
    feature identifier and every limit key of the first version is still declared in the last
    (so assets sealed under a feature stay openable), every version is structurally sound and
    versions strictly increase. *)
Theorem evolution_preserves_ids (c d : Catalog)
    (Hchain : tc (fun a b => validate_evolution a b = Ok tt) c d) :
  version c < version d /\ well_formed d /\ feature_ids c ⊆ feature_ids d /\
  (forall k, k ∈ limit_keys c -> k ∈ limit_keys d).
Proof.
  induction Hchain as [c d Hs|c m d Hs _ IH].
  - apply validate_evolution_ok in Hs. set_solver.
  - apply validate_evolution_ok in Hs as (? & ? & ? & ?). destruct IH as (? & ? & ? & ?).
    split_and!; [lia|done|set_solver|auto].
Qed.

Definition demo_catalog2 : Catalog :=
  Catalog.mk "p" 2 (features demo_catalog ++ [demo_feature "ai"]) (groups demo_catalog)
    (tiers demo_catalog).

Lemma evolution_preserves_ids_witness :
  feature_ids demo_catalog ⊆ feature_ids demo_catalog2.
Proof.
  apply (evolution_preserves_ids demo_catalog demo_catalog2).
  apply tc_once. vm_compute. reflexivity.
Defined.
