(* ===== verification/Entitlement.v ===== *)
(** * Entitlement resolution ([crates/copylocker-server-core/src/entitlement.rs])

    [resolve] turns a specification (tier, extra groups, grants, exclusions, limit overrides)
    into the flat snapshot a credential signs.  The feature set is characterised by the
    inductive relation [group_has], the limits by a fold over the sources of a key, and
    success by the references the specification makes. *)

From S2P Require Import Prelude Types Catalog.

Module GrantTarget.
Inductive GrantTarget :=
| Feature (id : string)
| Group (id : string).
End GrantTarget.
Notation GrantTarget := GrantTarget.GrantTarget.

Module Grant.
Record Grant := mk {
  target : GrantTarget;
  valid_from : option Z;
  valid_until : option Z;
  source : string;
  limits : gmap string Z;
}.

Definition is_active (g : Grant) (now : Z) : bool :=
  let started := match valid_from g with None => true | Some f => f <=? now end in
  let not_ended := match valid_until g with None => true | Some u => now <? u end in
  started && not_ended.
End Grant.
Notation Grant := Grant.Grant.

Module LimitMergePolicy.
Inductive LimitMergePolicy := Max | Sum | Override.
#[global] Instance LimitMergePolicy_eq_dec : EqDecision LimitMergePolicy.
Proof. solve_decision. Defined.
Definition default_ : LimitMergePolicy := Max.
End LimitMergePolicy.
Notation LimitMergePolicy := LimitMergePolicy.LimitMergePolicy.

Module EntitlementSpec.
Record EntitlementSpec := mk {
  tier : string;
  extra_groups : list string;
  grants : list Grant;
  excluded_features : list string;
  limit_overrides : gmap string Z;
  limit_merge : gmap string LimitMergePolicy;
}.
End EntitlementSpec.
Notation EntitlementSpec := EntitlementSpec.EntitlementSpec.

Module PolicyError.
Inductive PolicyError :=
| Catalog (e : CatalogError)
| UnknownTier (t : string)
| UnknownGroup (g : string)
| UnknownFeature (x : string).
#[global] Instance PolicyError_eq_dec : EqDecision PolicyError.
Proof. solve_decision. Defined.
End PolicyError.
Notation PolicyError := PolicyError.PolicyError.

Module Resolve.

Definition policy_for (spec : EntitlementSpec) (key : string) : LimitMergePolicy :=
  default LimitMergePolicy.default_ (EntitlementSpec.limit_merge spec !! key).

(** The value [merge_limit] writes. *)
Definition merged (existing : option Z) (incoming : Z) (policy : LimitMergePolicy) : Z :=
  match existing, policy with
  | None, _ => incoming
  | Some _, LimitMergePolicy.Override => incoming
  | Some cur, LimitMergePolicy.Max =>
      if (cur =? LIMIT_UNLIMITED) || (incoming =? LIMIT_UNLIMITED) then LIMIT_UNLIMITED
      else Z.max cur incoming
  | Some cur, LimitMergePolicy.Sum =>
      if (cur =? LIMIT_UNLIMITED) || (incoming =? LIMIT_UNLIMITED) then LIMIT_UNLIMITED
      else sat_add_i64 cur incoming
  end.

Definition merge_limit (limits : gmap string Z) (key : string) (incoming : Z)
    (policy : LimitMergePolicy) : gmap string Z :=
  <[key := merged (limits !! key) incoming policy]> limits.

(** [for (k, v) in &source { merge_limit(&mut limits, k, *v, policy_for(spec, k)) }]. *)
Definition merge_limits (spec : EntitlementSpec) (limits source : gmap string Z)
    : gmap string Z :=
  fold_left (fun acc '(k, v) => merge_limit acc k v (policy_for spec k)) (bt_iter source) limits.

Definition add_pattern (c : Catalog) (pattern : string) (out : gset string)
    : result (gset string) PolicyError :=
  ids <-? map_err PolicyError.Catalog (Catalog.expand_pattern c pattern) ;;
  Ok (fold_left (fun acc id => {[id]} ∪ acc) ids out).

(** [remaining] is [MAX_GROUP_DEPTH + 1 - depth], as in [walk_group]. *)
Fixpoint collect_group (c : Catalog) (remaining : nat) (id : string) (out : gset string)
    : result (gset string) PolicyError :=
  match remaining with
  | O => Err (PolicyError.Catalog (CatalogError.DepthExceeded id))
  | S remaining =>
      g <-? ok_of_option (Catalog.group c id) (PolicyError.UnknownGroup id) ;;
      out <-? try_fold (fun out inc => collect_group c remaining inc out) out
                       (GroupMembers.includes (FeatureGroup.members g)) ;;
      try_fold (fun out pat => add_pattern c pat out) out
               (GroupMembers.features (FeatureGroup.members g))
  end.

(** [collect_group(catalog, id, out, 0)]. *)
Definition collect_root (c : Catalog) (out : gset string) (id : string) :=
  collect_group c (S MAX_GROUP_DEPTH) id out.

(** One iteration of the grants loop. *)
Definition apply_grant (c : Catalog) (spec : EntitlementSpec) (now : Z)
    (acc : gset string * gmap string Z) (grant : Grant)
    : result (gset string * gmap string Z) PolicyError :=
  let '(features, limits) := acc in
  if negb (Grant.is_active grant now) then Ok (features, limits)
  else
    features <-? match Grant.target grant with
                 | GrantTarget.Feature id => add_pattern c id features
                 | GrantTarget.Group id => collect_root c features id
                 end ;;
    Ok (features, merge_limits spec limits (Grant.limits grant)).

(** One iteration of the exclusions loop. *)
Definition exclude (c : Catalog) (features : gset string) (ex : string)
    : result (gset string) PolicyError :=
  match Catalog.feature c ex with
  | None => Err (PolicyError.UnknownFeature ex)
  | Some _ => Ok (features ∖ {[ex]})
  end.

Definition resolve (c : Catalog) (spec : EntitlementSpec) (now : Z)
    : result Entitlements PolicyError :=
  check? map_err PolicyError.Catalog (Catalog.validate c) ;;
  tier <-? ok_of_option (Catalog.tier c (EntitlementSpec.tier spec))
             (PolicyError.UnknownTier (EntitlementSpec.tier spec)) ;;
  features <-? try_fold (collect_root c) ∅ (Tier.groups tier) ;;
  features <-? try_fold (fun out pat => add_pattern c pat out) features (Tier.features tier) ;;
  let limits := fold_left (fun acc '(k, v) => <[k := v]> acc) (bt_iter (Tier.limits tier)) ∅ in
  features <-? try_fold (collect_root c) features (EntitlementSpec.extra_groups spec) ;;
  acc <-? try_fold (apply_grant c spec now) (features, limits) (EntitlementSpec.grants spec) ;;
  features <-? try_fold (exclude c) acc.1 (EntitlementSpec.excluded_features spec) ;;
  let limits := merge_limits spec acc.2 (EntitlementSpec.limit_overrides spec) in
  Ok (Entitlements.mk features limits (Tier.id tier) (Tier.label tier) (Catalog.version c)
        None None).

Definition with_context (e : Entitlements) (version_scope : option VersionScope)
    (hint : option SubscriptionHint) : Entitlements :=
  Entitlements.mk (Entitlements.features e) (Entitlements.limits e) (Entitlements.tier_id e)
    (Entitlements.tier_label e) (Entitlements.catalog_version e) version_scope hint.

Definition compare_tiers (c : Catalog) (a b : string) : option comparison :=
  match Catalog.tier c a, Catalog.tier c b with
  | Some ta, Some tb => Some (Tier.rank ta ?= Tier.rank tb)
  | _, _ => None
  end.
End Resolve.
Import Resolve.

(** ** Features *)

(** What a group confers: the features its patterns denote, and those of the groups it
    includes. *)
Inductive group_has (c : Catalog) : string -> string -> Prop :=
| has_pattern id g pat f :
    Catalog.group c id = Some g -> pat ∈ GroupMembers.features (FeatureGroup.members g) ->
    denotes c pat f -> group_has c id f
| has_include id g inc f :
    Catalog.group c id = Some g -> inc ∈ GroupMembers.includes (FeatureGroup.members g) ->
    group_has c inc f -> group_has c id f.

Definition target_has (c : Catalog) (t : GrantTarget) (f : string) : Prop :=
  match t with
  | GrantTarget.Feature id => denotes c id f
  | GrantTarget.Group id => group_has c id f
  end.

(** The features a specification asks for, before exclusions. *)
Definition confers (c : Catalog) (spec : EntitlementSpec) (now : Z) (f : string) : Prop :=
  exists t, Catalog.tier c (EntitlementSpec.tier spec) = Some t /\
  ((exists gid, gid ∈ Tier.groups t /\ group_has c gid f) \/
   (exists pat, pat ∈ Tier.features t /\ denotes c pat f) \/
   (exists gid, gid ∈ EntitlementSpec.extra_groups spec /\ group_has c gid f) \/
   (exists g, g ∈ EntitlementSpec.grants spec /\ Grant.is_active g now = true /\
              target_has c (Grant.target g) f)).

(** A loop whose body adds to a set exactly what its element confers. *)
Lemma try_fold_collect {A B E} (proj : B -> gset string) (Q : A -> string -> Prop)
    (body : B -> A -> result B E) xs :
  (forall acc x acc', body acc x = Ok acc' ->
     forall f, f ∈ proj acc' <-> f ∈ proj acc \/ Q x f) ->
  forall acc acc', try_fold body acc xs = Ok acc' ->
  forall f, f ∈ proj acc' <-> f ∈ proj acc \/ exists x, x ∈ xs /\ Q x f.
Proof.
  intros Hb. induction xs as [|x xs IH]; simpl; intros acc acc'.
  - intros [= ->]. set_solver.
  - rewrite rbind_ok. intros (acc1 & H1 & H2) f.
    rewrite (IH _ _ H2), (Hb _ _ _ H1). set_solver.
Qed.

Lemma add_pattern_spec c pat out out' :
  add_pattern c pat out = Ok out' -> forall f, f ∈ out' <-> f ∈ out \/ denotes c pat f.
Proof.
  unfold add_pattern. destruct (Catalog.expand_pattern c pat) as [ids|] eqn:E; simpl; [|done].
  intros [= <-] f. rewrite <- (expand_pattern_spec _ _ _ E f). clear E. revert out.
  induction ids as [|id ids IH]; intros out; simpl; [set_solver|]. rewrite IH. set_solver.
Qed.

Lemma add_patterns_spec c pats out out' :
  try_fold (fun out pat => add_pattern c pat out) out pats = Ok out' ->
  forall f, f ∈ out' <-> f ∈ out \/ exists pat, pat ∈ pats /\ denotes c pat f.
Proof. apply (try_fold_collect (fun x => x)). intros acc x acc'. apply add_pattern_spec. Qed.

Lemma collect_group_spec c r id out out' :
  collect_group c r id out = Ok out' -> forall f, f ∈ out' <-> f ∈ out \/ group_has c id f.
Proof.
  revert id out out'. induction r as [|r IH]; intros id out out' H f; simpl in H; [done|].
  destruct (Catalog.group c id) as [g|] eqn:Eg; simpl in H; [|done]. inv_result.
  rewrite (add_patterns_spec _ _ _ _ H f).
  pose proof (try_fold_collect (fun x => x) (group_has c) _ _
                (fun out x out' => IH x out out') _ _ E f) as ->.
  assert (group_has c id f <->
    (exists x, x ∈ GroupMembers.includes (FeatureGroup.members g) /\ group_has c x f) \/
    (exists x, x ∈ GroupMembers.features (FeatureGroup.members g) /\ denotes c x f)) as ->;
    [|tauto].
  split.
  - intros Hh. inversion Hh; subst; simplify_eq; eauto.
  - intros [(x & ? & ?)|(x & ? & ?)]; [eapply has_include|eapply has_pattern]; eauto.
Qed.

Lemma collect_roots_spec c ids out out' :
  try_fold (collect_root c) out ids = Ok out' ->
  forall f, f ∈ out' <-> f ∈ out \/ exists id, id ∈ ids /\ group_has c id f.
Proof. apply (try_fold_collect (fun x => x)). intros acc x acc'. apply collect_group_spec. Qed.

Lemma apply_grant_features c spec now acc g acc' :
  apply_grant c spec now acc g = Ok acc' ->
  forall f, f ∈ acc'.1 <->
    f ∈ acc.1 \/ (Grant.is_active g now = true /\ target_has c (Grant.target g) f).
Proof.
  destruct acc as [fs ls]. unfold apply_grant. destruct (Grant.is_active g now); simpl.
  - intros H f. inv_result. simpl. destruct (Grant.target g); simpl.
    + rewrite (add_pattern_spec _ _ _ _ E f). tauto.
    + rewrite (collect_group_spec _ _ _ _ _ E f). tauto.
  - intros [= <-] f. simpl. naive_solver.
Qed.

Lemma exclude_spec c xs fs fs' :
  try_fold (exclude c) fs xs = Ok fs' -> forall f, f ∈ fs' <-> f ∈ fs /\ f ∉ xs.
Proof.
  revert fs. induction xs as [|x xs IH]; simpl; intros fs.
  - intros [= ->]. set_solver.
  - unfold exclude at 1. destruct (Catalog.feature c x); simpl; [|done].
    intros H g. rewrite (IH _ H). set_solver.
Qed.

(** C38 Resolution is exact: the signed feature set is precisely what the tier, the extra
    groups and the grants active at [now] confer - through any nesting of groups and any
    pattern - minus the excluded features, which no grant can bring back. *)
Theorem resolve_features (c : Catalog) (spec : EntitlementSpec) (now : Z) (e : Entitlements)
    (Hr : resolve c spec now = Ok e) (f : string) :
  f ∈ Entitlements.features e <->
  confers c spec now f /\ f ∉ EntitlementSpec.excluded_features spec.
Proof.
  unfold resolve in Hr. inv_result. unfold confers.
  destruct (Catalog.tier c (EntitlementSpec.tier spec)) as [t|] eqn:Et; [|done].
  injection E0 as <-. simpl. rewrite (exclude_spec _ _ _ _ E5).
  rewrite (try_fold_collect fst _ _ _ (apply_grant_features c spec now) _ _ E4 f). simpl.
  rewrite (collect_roots_spec _ _ _ _ E3 f), (add_patterns_spec _ _ _ _ E2 f).
  rewrite (collect_roots_spec _ _ _ _ E1 f).
  naive_solver set_solver.
Qed.

Definition demo_spec : EntitlementSpec :=
  EntitlementSpec.mk "pro" [] [Grant.mk (GrantTarget.Feature "ai") None (Some 100) "promo"
                                 {["seats" := 9]}] ["export.svg"] {["seats" := 3]} ∅.

Lemma resolve_features_witness :
  exists e, resolve demo_catalog2 demo_spec 50 = Ok e /\
    ("ai" ∈ Entitlements.features e <->
     confers demo_catalog2 demo_spec 50 "ai" /\
    "ai" ∉ EntitlementSpec.excluded_features demo_spec).
Proof.
  eexists. split; [vm_compute; reflexivity|].
  apply (resolve_features demo_catalog2 demo_spec 50). vm_compute. reflexivity.
Defined.

(** ** Success *)

(** Every reference of the specification resolves in the catalog. *)
Definition pattern_known (c : Catalog) (pat : string) : Prop :=
  exists ids, Catalog.expand_pattern c pat = Ok ids.
Definition target_known (c : Catalog) (t : GrantTarget) : Prop :=
  match t with
  | GrantTarget.Feature id => pattern_known c id
  | GrantTarget.Group id => is_Some (Catalog.group c id)
  end.
Record spec_known (c : Catalog) (spec : EntitlementSpec) (now : Z) : Prop := {
  sk_tier : is_Some (Catalog.tier c (EntitlementSpec.tier spec));
  sk_groups : forall g, g ∈ EntitlementSpec.extra_groups spec -> is_Some (Catalog.group c g);
  sk_grants : forall g, g ∈ EntitlementSpec.grants spec -> Grant.is_active g now = true ->
                        target_known c (Grant.target g);
  sk_excluded : forall x, x ∈ EntitlementSpec.excluded_features spec ->
                          is_Some (Catalog.feature c x);
}.

(** A loop succeeds exactly when its body does on every element, when that does not depend on
    the state. *)
Lemma try_fold_ok_iff {A B E} (P : A -> Prop) (body : B -> A -> result B E) xs :
  (forall acc x, x ∈ xs -> (exists acc', body acc x = Ok acc') <-> P x) ->
  forall acc, (exists acc', try_fold body acc xs = Ok acc') <-> forall x, x ∈ xs -> P x.
Proof.
  induction xs as [|x xs IH]; intros Hb acc; simpl.
  - split; [set_solver|eauto].
  - setoid_rewrite rbind_ok. split.
    + intros (acc' & acc1 & H1 & H2) y [->|Hy]%elem_of_cons.
      * apply (Hb acc); [set_solver|eauto].
      * eapply (IH ltac:(intros; apply Hb; set_solver)); eauto.
    + intros HP. destruct (proj2 (Hb acc x ltac:(set_solver)) ltac:(apply HP; set_solver))
        as [acc1 H1].
      destruct (proj2 (IH ltac:(intros; apply Hb; set_solver) acc1)
                  ltac:(intros; apply HP; set_solver)) as [acc2 H2]. eauto.
Qed.

Lemma add_pattern_ok c pat out :
  (exists out', add_pattern c pat out = Ok out') <-> pattern_known c pat.
Proof.
  unfold add_pattern, pattern_known. destruct (Catalog.expand_pattern c pat); simpl; naive_solver.
Qed.

Lemma walk_collect c (Hc : well_formed c) r id path out :
  Catalog.walk_group c r id path = Ok tt -> exists out', collect_group c r id out = Ok out'.
Proof.
  revert id path out. induction r as [|r IH]; intros id path out Hw.
  { simpl in Hw. case_bool_decide; done. }
  simpl in Hw |- *. case_bool_decide; [done|].
  destruct (Catalog.group c id) as [g|] eqn:Eg; simpl; [|done]. rewrite for_each_ok in Hw.
  destruct (group_Some _ _ _ Eg) as [Hg _].
  destruct (proj2 (try_fold_ok_iff (fun _ => True) (fun out inc => collect_group c r inc out)
    (GroupMembers.includes (FeatureGroup.members g))
    ltac:(intros acc x Hx; split; [done|intros _; by eapply IH, Hw]) out)) as [out1 ->]; [done|].
  apply (try_fold_ok_iff (pattern_known c)); [intros; apply add_pattern_ok|].
  intros pat Hpat. by apply (wf_group_pats c Hc g pat).
Qed.

Lemma collect_root_ok c (Hc : well_formed c) id out :
  (exists out', collect_root c out id = Ok out') <-> is_Some (Catalog.group c id).
Proof.
  unfold collect_root. split.
  - intros [out' H]. simpl in H. destruct (Catalog.group c id); [eauto|done].
  - intros [g Hg]. destruct (group_Some _ _ _ Hg) as [Hin <-].
    eapply walk_collect; [done|]. by apply (wf_walk c Hc).
Qed.

Lemma apply_grant_ok c (Hc : well_formed c) spec now acc g :
  (exists acc', apply_grant c spec now acc g = Ok acc') <->
  (Grant.is_active g now = true -> target_known c (Grant.target g)).
Proof.
  destruct acc as [fs ls]. unfold apply_grant. destruct (Grant.is_active g now); simpl.
  - setoid_rewrite rbind_ok. unfold target_known. destruct (Grant.target g) as [id|id].
    + rewrite <- (add_pattern_ok c id fs). naive_solver.
    + rewrite <- (collect_root_ok c Hc id fs). naive_solver.
  - naive_solver.
Qed.

Lemma exclude_ok c fs x :
  (exists fs', exclude c fs x = Ok fs') <-> is_Some (Catalog.feature c x).
Proof. unfold exclude. destruct (Catalog.feature c x); [|rewrite is_Some_alt]; naive_solver. Qed.


(** ** Limits *)

(** The values set for a key, in the order they are merged: tier, active grants, overrides. *)
Definition limit_sources (c : Catalog) (spec : EntitlementSpec) (now : Z) (k : string)
    : list Z :=
  omap (fun m : gmap string Z => m !! k)
    (match Catalog.tier c (EntitlementSpec.tier spec) with
     | Some t => [Tier.limits t] | None => []
     end ++
     map Grant.limits (List.filter (fun g => Grant.is_active g now) (EntitlementSpec.grants spec))
     ++ [EntitlementSpec.limit_overrides spec]).

Definition merge_into (policy : LimitMergePolicy) (cur : option Z) (v : Z) : option Z :=
  Some (merged cur v policy).

Lemma merge_fold_other spec l limits k :
  k ∉ map fst l ->
  fold_left (fun acc '(k, v) => merge_limit acc k v (policy_for spec k)) l limits !! k =
  limits !! k.
Proof.
  revert limits. induction l as [|[k' v] l IH]; intros limits Hk; simpl; [done|].
  rewrite IH by set_solver. unfold merge_limit. apply lookup_insert_ne. set_solver.
Qed.

Lemma merge_fold_at spec l limits k v :
  NoDup (map fst l) -> (k, v) ∈ l ->
  fold_left (fun acc '(k, v) => merge_limit acc k v (policy_for spec k)) l limits !! k =
  Some (merged (limits !! k) v (policy_for spec k)).
Proof.
  revert limits. induction l as [|[k' v'] l IH]; intros limits Hd Hin; simpl; [set_solver|].
  simpl in Hd. apply NoDup_cons in Hd as [Hk Hd].
  apply elem_of_cons in Hin as [[= <- <-]|Hin].
  - rewrite merge_fold_other by done. apply lookup_insert_eq.
  - rewrite IH by done. unfold merge_limit. rewrite lookup_insert_ne; [done|].
    intros ->. apply Hk, list_elem_of_fmap. by exists (k, v).
Qed.

Lemma merge_limits_lookup spec limits src k :
  merge_limits spec limits src !! k =
  match src !! k with
  | Some v => merge_into (policy_for spec k) (limits !! k) v
  | None => limits !! k
  end.
Proof.
  unfold merge_limits, merge_into. destruct (src !! k) as [v|] eqn:E.
  - apply merge_fold_at; [apply bt_keys_NoDup|by apply elem_of_bt_iter].
  - apply merge_fold_other. change (k ∉ bt_keys src). rewrite elem_of_bt_keys, E.
    by intros [? ?].
Qed.

Lemma insert_fold_lookup (src : gmap string Z) k :
  fold_left (fun acc '(k, v) => <[k := v]> acc) (bt_iter src) (∅ : gmap string Z) !! k = src !! k.
Proof.
  set (spec := EntitlementSpec.mk "" [] [] [] ∅ ((fun _ => LimitMergePolicy.Override) <$> src)).
  transitivity (merge_limits spec ∅ src !! k);
    [|rewrite merge_limits_lookup, lookup_empty; by destruct (src !! k)].
  unfold merge_limits. f_equal.
  assert (Hp : forall k v, (k, v) ∈ bt_iter src -> policy_for spec k = LimitMergePolicy.Override).
  { intros k' v Hin%elem_of_bt_iter. unfold policy_for. simpl. by rewrite lookup_fmap, Hin. }
  generalize (∅ : gmap string Z). revert Hp. generalize (bt_iter src).
  induction l as [|[k' v] l IH]; intros Hp acc; simpl; [done|].
  rewrite IH by (intros k0 v0 ?; apply (Hp k0 v0); set_solver). f_equal. unfold merge_limit.
  rewrite (Hp k' v) by set_solver. by destruct (acc !! k').
Qed.

Lemma grants_limits c spec now k gs acc acc' :
  try_fold (apply_grant c spec now) acc gs = Ok acc' ->
  acc'.2 !! k =
  fold_left (merge_into (policy_for spec k))
    (omap (fun m : gmap string Z => m !! k)
       (map Grant.limits (List.filter (fun g => Grant.is_active g now) gs))) (acc.2 !! k).
Proof.
  revert acc. induction gs as [|g gs IH]; intros acc; simpl.
  - by intros [= <-].
  - rewrite rbind_ok. intros ([f1 l1] & H1 & H2). rewrite (IH _ H2). clear IH H2.
    destruct acc as [f0 l0]. unfold apply_grant in H1.
    destruct (Grant.is_active g now) eqn:Ea; simpl in *; inv_result; [|by simplify_eq].
    simplify_eq. simpl. rewrite merge_limits_lookup. by destruct (Grant.limits g !! k).
Qed.

Lemma resolve_limits_fold c spec now e k :
  resolve c spec now = Ok e ->
  Entitlements.limits e !! k =
  fold_left (merge_into (policy_for spec k)) (limit_sources c spec now k) None.
Proof.
  unfold resolve, limit_sources. intros Hr. inv_result. simpl.
  destruct (Catalog.tier c (EntitlementSpec.tier spec)) as [t|] eqn:Et; [|done].
  injection E0 as <-. rewrite merge_limits_lookup, (grants_limits _ _ _ _ _ _ _ E4). simpl.
  rewrite insert_fold_lookup. set (gs := map Grant.limits _).
  rewrite !omap_app. simpl.
  destruct (Tier.limits t !! k) as [v|]; simpl;
    destruct (EntitlementSpec.limit_overrides spec !! k) as [o|]; simpl;
    rewrite ?app_nil_r, ?fold_left_app; done.
Qed.

(** The order on limits: [LIMIT_UNLIMITED] is the top. *)
Definition limit_le (a b : Z) : Prop :=
  b = LIMIT_UNLIMITED \/ (a <> LIMIT_UNLIMITED /\ a <= b).

Lemma limit_le_trans a b d : limit_le a b -> limit_le b d -> limit_le a d.
Proof. unfold limit_le. lia. Qed.

Lemma merged_max_ub cur v :
  limit_le cur (merged (Some cur) v LimitMergePolicy.Max) /\
  limit_le v (merged (Some cur) v LimitMergePolicy.Max) /\
  (merged (Some cur) v LimitMergePolicy.Max = cur \/
   merged (Some cur) v LimitMergePolicy.Max = v).
Proof.
  unfold merged, limit_le, LIMIT_UNLIMITED.
  destruct (Z.eqb_spec cur (-1)), (Z.eqb_spec v (-1)); simpl; lia.
Qed.

Lemma fold_max_lub l cur :
  exists m, fold_left (merge_into LimitMergePolicy.Max) l (Some cur) = Some m /\
    limit_le cur m /\ (forall v, v ∈ l -> limit_le v m) /\ (m = cur \/ m ∈ l).
Proof.
  revert cur. induction l as [|v l IH]; intros cur; cbn [fold_left].
  - exists cur. unfold limit_le. split_and!; [done|lia|set_solver|by left].
  - unfold merge_into at 2.
    destruct (IH (merged (Some cur) v LimitMergePolicy.Max)) as (m & -> & Hc & Hl & Hm).
    destruct (merged_max_ub cur v) as (H1 & H2 & H3). exists m. split_and!; [done|..].
    + by eapply limit_le_trans.
    + intros w [->|Hw]%elem_of_cons; [by eapply limit_le_trans|auto].
    + destruct Hm as [->|Hm]; [destruct H3 as [->| ->]|]; set_solver.
Qed.

(** Under the default merge policy a resolved limit is the least upper bound of every value
    set for the key (tier, active grants and overrides, with [LIMIT_UNLIMITED] as top): an
    add-on never shrinks a quota, no value is invented, and a limit is absent exactly when no
    source sets it. In particular a [limit_overrides] entry cannot lower a limit. *)
Theorem max_limit_is_lub (c : Catalog) (spec : EntitlementSpec) (now : Z) (e : Entitlements)
    (k : string) (Hr : resolve c spec now = Ok e) (Hk : policy_for spec k = LimitMergePolicy.Max) :
  match Entitlements.limit e k with
  | Some m => m ∈ limit_sources c spec now k /\
              forall v, v ∈ limit_sources c spec now k -> limit_le v m
  | None => limit_sources c spec now k = []
  end.
Proof.
  unfold Entitlements.limit. rewrite (resolve_limits_fold _ _ _ _ k Hr), Hk.
  destruct (limit_sources c spec now k) as [|v l]; [done|]. cbn [fold_left].
  change (merge_into _ None v) with (Some v).
  destruct (fold_max_lub l v) as (m & -> & Hv & Hl & Hm). split; [set_solver|].
  intros w [->|Hw]%elem_of_cons; auto.
Qed.

Lemma max_limit_is_lub_witness :
  match resolve demo_catalog2 demo_spec 50 with
  | Ok e => match Entitlements.limit e "seats" with
            | Some m => forall v, v ∈ limit_sources demo_catalog2 demo_spec 50 "seats" ->
                                  limit_le v m
            | None => False
            end
  | Err _ => False
  end /\ limit_sources demo_catalog2 demo_spec 50 "seats" = [5; 9; 3].
Proof.
  split; [|reflexivity].
  destruct (resolve demo_catalog2 demo_spec 50) as [e|] eqn:E; [|vm_compute in E; discriminate E].
  pose proof (max_limit_is_lub demo_catalog2 demo_spec 50 e "seats" E eq_refl) as H.
  destruct (Entitlements.limit e "seats"); [exact (proj2 H)|discriminate H].
Defined.
