(* ===== verification/Policy.v ===== *)
(** * The five-axis policy model ([crates/copylocker-server-core/src/policy.rs])

    Validity, seats and runtime settings, the rejected and the merely risky configurations,
    the hard expiry, and the eleven presets.  [warnings] adds two [i64] values without
    saturation: [None] is the abort of an overflow. *)

From stdpp Require Import pretty.
From S2P Require Import Prelude Types Entitlement.

Module FallbackScopeAt.
Inductive FallbackScopeAt := EarnedAt | SubscriptionStart.
#[global] Instance FallbackScopeAt_eq_dec : EqDecision FallbackScopeAt.
Proof. solve_decision. Defined.
End FallbackScopeAt.
Notation FallbackScopeAt := FallbackScopeAt.FallbackScopeAt.

Module PerpetualFallback.
Record PerpetualFallback := mk { after_months : Z; scope_at : FallbackScopeAt }.
End PerpetualFallback.
Notation PerpetualFallback := PerpetualFallback.PerpetualFallback.

Module TrialScope.
Inductive TrialScope := Fingerprint | Account | Email.
#[global] Instance TrialScope_eq_dec : EqDecision TrialScope.
Proof. solve_decision. Defined.
End TrialScope.
Notation TrialScope := TrialScope.TrialScope.

Module Validity.
Inductive Validity :=
| Perpetual
| FixedTerm (duration_secs : Z)
| Subscription (period_secs dunning_grace_secs : Z) (fallback : option PerpetualFallback)
| Trial (duration_secs : Z) (once_per : TrialScope) (extendable_by_secs : option Z).
End Validity.
Notation Validity := Validity.Validity.

Module SeatSpec.
Record SeatSpec := mk {
  seats : Z;
  max_transfers : option Z;
  transfer_window_secs : option Z;
  heartbeat_secs : option Z;
}.
Definition default_ : SeatSpec := mk 1 None None None.
End SeatSpec.
Notation SeatSpec := SeatSpec.SeatSpec.

Module VtSignature.
Inductive VtSignature := Fast | Pq.
End VtSignature.
Notation VtSignature := VtSignature.VtSignature.

Module OfflineUpgradePolicy.
Inductive OfflineUpgradePolicy := RequireOnline | PreloadN | VariantStable.
End OfflineUpgradePolicy.
Notation OfflineUpgradePolicy := OfflineUpgradePolicy.OfflineUpgradePolicy.

Module RuntimeSpec.
Record RuntimeSpec := mk {
  refresh_after_secs : Z;
  grace_secs : Z;
  fpr_tolerance : Z;
  allow_vm : bool;
  allow_olk : bool;
  allow_unbound_olk : bool;
  vt_signature : VtSignature;
  offline_upgrade_policy : OfflineUpgradePolicy;
  preload_variants_n : Z;
  report_attrs : bool;
}.
Definition default_ : RuntimeSpec :=
  mk (7 * 86400) (14 * 86400) 70 true false false VtSignature.Fast
     OfflineUpgradePolicy.RequireOnline 3 false.
(** [RuntimeSpec { refresh_after_secs, grace_secs, ..RuntimeSpec::default() }]. *)
Definition with_times (refresh grace : Z) : RuntimeSpec :=
  mk refresh grace 70 true false false VtSignature.Fast OfflineUpgradePolicy.RequireOnline 3
     false.
End RuntimeSpec.
Notation RuntimeSpec := RuntimeSpec.RuntimeSpec.

Module PolicyDefect.
Inductive PolicyDefect :=
| ZeroSeats
| NonPositiveDuration (what : string)
| ToleranceOutOfRange (v : Z)
| TrialWithMultipleSeats (n : Z)
| UnboundOlkWithoutOlk.
#[global] Instance PolicyDefect_eq_dec : EqDecision PolicyDefect.
Proof. solve_decision. Defined.
End PolicyDefect.
Notation PolicyDefect := PolicyDefect.PolicyDefect.

Module PolicyWarning.
Record PolicyWarning := mk { id : string; message : string }.
End PolicyWarning.
Notation PolicyWarning := PolicyWarning.PolicyWarning.

Module Policy.
Record Policy := mk {
  id : string;
  product_id : string;
  name : string;
  preset : option string;
  entitlement : EntitlementSpec;
  validity : Validity;
  version_scope : VersionScope;
  seats : SeatSpec;
  mode : Mode;
  runtime : RuntimeSpec;
}.

Definition validate (p : Policy) : result unit PolicyDefect :=
  if SeatSpec.seats (seats p) =? 0 then Err PolicyDefect.ZeroSeats
  else if 100 <? RuntimeSpec.fpr_tolerance (runtime p) then
    Err (PolicyDefect.ToleranceOutOfRange (RuntimeSpec.fpr_tolerance (runtime p)))
  else if RuntimeSpec.refresh_after_secs (runtime p) <=? 0 then
    Err (PolicyDefect.NonPositiveDuration "refresh_after_secs")
  else if RuntimeSpec.allow_unbound_olk (runtime p) &&
          negb (RuntimeSpec.allow_olk (runtime p)) then
    Err PolicyDefect.UnboundOlkWithoutOlk
  else
    match validity p with
    | Validity.FixedTerm d =>
        if d <=? 0 then Err (PolicyDefect.NonPositiveDuration "duration_secs") else Ok tt
    | Validity.Subscription period _ _ =>
        if period <=? 0 then Err (PolicyDefect.NonPositiveDuration "period_secs") else Ok tt
    | Validity.Trial d _ _ =>
        if d <=? 0 then Err (PolicyDefect.NonPositiveDuration "duration_secs")
        else if negb (SeatSpec.seats (seats p) =? 1) then
          Err (PolicyDefect.TrialWithMultipleSeats (SeatSpec.seats (seats p)))
        else Ok tt
    | Validity.Perpetual => Ok tt
    end.

(** [if b { out.push(w) }]. *)
Definition push_if (b : bool) (w : PolicyWarning) (out : list PolicyWarning) :=
  if b then out ++ [w] else out.

(** The warnings once the exposure window is computed. *)
Definition warnings_for (p : Policy) (exposure : Z) : list PolicyWarning :=
  let r := runtime p in
  let out := push_if (90 * 86400 <? exposure)
    (PolicyWarning.mk "long_exposure_window"
       ("refresh_after + grace is " +:+ pretty (Z.quot exposure 86400) +:+
        " days; a revoked credential stays usable that long, and so does a leaked epoch key"))
    [] in
  let out :=
    match validity p with
    | Validity.Subscription period_secs _ _ =>
        push_if (Z.quot period_secs 4 <? RuntimeSpec.refresh_after_secs r)
          (PolicyWarning.mk "refresh_slower_than_billing"
             ("refresh_after (" +:+ pretty (Z.quot (RuntimeSpec.refresh_after_secs r) 86400) +:+
              "d) exceeds a quarter of the billing period (" +:+
              pretty (Z.quot period_secs 86400) +:+ "d); cancellations will propagate late"))
          out
    | _ => out
    end in
  let out := push_if (match validity p with Validity.Perpetual => true | _ => false end &&
                      bool_decide (mode p = Mode.EnforcedOnline))
    (PolicyWarning.mk "perpetual_requires_forever_server"
       "a perpetual licence in enforced-online mode stops working if the licence server is ever shut down")
    out in
  let out := push_if (RuntimeSpec.allow_unbound_olk r)
    (PolicyWarning.mk "unbound_olk_copyable"
       "offline keys without a device binding can be copied without limit") out in
  let out := push_if ((RuntimeSpec.grace_secs r =? 0) &&
                      bool_decide (mode p = Mode.OfflineHybrid))
    (PolicyWarning.mk "no_grace_in_offline_mode"
       "grace is zero, so a brief network outage at refresh time locks the user out") out in
  push_if (RuntimeSpec.fpr_tolerance r =? 100)
    (PolicyWarning.mk "zero_fingerprint_tolerance"
       "a tolerance of 100 requires an exact fingerprint match; ordinary hardware changes will cost users their seat")
    out.

Definition warnings (p : Policy) : option (list PolicyWarning) :=
  exposure ← add_i64 (RuntimeSpec.refresh_after_secs (runtime p))
                     (RuntimeSpec.grace_secs (runtime p));
  Some (warnings_for p exposure).

Definition expires_at (p : Policy) (term_start : Z) : option Z :=
  match validity p with
  | Validity.Perpetual => None
  | Validity.FixedTerm d => Some (sat_add_i64 term_start d)
  | Validity.Subscription period_secs dunning_grace_secs _ =>
      Some (sat_add_i64 (sat_add_i64 term_start period_secs) dunning_grace_secs)
  | Validity.Trial d _ _ => Some (sat_add_i64 term_start d)
  end.
End Policy.
Notation Policy := Policy.Policy.

Definition DAY : Z := 86400.
Definition YEAR : Z := 365 * DAY.

Module Preset.
Inductive Preset :=
| Trial14d | Perpetual | PerpetualMajor | PerpetualFallback_ | SubMonthly | SubAnnual
| SubAnnualFallback | TeamSub | EnterpriseAirgap | SaasClient | Edu1y.
#[global] Instance Preset_eq_dec : EqDecision Preset.
Proof. solve_decision. Defined.

Definition ALL : list Preset :=
  [Trial14d; Perpetual; PerpetualMajor; PerpetualFallback_; SubMonthly; SubAnnual;
   SubAnnualFallback; TeamSub; EnterpriseAirgap; SaasClient; Edu1y].

Definition as_str (p : Preset) : string :=
  match p with
  | Trial14d => "trial-14d"
  | Perpetual => "perpetual"
  | PerpetualMajor => "perpetual-major"
  | PerpetualFallback_ => "perpetual-fallback"
  | SubMonthly => "sub-monthly"
  | SubAnnual => "sub-annual"
  | SubAnnualFallback => "sub-annual-fallback"
  | TeamSub => "team-sub"
  | EnterpriseAirgap => "enterprise-airgap"
  | SaasClient => "saas-client"
  | Edu1y => "edu-1y"
  end.

Definition parse (s : string) : option Preset :=
  find_first (fun p => bool_decide (as_str p = s)) ALL.

(** The four axes a preset sets over [base]; the others are [base]'s. *)
Definition preset_validity (p : Preset) : Validity :=
  match p with
  | Trial14d => Validity.Trial (14 * DAY) TrialScope.Fingerprint (Some (14 * DAY))
  | Perpetual | PerpetualMajor | PerpetualFallback_ => Validity.Perpetual
  | SubMonthly | SaasClient => Validity.Subscription (30 * DAY) (7 * DAY) None
  | SubAnnual | TeamSub => Validity.Subscription YEAR (14 * DAY) None
  | SubAnnualFallback =>
      Validity.Subscription YEAR (14 * DAY)
        (Some (PerpetualFallback.mk 12 FallbackScopeAt.EarnedAt))
  | EnterpriseAirgap | Edu1y => Validity.FixedTerm YEAR
  end.

Definition preset_scope (p : Preset) (now : Z) : VersionScope :=
  match p with
  | PerpetualMajor => VersionScope.SemverRange "^1"
  | PerpetualFallback_ => VersionScope.ReleasedBefore (sat_add_i64 now YEAR)
  | EnterpriseAirgap => VersionScope.Pinned []
  | _ => VersionScope.Unlimited
  end.

Definition preset_seats (p : Preset) : SeatSpec :=
  match p with
  | TeamSub => SeatSpec.mk 25 None None (Some (6 * 3600))
  | EnterpriseAirgap => SeatSpec.mk 50 None None None
  | SaasClient => SeatSpec.mk 3 None None (Some 3600)
  | _ => SeatSpec.default_
  end.

Definition preset_runtime (p : Preset) : RuntimeSpec :=
  match p with
  | Trial14d => RuntimeSpec.with_times DAY (3 * DAY)
  | Perpetual | PerpetualMajor | PerpetualFallback_ => RuntimeSpec.default_
  | SubMonthly => RuntimeSpec.with_times (7 * DAY) (7 * DAY)
  | SubAnnual | SubAnnualFallback | TeamSub | Edu1y =>
      RuntimeSpec.with_times (30 * DAY) (14 * DAY)
  | EnterpriseAirgap =>
      RuntimeSpec.mk (180 * DAY) (30 * DAY) 70 true true false VtSignature.Fast
        OfflineUpgradePolicy.PreloadN 3 false
  | SaasClient => RuntimeSpec.with_times 3600 3600
  end.

Definition build (p : Preset) (id product_id tier : string) (now : Z) : Policy :=
  Policy.mk id product_id (as_str p) (Some (as_str p))
    (EntitlementSpec.mk tier [] [] [] ∅ ∅)
    (preset_validity p) (preset_scope p now) (preset_seats p)
    (match p with SaasClient => Mode.EnforcedOnline | _ => Mode.OfflineHybrid end)
    (preset_runtime p).
End Preset.
Notation Preset := Preset.Preset.

(** ** Validation *)

(** The configurations the model rejects, stated on the axes. *)
Definition validity_positive (v : Validity) : Prop :=
  match v with
  | Validity.Perpetual => True
  | Validity.FixedTerm d | Validity.Trial d _ _ => 0 < d
  | Validity.Subscription period _ _ => 0 < period
  end.
Definition is_trial (v : Validity) : Prop :=
  match v with Validity.Trial _ _ _ => True | _ => False end.

Record policy_ok (p : Policy) : Prop := {
  po_seats : SeatSpec.seats (Policy.seats p) <> 0;
  po_tolerance : RuntimeSpec.fpr_tolerance (Policy.runtime p) <= 100;
  po_refresh : 0 < RuntimeSpec.refresh_after_secs (Policy.runtime p);
  po_olk : RuntimeSpec.allow_unbound_olk (Policy.runtime p) = true ->
           RuntimeSpec.allow_olk (Policy.runtime p) = true;
  po_validity : validity_positive (Policy.validity p);
  po_trial : is_trial (Policy.validity p) -> SeatSpec.seats (Policy.seats p) = 1;
}.

Lemma policy_validate_ok p : Policy.validate p = Ok tt <-> policy_ok p.
Proof.
  unfold Policy.validate. split.
  - intros H. destruct (Policy.validity p) eqn:Ev; inv_result; bprop;
      (split; rewrite ?Ev; simpl in *; try lia; try done);
      intros Hu; rewrite Hu in *; simpl in *; by bprop.
  - intros [Hs Ht Hr Ho Hv Htr].
    destruct (Z.eqb_spec (SeatSpec.seats (Policy.seats p)) 0); [done|].
    destruct (Z.ltb_spec 100 (RuntimeSpec.fpr_tolerance (Policy.runtime p))); [lia|].
    destruct (Z.leb_spec (RuntimeSpec.refresh_after_secs (Policy.runtime p)) 0); [lia|].
    destruct (RuntimeSpec.allow_unbound_olk _); [rewrite Ho by done|]; simpl;
      destruct (Policy.validity p) as [|d|d|d]; simpl in *; try done;
      (destruct (Z.leb_spec d 0); [lia|]); rewrite ?Htr by done; done.
Qed.

(** Validation accepts exactly the workable configurations - at least one seat, a tolerance
    within 0..=100, a positive refresh interval and term, unbound offline keys only with
    offline keys, trials single-seat - and every preset, for any identifiers and instant, is
    one. *)
Theorem policy_validation_exact (p : Policy) :
  (Policy.validate p = Ok tt <-> policy_ok p) /\
  (forall preset id product tier now, Policy.validate (Preset.build preset id product tier now) = Ok tt).
Proof.
  split; [apply policy_validate_ok|]. intros preset id product tier now. by destruct preset.
Qed.

(** ** Expiry *)

(** The hard expiry of a validated policy is never before the term starts, is monotone in
    the start, stays an [i64], and for a subscription falls a dunning grace after the period
    end - never at it - unless the calendar itself saturates. *)
Theorem expires_at_bounds (p : Policy) (t1 t2 : Z) (Hv : Policy.validate p = Ok tt)
    (H1 : in_i64 t1) (Ht : t1 <= t2) :
  match Policy.expires_at p t1, Policy.expires_at p t2 with
  | Some e1, Some e2 => e1 <= e2 /\ in_i64 e1
  | None, None => Policy.validity p = Validity.Perpetual
  | _, _ => False
  end /\
  (forall period grace fb, Policy.validity p = Validity.Subscription period grace fb ->
     0 < grace -> t1 + period + grace <= i64_max ->
     Policy.expires_at p t1 = Some (t1 + period + grace) /\ t1 + period < t1 + period + grace) /\
  (forall e, Policy.expires_at p t1 = Some e ->
     (forall period grace fb, Policy.validity p = Validity.Subscription period grace fb -> 0 <= grace) ->
     t1 <= e).
Proof.
  apply policy_validate_ok in Hv as [_ _ _ _ Hp _].
  unfold Policy.expires_at. destruct (Policy.validity p) as [|d|per g fb|d sc ex]; simpl in *.
  - naive_solver.
  - split_and!; [int_lia|int_lia|done|]. intros e [= <-] _. int_lia.
  - split_and!; [int_lia|int_lia| |].
    + intros ? ? ? [= <- <- <-] Hg Hm. split; [f_equal|]; int_lia.
    + intros e [= <-] Hg. specialize (Hg _ _ _ eq_refl). int_lia.
  - split_and!; [int_lia|int_lia|done|]. intros e [= <-] _. int_lia.
Qed.

Lemma expires_at_bounds_witness :
  let p := Preset.build Preset.SubMonthly "pol" "prod" "pro" 0 in
  match Policy.expires_at p 1800000000, Policy.expires_at p 1800000001 with
  | Some e1, Some e2 => e1 <= e2 /\ in_i64 e1
  | None, None => Policy.validity p = Validity.Perpetual
  | _, _ => False
  end.
Proof.
  apply (expires_at_bounds (Preset.build Preset.SubMonthly "pol" "prod" "pro" 0)
           1800000000 1800000001); [reflexivity|split; discriminate|discriminate].
Defined.

(** ** Warnings *)

Lemma push_if_ids b w out x :
  x ∈ map PolicyWarning.id (Policy.push_if b w out) <->
  x ∈ map PolicyWarning.id out \/ (b = true /\ x = PolicyWarning.id w).
Proof.
  unfold Policy.push_if. destruct b; [|naive_solver].
  rewrite map_app, elem_of_app. simpl. rewrite list_elem_of_singleton. naive_solver.
Qed.

(** Computing the warnings of a validated policy aborts exactly when the refresh interval
    plus the grace exceeds the [i64] range; otherwise the long-exposure warning is raised iff
    the window exceeds ninety days. *)
Theorem warnings_exposure (p : Policy) (Hv : Policy.validate p = Ok tt)
    (Hg : in_u32 (RuntimeSpec.grace_secs (Policy.runtime p))) :
  let exposure := RuntimeSpec.refresh_after_secs (Policy.runtime p) +
                  RuntimeSpec.grace_secs (Policy.runtime p) in
  (Policy.warnings p = None <-> i64_max < exposure) /\
  (forall ws, Policy.warnings p = Some ws ->
     ("long_exposure_window" ∈ map PolicyWarning.id ws <-> 90 * DAY < exposure)).
Proof.
  apply policy_validate_ok in Hv as [_ _ Hr _ _ _]. intros exposure.
  unfold Policy.warnings, add_i64. fold exposure. split.
  - destruct (checked i64_min i64_max exposure) eqn:E; simpl.
    + apply checked_Some in E. split; [done|]. lia.
    + apply checked_None in E. split; [|done]. intros _. subst exposure. int_lia.
  - intros ws. destruct (checked i64_min i64_max exposure) as [x|] eqn:E; simpl; [|done].
    apply checked_Some in E as [-> _]. intros [= <-]. unfold Policy.warnings_for.
    change (90 * DAY) with (90 * 86400).
    destruct (Policy.validity p); rewrite !push_if_ids; cbn [PolicyWarning.id map];
      rewrite elem_of_nil, Z.ltb_lt; intuition discriminate.
Qed.

Lemma warnings_exposure_witness :
  let p := Preset.build Preset.EnterpriseAirgap "pol" "prod" "pro" 0 in
  Policy.warnings p = None <-> i64_max < 210 * DAY.
Proof.
  apply (warnings_exposure (Preset.build Preset.EnterpriseAirgap "pol" "prod" "pro" 0));
    [reflexivity|split; discriminate].
Defined.

(** Preset names are a faithful command-line encoding: [parse] inverts [as_str] on every
    preset, accepts nothing else, and [ALL] lists each preset once. *)
Theorem preset_names_roundtrip :
  (forall p, Preset.parse (Preset.as_str p) = Some p) /\
  (forall s p, Preset.parse s = Some p -> s = Preset.as_str p) /\
  NoDup Preset.ALL /\ (forall p, p ∈ Preset.ALL).
Proof.
  split_and!.
  - by destruct p.
  - intros s p [_ H]%find_first_Some. by bprop.
  - by apply (bool_decide_unpack _).
  - intros p. apply (bool_decide_unpack (p ∈ Preset.ALL)). by destruct p.
Qed.
