(* ===== verification/Version.v ===== *)
(** * Releases and version scopes ([crates/copylocker-server-core/src/version.rs])

    The release registry, the server's decision about a reported release, and the semver
    range matcher.  Text is a byte string; [trim] and [split_whitespace] know the ASCII
    whitespace bytes. *)

From S2P Require Import Prelude Types.

Module ReleaseStatus.
Inductive ReleaseStatus := Active | Deprecated | Compromised.
#[global] Instance ReleaseStatus_eq_dec : EqDecision ReleaseStatus.
Proof. solve_decision. Defined.
End ReleaseStatus.
Notation ReleaseStatus := ReleaseStatus.ReleaseStatus.

Module CompromisedAction.
Inductive CompromisedAction := Warn | ForceUpgrade | Revoke.
Definition default_ : CompromisedAction := Warn.
Definition as_str (a : CompromisedAction) : string :=
  match a with Warn => "warn" | ForceUpgrade => "force_upgrade" | Revoke => "revoke" end.
End CompromisedAction.
Notation CompromisedAction := CompromisedAction.CompromisedAction.

Module Release.
Record Release := mk {
  id : string;
  product_id : string;
  app_version : string;
  variant_id : Z;
  build_fingerprint : string;
  channel : string;
  status : ReleaseStatus;
  compromised_action : option CompromisedAction;
  published_at : Z;
}.
End Release.
Notation Release := Release.Release.

(** ** Semantic versions *)

Module SemVer.
Record SemVer := mk { major : Z; minor : Z; patch : Z }.

(** The derived [Ord]: lexicographic on the fields in order. *)
Definition leb (a b : SemVer) : bool :=
  (major a <? major b) ||
  ((major a =? major b) &&
   ((minor a <? minor b) || ((minor a =? minor b) && (patch a <=? patch b)))).
Definition eqb (a b : SemVer) : bool :=
  (major a =? major b) && (minor a =? minor b) && (patch a =? patch b).
Definition ltb (a b : SemVer) : bool := negb (leb b a).

Definition is_space (a : ascii) : bool :=
  let n := Z.of_nat (Ascii.nat_of_ascii a) in ((9 <=? n) && (n <=? 13)) || (n =? 32).
Definition is_digit (a : ascii) : bool :=
  let n := Z.of_nat (Ascii.nat_of_ascii a) in (48 <=? n) && (n <=? 57).

(** [str::split] on the characters satisfying [p]: always at least one piece. *)
Fixpoint split (p : ascii -> bool) (s : string) : list string :=
  match s with
  | EmptyString => [EmptyString]
  | String a s =>
      if p a then EmptyString :: split p s
      else match split p s with
           | [] => [String a EmptyString]
           | w :: ws => String a w :: ws
           end
  end.

Fixpoint trim_start (s : string) : string :=
  match s with
  | String a s' => if is_space a then trim_start s' else s
  | EmptyString => EmptyString
  end.
Fixpoint trim_end (s : string) : string :=
  match s with
  | EmptyString => EmptyString
  | String a s =>
      match trim_end s with
      | EmptyString => if is_space a then EmptyString else String a EmptyString
      | s' => String a s'
      end
  end.
Definition trim (s : string) : string := trim_end (trim_start s).

Definition split_whitespace (s : string) : list string :=
  List.filter (fun w => negb (bool_decide (w = EmptyString))) (split is_space s).

(** [str::parse::<u64>]: an optional [+], then one or more digits, within range. *)
Fixpoint digits (acc : Z) (s : string) : option Z :=
  match s with
  | EmptyString => Some acc
  | String a s =>
      if is_digit a then
        let acc := acc * 10 + (Z.of_nat (Ascii.nat_of_ascii a) - 48) in
        if acc <=? u64_max then digits acc s else None
      else None
  end.
Definition plus : ascii := Ascii.ascii_of_nat 43.
Definition minus : ascii := Ascii.ascii_of_nat 45.
Definition dot : ascii := Ascii.ascii_of_nat 46.
Definition parse_u64 (s : string) : option Z :=
  let body := match s with
              | String a s' => if Ascii.eqb a plus then s' else s
              | EmptyString => s
              end in
  match body with EmptyString => None | _ => digits 0 body end.

Definition parse_semver (s : string) : option SemVer :=
  core ← head (split (fun a => Ascii.eqb a minus || Ascii.eqb a plus) s);
  let parts := split (fun a => Ascii.eqb a dot) core in
  major ← parts !! 0%nat ≫= (fun p => parse_u64 (trim p));
  let minor := default 0 (parse_u64 (trim (default "0" (parts !! 1%nat)))) in
  let patch := default 0 (parse_u64 (trim (default "0" (parts !! 2%nat)))) in
  match parts !! 3%nat with
  | Some _ => None
  | None => Some (mk major minor patch)
  end.

(** [str::strip_prefix]. *)
Fixpoint strip_prefix (pre s : string) : option string :=
  match pre, s with
  | EmptyString, _ => Some s
  | String a pre, String b s => if Ascii.eqb a b then strip_prefix pre s else None
  | String _ _, EmptyString => None
  end.

Inductive op := Ge | Le | Gt | Lt | Caret | Tilde | Eq_.

Definition parse_op (term : string) : op * string :=
  match strip_prefix ">=" term with Some r => (Ge, r) | None =>
  match strip_prefix "<=" term with Some r => (Le, r) | None =>
  match strip_prefix ">" term with Some r => (Gt, r) | None =>
  match strip_prefix "<" term with Some r => (Lt, r) | None =>
  match strip_prefix "^" term with Some r => (Caret, r) | None =>
  match strip_prefix "~" term with Some r => (Tilde, r) | None =>
  match strip_prefix "=" term with Some r => (Eq_, r) | None => (Eq_, term)
  end end end end end end end.

Definition match_op (o : op) (v b : SemVer) : bool :=
  match o with
  | Ge => leb b v
  | Le => leb v b
  | Gt => ltb b v
  | Lt => ltb v b
  | Eq_ => eqb v b
  | Caret =>
      if 0 <? major b then (major v =? major b) && leb b v
      else if 0 <? minor b then (major v =? 0) && (minor v =? minor b) && leb b v
      else (major v =? 0) && (minor v =? 0) && (patch v =? patch b)
  | Tilde => (major v =? major b) && (minor v =? minor b) && leb b v
  end.

Definition match_term (v : SemVer) (term : string) : bool :=
  let '(o, rest) := parse_op term in
  match parse_semver rest with
  | None => false
  | Some b => match_op o v b
  end.

Definition semver_matches (version range : string) : bool :=
  match parse_semver version with
  | None => false
  | Some v =>
      let range := trim range in
      if bool_decide (range = EmptyString) || bool_decide (range = "*") then true
      else forallb (match_term v) (split_whitespace range)
  end.
End SemVer.
Notation SemVer := SemVer.SemVer.

(** ** The registry and the decision *)

Module VersionDecision.
Inductive VersionDecision :=
| InScope (variant_id : Z)
| NotRegistered
| OutOfScope (highest_allowed : option string)
| Compromised (action : CompromisedAction).
End VersionDecision.
Notation VersionDecision := VersionDecision.VersionDecision.

Module ReleaseRegistry.
Record ReleaseRegistry := mk { releases : list Release }.

Definition get (r : ReleaseRegistry) (id : string) : option Release :=
  find_first (fun x => bool_decide (Release.id x = id)) (releases r).

Definition satisfies (release : Release) (scope : VersionScope) : bool :=
  match scope with
  | VersionScope.Unlimited => true
  | VersionScope.ReleasedBefore cutoff => Release.published_at release <=? cutoff
  | VersionScope.Pinned ids => bool_decide (Release.id release ∈ ids)
  | VersionScope.SemverRange range => SemVer.semver_matches (Release.app_version release) range
  end.

(** [Iterator::max_by_key]: the last of the greatest. *)
Fixpoint max_by_key {A} (key : A -> Z) (l : list A) : option A :=
  match l with
  | [] => None
  | x :: l => match max_by_key key l with
              | None => Some x
              | Some y => if key x <=? key y then Some y else Some x
              end
  end.

Definition highest_allowed (r : ReleaseRegistry) (scope : VersionScope) : option Release :=
  max_by_key Release.published_at (List.filter (fun x => satisfies x scope) (releases r)).

Definition decide (registry : ReleaseRegistry) (scope : VersionScope)
    (reported_release_id : string) : VersionDecision :=
  match get registry reported_release_id with
  | None => VersionDecision.NotRegistered
  | Some release =>
      if bool_decide (Release.status release = ReleaseStatus.Compromised) then
        VersionDecision.Compromised
          (default CompromisedAction.default_ (Release.compromised_action release))
      else if satisfies release scope then
        VersionDecision.InScope (Release.variant_id release)
      else VersionDecision.OutOfScope (option_map Release.id (highest_allowed registry scope))
  end.
End ReleaseRegistry.
Notation ReleaseRegistry := ReleaseRegistry.ReleaseRegistry.
Import ReleaseRegistry.

Lemma max_by_key_None {A} (key : A -> Z) l : max_by_key key l = None <-> l = [].
Proof.
  destruct l as [|x l]; simpl; [done|].
  destruct (max_by_key key l) as [y|]; [destruct (key x <=? key y)|]; done.
Qed.

Lemma max_by_key_Some {A} (key : A -> Z) l m :
  max_by_key key l = Some m -> m ∈ l /\ forall x, x ∈ l -> key x <= key m.
Proof.
  revert m. induction l as [|x l IH]; simpl; intros m; [done|].
  destruct (max_by_key key l) as [y|] eqn:E.
  - destruct (IH y eq_refl) as [Hy Hm].
    destruct (Z.leb_spec (key x) (key y)); intros [= <-]; (split; [set_solver|]);
      intros z [->|Hz]%elem_of_cons; try lia; specialize (Hm z Hz); lia.
  - apply max_by_key_None in E as ->. intros [= <-]. split; [set_solver|].
    intros z ->%list_elem_of_singleton. lia.
Qed.

Lemma elem_of_filter_bool {A} (p : A -> bool) l x :
  x ∈ List.filter p l <-> x ∈ l /\ p x = true.
Proof. rewrite !list_elem_of_In. apply filter_In. Qed.

(** The server's verdict on a reported release is exact: keys of a variant are issued only
    for a registered, uncompromised release inside the licensed scope; compromise is answered
    before scope; an unregistered release is never reported as out of scope; and the release
    offered instead is one the registry holds, inside the scope, with no later-published one
    inside the scope (none is offered only if nothing is in scope). *)
Theorem decide_exact (registry : ReleaseRegistry) (scope : VersionScope) (rid : string) :
  match decide registry scope rid with
  | VersionDecision.InScope v =>
      exists r, r ∈ releases registry /\ Release.id r = rid /\ Release.variant_id r = v /\
        Release.status r <> ReleaseStatus.Compromised /\ satisfies r scope = true
  | VersionDecision.NotRegistered =>
      forall r, r ∈ releases registry -> Release.id r <> rid
  | VersionDecision.Compromised a =>
      exists r, r ∈ releases registry /\ Release.id r = rid /\
        Release.status r = ReleaseStatus.Compromised /\
        a = default CompromisedAction.Warn (Release.compromised_action r)
  | VersionDecision.OutOfScope (Some best) =>
      (exists r, get registry rid = Some r /\ satisfies r scope = false) /\
      exists r, r ∈ releases registry /\ Release.id r = best /\ satisfies r scope = true /\
        forall x, x ∈ releases registry -> satisfies x scope = true ->
                  Release.published_at x <= Release.published_at r
  | VersionDecision.OutOfScope None =>
      forall x, x ∈ releases registry -> satisfies x scope = false
  end.
Proof.
  unfold decide. destruct (get registry rid) as [r|] eqn:Eg.
  2: { intros r Hr. apply (proj1 (find_first_None _ _)) with (x := r) in Eg; [|done].
       by bprop. }
  assert (Hr := Eg). apply find_first_Some in Hr as [Hr Hid]. bprop.
  case_bool_decide; [by exists r|]. destruct (satisfies r scope) eqn:Es; [by exists r|].
  unfold highest_allowed. destruct (max_by_key _ _) as [m|] eqn:Em; simpl.
  - split; [by exists r|]. apply max_by_key_Some in Em as [Hm Hmax].
    apply elem_of_filter_bool in Hm as [Hm ?]. exists m. split_and!; [done..|].
    intros x Hx Hs. apply Hmax. by apply elem_of_filter_bool.
  - apply max_by_key_None in Em. intros x Hx. destruct (satisfies x scope) eqn:Ex; [|done].
    assert (x ∈ List.filter (fun x => satisfies x scope) (releases registry)) as Hin
      by by apply elem_of_filter_bool.
    rewrite Em in Hin. set_solver.
Qed.

(** ** Ranges *)

Import SemVer.

(** The first version a caret or tilde range excludes. *)
Definition caret_bound (b : SemVer) : SemVer :=
  if 0 <? major b then mk (major b + 1) 0 0
  else if 0 <? minor b then mk 0 (minor b + 1) 0
  else mk 0 0 (patch b + 1).
Definition tilde_bound (b : SemVer) : SemVer := mk (major b) (minor b + 1) 0.

Definition semver_wf (v : SemVer) : Prop := 0 <= major v /\ 0 <= minor v /\ 0 <= patch v.

Lemma digits_nonneg acc s n : 0 <= acc -> digits acc s = Some n -> 0 <= n.
Proof.
  revert acc. induction s as [|a s IH]; simpl; intros acc Ha; [naive_solver|].
  destruct (is_digit a) eqn:Ed; [|done]. unfold is_digit in Ed. bprop.
  destruct (_ <=? u64_max); [|done]. apply IH. lia.
Qed.

Lemma parse_u64_nonneg s n : parse_u64 s = Some n -> 0 <= n.
Proof.
  unfold parse_u64. destruct (match s with EmptyString => s | String _ _ => _ end); [done|].
  by apply digits_nonneg.
Qed.

Lemma default_u64_nonneg s : 0 <= default 0 (parse_u64 s).
Proof. destruct (parse_u64 s) eqn:E; simpl; [by eapply parse_u64_nonneg|lia]. Qed.

Lemma parse_semver_wf s v : parse_semver s = Some v -> semver_wf v.
Proof.
  unfold parse_semver. destruct (head _) as [core|]; simpl; [|done].
  set (parts := split _ core). destruct (parts !! 0%nat) as [p|]; simpl; [|done].
  destruct (parse_u64 (trim p)) as [ma|] eqn:E; simpl; [|done].
  destruct (parts !! 3%nat); [done|]. intros [= <-]. unfold semver_wf. simpl.
  eauto using parse_u64_nonneg, default_u64_nonneg.
Qed.

(** Decide a comparison of versions field by field. *)
Ltac semver_solve :=
  unfold ltb, leb, eqb, semver_wf in *; cbn [major minor patch andb orb negb] in *;
  repeat match goal with
  | |- context [?a <? ?b] => destruct (Z.ltb_spec a b)
  | |- context [?a =? ?b] => destruct (Z.eqb_spec a b)
  | |- context [?a <=? ?b] => destruct (Z.leb_spec a b)
  end; cbn [major minor patch andb orb negb] in *; try reflexivity; try (exfalso; lia).

Lemma caret_interval v b :
  semver_wf v -> semver_wf b ->
  match_op Caret v b = leb b v && ltb v (caret_bound b).
Proof.
  intros Hv Hb. destruct v as [a1 a2 a3], b as [b1 b2 b3]. unfold match_op, caret_bound.
  cbn [major minor patch].
  destruct (Z.ltb_spec 0 b1); [semver_solve|]. destruct (Z.ltb_spec 0 b2); semver_solve.
Qed.

Lemma tilde_interval v b :
  semver_wf v -> semver_wf b ->
  match_op Tilde v b = leb b v && ltb v (tilde_bound b).
Proof.
  intros Hv Hb. destruct v as [a1 a2 a3], b as [b1 b2 b3]. unfold match_op, tilde_bound.
  cbn [major minor patch].
  semver_solve.
Qed.

(** Range operators mean intervals of versions: [^b] is everything from [b] up to (not
    including) the next change of its leftmost non-zero component, [~b] up to the next minor,
    and the comparison operators are the order on versions; a term whose version does not
    parse matches nothing. *)
Theorem range_terms_are_intervals (version rest : string) (v b : SemVer)
    (Hv : parse_semver version = Some v) (Hb : parse_semver rest = Some b) :
  match_term v ("^" +:+ rest) = leb b v && ltb v (caret_bound b) /\
  match_term v ("~" +:+ rest) = leb b v && ltb v (tilde_bound b) /\
  match_term v (">=" +:+ rest) = leb b v /\
  match_term v ("<=" +:+ rest) = leb v b /\
  (forall term, parse_semver (parse_op term).2 = None -> match_term v term = false).
Proof.
  apply parse_semver_wf in Hv. assert (Hwb := parse_semver_wf _ _ Hb).
  unfold match_term.
  change (parse_op ("^" +:+ rest)) with (Caret, rest).
  change (parse_op ("~" +:+ rest)) with (Tilde, rest).
  change (parse_op (">=" +:+ rest)) with (Ge, rest).
  change (parse_op ("<=" +:+ rest)) with (Le, rest). cbv beta iota. rewrite Hb. split_and!.
  - by apply caret_interval.
  - by apply tilde_interval.
  - done.
  - done.
  - intros term. destruct (parse_op term) as [o r]. cbn [snd]. by intros ->.
Qed.

Lemma range_terms_are_intervals_witness :
  match_term (mk 3 9 0) "^3.2" = leb (mk 3 2 0) (mk 3 9 0) && ltb (mk 3 9 0) (mk 4 0 0).
Proof.
  exact (proj1 (range_terms_are_intervals "3.9.0-beta.1" "3.2" (mk 3 9 0) (mk 3 2 0)
                  eq_refl eq_refl)).
Defined.

(** A range whose minor or patch component is not a number is not rejected: the component
    reads as [0], so [>=2.x] grants every version from 2.0.0 on, and a whole term
    [<major>.<garbage>] means [<major>.0.0]. *)
Theorem garbage_minor_reads_as_zero (v : SemVer) (n : ascii) (Hn : is_digit n = true) :
  match_term v ">=2.x" = match_term v ">=2.0" /\
  parse_semver (String n ".x") = parse_semver (String n ".0.0") /\
  semver_matches "2.5.0" ">=2.oops <3.oops" = true.
Proof.
  split_and!; [reflexivity| |reflexivity].
  destruct n as [[] [] [] [] [] [] [] []]; try discriminate Hn; reflexivity.
Qed.

Lemma garbage_minor_reads_as_zero_witness :
  match_term (mk 7 1 0) ">=2.x" = match_term (mk 7 1 0) ">=2.0".
Proof. apply (garbage_minor_reads_as_zero (mk 7 1 0) "7"). reflexivity. Defined.
