(* ===== verification/Subscription.v ===== *)
(** * Subscriptions and perpetual fallback
      ([crates/copylocker-server-core/src/subscription.rs])

    The webhook-driven state machine.  [apply] takes and returns the stored subscription;
    a history is a list of deliveries, run left to right. *)

From S2P Require Import Prelude Types Policy.

Definition BILLING_MONTH_SECS : Z := 30 * 86400.

Module SubState.
Inductive SubscriptionState :=
| Active | PastDue | Canceling | Suspended | Ended | Expired | PerpetualFallback.
#[global] Instance SubscriptionState_eq_dec : EqDecision SubscriptionState.
Proof. solve_decision. Defined.

Definition is_usable (s : SubscriptionState) : bool :=
  match s with Active | PastDue | Canceling | PerpetualFallback => true | _ => false end.

Definition is_terminal (s : SubscriptionState) : bool :=
  match s with Expired | PerpetualFallback => true | _ => false end.

Definition to_hint (s : SubscriptionState) : option SubscriptionState.SubscriptionState :=
  match s with
  | Active => Some SubscriptionState.Active
  | PastDue => Some SubscriptionState.PastDue
  | Canceling => Some SubscriptionState.Canceling
  | Suspended => Some SubscriptionState.Suspended
  | Ended | Expired | PerpetualFallback => None
  end.
End SubState.

Module SubscriptionEvent.
Inductive SubscriptionEvent :=
| Renewed (period_start period_end : Z)
| PaymentFailed
| PaymentRecovered
| CancelAtPeriodEnd
| CancelReverted
| PeriodElapsed
| DunningElapsed
| Reactivated (period_start period_end : Z)
| FallbackRevoked
| RefundReported.

(** [matches!(event, FallbackRevoked | RefundReported)]. *)
Definition is_security (e : SubscriptionEvent) : bool :=
  match e with FallbackRevoked | RefundReported => true | _ => false end.
End SubscriptionEvent.
Notation SubscriptionEvent := SubscriptionEvent.SubscriptionEvent.

Module TransitionOutcome.
Record TransitionOutcome := mk {
  applied : bool;
  stale : bool;
  from : option SubState.SubscriptionState;
  to : option SubState.SubscriptionState;
  fallback_earned : bool;
  streak_reset : bool;
}.
Definition default_ : TransitionOutcome := mk false false None None false false.
End TransitionOutcome.
Notation TransitionOutcome := TransitionOutcome.TransitionOutcome.

Module Subscription.
Record Subscription := mk {
  provider : string;
  external_id : string;
  state : SubState.SubscriptionState;
  current_period_start : Z;
  current_period_end : Z;
  dunning_until : option Z;
  continuous_paid_months : Z;
  fallback_earned_at : option Z;
  canceled_at : option Z;
  updated_at : Z;
  processed_events : list string;
}.

Definition new (provider external_id : string) (period_start period_end : Z) : Subscription :=
  mk provider external_id SubState.Active period_start period_end None 0 None None
     period_start [].

Definition is_usable_at (s : Subscription) (now : Z) : bool :=
  match state s with
  | SubState.PastDue => match dunning_until s with None => true | Some d => now <? d end
  | other => SubState.is_usable other
  end.

(** Field updates of [&mut self]. *)
Definition set_state st s :=
  mk (provider s) (external_id s) st (current_period_start s) (current_period_end s)
     (dunning_until s) (continuous_paid_months s) (fallback_earned_at s) (canceled_at s)
     (updated_at s) (processed_events s).
Definition set_dunning d s :=
  mk (provider s) (external_id s) (state s) (current_period_start s) (current_period_end s)
     d (continuous_paid_months s) (fallback_earned_at s) (canceled_at s)
     (updated_at s) (processed_events s).
Definition set_months m s :=
  mk (provider s) (external_id s) (state s) (current_period_start s) (current_period_end s)
     (dunning_until s) m (fallback_earned_at s) (canceled_at s)
     (updated_at s) (processed_events s).
Definition set_earned t s :=
  mk (provider s) (external_id s) (state s) (current_period_start s) (current_period_end s)
     (dunning_until s) (continuous_paid_months s) t (canceled_at s)
     (updated_at s) (processed_events s).
Definition set_canceled t s :=
  mk (provider s) (external_id s) (state s) (current_period_start s) (current_period_end s)
     (dunning_until s) (continuous_paid_months s) (fallback_earned_at s) t
     (updated_at s) (processed_events s).
Definition set_period a b s :=
  mk (provider s) (external_id s) (state s) a b
     (dunning_until s) (continuous_paid_months s) (fallback_earned_at s) (canceled_at s)
     (updated_at s) (processed_events s).
Definition set_updated t s :=
  mk (provider s) (external_id s) (state s) (current_period_start s) (current_period_end s)
     (dunning_until s) (continuous_paid_months s) (fallback_earned_at s) (canceled_at s)
     t (processed_events s).
Definition push_event id s :=
  mk (provider s) (external_id s) (state s) (current_period_start s) (current_period_end s)
     (dunning_until s) (continuous_paid_months s) (fallback_earned_at s) (canceled_at s)
     (updated_at s) (processed_events s ++ [id]).

Definition settle_ending (s : Subscription) : SubState.SubscriptionState :=
  match fallback_earned_at s with
  | Some _ => SubState.PerpetualFallback
  | None => SubState.Expired
  end.

Definition paid_months (period_start period_end : Z) : Z :=
  let period_secs := Z.max (sat_sub_i64 period_end period_start) 0 in
  let months := Z.quot period_secs BILLING_MONTH_SECS in
  Z.max (try_into_or u32_max months u32_max) 1.

(** The [Renewed | Reactivated] arm; the boolean is [out.fallback_earned]. *)
Definition renew (s : Subscription) (period_start period_end : Z)
    (fallback : option PerpetualFallback) (now : Z) : Subscription * bool :=
  let from := state s in
  let s := set_dunning None (set_period period_start period_end s) in
  let s := set_months (sat_add_u32 (continuous_paid_months s)
                         (paid_months period_start period_end)) s in
  let s := set_state (if bool_decide (from = SubState.Canceling) then SubState.Canceling
                      else SubState.Active) s in
  match fallback with
  | Some f =>
      match fallback_earned_at s with
      | None => if PerpetualFallback.after_months f <=? continuous_paid_months s
                then (set_earned (Some now) s, true) else (s, false)
      | Some _ => (s, false)
      end
  | None => (s, false)
  end.

(** The [match event] of [apply]: the subscription, [fallback_earned], [streak_reset]. *)
Definition apply_event (s : Subscription) (event : SubscriptionEvent)
    (fallback : option PerpetualFallback) (now dunning_grace_secs : Z)
    : Subscription * bool * bool :=
  let from := state s in
  match event with
  | SubscriptionEvent.Renewed a b | SubscriptionEvent.Reactivated a b =>
      (renew s a b fallback now, false)
  | SubscriptionEvent.PaymentFailed =>
      if bool_decide (from = SubState.Active) || bool_decide (from = SubState.Canceling) then
        (set_dunning (Some (sat_add_i64 now dunning_grace_secs))
           (set_state SubState.PastDue s), false, false)
      else (s, false, false)
  | SubscriptionEvent.PaymentRecovered =>
      if bool_decide (from = SubState.PastDue) then
        (set_dunning None
           (set_state (match canceled_at s with
                       | Some _ => SubState.Canceling | None => SubState.Active end) s),
         false, false)
      else (s, false, false)
  | SubscriptionEvent.CancelAtPeriodEnd =>
      if bool_decide (from = SubState.Active) || bool_decide (from = SubState.PastDue) then
        (set_canceled (Some now) (set_state SubState.Canceling s), false, false)
      else (s, false, false)
  | SubscriptionEvent.CancelReverted =>
      if bool_decide (from = SubState.Canceling) then
        (set_canceled None (set_state SubState.Active s), false, false)
      else (s, false, false)
  | SubscriptionEvent.PeriodElapsed =>
      if bool_decide (from = SubState.Canceling) then
        (set_state (settle_ending s) s, false, false)
      else (s, false, false)
  | SubscriptionEvent.DunningElapsed =>
      if bool_decide (from = SubState.PastDue) then
        (set_months 0 (set_state SubState.Suspended s), false,
         negb (continuous_paid_months s =? 0))
      else (s, false, false)
  | SubscriptionEvent.FallbackRevoked =>
      let s := set_earned None s in
      (if bool_decide (from = SubState.PerpetualFallback) then set_state SubState.Expired s
       else s, false, false)
  | SubscriptionEvent.RefundReported =>
      (set_state (if bool_decide (from = SubState.PerpetualFallback) then SubState.Expired
                  else SubState.Suspended) (set_dunning None s), false, false)
  end.

Definition apply (s : Subscription) (event_id : string) (event : SubscriptionEvent)
    (fallback : option PerpetualFallback) (now dunning_grace_secs : Z)
    : Subscription * TransitionOutcome :=
  if bool_decide (event_id ∈ processed_events s) then (s, TransitionOutcome.default_)
  else if (now <? updated_at s) && negb (SubscriptionEvent.is_security event) then
    (push_event event_id s, TransitionOutcome.mk false true None None false false)
  else if SubState.is_terminal (state s) && negb (SubscriptionEvent.is_security event) then
    (push_event event_id s, TransitionOutcome.default_)
  else
    let from := state s in
    let '(s, earned, reset) := apply_event s event fallback now dunning_grace_secs in
    let s := if bool_decide (state s = SubState.Suspended) &&
                match event with SubscriptionEvent.PeriodElapsed => true | _ => false end
             then set_state (settle_ending s) s else s in
    let s := push_event event_id (set_updated (Z.max (updated_at s) now) s) in
    (s, TransitionOutcome.mk true false (Some from) (Some (state s)) earned reset).

Definition fallback_version_cutoff (s : Subscription) (fallback : option PerpetualFallback)
    : option Z :=
  earned ← fallback_earned_at s;
  f ← fallback;
  match PerpetualFallback.scope_at f with
  | FallbackScopeAt.EarnedAt => Some earned
  | FallbackScopeAt.SubscriptionStart => Some (current_period_start s)
  end.

Definition fallback_progress (s : Subscription) (fallback : option PerpetualFallback)
    : option (Z * Z) :=
  f ← fallback; Some (continuous_paid_months s, PerpetualFallback.after_months f).

Definition hint (s : Subscription) (fallback : option PerpetualFallback)
    : option SubscriptionHint :=
  st ← SubState.to_hint (state s);
  let progress := fallback_progress s fallback in
  Some (SubscriptionHint.mk st (current_period_end s)
          (option_map fst progress) (option_map snd progress)).

Definition preview_ending (s : Subscription) (fallback : option PerpetualFallback)
    : SubState.SubscriptionState * option Z :=
  let end_state := settle_ending s in
  (end_state, if bool_decide (end_state = SubState.PerpetualFallback)
              then fallback_version_cutoff s fallback else None).
End Subscription.
Notation Subscription := Subscription.Subscription.
Import Subscription.

(** ** Histories of deliveries *)

Record delivery := Delivery {
  d_id : string; d_event : SubscriptionEvent; d_fallback : option PerpetualFallback;
  d_now : Z; d_grace : Z;
}.

Definition deliver (s : Subscription) (d : delivery) : Subscription :=
  (apply s (d_id d) (d_event d) (d_fallback d) (d_now d) (d_grace d)).1.

Definition run (s : Subscription) (h : list delivery) : Subscription := fold_left deliver h s.

(** What the stored state always satisfies: [Ended] is never stored, a perpetual fallback is
    an earned one, [PastDue] has a dunning deadline, and the streak is a [u32]. *)
Record sub_wf (s : Subscription) : Prop := {
  wf_not_ended : state s <> SubState.Ended;
  wf_fallback : state s = SubState.PerpetualFallback -> is_Some (fallback_earned_at s);
  wf_past_due : state s = SubState.PastDue -> is_Some (dunning_until s);
  wf_months : in_u32 (continuous_paid_months s);
}.

(** The part of [apply] between the guards and the bookkeeping. *)
Definition step_event (s : Subscription) (d : delivery) : Subscription :=
  let s1 := (apply_event s (d_event d) (d_fallback d) (d_now d) (d_grace d)).1.1 in
  if bool_decide (state s1 = SubState.Suspended) &&
     match d_event d with SubscriptionEvent.PeriodElapsed => true | _ => false end
  then set_state (settle_ending s1) s1 else s1.

(** Why a delivery is not applied. *)
Definition skipped (s : Subscription) (d : delivery) : bool :=
  negb (SubscriptionEvent.is_security (d_event d)) &&
  ((d_now d <? updated_at s) || SubState.is_terminal (state s)).

Lemma deliver_eq s d :
  deliver s d =
  if bool_decide (d_id d ∈ processed_events s) then s
  else push_event (d_id d)
    (if skipped s d then s
     else set_updated (Z.max (updated_at (step_event s d)) (d_now d)) (step_event s d)).
Proof.
  unfold deliver, apply, step_event, skipped. case_bool_decide; [done|].
  destruct (SubscriptionEvent.is_security (d_event d)), (d_now d <? updated_at s),
    (SubState.is_terminal (state s)); simpl; try done;
    destruct (apply_event _ _ _ _ _) as [[s1 b1] b2]; done.
Qed.

(** Case analysis on the branch an event takes. *)
Ltac event_cases s d :=
  unfold step_event, apply_event, renew, settle_ending;
  destruct s as [pv xi st ps pe du mo fe ca up ev], d as [id e fb now g];
  destruct e; simpl; repeat (case_match; simplify_eq/=; try done); simpl in *.

Lemma step_event_keeps s d :
  processed_events (step_event s d) = processed_events s /\
  updated_at (step_event s d) = updated_at s.
Proof. event_cases s d. Qed.

Lemma deliver_processed s d :
  processed_events (deliver s d) =
  if bool_decide (d_id d ∈ processed_events s) then processed_events s
  else processed_events s ++ [d_id d].
Proof.
  rewrite deliver_eq. case_bool_decide; [done|]. destruct (skipped s d); [done|].
  simpl. by rewrite (proj1 (step_event_keeps s d)).
Qed.

Lemma run_app s h1 h2 : run s (h1 ++ h2) = run (run s h1) h2.
Proof. apply fold_left_app. Qed.

(** An invariant of deliveries is an invariant of histories. *)
Lemma run_inv (P : Subscription -> Prop) (Q : delivery -> Prop) s h :
  (forall s d, Q d -> P s -> P (deliver s d)) -> Forall Q h -> P s -> P (run s h).
Proof.
  intros Hstep Hq. revert s. induction Hq as [|d h Hd _ IH]; intros s Hs; simpl; [done|].
  apply IH. by apply Hstep.
Qed.

Lemma run_processed s h id :
  id ∈ processed_events s \/ id ∈ map d_id h -> id ∈ processed_events (run s h).
Proof.
  revert s. induction h as [|d h IH]; intros s; simpl; [set_solver|].
  intros H. apply IH. rewrite deliver_processed. case_bool_decide; set_solver.
Qed.

(** Webhook replay is harmless: in any history, a delivery whose identifier was already
    delivered - whatever its event, clock or policy now says, and whatever came in between -
    leaves the subscription exactly as it was. *)
Theorem replayed_deliveries_ignored (s : Subscription) (h1 h2 : list delivery) (d d' : delivery)
    (Hid : d_id d' = d_id d) :
  run s (h1 ++ d :: h2 ++ [d']) = run s (h1 ++ d :: h2).
Proof.
  rewrite app_comm_cons, app_assoc, run_app. simpl. rewrite deliver_eq.
  rewrite bool_decide_eq_true_2; [done|]. rewrite Hid. apply run_processed.
  right. rewrite map_app. set_solver.
Qed.

Definition demo_fallback : option PerpetualFallback :=
  Some (PerpetualFallback.mk 12 FallbackScopeAt.EarnedAt).
Definition demo_renew (id : string) (n : Z) : delivery :=
  Delivery id (SubscriptionEvent.Renewed (n * YEAR) ((n + 1) * YEAR)) demo_fallback (n * YEAR)
    (14 * DAY).

Lemma replayed_deliveries_ignored_witness :
  run (new "stripe" "sub_1" 0 YEAR) ([] ++ demo_renew "evt_1" 1 :: [] ++ [demo_renew "evt_1" 2]) =
  run (new "stripe" "sub_1" 0 YEAR) ([] ++ demo_renew "evt_1" 1 :: []).
Proof.
  apply (replayed_deliveries_ignored (new "stripe" "sub_1" 0 YEAR) [] []
           (demo_renew "evt_1" 1) (demo_renew "evt_1" 2)). reflexivity.
Defined.

(** ** The stored state *)

Lemma deliver_wf s d : sub_wf s -> sub_wf (deliver s d).
Proof.
  intros Hs. rewrite deliver_eq. case_bool_decide; [done|].
  assert (sub_wf (if skipped s d then s
            else set_updated (Z.max (updated_at (step_event s d)) (d_now d)) (step_event s d)))
    as []; [|by split].
  destruct (skipped s d); [done|]. assert (sub_wf (step_event s d)) as []; [|by split].
  destruct Hs as [H1 H2 H3 H4].
  event_cases s d; split; simpl in *; bprop; simplify_eq/=; try done; try (by eexists); int_lia.
Qed.

Lemma deliver_updated s d : updated_at s <= updated_at (deliver s d).
Proof.
  rewrite deliver_eq. case_bool_decide; [done|]. destruct (skipped s d); simpl; [lia|].
  rewrite (proj2 (step_event_keeps s d)). lia.
Qed.

(** Every history of deliveries, in any order and with any clock, leaves a well-formed
    subscription: [Ended] is never stored, [PerpetualFallback] is held only with an earned
    fallback, [PastDue] always has a dunning deadline (so it is never usable forever), the
    streak stays a [u32], and the modification clock never runs backward. *)
Theorem subscription_histories_wf (s : Subscription) (h : list delivery) (Hs : sub_wf s) :
  sub_wf (run s h) /\ updated_at s <= updated_at (run s h) /\
  (state (run s h) = SubState.PastDue ->
     exists d, dunning_until (run s h) = Some d /\
       forall now, is_usable_at (run s h) now = (now <? d)).
Proof.
  assert (Hwf : sub_wf (run s h) /\ updated_at s <= updated_at (run s h)).
  { apply (run_inv (fun x => sub_wf x /\ updated_at s <= updated_at x) (fun _ => True));
      [|by apply Forall_true|by split].
    intros x d _ [? ?]. split; [by apply deliver_wf|]. pose proof (deliver_updated x d). lia. }
  destruct Hwf as [Hwf Hu]. split_and!; [done..|]. intros Hp.
  destruct (wf_past_due _ Hwf Hp) as [d Hd]. exists d. split; [done|]. intros now.
  unfold is_usable_at. by rewrite Hp, Hd.
Qed.

Lemma subscription_histories_wf_witness :
  sub_wf (run (new "stripe" "sub_1" 0 YEAR)
            [Delivery "e" SubscriptionEvent.PaymentFailed None 5 (14 * DAY)]).
Proof.
  apply (subscription_histories_wf (new "stripe" "sub_1" 0 YEAR)
           [Delivery "e" SubscriptionEvent.PaymentFailed None 5 (14 * DAY)]).
  split; simpl; [discriminate|discriminate|discriminate|split; discriminate].
Defined.

(** ** The perpetual fallback *)

Lemma step_event_earned s d t :
  d_event d <> SubscriptionEvent.FallbackRevoked ->
  fallback_earned_at s = Some t -> fallback_earned_at (step_event s d) = Some t.
Proof. intros He Hf. event_cases s d. Qed.

(** [fallback_earned_at] is write-once: no history without a [FallbackRevoked] delivery
    (renewals, replays, lapses, refunds, reactivations in any order) changes or clears the
    instant at which a fallback was earned. *)
Theorem fallback_write_once (s : Subscription) (h : list delivery) (t : Z)
    (Hh : Forall (fun d => d_event d <> SubscriptionEvent.FallbackRevoked) h)
    (Ht : fallback_earned_at s = Some t) :
  fallback_earned_at (run s h) = Some t.
Proof.
  revert Ht. apply (run_inv (fun x => fallback_earned_at x = Some t) _ _ _ ) with (2 := Hh).
  intros x d Hd Hx. rewrite deliver_eq. case_bool_decide; [done|].
  destruct (skipped x d); simpl; [done|]. by apply step_event_earned.
Qed.

Definition demo_vested : Subscription :=
  run (new "stripe" "sub_1" 0 YEAR) [demo_renew "evt_1" 1].

Lemma fallback_write_once_witness :
  fallback_earned_at (run demo_vested [demo_renew "evt_2" 2; demo_renew "evt_1" 9]) = Some YEAR.
Proof.
  apply (fallback_write_once demo_vested [demo_renew "evt_2" 2; demo_renew "evt_1" 9] YEAR);
    [|reflexivity].
  apply Forall_cons. split; [discriminate|]. apply Forall_cons. split; [discriminate|].
  apply Forall_nil. exact I.
Defined.

(** The months a delivery pays for. *)
Definition paid (d : delivery) : Z :=
  match d_event d with
  | SubscriptionEvent.Renewed a b | SubscriptionEvent.Reactivated a b => paid_months a b
  | _ => 0
  end.

(** The months a history pays for, each event identifier counted once. *)
Fixpoint distinct_paid (seen : list string) (h : list delivery) : Z :=
  match h with
  | [] => 0
  | d :: h => if bool_decide (d_id d ∈ seen) then distinct_paid seen h
              else paid d + distinct_paid (seen ++ [d_id d]) h
  end.

Lemma paid_nonneg d : 0 <= paid d.
Proof. unfold paid, paid_months. destruct (d_event d); lia. Qed.

Lemma distinct_paid_nonneg seen h : 0 <= distinct_paid seen h.
Proof.
  revert seen. induction h as [|d h IH]; intros seen; simpl; [lia|].
  case_bool_decide; [done|]. pose proof (paid_nonneg d). specialize (IH (seen ++ [d_id d])). lia.
Qed.

Lemma step_event_months s d m :
  0 <= continuous_paid_months s ->
  (forall f, d_fallback d = Some f -> m <= PerpetualFallback.after_months f) ->
  0 <= continuous_paid_months (step_event s d) <= continuous_paid_months s + paid d /\
  (fallback_earned_at s = None -> is_Some (fallback_earned_at (step_event s d)) ->
   m <= continuous_paid_months s + paid d).
Proof.
  intros Hm Hf. pose proof (paid_nonneg d) as Hp. revert Hm Hf Hp. unfold paid.
  event_cases s d; intros Hm Hf Hp; (split; [int_lia|]); intros Hn [t Ht]; simplify_eq;
    bprop; specialize (Hf _ eq_refl); int_lia.
Qed.

Lemma deliver_months s d m :
  0 <= continuous_paid_months s ->
  (forall f, d_fallback d = Some f -> m <= PerpetualFallback.after_months f) ->
  let p := if bool_decide (d_id d ∈ processed_events s) then 0 else paid d in
  0 <= continuous_paid_months (deliver s d) <= continuous_paid_months s + p /\
  (fallback_earned_at s = None -> is_Some (fallback_earned_at (deliver s d)) ->
   m <= continuous_paid_months s + p).
Proof.
  intros Hm Hf p. subst p. rewrite deliver_eq. pose proof (paid_nonneg d).
  case_bool_decide; [split; [lia|]; intros -> [? ?]; done|].
  destruct (skipped s d); simpl; [split; [lia|]; intros -> [? ?]; done|].
  by apply step_event_months.
Qed.

Lemma fallback_paid_for s h m :
  0 <= continuous_paid_months s ->
  Forall (fun d => forall f, d_fallback d = Some f -> m <= PerpetualFallback.after_months f) h ->
  fallback_earned_at s = None -> is_Some (fallback_earned_at (run s h)) ->
  m <= continuous_paid_months s + distinct_paid (processed_events s) h.
Proof.
  intros Hm Hh. revert s Hm. induction Hh as [|d h Hd _ IH]; intros s Hm Hn Hs; simpl in *.
  { rewrite Hn in Hs. by destruct Hs. }
  destruct (deliver_months s d m Hm Hd) as [[Hm' Hle] He].
  destruct (fallback_earned_at (deliver s d)) as [t|] eqn:Et.
  - specialize (He Hn ltac:(by eexists)). case_bool_decide.
    + pose proof (distinct_paid_nonneg (processed_events s) h). lia.
    + pose proof (distinct_paid_nonneg (processed_events s ++ [d_id d]) h). lia.
  - specialize (IH _ Hm' Et Hs). rewrite deliver_processed in IH. case_bool_decide; lia.
Qed.



(** ** Endings *)

(** The preview shown to support is what happens: when a cancelling or suspended
    subscription's period elapses (a fresh, current delivery), the state reached is the
    previewed one, and the version cut-off is the previewed one. *)
Theorem preview_is_accurate (s : Subscription) (d : delivery)
    (He : d_event d = SubscriptionEvent.PeriodElapsed)
    (Hst : state s = SubState.Canceling \/ state s = SubState.Suspended)
    (Hfresh : d_id d ∉ processed_events s) (Hnow : updated_at s <= d_now d) :
  state (deliver s d) = (preview_ending s (d_fallback d)).1 /\
  ((preview_ending s (d_fallback d)).2 =
   if SubState.is_usable (state (deliver s d))
   then fallback_version_cutoff (deliver s d) (d_fallback d) else None).
Proof.
  rewrite deliver_eq, bool_decide_eq_false_2 by done.
  assert (skipped s d = false) as ->.
  { unfold skipped. rewrite He. simpl. apply orb_false_iff. split; [by apply Z.ltb_ge|].
    by destruct Hst as [-> | ->]. }
  unfold preview_ending, step_event, apply_event, settle_ending. rewrite He.
  destruct Hst as [Hst|Hst]; rewrite Hst; simpl; rewrite ?Hst; simpl;
    unfold fallback_version_cutoff, settle_ending; destruct (fallback_earned_at s) eqn:Ef;
    simpl; rewrite ?Ef; simpl; done.
Qed.

Lemma preview_is_accurate_witness :
  let s := deliver demo_vested
             (Delivery "c" SubscriptionEvent.CancelAtPeriodEnd demo_fallback YEAR DAY) in
  let d := Delivery "p" SubscriptionEvent.PeriodElapsed demo_fallback (2 * YEAR) DAY in
  state (deliver s d) = (preview_ending s (d_fallback d)).1.
Proof.
  apply preview_is_accurate; [reflexivity|left; reflexivity| |discriminate].
  apply (bool_decide_unpack (_ ∉ _)). reflexivity.
Defined.

(** The two "terminal" states absorb every provider event except the two security events;
    a revocation always ends in [Expired], but a refund reported against an expired
    subscription moves it back to the non-terminal [Suspended]. *)
Theorem terminal_states (s : Subscription) (d : delivery)
    (Ht : SubState.is_terminal (state s) = true) (Hfresh : d_id d ∉ processed_events s) :
  (SubscriptionEvent.is_security (d_event d) = false -> deliver s d = push_event (d_id d) s) /\
  (d_event d = SubscriptionEvent.FallbackRevoked -> state (deliver s d) = SubState.Expired) /\
  (d_event d = SubscriptionEvent.RefundReported ->
     state (deliver s d) = if bool_decide (state s = SubState.Expired)
                           then SubState.Suspended else SubState.Expired).
Proof.
  rewrite deliver_eq, bool_decide_eq_false_2 by done. unfold skipped. rewrite Ht, orb_true_r.
  split_and!; intros He; rewrite He; simpl; try done;
    unfold step_event; rewrite He; simpl; destruct (state s) eqn:Es; try discriminate Ht;
    simpl; rewrite ?Es; done.
Qed.

Lemma terminal_states_witness :
  let s := set_state SubState.Expired demo_vested in
  state (deliver s (Delivery "r" SubscriptionEvent.RefundReported None 0 0)) = SubState.Suspended.
Proof.
  apply (terminal_states (set_state SubState.Expired demo_vested)
           (Delivery "r" SubscriptionEvent.RefundReported None 0 0)); [reflexivity| |reflexivity].
  apply (bool_decide_unpack (_ ∉ _)). reflexivity.
Defined.

(** A refund does not clear an earned fallback: a subscription in [PerpetualFallback] that
    receives two refund reports and then a period end is in [PerpetualFallback] again, with
    the original vesting date. *)
Theorem refund_reinstates_fallback (s : Subscription) (r1 r2 p : string) (t n1 n2 n3 g : Z)
    (fb : option PerpetualFallback)
    (Hst : state s = SubState.PerpetualFallback) (Ht : fallback_earned_at s = Some t)
    (Hids : NoDup [r1; r2; p]) (Hfresh : Forall (fun id => id ∉ processed_events s) [r1; r2; p])
    (Hn : Z.max (updated_at s) (Z.max n1 n2) <= n3) :
  let s' := run s [Delivery r1 SubscriptionEvent.RefundReported fb n1 g;
                   Delivery r2 SubscriptionEvent.RefundReported fb n2 g;
                   Delivery p SubscriptionEvent.PeriodElapsed fb n3 g] in
  state s' = SubState.PerpetualFallback /\ fallback_earned_at s' = Some t.
Proof.
  destruct s as [pv xi st ps pe du mo fe ca up ev]. simpl in *. subst st fe.
  repeat rewrite Forall_cons in Hfresh. destruct Hfresh as (H1 & H2 & H3 & _).
  repeat rewrite NoDup_cons in Hids.
  rewrite (deliver_eq _ (Delivery r1 _ _ _ _)), bool_decide_eq_false_2 by (simpl; set_solver).
  unfold skipped, step_event. simpl.
  rewrite (deliver_eq _ (Delivery r2 _ _ _ _)), bool_decide_eq_false_2 by (simpl; set_solver).
  unfold skipped, step_event. simpl.
  rewrite (deliver_eq _ (Delivery p _ _ _ _)), bool_decide_eq_false_2 by (simpl; set_solver).
  unfold skipped, step_event. simpl.
  rewrite (proj2 (Z.ltb_ge _ _)) by lia. done.
Qed.

Definition demo_fallback_sub : Subscription := set_state SubState.PerpetualFallback demo_vested.

Lemma refund_reinstates_fallback_witness :
  state (run demo_fallback_sub
           [Delivery "r1" SubscriptionEvent.RefundReported None 5 0;
            Delivery "r2" SubscriptionEvent.RefundReported None 6 0;
            Delivery "p" SubscriptionEvent.PeriodElapsed None (2 * YEAR) 0])
  = SubState.PerpetualFallback.
Proof.
  apply (refund_reinstates_fallback demo_fallback_sub "r1" "r2" "p" YEAR 5 6 (2 * YEAR) 0 None);
    [reflexivity|reflexivity| | |discriminate].
  - apply (bool_decide_unpack (NoDup _)). reflexivity.
  - apply (bool_decide_unpack (Forall _ _)). reflexivity.
Defined.
