(* ===== verification/Device.v ===== *)
(** * Device attributes and tolerant matching
      ([crates/copylocker-suite/src/device.rs],
       [crates/copylocker-server-core/src/fingerprint_match.rs], and [DefaultFpr] of
       [activate.rs])

    [FingerprintScheme] is the source's trait; [ScoreLaws] is what its documentation promises
    of [similarity].  Matching is proved against that interface and [DefaultFpr] discharges
    it. *)

From S2P Require Import Prelude Types.

Module AttrValue.
Inductive AttrValue :=
| Absent
| Text (t : string)
| Set_ (items : list string)
| Int (n : Z).
#[global] Instance AttrValue_eq_dec : EqDecision AttrValue.
Proof. solve_decision. Defined.
End AttrValue.
Notation AttrValue := AttrValue.AttrValue.

Module EnvClass.
Inductive EnvClass := Bare | VirtualMachine | Container | Browser.
#[global] Instance EnvClass_eq_dec : EqDecision EnvClass.
Proof. solve_decision. Defined.

Definition as_str (c : EnvClass) : string :=
  match c with
  | Bare => "bare" | VirtualMachine => "vm" | Container => "container" | Browser => "browser"
  end.
End EnvClass.
Notation EnvClass := EnvClass.EnvClass.

Definition ATTR_ENV_CLASS : string := "env_class".

Module DeviceAttrs.
Record DeviceAttrs := mk { entries : gmap string AttrValue }.
Definition new : DeviceAttrs := mk ∅.
Definition insert (d : DeviceAttrs) (key : string) (value : AttrValue) : DeviceAttrs :=
  mk (<[key := value]> (entries d)).
Definition get (d : DeviceAttrs) (key : string) : option AttrValue := entries d !! key.
Definition get_present (d : DeviceAttrs) (key : string) : option AttrValue :=
  match entries d !! key with
  | Some AttrValue.Absent | None => None
  | Some v => Some v
  end.
Definition env_class (d : DeviceAttrs) : EnvClass :=
  match entries d !! ATTR_ENV_CLASS with
  | Some (AttrValue.Text t) =>
      if bool_decide (t = "vm") then EnvClass.VirtualMachine
      else if bool_decide (t = "container") then EnvClass.Container
      else if bool_decide (t = "browser") then EnvClass.Browser
      else EnvClass.Bare
  | _ => EnvClass.Bare
  end.
Definition iter (d : DeviceAttrs) : list (string * AttrValue) := bt_iter (entries d).
Definition len (d : DeviceAttrs) : Z := Z.of_nat (size (entries d)).
Definition is_empty (d : DeviceAttrs) : bool := bool_decide (entries d = ∅).
End DeviceAttrs.
Notation DeviceAttrs := DeviceAttrs.DeviceAttrs.

(** The trait [FingerprintScheme]; a unit type names the implementation. *)
Class FingerprintScheme (F : Type) := {
  compute : list byte -> DeviceAttrs -> Fingerprint;
  similarity : DeviceAttrs -> DeviceAttrs -> Z;
  weights : list (string * Z);
}.
Arguments similarity F {_}.
Arguments weights F {_}.
Arguments compute F {_}.

(** "Weighted similarity in [0..=100]." *)
Class ScoreLaws (F : Type) `{FingerprintScheme F} := {
  similarity_range : forall a b, 0 <= similarity F a b <= 100;
}.

Module MatchOutcome.
Inductive MatchOutcome :=
| Exact
| Tolerant (score : Z)
| Distinct (score : Z).
#[global] Instance MatchOutcome_eq_dec : EqDecision MatchOutcome.
Proof. solve_decision. Defined.

Definition reuses_seat (o : MatchOutcome) : bool :=
  match o with Exact | Tolerant _ => true | Distinct _ => false end.
Definition requires_reissue (o : MatchOutcome) : bool :=
  match o with Tolerant _ => true | _ => false end.
(** The [rank] of [best_match]. *)
Definition rank (o : MatchOutcome) : Z :=
  match o with Exact => 255 | Tolerant score | Distinct score => score end.
End MatchOutcome.
Notation MatchOutcome := MatchOutcome.MatchOutcome.

Section Matching.
Context (F : Type) `{FingerprintScheme F}.

Definition match_device (stored_fp incoming_fp : Fingerprint)
    (stored_attrs incoming_attrs : option DeviceAttrs) (tolerance : Z) : MatchOutcome :=
  if bool_decide (stored_fp = incoming_fp) then MatchOutcome.Exact
  else
    match stored_attrs, incoming_attrs with
    | Some a, Some b =>
        let score := similarity F a b in
        if tolerance <=? score then MatchOutcome.Tolerant score
        else MatchOutcome.Distinct score
    | _, _ => MatchOutcome.Distinct 0
    end.

(** The loop of [best_match] from index [i], with its early exit. *)
Fixpoint best_match_loop (i : nat) (best : option (nat * MatchOutcome * Z))
    (candidates : list (Fingerprint * option DeviceAttrs))
    (incoming_fp : Fingerprint) (incoming_attrs : option DeviceAttrs) (tolerance : Z)
    : option (nat * MatchOutcome * Z) :=
  match candidates with
  | [] => best
  | (fp, attrs) :: rest =>
      let outcome := match_device fp incoming_fp attrs incoming_attrs tolerance in
      let rank := MatchOutcome.rank outcome in
      let better := match best with None => true | Some (_, _, r) => r <? rank end in
      let best := if better then Some (i, outcome, rank) else best in
      if rank =? 255 then best
      else best_match_loop (S i) best rest incoming_fp incoming_attrs tolerance
  end.

Definition best_match (candidates : list (Fingerprint * option DeviceAttrs))
    (incoming_fp : Fingerprint) (incoming_attrs : option DeviceAttrs) (tolerance : Z)
    : option (nat * MatchOutcome) :=
  match best_match_loop 0 None candidates incoming_fp incoming_attrs tolerance with
  | Some (i, o, _) => Some (i, o)
  | None => None
  end.

Context `{!ScoreLaws F}.
Variables (incoming_fp : Fingerprint) (incoming_attrs : option DeviceAttrs) (tolerance : Z).

Definition outcome_of (c : Fingerprint * option DeviceAttrs) : MatchOutcome :=
  match_device c.1 incoming_fp c.2 incoming_attrs tolerance.

Lemma rank_range c : 0 <= MatchOutcome.rank (outcome_of c) <= 255.
Proof.
  unfold outcome_of, match_device. case_bool_decide; simpl; [lia|].
  destruct c.2 as [a|]; [|simpl; lia]. destruct incoming_attrs as [b|]; [|simpl; lia].
  pose proof (similarity_range a b). destruct (_ <=? _); simpl; lia.
Qed.

Lemma rank_exact c : MatchOutcome.rank (outcome_of c) = 255 <-> c.1 = incoming_fp.
Proof.
  unfold outcome_of, match_device. case_bool_decide; simpl; [done|].
  destruct c.2 as [a|]; [|simpl; split; [lia|done]].
  destruct incoming_attrs as [b|]; [|simpl; split; [lia|done]].
  pose proof (similarity_range a b). destruct (_ <=? _); simpl; split; try lia; done.
Qed.

(** With a positive tolerance, the outcomes that reuse a seat are those of rank at least it. *)
Lemma reuses_rank c :
  0 < tolerance <= 255 ->
  MatchOutcome.reuses_seat (outcome_of c) = (tolerance <=? MatchOutcome.rank (outcome_of c)).
Proof.
  intros Ht. unfold outcome_of, match_device. case_bool_decide; simpl; [symmetry; apply Z.leb_le; lia|].
  destruct c.2 as [a|]; [|simpl; symmetry; apply Z.leb_gt; lia].
  destruct incoming_attrs as [b|]; [|simpl; symmetry; apply Z.leb_gt; lia].
  destruct (tolerance <=? similarity F a b) eqn:E; simpl; by rewrite E.
Qed.

(** What the accumulator of the loop records about the candidates seen so far. *)
Definition best_of (seen : list (Fingerprint * option DeviceAttrs))
    (best : option (nat * MatchOutcome * Z)) : Prop :=
  match best with
  | None => seen = []
  | Some (i, o, r) =>
      exists c, seen !! i = Some c /\ o = outcome_of c /\ r = MatchOutcome.rank o /\
        forall c', c' ∈ seen -> MatchOutcome.rank (outcome_of c') <= r
  end.

Lemma best_match_loop_spec rest : forall seen best,
  best_of seen best ->
  best_of (seen ++ rest)
    (best_match_loop (length seen) best rest incoming_fp incoming_attrs tolerance).
Proof.
  induction rest as [|[fp attrs] rest IH]; intros seen best Hb; simpl.
  { by rewrite app_nil_r. }
  set (c := (fp, attrs)). change (match_device fp _ attrs _ _) with (outcome_of c).
  set (r := MatchOutcome.rank (outcome_of c)).
  assert (Hb' : best_of (seen ++ [c])
    (if match best with None => true | Some (_, _, r0) => r0 <? r end
     then Some (length seen, outcome_of c, r) else best)).
  { destruct best as [[[i o] r0]|]; simpl in Hb.
    - destruct Hb as (c0 & Hi & Ho & Hr & Hmax). destruct (Z.ltb_spec r0 r).
      + exists c. split_and!; [by apply list_lookup_middle|done|done|].
        intros c' [Hc'| ->%list_elem_of_singleton]%elem_of_app; [|lia].
        specialize (Hmax c' Hc'). lia.
      + exists c0. split_and!; [by apply lookup_app_l_Some|done|done|].
        intros c' [Hc'| ->%list_elem_of_singleton]%elem_of_app; [auto|lia].
    - subst seen. exists c. split_and!; [done..|]. intros c' ->%list_elem_of_singleton. lia. }
  destruct (Z.eqb_spec r 255) as [Hr|Hr].
  - (* the early exit: nothing later ranks higher than an exact match *)
    rewrite cons_middle, app_assoc.
    destruct (if _ : bool then _ else _) as [[[i o] r0]|]; simpl in Hb' |- *.
    + destruct Hb' as (c0 & Hi & -> & -> & Hmax). exists c0.
      split_and!; [by apply lookup_app_l_Some|done|done|].
      intros c' _. specialize (Hmax c ltac:(set_solver)). pose proof (rank_range c').
      fold r in Hmax. lia.
    + by destruct seen.
  - specialize (IH (seen ++ [c]) _ Hb'). rewrite length_app in IH. simpl in IH.
    rewrite Nat.add_1_r, <- app_assoc in IH. exact IH.
Qed.

Lemma best_match_spec candidates i o :
  best_match candidates incoming_fp incoming_attrs tolerance = Some (i, o) ->
  exists c, candidates !! i = Some c /\ o = outcome_of c /\
    forall c', c' ∈ candidates -> MatchOutcome.rank (outcome_of c') <= MatchOutcome.rank o.
Proof.
  unfold best_match. pose proof (best_match_loop_spec candidates [] None eq_refl) as Hs.
  simpl in Hs. destruct (best_match_loop _ _ _ _ _ _) as [[[j p] r]|]; [|done].
  intros [= -> ->]. destruct Hs as (c & ? & -> & -> & ?). by exists c.
Qed.

Lemma best_match_None candidates :
  best_match candidates incoming_fp incoming_attrs tolerance = None <-> candidates = [].
Proof.
  unfold best_match. pose proof (best_match_loop_spec candidates [] None eq_refl) as Hs.
  simpl in Hs. destruct (best_match_loop _ _ _ _ _ _) as [[[j p] r]|].
  - split; [done|]. intros ->. destruct Hs as (c & ? & _). done.
  - done.
Qed.

End Matching.

(** Pairing a returning device with its own seat is sound and complete, for any scheme whose
    scores stay in 0..=100: the seat [best_match] names really holds the outcome reported; with
    a positive tolerance a seat is reused exactly when some activation matches exactly or
    scores at least the tolerance; and an exact match always beats a tolerant one, whatever
    the order of the activations. *)
Theorem best_match_exact (F : Type) `{ScoreLaws F}
    (candidates : list (Fingerprint * option DeviceAttrs)) (fp : Fingerprint)
    (attrs : option DeviceAttrs) (tolerance : Z) (Ht : 0 < tolerance <= 255) :
  (forall i o, best_match F candidates fp attrs tolerance = Some (i, o) ->
     exists c, candidates !! i = Some c /\ o = match_device F c.1 fp c.2 attrs tolerance) /\
  ((exists i o, best_match F candidates fp attrs tolerance = Some (i, o) /\
                MatchOutcome.reuses_seat o = true) <->
   exists c, c ∈ candidates /\
     (c.1 = fp \/ exists a b, c.2 = Some a /\ attrs = Some b /\ tolerance <= similarity F a b)) /\
  ((exists c, c ∈ candidates /\ c.1 = fp) ->
   exists i, best_match F candidates fp attrs tolerance = Some (i, MatchOutcome.Exact)).
Proof.
  assert (Hre : forall c, MatchOutcome.reuses_seat (match_device F c.1 fp c.2 attrs tolerance) = true
    <-> c.1 = fp \/ exists a b, c.2 = Some a /\ attrs = Some b /\ tolerance <= similarity F a b).
  { intros [f' s]. unfold match_device. simpl. case_bool_decide; [naive_solver|].
    destruct s as [a|], attrs as [b|]; simpl; try naive_solver.
    destruct (Z.leb_spec tolerance (similarity F a b)); simpl; naive_solver lia. }
  split_and!.
  - intros i o (c & ? & -> & _)%best_match_spec; [by exists c|done].
  - split.
    + intros (i & o & (c & Hc & -> & _)%best_match_spec & Hr); [|done].
      exists c. split; [by eapply list_elem_of_lookup_2|]. by apply Hre.
    + intros (c & Hc & Hm%Hre).
      destruct (best_match F candidates fp attrs tolerance) as [[i o]|] eqn:E.
      * exists i, o. split; [done|]. apply best_match_spec in E as (c0 & _ & -> & Hmax); [|done].
        rewrite (reuses_rank F fp attrs tolerance c0 Ht). apply Z.leb_le.
        specialize (Hmax c Hc).
        pose proof (reuses_rank F fp attrs tolerance c Ht) as Hcr.
        unfold outcome_of in Hcr at 1. rewrite Hm in Hcr. symmetry in Hcr. bprop. lia.
      * apply best_match_None in E; [|done]. subst. set_solver.
  - intros (c & Hc & Hfp).
    destruct (best_match F candidates fp attrs tolerance) as [[i o]|] eqn:E.
    + exists i. do 2 f_equal. apply best_match_spec in E as (c0 & _ & -> & Hmax); [|done].
      specialize (Hmax c Hc). pose proof (rank_range F fp attrs tolerance c0).
      rewrite (proj2 (rank_exact F fp attrs tolerance c) Hfp) in Hmax.
      assert (c0.1 = fp) as Hf0 by (apply (rank_exact F fp attrs tolerance); lia).
      unfold outcome_of, match_device. by rewrite bool_decide_eq_true_2.
    + apply best_match_None in E; [|done]. subst. set_solver.
Qed.

(** ** [DefaultFpr] ([activate.rs]) *)

Module DefaultFpr.
Inductive DefaultFpr := DefaultFpr_.

Definition weights_ : list (string * Z) :=
  [("machine_guid", 40); ("cpu_id", 15); ("board_serial", 15); ("disk_serial", 10);
   ("os_install_id", 10); ("platform_uuid", 45); ("hw_model_serial", 20);
   ("boot_volume_uuid", 15); ("machine_id", 40); ("dmi_product_uuid", 20); ("rootfs_uuid", 15);
   ("web_device_id", 60); ("ua_platform", 15); ("hardware_concurrency", 10); ("mac_addrs", 10);
   ("hostname", 5); ("timezone", 5)].

(** One iteration of the loop on [(total, matched)]. *)
Definition tally (a b : DeviceAttrs) (acc : Z * Z) (kw : string * Z) : Z * Z :=
  let '(total, matched) := acc in
  let '(key, weight) := kw in
  match DeviceAttrs.get_present a key, DeviceAttrs.get_present b key with
  | None, None => (total, matched)
  | Some x, Some y => (total + weight, if bool_decide (x = y) then matched + weight else matched)
  | _, _ => (total + weight, matched)
  end.

(** The [u32] sums are at most 350 and [matched * 100] at most 35000, so none wraps. *)
Definition similarity_ (a b : DeviceAttrs) : Z :=
  let '(total, matched) := fold_left (tally a b) weights_ (0, 0) in
  if total =? 0 then 0 else try_into_or u8_max (Z.quot (matched * 100) total) 100.

#[global] Instance DefaultFpr_scheme : FingerprintScheme DefaultFpr := {
  compute := fun _ _ => [];
  similarity := similarity_;
  weights := weights_;
}.
End DefaultFpr.
Notation DefaultFpr := DefaultFpr.DefaultFpr.
Import DefaultFpr.

(** The attributes on which at least one device reports, and those on which they agree. *)
Definition observed (a b : DeviceAttrs) (k : string) : bool :=
  negb (bool_decide (DeviceAttrs.get_present a k = None) &&
        bool_decide (DeviceAttrs.get_present b k = None)).
Definition agreed (a b : DeviceAttrs) (k : string) : bool :=
  observed a b k && bool_decide (DeviceAttrs.get_present a k = DeviceAttrs.get_present b k).

Definition weigh (p : string -> bool) (kws : list (string * Z)) : Z :=
  foldr (fun kw acc => (if p kw.1 then kw.2 else 0) + acc) 0 kws.

Lemma tally_fold a b kws total matched :
  fold_left (tally a b) kws (total, matched) =
  (total + weigh (observed a b) kws, matched + weigh (agreed a b) kws).
Proof.
  revert total matched. induction kws as [|[k w] kws IH]; intros total matched; simpl.
  { by rewrite !Z.add_0_r. }
  assert (observed a b k = match DeviceAttrs.get_present a k, DeviceAttrs.get_present b k with
                           | None, None => false | _, _ => true end) as ->.
  { unfold observed. by destruct (DeviceAttrs.get_present a k), (DeviceAttrs.get_present b k). }
  assert (agreed a b k = match DeviceAttrs.get_present a k, DeviceAttrs.get_present b k with
                         | Some x, Some y => bool_decide (x = y) | _, _ => false end) as ->.
  { unfold agreed, observed.
    destruct (DeviceAttrs.get_present a k), (DeviceAttrs.get_present b k); simpl; try done.
    apply bool_decide_ext. naive_solver. }
  destruct (DeviceAttrs.get_present a k) as [x|], (DeviceAttrs.get_present b k) as [y|];
    simpl; rewrite IH; try case_bool_decide; f_equal; lia.
Qed.

(** The score is the agreed share of the observed weight, in percent. *)
Lemma similarity_eq a b :
  similarity_ a b =
  let total := weigh (observed a b) weights_ in
  if total =? 0 then 0
  else try_into_or u8_max (Z.quot (weigh (agreed a b) weights_ * 100) total) 100.
Proof. unfold similarity_. by rewrite tally_fold. Qed.

Lemma weigh_mono p q kws :
  Forall (fun kw => 0 < kw.2) kws -> (forall k, p k = true -> q k = true) ->
  0 <= weigh p kws <= weigh q kws.
Proof.
  intros Hpos Hpq. induction Hpos as [|[k w] kws Hw _ IH]; simpl in *; [lia|].
  specialize (Hpq k). destruct (p k), (q k); lia.
Qed.

Lemma weigh_eq p q kws :
  Forall (fun kw => 0 < kw.2) kws -> (forall k, p k = true -> q k = true) ->
  weigh p kws = weigh q kws -> forall kw, kw ∈ kws -> q kw.1 = true -> p kw.1 = true.
Proof.
  intros Hpos Hpq. induction Hpos as [|[k w] kws Hw Hpos IH]; simpl in *; [set_solver|].
  intros Heq kw [->|Hkw]%elem_of_cons Hq; simpl in *.
  - rewrite Hq in Heq. destruct (p k); [done|]. pose proof (weigh_mono p q kws Hpos Hpq). lia.
  - apply IH; [|done..]. pose proof (weigh_mono p q kws Hpos Hpq).
    pose proof (Hpq k). destruct (p k), (q k); lia.
Qed.

Lemma weights_positive : Forall (fun kw => 0 < kw.2) weights_.
Proof. apply (bool_decide_unpack (Forall _ _)). reflexivity. Qed.

Lemma agreed_observed a b k : agreed a b k = true -> observed a b k = true.
Proof. unfold agreed. intros H. by bprop. Qed.

Lemma similarity_bounds a b : 0 <= similarity_ a b <= 100.
Proof.
  rewrite similarity_eq. cbv zeta.
  destruct (Z.eqb_spec (weigh (observed a b) weights_) 0); [lia|].
  pose proof (weigh_mono _ _ _ weights_positive (agreed_observed a b)) as Hm.
  set (x := weigh (agreed a b) weights_) in *. set (y := weigh (observed a b) weights_) in *.
  assert (0 <= x * 100 ÷ y <= 100) as Hq.
  { rewrite Z.quot_div_nonneg by lia. split; [apply Z.div_pos; lia|].
    apply Z.div_le_upper_bound; lia. }
  unfold try_into_or. destruct (_ && _); lia.
Qed.

#[global] Instance DefaultFpr_laws : ScoreLaws DefaultFpr.
Proof. constructor. exact similarity_bounds. Qed.

Lemma observed_comm a b k : observed a b k = observed b a k.
Proof. unfold observed. by rewrite andb_comm. Qed.
Lemma agreed_comm a b k : agreed a b k = agreed b a k.
Proof. unfold agreed. rewrite observed_comm. f_equal. apply bool_decide_ext. naive_solver. Qed.
Lemma weigh_ext p q kws : (forall k, p k = q k) -> weigh p kws = weigh q kws.
Proof. intros Hpq. induction kws as [|[k w] kws IH]; simpl; [done|]. by rewrite Hpq, IH. Qed.

Lemma weigh_nonzero p kws :
  Forall (fun kw => 0 < kw.2) kws ->
  weigh p kws <> 0 <-> exists k w, (k, w) ∈ kws /\ p k = true.
Proof.
  intros Hpos. induction Hpos as [|[k w] kws Hw Hpos IH]; simpl in *; [set_solver|].
  pose proof (weigh_mono p p kws Hpos (fun _ h => h)). destruct (p k) eqn:E.
  - split; [|lia]. intros _. exists k, w. set_solver.
  - rewrite Z.add_0_l, IH. split; [set_solver|].
    intros (k' & w' & [[= -> ->]|Hin]%elem_of_cons & Hp); [congruence|eauto].
Qed.

Lemma weigh_agreed a b :
  weigh (agreed a b) weights_ = weigh (observed a b) weights_ <->
  forall k w, (k, w) ∈ weights_ -> DeviceAttrs.get_present a k = DeviceAttrs.get_present b k.
Proof.
  split.
  - intros Hxy k w Hin.
    pose proof (weigh_eq _ _ _ weights_positive (agreed_observed a b) Hxy _ Hin) as Hk.
    simpl in Hk. unfold agreed, observed in Hk.
    destruct (DeviceAttrs.get_present a k), (DeviceAttrs.get_present b k); simpl in Hk;
      try done; by specialize (Hk eq_refl); bprop.
  - generalize weights_. intros l. induction l as [|[k w] l IH]; intros Hs; [done|].
    simpl. rewrite IH by (intros k' w' ?; apply (Hs k' w'); set_solver). f_equal.
    unfold agreed. rewrite bool_decide_eq_true_2 by (apply (Hs k w); set_solver).
    by rewrite andb_true_r.
Qed.

Lemma percent_full x y : 0 <= x <= y -> y <> 0 -> x * 100 / y = 100 <-> x = y.
Proof.
  intros Hx Hy. split; [|intros ->; rewrite Z.mul_comm; by apply Z.div_mul].
  intros Hq. pose proof (Z.div_mod (x * 100) y Hy). pose proof (Z.mod_pos_bound (x * 100) y).
  nia.
Qed.

(** The default device similarity is a symmetric score in 0..=100 that is 100 exactly when
    the devices report at least one weighted attribute and agree (presence included) on every
    one of them: a missing attribute on one side lowers the score, a missing attribute on both
    is ignored, and two devices that report nothing score 0. *)
Theorem similarity_correct (a b : DeviceAttrs) :
  0 <= similarity DefaultFpr a b <= 100 /\
  similarity DefaultFpr a b = similarity DefaultFpr b a /\
  (similarity DefaultFpr a b = 100 <->
   (exists k w, (k, w) ∈ weights_ /\ DeviceAttrs.get_present a k <> None) /\
   forall k w, (k, w) ∈ weights_ ->
     DeviceAttrs.get_present a k = DeviceAttrs.get_present b k).
Proof.
  split_and!; [apply similarity_bounds|apply similarity_bounds| |]; cbn [similarity DefaultFpr_scheme].
  { rewrite !similarity_eq. cbv zeta.
    by rewrite (weigh_ext _ _ _ (observed_comm a b)), (weigh_ext _ _ _ (agreed_comm a b)). }
  rewrite similarity_eq. cbv zeta. rewrite <- weigh_agreed.
  pose proof (weigh_mono _ _ _ weights_positive (agreed_observed a b)) as Hm.
  pose proof (weigh_nonzero (observed a b) _ weights_positive) as Hnz.
  destruct (Z.eqb_spec (weigh (observed a b) weights_) 0) as [Hy|Hy].
  - split; [lia|]. intros [(k & w & Hin & Hk) _]. exfalso. apply (proj2 Hnz); [|done].
    exists k, w. split; [done|]. unfold observed. by rewrite bool_decide_eq_false_2.
  - unfold try_into_or. rewrite Z.quot_div_nonneg by lia.
    rewrite (proj2 (Z.leb_le _ _)) by (apply Z.div_pos; lia).
    rewrite (proj2 (Z.leb_le _ _)) by (apply Z.div_le_upper_bound; unfold u8_max; lia).
    cbn [andb]. rewrite percent_full by done. split; [|tauto]. intros Hxy. split; [|done].
    destruct (proj1 Hnz Hy) as (k & w & Hin & Ho). exists k, w. split; [done|].
    rewrite weigh_agreed in Hxy. specialize (Hxy k w Hin). unfold observed in Ho.
    intros Hn. by rewrite <- Hxy, Hn in Ho.
Qed.

Definition demo_attrs (disk : string) : DeviceAttrs :=
  DeviceAttrs.insert (DeviceAttrs.insert DeviceAttrs.new "machine_guid" (AttrValue.Text "g"))
    "disk_serial" (AttrValue.Text disk).

Lemma best_match_exact_witness :
  exists i o, best_match DefaultFpr [([1], None); ([2], Some (demo_attrs "d0"))] [3]
                (Some (demo_attrs "d1")) 70 = Some (i, o) /\ MatchOutcome.reuses_seat o = true.
Proof.
  apply (best_match_exact DefaultFpr [([1], None); ([2], Some (demo_attrs "d0"))] [3]
           (Some (demo_attrs "d1")) 70); [lia|].
  exists ([2], Some (demo_attrs "d0")). split; [set_solver|]. right.
  exists (demo_attrs "d0"), (demo_attrs "d1"). split_and!; [reflexivity..|].
  vm_compute. discriminate.
Defined.
