(* ===== verification/License.v ===== *)
(** * Licence records and seats
      ([crates/copylocker-server-core/src/store.rs], [activate.rs], [heartbeat.rs],
       [deactivate.rs], [revoke.rs])

    A [LicenseRecord] is the state a licence's durable object holds.  Every operation that the
    source writes on [&mut LicenseRecord] takes the record and returns the record with the
    result; the theorems quantify over arbitrary sequences of operations. *)

From S2P Require Import Prelude Types Errors Catalog Entitlement Policy Version Device.

(** ** The stored state ([store.rs]) *)

Module ActivationStatus.
Inductive ActivationStatus := Active | Released | Revoked | Pending.
#[global] Instance ActivationStatus_eq_dec : EqDecision ActivationStatus.
Proof. solve_decision. Defined.
End ActivationStatus.
Notation ActivationStatus := ActivationStatus.ActivationStatus.

Module LicenseStatus.
Inductive LicenseStatus := Active | Suspended | Expired | Revoked.
#[global] Instance LicenseStatus_eq_dec : EqDecision LicenseStatus.
Proof. solve_decision. Defined.
End LicenseStatus.
Notation LicenseStatus := LicenseStatus.LicenseStatus.

Module ActivationRecord.
Record ActivationRecord := mk {
  machine_id : MachineId;
  fingerprint : Fingerprint;
  attrs : option DeviceAttrs;
  device_kem_ek : list byte;
  device_sig_vk : list byte;
  status : ActivationStatus;
  activation_path : string;
  release_id : option string;
  variant_id : option Z;
  created_at : Z;
  last_seen_at : option Z;
  refresh_after : Z;
  not_after : Z;
  transfer_count : Z;
}.
Definition set_status (st : ActivationStatus) (r : ActivationRecord) : ActivationRecord :=
  mk (machine_id r) (fingerprint r) (attrs r) (device_kem_ek r) (device_sig_vk r) st
     (activation_path r) (release_id r) (variant_id r) (created_at r) (last_seen_at r)
     (refresh_after r) (not_after r) (transfer_count r).
Definition set_last_seen (t : option Z) (r : ActivationRecord) : ActivationRecord :=
  mk (machine_id r) (fingerprint r) (attrs r) (device_kem_ek r) (device_sig_vk r) (status r)
     (activation_path r) (release_id r) (variant_id r) (created_at r) t
     (refresh_after r) (not_after r) (transfer_count r).
Definition set_transfers (n : Z) (r : ActivationRecord) : ActivationRecord :=
  mk (machine_id r) (fingerprint r) (attrs r) (device_kem_ek r) (device_sig_vk r) (status r)
     (activation_path r) (release_id r) (variant_id r) (created_at r) (last_seen_at r)
     (refresh_after r) (not_after r) n.
End ActivationRecord.
Notation ActivationRecord := ActivationRecord.ActivationRecord.
Import ActivationRecord.

Module LicenseRecord.
Record LicenseRecord := mk {
  id : LicenseId;
  product_id : string;
  policy_id : string;
  status : LicenseStatus;
  seats_override : option Z;
  expires_at : option Z;
  revoked_at_epoch : option Z;
  activations : list ActivationRecord;
}.
Definition set_activations (l : LicenseRecord) (acts : list ActivationRecord) : LicenseRecord :=
  mk (id l) (product_id l) (policy_id l) (status l) (seats_override l) (expires_at l)
     (revoked_at_epoch l) acts.

(** [matches!(a.status, Active | Pending)]. *)
Definition holds_seat (a : ActivationRecord) : bool :=
  match ActivationRecord.status a with
  | ActivationStatus.Active | ActivationStatus.Pending => true | _ => false
  end.

Definition occupied_seats (l : LicenseRecord) : Z :=
  try_into_or u32_max (Z.of_nat (count_if holds_seat (activations l))) u32_max.

Definition activation (l : LicenseRecord) (id : MachineId) : option ActivationRecord :=
  find_first (fun a => bool_decide (machine_id a = id)) (activations l).

(** [if let Some(a) = self.activation_mut(id) { f(a) }]. *)
Definition activation_mut (l : LicenseRecord) (id : MachineId)
    (f : ActivationRecord -> ActivationRecord) : LicenseRecord :=
  set_activations l (update_first (fun a => bool_decide (machine_id a = id)) f (activations l)).

Definition is_live (a : ActivationRecord) : bool :=
  bool_decide (ActivationRecord.status a = ActivationStatus.Active).

Definition live_activations (l : LicenseRecord) : list ActivationRecord :=
  List.filter is_live (activations l).
End LicenseRecord.
Notation LicenseRecord := LicenseRecord.LicenseRecord.
Import LicenseRecord.

(** ** Activation ([activate.rs]) *)

Definition PENDING_TTL_SECS : Z := 60.

Module ActivateInput.
Record ActivateInput := mk {
  fingerprint : Fingerprint;
  attrs : option DeviceAttrs;
  device_kem_ek : list byte;
  device_sig_vk : list byte;
  release_id : string;
  activation_path : string;
  is_virtual_machine : bool;
}.
End ActivateInput.
Notation ActivateInput := ActivateInput.ActivateInput.

Module Reservation.
Record Reservation := mk {
  machine_id : MachineId;
  reused_existing : bool;
  match_outcome : option MatchOutcome;
  variant_id : Z;
  refresh_after : Z;
  not_after : Z;
  entitlements : Entitlements;
}.
End Reservation.
Notation Reservation := Reservation.Reservation.

Module Activate.

(** [license.expires_at.is_some_and(|e| now >= e)]. *)
Definition expired (l : LicenseRecord) (now : Z) : bool :=
  match LicenseRecord.expires_at l with Some e => e <=? now | None => false end.

(** [policy.expires_at(now).or(license.expires_at).unwrap_or(UNLIMITED)]. *)
Definition credential_expiry (l : LicenseRecord) (policy : Policy) (now : Z) : Z :=
  match Policy.expires_at policy now with
  | Some e => e
  | None => default TimeWindow.UNLIMITED (LicenseRecord.expires_at l)
  end.

(** The release check of [reserve_seat]. *)
Definition release_variant (registry : ReleaseRegistry) (scope : VersionScope)
    (release_id : string) : result Z ClientFault :=
  match ReleaseRegistry.decide registry scope release_id with
  | VersionDecision.InScope v => Ok v
  | VersionDecision.NotRegistered => Err (ClientFault.ReleaseNotRegistered release_id)
  | VersionDecision.OutOfScope h => Err (ClientFault.VersionOutOfScope h)
  | VersionDecision.Compromised action =>
      match action with
      | CompromisedAction.Warn =>
          Ok (match ReleaseRegistry.get registry release_id with
              | Some r => Release.variant_id r | None => 0 end)
      | _ => Err (ClientFault.ReleaseCompromised (CompromisedAction.as_str action))
      end
  end.

(** The guards before a seat is looked for: the variant and the entitlement snapshot. *)
Definition check_device (l : LicenseRecord) (policy : Policy) (catalog : Catalog)
    (registry : ReleaseRegistry) (input : ActivateInput) (scope : VersionScope) (now : Z)
    : result (Z * Entitlements) ClientFault :=
  check? (match LicenseRecord.status l with
          | LicenseStatus.Active => Ok tt
          | _ => Err ClientFault.InvalidCredential
          end) ;;
  if expired l now then Err ClientFault.InvalidCredential
  else if ActivateInput.is_virtual_machine input &&
          negb (RuntimeSpec.allow_vm (Policy.runtime policy)) then
    Err ClientFault.VirtualMachineNotAllowed
  else
    variant_id <-? release_variant registry scope (ActivateInput.release_id input) ;;
    entitlements <-? map_err (fun _ => ClientFault.InvalidCredential)
                       (Resolve.resolve catalog (Policy.entitlement policy) now) ;;
    Ok (variant_id, entitlements).

(** The fields a reused activation takes from the request. *)
Definition rebind (input : ActivateInput) (variant refresh not_after now : Z)
    (rec : ActivationRecord) : ActivationRecord :=
  ActivationRecord.mk (machine_id rec) (ActivateInput.fingerprint input)
    (match ActivateInput.attrs input with Some a => Some a | None => attrs rec end)
    (ActivateInput.device_kem_ek input) (ActivateInput.device_sig_vk input)
    (ActivationRecord.status rec) (activation_path rec)
    (Some (ActivateInput.release_id input)) (Some variant) (created_at rec) (Some now)
    refresh not_after (transfer_count rec).

Definition new_activation (input : ActivateInput) (mid : MachineId)
    (variant refresh not_after now : Z) : ActivationRecord :=
  ActivationRecord.mk mid (ActivateInput.fingerprint input) (ActivateInput.attrs input)
    (ActivateInput.device_kem_ek input) (ActivateInput.device_sig_vk input)
    ActivationStatus.Pending (ActivateInput.activation_path input)
    (Some (ActivateInput.release_id input)) (Some variant) now (Some now) refresh not_after 0.

(** [best_match] over the active activations. *)
Definition match_active (l : LicenseRecord) (policy : Policy) (input : ActivateInput)
    : option (nat * MatchOutcome) :=
  best_match DefaultFpr
    (map (fun a => (fingerprint a, attrs a)) (List.filter is_live (activations l)))
    (ActivateInput.fingerprint input) (ActivateInput.attrs input)
    (RuntimeSpec.fpr_tolerance (Policy.runtime policy)).

Definition seat_limit (l : LicenseRecord) (policy : Policy) : Z :=
  default (SeatSpec.seats (Policy.seats policy)) (seats_override l).

(** The reuse branch: the activation at the matched index is rebound. *)
Definition reuse_seat (l : LicenseRecord) (policy : Policy) (input : ActivateInput)
    (idx : nat) (outcome : MatchOutcome) (variant : Z) (ents : Entitlements) (now : Z)
    : LicenseRecord * result Reservation ClientFault :=
  let refresh := sat_add_i64 now (RuntimeSpec.refresh_after_secs (Policy.runtime policy)) in
  let not_after := credential_expiry l policy now in
  match map machine_id (List.filter is_live (activations l)) !! idx with
  | None => (l, Err ClientFault.InvalidCredential)
  | Some mid =>
      match activation l mid with
      | None => (l, Err ClientFault.InvalidCredential)
      | Some _ =>
          (activation_mut l mid (rebind input variant refresh not_after now),
           Ok (Reservation.mk mid true (Some outcome) variant refresh not_after ents))
      end
  end.

(** The branch for a new device: it needs a free seat. *)
Definition take_seat (l : LicenseRecord) (policy : Policy) (input : ActivateInput)
    (matched : option MatchOutcome) (new_machine_id : MachineId) (variant : Z)
    (ents : Entitlements) (now : Z) : LicenseRecord * result Reservation ClientFault :=
  let refresh := sat_add_i64 now (RuntimeSpec.refresh_after_secs (Policy.runtime policy)) in
  let not_after := credential_expiry l policy now in
  if seat_limit l policy <=? occupied_seats l then (l, Err ClientFault.SeatExhausted)
  else
    (set_activations l
       (activations l ++ [new_activation input new_machine_id variant refresh not_after now]),
     Ok (Reservation.mk new_machine_id false matched variant refresh not_after ents)).

Definition reserve_seat (l : LicenseRecord) (policy : Policy) (catalog : Catalog)
    (registry : ReleaseRegistry) (input : ActivateInput) (scope : VersionScope)
    (new_machine_id : MachineId) (now : Z) : LicenseRecord * result Reservation ClientFault :=
  match check_device l policy catalog registry input scope now with
  | Err e => (l, Err e)
  | Ok (variant, ents) =>
      match match_active l policy input with
      | Some (idx, outcome) =>
          if MatchOutcome.reuses_seat outcome
          then reuse_seat l policy input idx outcome variant ents now
          else take_seat l policy input (Some outcome) new_machine_id variant ents now
      | None => take_seat l policy input None new_machine_id variant ents now
      end
  end.

Definition commit_seat (l : LicenseRecord) (mid : MachineId)
    : LicenseRecord * result unit ClientFault :=
  match activation l mid with
  | None => (l, Err ClientFault.InvalidCredential)
  | Some rec =>
      match ActivationRecord.status rec with
      | ActivationStatus.Pending | ActivationStatus.Active =>
          (activation_mut l mid (set_status ActivationStatus.Active), Ok tt)
      | _ => (l, Err ClientFault.InvalidCredential)
      end
  end.

(** Which reservations the alarm reclaims. *)
Definition lapsed (now : Z) (a : ActivationRecord) : bool :=
  bool_decide (ActivationRecord.status a = ActivationStatus.Pending) &&
  (PENDING_TTL_SECS <=? sat_sub_i64 now (created_at a)).

(** A loop [for a in &mut activations { if p(a) { a.status = Released; freed += 1 } }]. *)
Definition release_where (p : ActivationRecord -> bool) (l : LicenseRecord)
    : LicenseRecord * nat :=
  (set_activations l
     (map (fun a => if p a then set_status ActivationStatus.Released a else a) (activations l)),
   count_if p (activations l)).

Definition reclaim_pending (l : LicenseRecord) (now : Z) : LicenseRecord * nat :=
  release_where (lapsed now) l.

Definition requires_live_session (policy : Policy) : bool :=
  match Policy.mode policy with Mode.EnforcedOnline => true | _ => false end.

Definition PATH_ONLINE : string := "online".
End Activate.
Import Activate.

(** ** Heartbeats ([heartbeat.rs]) *)

Definition HEARTBEAT_GRACE_MULTIPLIER : Z := 3.

Module Heartbeat.
Record HeartbeatPlan := mk { next_after : Z }.

Definition plan (license_status : LicenseStatus) (license_expires_at : option Z)
    (activation_status : ActivationStatus) (heartbeat_secs : option Z) (now : Z)
    : result HeartbeatPlan ClientFault :=
  if negb (bool_decide (license_status = LicenseStatus.Active)) ||
     match license_expires_at with Some e => e <=? now | None => false end ||
     negb (bool_decide (activation_status = ActivationStatus.Active))
  then Err ClientFault.InvalidCredential
  else
    let interval := match heartbeat_secs with
                    | Some v => if 0 <? v then v else 0 | None => 0 end in
    Ok (mk (sat_add_i64 now interval)).

Definition heartbeat (l : LicenseRecord) (policy : Policy) (mid : MachineId) (now : Z)
    : LicenseRecord * result HeartbeatPlan ClientFault :=
  match activation l mid with
  | None => (l, Err ClientFault.InvalidCredential)
  | Some a =>
      match plan (LicenseRecord.status l) (LicenseRecord.expires_at l)
              (ActivationRecord.status a)
              (SeatSpec.heartbeat_secs (Policy.seats policy)) now with
      | Err e => (l, Err e)
      | Ok p => (activation_mut l mid (set_last_seen (Some now)), Ok p)
      end
  end.

Definition zombie_cutoff (heartbeat_secs now : Z) : option Z :=
  if 0 <? heartbeat_secs
  then Some (sat_sub_i64 now (sat_mul_i64 heartbeat_secs HEARTBEAT_GRACE_MULTIPLIER))
  else None.

Definition is_zombie (cutoff : Z) (a : ActivationRecord) : bool :=
  bool_decide (ActivationRecord.status a = ActivationStatus.Active) &&
  (default (created_at a) (last_seen_at a) <? cutoff).

Definition reclaim_zombies (l : LicenseRecord) (policy : Policy) (now : Z)
    : LicenseRecord * nat :=
  match SeatSpec.heartbeat_secs (Policy.seats policy) with
  | None => (l, 0%nat)
  | Some hb =>
      match zombie_cutoff hb now with
      | None => (l, 0%nat)
      | Some cutoff => release_where (is_zombie cutoff) l
      end
  end.
End Heartbeat.
Import Heartbeat.

(** ** Deactivation ([deactivate.rs]) *)

Module Deactivate.
Record DeactivatePlan := mk { changed : bool; record_transfer : bool }.

Definition plan (status : ActivationStatus) : result DeactivatePlan ClientFault :=
  match status with
  | ActivationStatus.Active | ActivationStatus.Pending => Ok (mk true true)
  | ActivationStatus.Released => Ok (mk false false)
  | ActivationStatus.Revoked => Err ClientFault.InvalidCredential
  end.

Definition release (p : DeactivatePlan) (a : ActivationRecord) : ActivationRecord :=
  if changed p then
    let a := set_status ActivationStatus.Released a in
    if record_transfer p then set_transfers (sat_add_u32 (transfer_count a) 1) a else a
  else a.

Definition deactivate (l : LicenseRecord) (mid : MachineId)
    : LicenseRecord * result DeactivatePlan ClientFault :=
  match activation l mid with
  | None => (l, Err ClientFault.InvalidCredential)
  | Some a =>
      match plan (ActivationRecord.status a) with
      | Err e => (l, Err e)
      | Ok p => (activation_mut l mid (release p), Ok p)
      end
  end.
End Deactivate.
Import Deactivate.

(** ** Revocation ([revoke.rs]) *)

Module Revoke.
Inductive RevokeTarget := License | Machine (id : MachineId).
Inductive RevokeError := UnknownMachine | StaleEpoch.
Record RevokePlan := mk {
  state_changed : bool; epoch_changed : bool; revocation_epoch : Z;
}.

Definition plan_for_state (already_revoked : bool) (current_epoch requested_epoch : Z)
    : result RevokePlan RevokeError :=
  if requested_epoch =? 0 then Err StaleEpoch
  else if already_revoked then
    let epoch := Z.max current_epoch requested_epoch in
    Ok (mk false (negb (epoch =? current_epoch)) epoch)
  else if requested_epoch <=? current_epoch then Err StaleEpoch
  else Ok (mk true true requested_epoch).

Definition plan_license (status : LicenseStatus) (current_epoch requested_epoch : Z) :=
  plan_for_state (bool_decide (status = LicenseStatus.Revoked)) current_epoch requested_epoch.

Definition plan_machine (status : option ActivationStatus) (current_epoch requested_epoch : Z) :=
  match status with
  | None => Err UnknownMachine
  | Some status =>
      plan_for_state (bool_decide (status = ActivationStatus.Revoked)) current_epoch
        requested_epoch
  end.

Definition set_license_status (st : LicenseStatus) (epoch : option Z) (l : LicenseRecord) :=
  LicenseRecord.mk (LicenseRecord.id l) (product_id l) (policy_id l) st (seats_override l)
    (LicenseRecord.expires_at l) epoch (activations l).

Definition revoke (l : LicenseRecord) (target : RevokeTarget)
    (current_epoch requested_epoch : Z) : LicenseRecord * result RevokePlan RevokeError :=
  match target with
  | License =>
      match plan_license (LicenseRecord.status l) current_epoch requested_epoch with
      | Err e => (l, Err e)
      | Ok p =>
          (if state_changed p then
             set_license_status LicenseStatus.Revoked (Some (revocation_epoch p)) l
           else match revoked_at_epoch l with
                | None => set_license_status (LicenseRecord.status l) (Some (revocation_epoch p)) l
                | Some _ => l
                end, Ok p)
      end
  | Machine mid =>
      match plan_machine (option_map ActivationRecord.status (activation l mid))
              current_epoch requested_epoch with
      | Err e => (l, Err e)
      | Ok p =>
          (if state_changed p then activation_mut l mid (set_status ActivationStatus.Revoked)
           else l, Ok p)
      end
  end.
End Revoke.
Import Revoke.

(** ** Operations on a licence, and runs of them *)

Inductive seat_op :=
| OpReserve (policy : Policy) (catalog : Catalog) (registry : ReleaseRegistry)
    (input : ActivateInput) (scope : VersionScope) (new_id : MachineId) (now : Z)
| OpCommit (mid : MachineId)
| OpReclaimPending (now : Z)
| OpHeartbeat (policy : Policy) (mid : MachineId) (now : Z)
| OpReclaimZombies (policy : Policy) (now : Z)
| OpDeactivate (mid : MachineId)
| OpRevoke (target : RevokeTarget) (current requested : Z).

Definition step (l : LicenseRecord) (op : seat_op) : LicenseRecord :=
  match op with
  | OpReserve p c r i s m now => (reserve_seat l p c r i s m now).1
  | OpCommit m => (commit_seat l m).1
  | OpReclaimPending now => (reclaim_pending l now).1
  | OpHeartbeat p m now => (heartbeat l p m now).1
  | OpReclaimZombies p now => (reclaim_zombies l p now).1
  | OpDeactivate m => (deactivate l m).1
  | OpRevoke t c r => (revoke l t c r).1
  end.

Definition run_ops (l : LicenseRecord) (ops : list seat_op) : LicenseRecord := fold_left step ops l.

(** The abstract lifecycle of one activation: reserved, committed, released or revoked, with no
    way back to a seat. *)
Inductive lifecycle : ActivationStatus -> ActivationStatus -> Prop :=
| life_stay s : lifecycle s s
| life_commit : lifecycle ActivationStatus.Pending ActivationStatus.Active
| life_release_active : lifecycle ActivationStatus.Active ActivationStatus.Released
| life_release_pending : lifecycle ActivationStatus.Pending ActivationStatus.Released
| life_revoke s : lifecycle s ActivationStatus.Revoked.
Create HintDb license.
#[export] Hint Constructors lifecycle : license.

(** One record against its successor. *)
Definition evolves (a a' : ActivationRecord) : Prop :=
  machine_id a' = machine_id a /\ created_at a' = created_at a /\
  lifecycle (ActivationRecord.status a) (ActivationRecord.status a').

(** A list of activations against its successor: every record evolves, none is dropped, and at
    most one is added, as [Pending], within the seat limit in force. *)
Definition acts_evolve (limit : option Z) (acts acts' : list ActivationRecord) : Prop :=
  exists kept extra, acts' = kept ++ extra /\ Forall2 evolves acts kept /\
    (extra = [] \/
     exists a n, extra = [a] /\ ActivationRecord.status a = ActivationStatus.Pending /\
       limit = Some n /\ Z.of_nat (count_if holds_seat acts) < n).

Definition op_limit (l : LicenseRecord) (op : seat_op) : option Z :=
  match op with OpReserve p _ _ _ _ _ _ => Some (seat_limit l p) | _ => None end.

Lemma evolves_refl a : evolves a a.
Proof. unfold evolves. auto with license. Qed.

Lemma Forall2_evolves_refl acts : Forall2 evolves acts acts.
Proof. induction acts; constructor; [apply evolves_refl|done]. Qed.

Lemma acts_evolve_stay limit acts : acts_evolve limit acts acts.
Proof.
  exists acts, []. rewrite app_nil_r. split_and!; [done|apply Forall2_evolves_refl|by left].
Qed.

(** [activation_mut] updates the record that [activation] finds. *)
Lemma acts_evolve_update limit l mid f a :
  activation l mid = Some a -> evolves a (f a) ->
  acts_evolve limit (activations l) (activations (activation_mut l mid f)).
Proof.
  intros Ha Hf. exists (activations (activation_mut l mid f)), [].
  rewrite app_nil_r. split_and!; [done| |by left]. unfold activation_mut, activation in *. simpl.
  revert Ha. generalize (activations l). unfold find_first.
  intros acts. induction acts as [|x acts IH]; simpl; [done|].
  case_bool_decide.
  - intros [= ->]. constructor; [done|apply Forall2_evolves_refl].
  - intros Hx. constructor; [apply evolves_refl|auto].
Qed.

Lemma acts_evolve_release limit l p :
  (forall a, p a = true -> holds_seat a = true) ->
  acts_evolve limit (activations l) (activations (release_where p l).1).
Proof.
  intros Hp. eexists _, []. rewrite app_nil_r. split_and!; [done| |by left]. simpl.
  induction (activations l) as [|x acts IH]; simpl; constructor; [|done].
  destruct (p x) eqn:E; [|apply evolves_refl]. specialize (Hp _ E). unfold evolves, holds_seat in *.
  simpl. destruct (ActivationRecord.status x); try done; auto with license.
Qed.

Lemma take_seat_evolves l p i m mid v e now :
  in_u32 (seat_limit l p) ->
  acts_evolve (Some (seat_limit l p)) (activations l)
    (activations (take_seat l p i m mid v e now).1).
Proof.
  intros Hu. unfold take_seat. destruct (Z.leb_spec (seat_limit l p) (occupied_seats l)); simpl.
  - apply acts_evolve_stay.
  - eexists (activations l), [_]. split_and!; [done|apply Forall2_evolves_refl|].
    right. eexists _, _. split_and!; [done|done|done|].
    unfold occupied_seats, try_into_or in *. destruct (_ && _) eqn:E; [lia|].
    apply andb_false_iff in E as [E|E]; bprop; int_lia.
Qed.

Lemma reuse_seat_evolves limit l p i idx o v e now :
  acts_evolve limit (activations l) (activations (reuse_seat l p i idx o v e now).1).
Proof.
  unfold reuse_seat. destruct (_ !! idx) as [mid|]; [|apply acts_evolve_stay].
  destruct (activation l mid) as [a|] eqn:Ea; [|apply acts_evolve_stay].
  eapply acts_evolve_update; [exact Ea|]. unfold evolves, rebind. simpl. auto with license.
Qed.

(** The seat limits are [u32] values. *)
Definition op_typed (l : LicenseRecord) (op : seat_op) : Prop :=
  match op_limit l op with Some n => in_u32 n | None => True end.

Lemma step_evolves l op :
  op_typed l op -> acts_evolve (op_limit l op) (activations l) (activations (step l op)).
Proof.
  intros Hu. destruct op as [p c r i s m now|m|now|p m now|p now|m|t cur req]; simpl.
  - unfold reserve_seat. destruct (check_device _ _ _ _ _ _ _) as [[v e]|]; [|apply acts_evolve_stay].
    destruct (match_active l p i) as [[idx o]|]; [|by apply take_seat_evolves].
    destruct (MatchOutcome.reuses_seat o); [apply reuse_seat_evolves|by apply take_seat_evolves].
  - unfold commit_seat. destruct (activation l m) as [a|] eqn:Ea; [|apply acts_evolve_stay].
    destruct (ActivationRecord.status a) eqn:Es; try apply acts_evolve_stay;
      (eapply acts_evolve_update; [exact Ea|]); unfold evolves; simpl; rewrite Es; auto with license.
  - apply acts_evolve_release. intros a H. unfold lapsed, holds_seat in *. bprop. by rewrite H.
  - unfold heartbeat. destruct (activation l m) as [a|] eqn:Ea; [|apply acts_evolve_stay].
    destruct (Heartbeat.plan _ _ _ _ _); [|apply acts_evolve_stay].
    eapply acts_evolve_update; [exact Ea|]. unfold evolves. simpl. auto with license.
  - unfold reclaim_zombies. destruct (SeatSpec.heartbeat_secs _); [|apply acts_evolve_stay].
    destruct (zombie_cutoff _ _); [|apply acts_evolve_stay].
    apply acts_evolve_release. intros a H. unfold is_zombie, holds_seat in *. bprop. by rewrite H.
  - unfold deactivate. destruct (activation l m) as [a|] eqn:Ea; [|apply acts_evolve_stay].
    destruct (ActivationRecord.status a) eqn:Es; simpl; try apply acts_evolve_stay;
      (eapply acts_evolve_update; [exact Ea|]); unfold evolves, release; simpl; rewrite ?Es; auto with license.
  - destruct t as [|m]; simpl.
    + destruct (plan_license _ _ _) as [pl|]; [|apply acts_evolve_stay]. simpl.
      destruct (state_changed pl); [apply acts_evolve_stay|].
      destruct (revoked_at_epoch l); apply acts_evolve_stay.
    + destruct (activation l m) as [a|] eqn:Ea; simpl; [|apply acts_evolve_stay].
      destruct (plan_for_state _ _ _) as [pl|]; [|apply acts_evolve_stay]. simpl.
      destruct (state_changed pl); [|apply acts_evolve_stay].
      eapply acts_evolve_update; [exact Ea|]. unfold evolves. simpl. auto with license.
Qed.

(** ** Seats *)

Definition seats_held (l : LicenseRecord) : Z :=
  Z.of_nat (count_if holds_seat (activations l)).

Lemma evolves_holds a a' : evolves a a' -> holds_seat a' = true -> holds_seat a = true.
Proof.
  intros (_ & _ & Hl). unfold holds_seat. inversion Hl; subst; try done; congruence.
Qed.

Lemma Forall2_evolves_count acts kept :
  Forall2 evolves acts kept -> (count_if holds_seat kept <= count_if holds_seat acts)%nat.
Proof.
  unfold count_if. induction 1 as [|a a' acts kept Ha _ IH]; simpl; [lia|].
  pose proof (evolves_holds _ _ Ha). destruct (holds_seat a'); [rewrite H by done; simpl; lia|].
  destruct (holds_seat a); simpl; lia.
Qed.

Lemma acts_evolve_count limit acts acts' n :
  acts_evolve limit acts acts' -> (forall m, limit = Some m -> m <= n) ->
  Z.of_nat (count_if holds_seat acts) <= n -> Z.of_nat (count_if holds_seat acts') <= n.
Proof.
  intros (kept & extra & -> & Hk%Forall2_evolves_count & Hx) Hlim Hn.
  rewrite count_if_app. destruct Hx as [->|(a & m & -> & Hs & Hm & Hlt)].
  - simpl. unfold count_if at 2. simpl. lia.
  - specialize (Hlim m Hm). assert (count_if holds_seat [a] <= 1)%nat.
    { unfold count_if. simpl. destruct (holds_seat a); simpl; lia. }
    lia.
Qed.

Lemma step_override l op : seats_override (step l op) = seats_override l.
Proof.
  destruct op as [p c r i s m now|m|now|p m now|p now|m|t cur req]; simpl; try done.
  - unfold reserve_seat, reuse_seat, take_seat. repeat case_match; done.
  - unfold commit_seat. repeat case_match; done.
  - unfold heartbeat. repeat case_match; done.
  - unfold reclaim_zombies. repeat case_match; done.
  - unfold deactivate. repeat case_match; done.
  - unfold revoke. repeat case_match; done.
Qed.

Lemma op_limit_ext l l' op : seats_override l' = seats_override l -> op_limit l' op = op_limit l op.
Proof. intros H. unfold op_limit, seat_limit. by rewrite H. Qed.

(** The seat limit every operation of a run respects. *)
Definition ops_within (l : LicenseRecord) (n : Z) (ops : list seat_op) : Prop :=
  Forall (fun op => forall m, op_limit l op = Some m -> in_u32 m /\ m <= n) ops.

Lemma run_ops_inv (P : LicenseRecord -> Prop) l n ops :
  (forall l' op, seats_override l' = seats_override l -> P l' -> op_typed l' op ->
     (forall m, op_limit l' op = Some m -> m <= n) -> P (step l' op)) ->
  ops_within l n ops -> P l -> P (run_ops l ops).
Proof.
  intros Hstep Hops. assert (Hov : seats_override l = seats_override l) by done.
  revert Hov. generalize l at 1 3 4. induction Hops as [|op ops Hop _ IH]; intros l' Hov HP; simpl; [done|].
  pose proof (op_limit_ext l l' op Hov) as Hl. apply IH; [by rewrite step_override|].
  apply Hstep; [done|done|..].
  - unfold op_typed. rewrite Hl. destruct (op_limit l op); [by apply Hop|done].
  - intros m Hm. rewrite Hl in Hm. by apply Hop.
Qed.

(** C2 Seats are never oversubscribed: under any interleaving of reservations, commits, alarm
    reclaims, heartbeats, zombie reclaims, deactivations and revocations - concurrent
    activations included, since each operation is one atomic step - the number of activations
    holding a seat stays within the seat limit. *)
Theorem seats_never_oversubscribed (l : LicenseRecord) (n : Z) (ops : list seat_op)
    (Hops : ops_within l n ops) (H0 : seats_held l <= n) :
  seats_held (run_ops l ops) <= n.
Proof.
  apply (run_ops_inv (fun x => seats_held x <= n) l n ops); [|done..].
  intros l' op _ Hl Ht Hm. unfold seats_held in *.
  by apply (acts_evolve_count _ _ _ n (step_evolves l' op Ht)).
Qed.

Definition demo_policy : Policy := Preset.build Preset.Perpetual "pol" "prod" "pro" 0.
Definition demo_registry : ReleaseRegistry :=
  ReleaseRegistry.mk [Release.mk "rel_1" "prod" "1.0.0" 7 "bf" "stable" ReleaseStatus.Active
                        None 0].
Definition demo_license : LicenseRecord :=
  LicenseRecord.mk [1] "prod" "pol" LicenseStatus.Active None None None [].
Definition demo_input (fp : byte) : ActivateInput :=
  ActivateInput.mk [fp] None [] [] "rel_1" PATH_ONLINE false.
Definition demo_reserve (fp : byte) (now : Z) : seat_op :=
  OpReserve demo_policy demo_catalog demo_registry (demo_input fp) VersionScope.Unlimited [fp] now.

Lemma seats_never_oversubscribed_witness :
  seats_held (run_ops demo_license [demo_reserve 1 0; demo_reserve 2 0; OpCommit [1];
                                    demo_reserve 3 5; demo_reserve 1 6]) <= 1 /\
  seats_held (run_ops demo_license [demo_reserve 1 0; demo_reserve 2 0; OpCommit [1];
                                    demo_reserve 3 5; demo_reserve 1 6]) = 1.
Proof.
  split; [|vm_compute; reflexivity].
  apply (seats_never_oversubscribed demo_license 1); [|discriminate].
  unfold ops_within. repeat apply List.Forall_cons; try apply List.Forall_nil;
    intros m Hm; vm_compute in Hm; try discriminate Hm; injection Hm as <-;
    (split; [split|]; discriminate).
Defined.

(** ** What a reservation does *)

Definition ids_unique (l : LicenseRecord) : Prop := NoDup (map machine_id (activations l)).

Lemma activation_Some l mid a :
  activation l mid = Some a -> a ∈ activations l /\ machine_id a = mid.
Proof. intros [? ?]%find_first_Some. by bprop. Qed.

Lemma activation_unique l a :
  ids_unique l -> a ∈ activations l -> activation l (machine_id a) = Some a.
Proof.
  unfold ids_unique, activation, find_first. intros Hd. induction (activations l) as [|x acts IH];
    simpl in *; [set_solver|]. apply NoDup_cons in Hd as [Hx Hd].
  intros [->|Hin]%elem_of_cons; [by rewrite bool_decide_eq_true_2|].
  rewrite bool_decide_eq_false_2; [auto|]. intros Heq. apply Hx. rewrite Heq.
  apply list_elem_of_fmap. eauto.
Qed.

Lemma activation_mut_lookup l mid f a :
  (forall x, machine_id (f x) = machine_id x) ->
  activation l mid = Some a -> activation (activation_mut l mid f) mid = Some (f a).
Proof.
  intros Hf Ha. unfold activation, activation_mut. simpl.
  apply find_first_update_first; [|done]. intros x Hx. by rewrite Hf.
Qed.

Lemma activation_mut_held l mid f :
  (forall x, holds_seat (f x) = holds_seat x) -> seats_held (activation_mut l mid f) = seats_held l.
Proof. intros Hf. unfold seats_held, activation_mut. simpl. by rewrite count_if_update_first. Qed.

Lemma activation_mut_twice l mid f :
  (forall x, machine_id (f x) = machine_id x) -> (forall x, f (f x) = f x) ->
  activation_mut (activation_mut l mid f) mid f = activation_mut l mid f.
Proof.
  intros Hm Hf. unfold activation_mut. cbn [activations set_activations].
  unfold set_activations at 1 3. simpl. f_equal.
  induction (activations l) as [|x acts IH]; simpl; [done|].
  destruct (bool_decide (machine_id x = mid)) eqn:E; simpl; rewrite ?Hm, E; [by rewrite Hf|].
  by rewrite IH.
Qed.

Lemma occupied_seats_spec l n : in_u32 n -> n <= occupied_seats l <-> n <= seats_held l.
Proof.
  intros Hn. unfold occupied_seats, try_into_or. fold (seats_held l).
  assert (0 <= seats_held l) by (unfold seats_held; lia).
  destruct ((0 <=? seats_held l) && (seats_held l <=? u32_max)) eqn:E; [done|].
  apply andb_false_iff in E as [E|E]; bprop; int_lia.
Qed.

(** The reused activation is the one that matched. *)
Lemma match_active_reused l p i idx o :
  match_active l p i = Some (idx, o) ->
  exists a, List.filter is_live (activations l) !! idx = Some a /\
    o = match_device DefaultFpr (fingerprint a) (ActivateInput.fingerprint i) (attrs a)
          (ActivateInput.attrs i) (RuntimeSpec.fpr_tolerance (Policy.runtime p)).
Proof.
  unfold match_active. intros (c & Hc & -> & _)%best_match_spec; [|exact _].
  rewrite list_lookup_fmap in Hc. destruct (List.filter _ _ !! idx) as [a|] eqn:E; [|done].
  injection Hc as <-. eauto.
Qed.

Lemma check_device_ok l p c r i s now v e :
  check_device l p c r i s now = Ok (v, e) ->
  LicenseRecord.status l = LicenseStatus.Active /\ expired l now = false /\
  Resolve.resolve c (Policy.entitlement p) now = Ok e /\
  release_variant r s (ActivateInput.release_id i) = Ok v.
Proof.
  unfold check_device. intros H. destruct (LicenseRecord.status l); simpl in H; try done.
  destruct (expired l now); [done|]. destruct (_ && _); [done|]. inv_result. simplify_eq.
  destruct (Resolve.resolve _ _ _); simpl in *; by simplify_eq.
Qed.

Lemma check_device_err l p c r i s now :
  check_device l p c r i s now <> Err ClientFault.SeatExhausted.
Proof.
  unfold check_device, release_variant.
  destruct (LicenseRecord.status l); simpl; try done.
  destruct (expired l now); [done|]. destruct (_ && _); [done|].
  destruct (ReleaseRegistry.decide _ _ _) as [| | |[]]; simpl; try done;
    by destruct (Resolve.resolve _ _ _).
Qed.

(** What [reserve_seat] promises of its result. *)
Definition reserved (l l' : LicenseRecord) (policy : Policy) (input : ActivateInput)
    (new_id : MachineId) (now : Z) (r : Reservation) : Prop :=
  if Reservation.reused_existing r then
    seats_held l' = seats_held l /\
    exists a a', activation l (Reservation.machine_id r) = Some a /\ is_live a = true /\
      MatchOutcome.reuses_seat
        (match_device DefaultFpr (fingerprint a) (ActivateInput.fingerprint input) (attrs a)
           (ActivateInput.attrs input) (RuntimeSpec.fpr_tolerance (Policy.runtime policy))) = true /\
      activation l' (Reservation.machine_id r) = Some a' /\ is_live a' = true /\
      fingerprint a' = ActivateInput.fingerprint input /\ transfer_count a' = transfer_count a
  else
    Reservation.machine_id r = new_id /\ seats_held l < seat_limit l policy /\
    seats_held l' = seats_held l + 1 /\
    exists a, activations l' = activations l ++ [a] /\ machine_id a = new_id /\
      ActivationRecord.status a = ActivationStatus.Pending /\ created_at a = now.

Lemma take_seat_spec l p i m mid v e now :
  in_u32 (seat_limit l p) ->
  match take_seat l p i m mid v e now with
  | (l', Ok r) => reserved l l' p i mid now r
  | (l', Err f) => l' = l /\ f = ClientFault.SeatExhausted /\ seat_limit l p <= seats_held l
  end.
Proof.
  intros Hu. unfold take_seat. destruct (Z.leb_spec (seat_limit l p) (occupied_seats l)) as [Hle|Hlt].
  - split_and!; [done..|]. by apply occupied_seats_spec.
  - unfold reserved. simpl. split_and!; [done| | |eauto].
    + apply Z.nle_gt. intros Hle. apply occupied_seats_spec in Hle; [lia|done].
    + unfold seats_held. simpl. rewrite count_if_app. unfold count_if at 2. simpl. lia.
Qed.

Lemma reuse_seat_spec l p i idx o v e now mid :
  ids_unique l -> match_active l p i = Some (idx, o) -> MatchOutcome.reuses_seat o = true ->
  match reuse_seat l p i idx o v e now with
  | (l', Ok r) => reserved l l' p i mid now r
  | (_, Err _) => False
  end.
Proof.
  intros Hd Hm Ho. apply match_active_reused in Hm as (a & Ha & ->). unfold reuse_seat.
  rewrite list_lookup_fmap, Ha. simpl.
  assert (Hin : a ∈ List.filter is_live (activations l)) by by eapply list_elem_of_lookup_2.
  apply list_elem_of_In, filter_In in Hin as [Hin%list_elem_of_In Hlive].
  assert (Hact := activation_unique l a Hd Hin). rewrite Hact. unfold reserved. simpl.
  split; [by apply activation_mut_held|]. exists a.
  eexists. split_and!; [done..|by apply activation_mut_lookup| |done|done]. exact Hlive.
Qed.

(** A reservation is all or nothing: a refused request leaves the licence untouched and
    "seats exhausted" is answered only when every seat is held; an accepted one is for an
    active, unexpired licence, and either rebinds the matching active device without consuming
    a seat or a transfer, or adds exactly one [Pending] activation within the limit. *)
Theorem reserve_seat_outcome (l : LicenseRecord) (policy : Policy) (catalog : Catalog)
    (registry : ReleaseRegistry) (input : ActivateInput) (scope : VersionScope)
    (new_id : MachineId) (now : Z) (Hu : in_u32 (seat_limit l policy)) (Hd : ids_unique l) :
  match reserve_seat l policy catalog registry input scope new_id now with
  | (l', Ok r) =>
      LicenseRecord.status l = LicenseStatus.Active /\ expired l now = false /\
      reserved l l' policy input new_id now r
  | (l', Err f) =>
      l' = l /\ (f = ClientFault.SeatExhausted -> seat_limit l policy <= seats_held l)
  end.
Proof.
  unfold reserve_seat.
  destruct (check_device l policy catalog registry input scope now) as [[v e]|f] eqn:Ec.
  2: { split; [done|]. intros ->. by apply check_device_err in Ec. }
  apply check_device_ok in Ec as (Hs & He & _ & _).
  assert (Htake : forall m, match take_seat l policy input m new_id v e now with
    | (l', Ok r) => LicenseRecord.status l = LicenseStatus.Active /\ expired l now = false /\
                    reserved l l' policy input new_id now r
    | (l', Err f) => l' = l /\ (f = ClientFault.SeatExhausted -> seat_limit l policy <= seats_held l)
    end).
  { intros m. pose proof (take_seat_spec l policy input m new_id v e now Hu) as Ht.
    destruct (take_seat _ _ _ _ _ _ _ _) as [l' [r|f]]; naive_solver. }
  destruct (match_active l policy input) as [[idx o]|] eqn:Em; [|apply Htake].
  destruct (MatchOutcome.reuses_seat o) eqn:Eo; [|apply Htake].
  pose proof (reuse_seat_spec l policy input idx o v e now new_id Hd Em Eo) as Hr.
  destruct (reuse_seat _ _ _ _ _ _ _ _) as [l' [r|f]]; [done|done].
Qed.

Lemma reserve_seat_outcome_witness :
  match reserve_seat demo_license demo_policy demo_catalog demo_registry (demo_input 1)
          VersionScope.Unlimited [1] 0 with
  | (l', Ok r) => seats_held l' = 1
  | (_, Err _) => False
  end.
Proof.
  pose proof (reserve_seat_outcome demo_license demo_policy demo_catalog demo_registry
    (demo_input 1) VersionScope.Unlimited [1] 0) as H.
  destruct (reserve_seat _ _ _ _ _ _ _ _) as [l' [r|f]] eqn:E.
  - destruct H as (_ & _ & H); [split; discriminate|apply NoDup_nil; exact I|].
    unfold reserved in H. assert (Er : Reservation.reused_existing r = false).
    { vm_compute in E. injection E as <- <-. reflexivity. }
    rewrite Er in H. apply H.
  - vm_compute in E. discriminate E.
Defined.

(** ** The two phases *)

Lemma release_where_lookup p l mid a :
  activation l mid = Some a ->
  activation (release_where p l).1 mid =
  Some (if p a then set_status ActivationStatus.Released a else a).
Proof.
  unfold activation, find_first, release_where. simpl.
  induction (activations l) as [|x acts IH]; simpl; [done|].
  assert (machine_id (if p x then set_status ActivationStatus.Released x else x) = machine_id x)
    as -> by by destruct (p x).
  case_bool_decide; [by intros [= ->]|done].
Qed.

Lemma activation_app_fresh l a :
  machine_id a ∉ map machine_id (activations l) ->
  activation (set_activations l (activations l ++ [a])) (machine_id a) = Some a.
Proof.
  unfold activation, find_first. simpl. induction (activations l) as [|x acts IH]; simpl; intros Hf.
  - by rewrite bool_decide_eq_true_2.
  - rewrite bool_decide_eq_false_2 by set_solver. apply IH. set_solver.
Qed.

Lemma commit_seat_held l mid : seats_held (commit_seat l mid).1 = seats_held l.
Proof.
  unfold commit_seat. destruct (activation l mid) as [a|] eqn:Ea; [|done].
  destruct (ActivationRecord.status a) eqn:Es; try done; unfold seats_held; simpl; f_equal;
    (eapply count_if_update_found; [exact Ea|]); unfold holds_seat; simpl; by rewrite Es.
Qed.

(** A reservation that is not a reuse appended a pending record. *)
Lemma reserve_seat_new l p c rg i s mid now l' r :
  reserve_seat l p c rg i s mid now = (l', Ok r) -> Reservation.reused_existing r = false ->
  exists v refresh na,
    l' = set_activations l (activations l ++ [new_activation i mid v refresh na now]).
Proof.
  intros Hr Hn. unfold reserve_seat, take_seat in Hr.
  destruct (check_device _ _ _ _ _ _ _) as [[v e]|]; [|done].
  destruct (match_active l p i) as [[idx o]|]; [destruct (MatchOutcome.reuses_seat o)|].
  - unfold reuse_seat in Hr. repeat case_match; simplify_eq/=.
  - case_match; simplify_eq/=; eauto.
  - case_match; simplify_eq/=; eauto.
Qed.

(** The two-phase protocol works: a fresh reservation can be committed into an [Active]
    activation without changing the number of seats held, and committing again (a retry)
    succeeds and changes nothing; if the commit never arrives, the alarm at sixty seconds or
    later frees the seat, and a commit after that is refused. *)
Theorem two_phase_reservation (l l' : LicenseRecord) (policy : Policy) (catalog : Catalog)
    (registry : ReleaseRegistry) (input : ActivateInput) (scope : VersionScope)
    (mid : MachineId) (now later : Z) (r : Reservation)
    (Hr : reserve_seat l policy catalog registry input scope mid now = (l', Ok r))
    (Hnew : Reservation.reused_existing r = false)
    (Hfresh : mid ∉ map machine_id (activations l))
    (Hlater : in_i64 later) (Httl : now + PENDING_TTL_SECS <= later) :
  (exists a, activation (commit_seat l' mid).1 mid = Some a /\ is_live a = true) /\
  (commit_seat l' mid).2 = Ok tt /\
  seats_held (commit_seat l' mid).1 = seats_held l' /\
  commit_seat (commit_seat l' mid).1 mid = ((commit_seat l' mid).1, Ok tt) /\
  (exists a, activation (reclaim_pending l' later).1 mid = Some a /\ holds_seat a = false) /\
  commit_seat (reclaim_pending l' later).1 mid =
    ((reclaim_pending l' later).1, Err ClientFault.InvalidCredential).
Proof.
  destruct (reserve_seat_new _ _ _ _ _ _ _ _ _ _ Hr Hnew) as (v & refresh & na & Hl').
  set (a := new_activation input mid v refresh na now) in Hl'.
  assert (Hact : activation l' mid = Some a) by (rewrite Hl'; by apply activation_app_fresh).
  assert (Hc : commit_seat l' mid =
    (activation_mut l' mid (set_status ActivationStatus.Active), Ok tt))
    by (unfold commit_seat; by rewrite Hact).
  assert (Hact' := activation_mut_lookup l' mid (set_status ActivationStatus.Active) a
            (fun _ => eq_refl) Hact).
  assert (Hlap : lapsed later a = true).
  { unfold lapsed. apply andb_true_iff. split; [done|]. apply Z.leb_le.
    subst a. unfold PENDING_TTL_SECS in *. simpl. int_lia. }
  assert (Hrel := release_where_lookup (lapsed later) l' mid a Hact). rewrite Hlap in Hrel.
  split_and!.
  - rewrite Hc. by eexists.
  - by rewrite Hc.
  - apply commit_seat_held.
  - rewrite Hc. cbn [fst]. unfold commit_seat at 1. rewrite Hact'. cbn [ActivationRecord.status set_status].
    f_equal. by apply activation_mut_twice.
  - unfold reclaim_pending. by eexists.
  - unfold commit_seat, reclaim_pending. by rewrite Hrel.
Qed.

Lemma two_phase_reservation_witness :
  match reserve_seat demo_license demo_policy demo_catalog demo_registry (demo_input 1)
          VersionScope.Unlimited [1] 0 with
  | (l', Ok r) => seats_held (commit_seat l' [1]).1 = seats_held l'
  | (_, Err _) => False
  end.
Proof.
  destruct (reserve_seat demo_license demo_policy demo_catalog demo_registry (demo_input 1)
              VersionScope.Unlimited [1] 0) as [l' [r|f]] eqn:E.
  - apply (two_phase_reservation demo_license l' demo_policy demo_catalog demo_registry
             (demo_input 1) VersionScope.Unlimited [1] 0 60 r E).
    + vm_compute in E. injection E as <- <-. reflexivity.
    + apply not_elem_of_nil.
    + split; discriminate.
    + discriminate.
  - vm_compute in E. discriminate E.
Defined.

(** ** Revocation is permanent *)

(** A record keeps its place: its successor is found under the same identifier. *)
Lemma acts_evolve_lookup limit l l' mid a :
  acts_evolve limit (activations l) (activations l') -> activation l mid = Some a ->
  exists a', activation l' mid = Some a' /\ evolves a a'.
Proof.
  unfold activation, find_first. intros (kept & extra & -> & Hk & _).
  induction Hk as [|x x' acts kept Hx _ IH]; simpl; [done|].
  destruct Hx as (Hid & Hc & Hl). rewrite Hid. case_bool_decide; [|done].
  intros [= ->]. exists x'. by split.
Qed.

Lemma lifecycle_revoked s :
  lifecycle ActivationStatus.Revoked s -> s = ActivationStatus.Revoked.
Proof. by inversion 1. Qed.

(** Identifier and status of the activation a machine identifier names. *)
Definition status_of (l : LicenseRecord) (mid : MachineId) : option ActivationStatus :=
  option_map ActivationRecord.status (activation l mid).

Lemma step_status_of l op mid s :
  op_typed l op -> status_of l mid = Some s ->
  exists s', status_of (step l op) mid = Some s' /\ lifecycle s s'.
Proof.
  intros Ht. unfold status_of. destruct (activation l mid) as [a|] eqn:Ea; [|done].
  intros [= <-]. destruct (acts_evolve_lookup _ _ _ _ _ (step_evolves l op Ht) Ea)
    as (a' & Ha' & _ & _ & Hl).
  rewrite Ha'. eauto.
Qed.

Lemma step_license_revoked l op :
  LicenseRecord.status l = LicenseStatus.Revoked ->
  LicenseRecord.status (step l op) = LicenseStatus.Revoked.
Proof.
  intros Hs. destruct op as [p c r i s m now|m|now|p m now|p now|m|t cur req]; simpl; try done.
  - unfold reserve_seat, reuse_seat, take_seat. repeat case_match; done.
  - unfold commit_seat. repeat case_match; done.
  - unfold heartbeat. repeat case_match; done.
  - unfold reclaim_zombies. repeat case_match; done.
  - unfold deactivate. repeat case_match; done.
  - unfold revoke. repeat case_match; done.
Qed.

(** Each activation follows the lifecycle reserve - commit - release/revoke, whatever the
    operations: no operation removes a record or moves it backward, a revoked activation stays
    revoked and a released one never holds a seat again, a revoked licence stays revoked. *)
Theorem lifecycle_respected (l : LicenseRecord) (n : Z) (ops : list seat_op) (mid : MachineId)
    (s : ActivationStatus) (Hops : ops_within l n ops) (Hs : status_of l mid = Some s) :
  (exists s', status_of (run_ops l ops) mid = Some s' /\ rtc lifecycle s s' /\
     (s = ActivationStatus.Revoked -> s' = ActivationStatus.Revoked) /\
     (s = ActivationStatus.Released -> s' = ActivationStatus.Released \/
                                       s' = ActivationStatus.Revoked)) /\
  (LicenseRecord.status l = LicenseStatus.Revoked ->
   LicenseRecord.status (run_ops l ops) = LicenseStatus.Revoked).
Proof.
  assert (Hrun : (exists s', status_of (run_ops l ops) mid = Some s' /\ rtc lifecycle s s') /\
    (LicenseRecord.status l = LicenseStatus.Revoked ->
     LicenseRecord.status (run_ops l ops) = LicenseStatus.Revoked)).
  { apply (run_ops_inv (fun x => (exists s', status_of x mid = Some s' /\ rtc lifecycle s s') /\
      (LicenseRecord.status l = LicenseStatus.Revoked ->
       LicenseRecord.status x = LicenseStatus.Revoked)) l n ops); [|done|].
    - intros l' op _ [(s1 & H1 & Hl) Hr] Ht _. split.
      + destruct (step_status_of l' op mid s1 Ht H1) as (s2 & ? & ?). exists s2.
        split; [done|]. by eapply rtc_r.
      + intros. by apply step_license_revoked, Hr.
    - split; [|done]. exists s. split; [done|constructor]. }
  destruct Hrun as [(s' & Hs' & Hl) Hr]. split; [|done]. exists s'. split_and!; [done..| |].
  - intros ->. clear - Hl.
    assert (Hinv : forall x y, rtc lifecycle x y -> x = ActivationStatus.Revoked ->
      y = ActivationStatus.Revoked); [|by apply (Hinv _ _ Hl)].
    intros x y Hxy. induction Hxy as [|x y z Hxy _ IH]; [done|]. intros ->.
    by apply IH, lifecycle_revoked.
  - intros ->. clear - Hl.
    assert (Hinv : forall x y, rtc lifecycle x y ->
      x = ActivationStatus.Released \/ x = ActivationStatus.Revoked ->
      y = ActivationStatus.Released \/ y = ActivationStatus.Revoked).
    { intros x y Hxy. induction Hxy as [|x y z Hxy _ IH]; [done|]. intros Hx. apply IH.
      inversion Hxy; subst; naive_solver. }
    by apply (Hinv _ _ Hl); left.
Qed.

Definition demo_active : LicenseRecord := run_ops demo_license [demo_reserve 1 0; OpCommit [1]].

Lemma lifecycle_respected_witness :
  exists s', status_of (run_ops demo_active [OpRevoke (Machine [1]) 0 1; OpCommit [1]]) [1] = Some s'.
Proof.
  destruct (lifecycle_respected demo_active 1 [OpRevoke (Machine [1]) 0 1; OpCommit [1]] [1]
    ActivationStatus.Active) as [(s' & Hs' & _) _].
  - unfold ops_within. repeat apply List.Forall_cons; try apply List.Forall_nil;
      intros m Hm; discriminate Hm.
  - vm_compute. reflexivity.
  - exists s'. exact Hs'.
Defined.

(** ** Reclaiming seats *)

Lemma release_where_held p l :
  (forall a, p a = true -> holds_seat a = true) ->
  seats_held (release_where p l).1 + Z.of_nat (release_where p l).2 = seats_held l.
Proof.
  intros Hp. unfold seats_held, release_where, count_if. simpl.
  induction (activations l) as [|x acts IH]; simpl; [done|]. specialize (Hp x).
  destruct (p x) eqn:E; simpl; [rewrite Hp by done; simpl; lia|].
  destruct (holds_seat x); simpl; lia.
Qed.

Lemma lapsed_holds now a : lapsed now a = true -> holds_seat a = true.
Proof. unfold lapsed, holds_seat. intros H. bprop. by rewrite H. Qed.
Lemma zombie_holds cutoff a : is_zombie cutoff a = true -> holds_seat a = true.
Proof. unfold is_zombie, holds_seat. intros H. bprop. by rewrite H. Qed.

(** Reclaiming frees exactly the seats it reports, and a heartbeat protects a seat: the count
    returned by both reclaim passes is the drop in seats held, and an activation whose
    heartbeat was accepted at [now] is still active after any zombie pass up to three
    intervals later (and always when heartbeats are not enforced). *)
Theorem reclaim_accounting (l l' : LicenseRecord) (policy : Policy) (mid : MachineId)
    (now later : Z) (p : HeartbeatPlan)
    (Hb : heartbeat l policy mid now = (l', Ok p)) (Hnow : 0 <= now) (Hlater : in_i64 later)
    (Hin : forall hb, SeatSpec.heartbeat_secs (Policy.seats policy) = Some hb ->
                      later <= now + 3 * hb) :
  seats_held (reclaim_zombies l policy later).1 +
    Z.of_nat (reclaim_zombies l policy later).2 = seats_held l /\
  seats_held (reclaim_pending l later).1 + Z.of_nat (reclaim_pending l later).2 = seats_held l /\
  seats_held l' = seats_held l /\
  status_of (reclaim_zombies l' policy later).1 mid = Some ActivationStatus.Active.
Proof.
  split_and!.
  - unfold reclaim_zombies. destruct (SeatSpec.heartbeat_secs _); simpl; [|lia].
    destruct (zombie_cutoff _ _); simpl; [|lia].
    apply release_where_held, zombie_holds.
  - apply release_where_held, lapsed_holds.
  - unfold heartbeat in Hb. repeat case_match; simplify_eq. by apply activation_mut_held.
  - unfold heartbeat in Hb. destruct (activation l mid) as [a|] eqn:Ea; [|done].
    destruct (Heartbeat.plan _ _ _ _ _) eqn:Ep; simplify_eq.
    assert (Hst : ActivationRecord.status a = ActivationStatus.Active).
    { unfold Heartbeat.plan in Ep. destruct (negb _ || _ || _) eqn:E; [done|]. by bprop. }
    assert (Hact := activation_mut_lookup l mid (set_last_seen (Some now)) a (fun _ => eq_refl) Ea).
    unfold status_of, reclaim_zombies.
    destruct (SeatSpec.heartbeat_secs (Policy.seats policy)) as [hb|] eqn:Eh;
      [|cbn [fst]; rewrite Hact; simpl; by rewrite Hst].
    specialize (Hin hb eq_refl). unfold zombie_cutoff.
    destruct (Z.ltb_spec 0 hb); [|cbn [fst]; rewrite Hact; simpl; by rewrite Hst].
    rewrite (release_where_lookup _ _ _ _ Hact).
    assert (is_zombie (sat_sub_i64 later (sat_mul_i64 hb HEARTBEAT_GRACE_MULTIPLIER))
              (set_last_seen (Some now) a) = false) as ->; [|simpl; by rewrite Hst].
    unfold is_zombie. apply andb_false_iff. right. simpl. apply Z.ltb_ge.
    unfold HEARTBEAT_GRACE_MULTIPLIER. int_lia.
Qed.

Definition demo_team : Policy := Preset.build Preset.TeamSub "pol" "prod" "pro" 0.

Lemma reclaim_accounting_witness :
  match heartbeat demo_active demo_team [1] 100 with
  | (l', Ok _) => status_of (reclaim_zombies l' demo_team (100 + 3 * 21600)).1 [1] =
                  Some ActivationStatus.Active
  | _ => False
  end.
Proof.
  destruct (heartbeat demo_active demo_team [1] 100) as [l' [p|f]] eqn:E.
  - apply (reclaim_accounting demo_active l' demo_team [1] 100 (100 + 3 * 21600) p E).
    + discriminate.
    + split; discriminate.
    + intros hb [= <-]. discriminate.
  - vm_compute in E. discriminate E.
Defined.
