(* ===== verification/Validate.v ===== *)
(** * Online validation ([crates/copylocker-server-core/src/validate.rs])

    The hot path: the server's verdict on a validation request, the bookkeeping after a ticket
    and the revocation list of a licence. *)

From S2P Require Import Prelude Types Errors Catalog Entitlement Policy Version Device License.
Import ActivationRecord LicenseRecord.

Module ValidateInput.
Record ValidateInput := mk {
  machine_id : MachineId;
  nonce_c : list byte;
  release_id : string;
  known_revocation_epoch : Z;
  known_security_floor : Z;
  proof_valid : bool;
  nonce_fresh : bool;
}.
End ValidateInput.
Notation ValidateInput := ValidateInput.ValidateInput.

Module TicketPlan.
Record TicketPlan := mk {
  verdict : Verdict.Verdict;
  next_refresh_after : Z;
  not_after : Z;
  revocation_epoch : Z;
  security_floor : Z;
  entitlements : option Entitlements;
  release_status : option Z;
  refresh_now : bool;
  variant_id : option Z;
}.
End TicketPlan.
Notation TicketPlan := TicketPlan.TicketPlan.

Module ValidateOutcome.
Inductive ValidateOutcome :=
| Ticket (plan : TicketPlan)
| Kill (reason : KillReason.KillReason) (user_message : option string).
End ValidateOutcome.
Notation ValidateOutcome := ValidateOutcome.ValidateOutcome.

Module Validate.

(** [r.status as u8]. *)
Definition release_status_u8 (s : ReleaseStatus) : Z :=
  match s with
  | ReleaseStatus.Active => 0 | ReleaseStatus.Deprecated => 1 | ReleaseStatus.Compromised => 2
  end.

(** The checks before any licence state is read. *)
Definition check_request (input : ValidateInput) (revocation_epoch security_floor : Z)
    : result unit ClientFault :=
  if negb (ValidateInput.nonce_fresh input) then Err ClientFault.ReplayedNonce
  else if negb (ValidateInput.proof_valid input) then Err ClientFault.ProofInvalid
  else if (revocation_epoch <? ValidateInput.known_revocation_epoch input) ||
          (security_floor <? ValidateInput.known_security_floor input) then
    Err ClientFault.RollbackAttempt
  else Ok tt.

(** The conditions that destroy the credential. *)
Definition kill_order (l : LicenseRecord) (a : ActivationRecord) : option ValidateOutcome :=
  if bool_decide (LicenseRecord.status l = LicenseStatus.Revoked) then
    Some (ValidateOutcome.Kill KillReason.RevokedLicense
            (Some "This licence has been revoked. Please contact support."))
  else
    match ActivationRecord.status a with
    | ActivationStatus.Revoked =>
        Some (ValidateOutcome.Kill KillReason.RevokedActivation
                (Some "This device's activation was revoked."))
    | ActivationStatus.Released =>
        Some (ValidateOutcome.Kill KillReason.SeatReclaimed
                (Some "This device's seat was released. Activate again to continue."))
    | ActivationStatus.Active | ActivationStatus.Pending => None
    end.

(** What the release decision contributes: verdict, variant, release status; or a final
    answer. *)
Definition release_verdict (registry : ReleaseRegistry) (scope : VersionScope)
    (release_id : string)
    : (Verdict.Verdict * option Z * option Z) + result ValidateOutcome ClientFault :=
  match ReleaseRegistry.decide registry scope release_id with
  | VersionDecision.InScope v =>
      inl (Verdict.Accepted, Some v,
           option_map (fun r => release_status_u8 (Release.status r))
             (ReleaseRegistry.get registry release_id))
  | VersionDecision.NotRegistered => inr (Err (ClientFault.ReleaseNotRegistered release_id))
  | VersionDecision.OutOfScope _ => inl (Verdict.VersionOutOfScope, None, Some 0)
  | VersionDecision.Compromised action =>
      match action with
      | CompromisedAction.Warn =>
          inl (Verdict.Accepted,
               option_map Release.variant_id (ReleaseRegistry.get registry release_id), Some 2)
      | CompromisedAction.ForceUpgrade => inl (Verdict.NeedsReactivation, None, Some 2)
      | CompromisedAction.Revoke =>
          inr (Ok (ValidateOutcome.Kill KillReason.Fraud
                     (Some "This application version has been withdrawn. Please update.")))
      end
  end.

Definition validate (l : LicenseRecord) (policy : Policy) (catalog : Catalog)
    (registry : ReleaseRegistry) (scope : VersionScope) (input : ValidateInput)
    (revocation_epoch security_floor now : Z) : result ValidateOutcome ClientFault :=
  check? check_request input revocation_epoch security_floor ;;
  match activation l (ValidateInput.machine_id input) with
  | None => Err ClientFault.NeedsReactivation
  | Some a =>
      match kill_order l a with
      | Some k => Ok k
      | None =>
          if match LicenseRecord.status l with
             | LicenseStatus.Suspended | LicenseStatus.Expired => true | _ => false end
          then Err ClientFault.InvalidCredential
          else if Activate.expired l now then Err ClientFault.InvalidCredential
          else
            match release_verdict registry scope (ValidateInput.release_id input) with
            | inr final => final
            | inl (verdict, variant_id, release_status) =>
                Ok (ValidateOutcome.Ticket
                      (TicketPlan.mk verdict
                         (sat_add_i64 now (RuntimeSpec.refresh_after_secs (Policy.runtime policy)))
                         (Activate.credential_expiry l policy now)
                         revocation_epoch security_floor
                         (result_ok (Resolve.resolve catalog (Policy.entitlement policy) now))
                         release_status
                         (ValidateInput.known_revocation_epoch input <? revocation_epoch)
                         variant_id))
            end
      end
  end.

(** The fields [touch] writes. *)
Definition touched (plan : TicketPlan) (now : Z) (a : ActivationRecord) : ActivationRecord :=
  ActivationRecord.mk (machine_id a) (fingerprint a) (attrs a) (device_kem_ek a)
    (device_sig_vk a) (ActivationRecord.status a) (activation_path a) (release_id a)
    (match TicketPlan.variant_id plan with Some v => Some v | None => variant_id a end)
    (created_at a) (Some now) (TicketPlan.next_refresh_after plan) (TicketPlan.not_after plan)
    (transfer_count a).

Definition touch (l : LicenseRecord) (mid : MachineId) (plan : TicketPlan) (now : Z)
    : LicenseRecord :=
  activation_mut l mid (touched plan now).

Definition revoked_machines (l : LicenseRecord) : list MachineId :=
  map machine_id
    (List.filter (fun a => bool_decide (ActivationRecord.status a = ActivationStatus.Revoked))
       (activations l)).
End Validate.
Import Validate.

(** ** The verdict *)

(** A request the structural checks let through. *)
Definition request_ok (input : ValidateInput) (revocation_epoch security_floor : Z) : Prop :=
  ValidateInput.nonce_fresh input = true /\ ValidateInput.proof_valid input = true /\
  ValidateInput.known_revocation_epoch input <= revocation_epoch /\
  ValidateInput.known_security_floor input <= security_floor.

Lemma check_request_ok input re sf : check_request input re sf = Ok tt <-> request_ok input re sf.
Proof.
  unfold check_request, request_ok.
  destruct (ValidateInput.nonce_fresh input); simpl; [|naive_solver].
  destruct (ValidateInput.proof_valid input); simpl; [|naive_solver].
  destruct (Z.ltb_spec re (ValidateInput.known_revocation_epoch input)); simpl;
    [naive_solver lia|].
  destruct (Z.ltb_spec sf (ValidateInput.known_security_floor input)); simpl; naive_solver lia.
Qed.

(** The facts that make the server destroy a credential. *)
Definition warrants_kill (l : LicenseRecord) (registry : ReleaseRegistry)
    (input : ValidateInput) (reason : KillReason.KillReason) : Prop :=
  exists a, activation l (ValidateInput.machine_id input) = Some a /\
  match reason with
  | KillReason.RevokedLicense => LicenseRecord.status l = LicenseStatus.Revoked
  | KillReason.RevokedActivation => ActivationRecord.status a = ActivationStatus.Revoked
  | KillReason.SeatReclaimed => ActivationRecord.status a = ActivationStatus.Released
  | KillReason.Fraud =>
      exists r, ReleaseRegistry.get registry (ValidateInput.release_id input) = Some r /\
        Release.status r = ReleaseStatus.Compromised /\
        Release.compromised_action r = Some CompromisedAction.Revoke
  | _ => False
  end.

Lemma decide_compromised registry scope rid action :
  ReleaseRegistry.decide registry scope rid = VersionDecision.Compromised action ->
  exists r, ReleaseRegistry.get registry rid = Some r /\
    Release.status r = ReleaseStatus.Compromised /\
    action = default CompromisedAction.Warn (Release.compromised_action r).
Proof.
  unfold ReleaseRegistry.decide. destruct (ReleaseRegistry.get registry rid) as [r|]; [|done].
  case_bool_decide; [intros [= <-]; by exists r|]. by destruct (ReleaseRegistry.satisfies _ _).
Qed.

Lemma kill_order_warranted l a registry input reason msg :
  activation l (ValidateInput.machine_id input) = Some a ->
  kill_order l a = Some (ValidateOutcome.Kill reason msg) -> warrants_kill l registry input reason.
Proof.
  intros Ha. unfold kill_order, warrants_kill. case_bool_decide; [intros [= <- <-]; eauto|].
  destruct (ActivationRecord.status a) eqn:Es; try done; intros [= <- <-]; exists a; by rewrite Es.
Qed.

Lemma kill_order_kills l a o : kill_order l a = Some o -> exists r m, o = ValidateOutcome.Kill r m.
Proof. unfold kill_order. repeat case_match; intros; simplify_eq; eauto. Qed.

Lemma kill_order_None l a :
  kill_order l a = None <->
  LicenseRecord.status l <> LicenseStatus.Revoked /\ holds_seat a = true.
Proof.
  unfold kill_order, holds_seat. case_bool_decide; [naive_solver|].
  destruct (ActivationRecord.status a); naive_solver.
Qed.

(** C37 The irreversible answer is never given lightly: a kill order is sent only for a fresh,
    proven, non-rolled-back request by a known activation, and only when its licence is
    revoked, its activation revoked or released, or its release withdrawn with the revoke
    action; and conversely a revoked licence or a seatless activation is always killed. *)
Theorem kill_exactly_when_warranted (l : LicenseRecord) (policy : Policy) (catalog : Catalog)
    (registry : ReleaseRegistry) (scope : VersionScope) (input : ValidateInput)
    (re sf now : Z) :
  (forall reason msg,
     validate l policy catalog registry scope input re sf now = Ok (ValidateOutcome.Kill reason msg) ->
     request_ok input re sf /\ warrants_kill l registry input reason) /\
  (forall a, request_ok input re sf -> activation l (ValidateInput.machine_id input) = Some a ->
     LicenseRecord.status l = LicenseStatus.Revoked \/ holds_seat a = false ->
     exists reason msg,
       validate l policy catalog registry scope input re sf now =
       Ok (ValidateOutcome.Kill reason msg)).
Proof.
  unfold validate. split.
  - intros reason msg H. apply rbind_ok in H as ([] & Hc%check_request_ok & H). split; [done|].
    destruct (activation l (ValidateInput.machine_id input)) as [a|] eqn:Ea; [|done].
    destruct (kill_order l a) as [k|] eqn:Ek.
    { injection H as ->. by eapply kill_order_warranted. }
    destruct (match LicenseRecord.status l with
              | LicenseStatus.Suspended | LicenseStatus.Expired => true | _ => false end); [done|].
    destruct (Activate.expired l now); [done|]. unfold release_verdict in H.
    destruct (ReleaseRegistry.decide _ _ _) as [v| |h|act] eqn:Ed; try done.
    destruct act; try done. injection H as <- <-. exists a. split; [done|].
    apply decide_compromised in Ed as (r & ? & ? & Hact). exists r. split_and!; [done..|].
    by destruct (Release.compromised_action r) as [[]|]; simpl in Hact.
  - intros a Hq%check_request_ok Ha Hk. rewrite Hq, Ha. simpl.
    destruct (kill_order l a) as [o|] eqn:Ek.
    + destruct (kill_order_kills _ _ _ Ek) as (r & m & ->). eauto.
    + apply kill_order_None in Ek. destruct Ek, Hk; congruence.
Qed.

(** A ticket is issued only where it should be, and says what the server knows: the request
    is fresh, proven and not rolled back, the licence is active and unexpired, the activation
    holds a seat, the release is registered; the ticket carries the server's counters, asks for
    a prompt recheck exactly when the client's revocation view is behind, and names key
    variants only for releases that are in scope (or compromised with a mere warning). *)
Theorem ticket_only_when_entitled (l : LicenseRecord) (policy : Policy) (catalog : Catalog)
    (registry : ReleaseRegistry) (scope : VersionScope) (input : ValidateInput)
    (re sf now : Z) (t : TicketPlan)
    (Hv : validate l policy catalog registry scope input re sf now = Ok (ValidateOutcome.Ticket t)) :
  request_ok input re sf /\ LicenseRecord.status l = LicenseStatus.Active /\
  Activate.expired l now = false /\
  (exists a, activation l (ValidateInput.machine_id input) = Some a /\ holds_seat a = true) /\
  TicketPlan.revocation_epoch t = re /\ TicketPlan.security_floor t = sf /\
  (TicketPlan.refresh_now t = true <-> ValidateInput.known_revocation_epoch input < re) /\
  (exists r, ReleaseRegistry.get registry (ValidateInput.release_id input) = Some r /\
     forall v, TicketPlan.variant_id t = Some v ->
       v = Release.variant_id r /\
       (ReleaseRegistry.satisfies r scope = true \/
        (Release.status r = ReleaseStatus.Compromised /\
         default CompromisedAction.Warn (Release.compromised_action r) = CompromisedAction.Warn))).
Proof.
  unfold validate in Hv. apply rbind_ok in Hv as ([] & Hc%check_request_ok & H). split; [done|].
  destruct (activation l (ValidateInput.machine_id input)) as [a|] eqn:Ea; [|done].
  destruct (kill_order l a) as [k|] eqn:Ek.
  { destruct (kill_order_kills _ _ _ Ek) as (? & ? & ->). done. }
  apply kill_order_None in Ek as [Hrev Hseat].
  destruct (LicenseRecord.status l); try done.
  destruct (Activate.expired l now); [done|].
  unfold release_verdict, ReleaseRegistry.decide in H.
  destruct (ReleaseRegistry.get registry (ValidateInput.release_id input)) as [r|] eqn:Er; [|done].
  case_bool_decide as Hcomp.
  - destruct (default CompromisedAction.default_ (Release.compromised_action r)) eqn:Ea';
      simplify_eq/=; (split_and!; [done|done|by eexists|done|done|apply Z.ltb_lt|]);
      exists r; (split; [done|]); intros v Hvar; simplify_eq; auto.
  - destruct (ReleaseRegistry.satisfies r scope) eqn:Es; simplify_eq/=;
      (split_and!; [done|done|by eexists|done|done|apply Z.ltb_lt|]);
      exists r; (split; [done|]); intros v Hvar; simplify_eq; auto.
Qed.

Definition demo_request (epoch : Z) : ValidateInput :=
  ValidateInput.mk [1] [] "rel_1" epoch 0 true true.

Lemma ticket_only_when_entitled_witness :
  match validate demo_active demo_policy demo_catalog demo_registry VersionScope.Unlimited
          (demo_request 3) 5 0 1000 with
  | Ok (ValidateOutcome.Ticket t) => TicketPlan.refresh_now t = true <-> 3 < 5
  | _ => False
  end.
Proof.
  destruct (validate demo_active demo_policy demo_catalog demo_registry VersionScope.Unlimited
          (demo_request 3) 5 0 1000) as [[t|? ?]|f] eqn:E.
  - apply (ticket_only_when_entitled demo_active demo_policy demo_catalog demo_registry
             VersionScope.Unlimited (demo_request 3) 5 0 1000 t E).
  - vm_compute in E. discriminate E.
  - vm_compute in E. discriminate E.
Defined.

(** ** Revocation, end to end *)

Lemma run_ops_status_revoked l n ops mid :
  ops_within l n ops -> status_of l mid = Some ActivationStatus.Revoked ->
  status_of (run_ops l ops) mid = Some ActivationStatus.Revoked.
Proof.
  intros Hops. apply (run_ops_inv (fun x => status_of x mid = Some ActivationStatus.Revoked) l n);
    [|done].
  intros l' op _ Hs Ht _. destruct (step_status_of l' op mid _ Ht Hs) as (s' & -> & Hl).
  by rewrite (lifecycle_revoked _ Hl).
Qed.

Lemma run_ops_license_revoked l n ops :
  ops_within l n ops -> LicenseRecord.status l = LicenseStatus.Revoked ->
  LicenseRecord.status (run_ops l ops) = LicenseStatus.Revoked.
Proof.
  intros Hops. apply (run_ops_inv (fun x => LicenseRecord.status x = LicenseStatus.Revoked) l n);
    [|done].
  intros l' op _ Hs _ _. by apply step_license_revoked.
Qed.

Lemma plan_for_state_ok b cur req p :
  Revoke.plan_for_state b cur req = Ok p -> Revoke.state_changed p = negb b.
Proof.
  unfold Revoke.plan_for_state. destruct (req =? 0); [done|]. destruct b; [by intros [= <-]|].
  destruct (req <=? cur); [done|]. by intros [= <-].
Qed.

Lemma revoke_machine_status l mid cur req l' p :
  Revoke.revoke l (Revoke.Machine mid) cur req = (l', Ok p) ->
  status_of l' mid = Some ActivationStatus.Revoked.
Proof.
  unfold Revoke.revoke, Revoke.plan_machine. intros H.
  destruct (activation l mid) as [a|] eqn:Ea; simpl in H; [|done].
  destruct (Revoke.plan_for_state _ _ _) as [q|] eqn:Eq; [|done].
  apply plan_for_state_ok in Eq. rewrite Eq in H. unfold status_of.
  case_bool_decide as Hr; simpl in H; injection H as <- <-.
  - rewrite Ea. simpl. by rewrite Hr.
  - by rewrite (activation_mut_lookup l mid (set_status ActivationStatus.Revoked) a (fun _ => eq_refl) Ea).
Qed.

Lemma revoke_license_status l cur req l' p :
  Revoke.revoke l Revoke.License cur req = (l', Ok p) ->
  LicenseRecord.status l' = LicenseStatus.Revoked.
Proof.
  unfold Revoke.revoke, Revoke.plan_license. intros H.
  destruct (Revoke.plan_for_state _ _ _) as [q|] eqn:Eq; [|done].
  apply plan_for_state_ok in Eq. rewrite Eq in H.
  case_bool_decide as Hr; simpl in H; injection H as <- <-; [|done].
  by destruct (revoked_at_epoch l).
Qed.

(** C3 Revocation reaches the client and is final: once a revocation was accepted, no sequence
    of later operations - reservations, commits, heartbeats, reclaims, deactivations, other
    revocations - lets a revoked machine obtain anything but a kill order from a well-formed
    validation request, and a revoked licence never reserves a seat again. *)
Theorem revocation_is_final (l l1 : LicenseRecord) (target : Revoke.RevokeTarget)
    (cur req n : Z) (p : Revoke.RevokePlan) (ops : list seat_op)
    (Hrev : Revoke.revoke l target cur req = (l1, Ok p)) (Hops : ops_within l1 n ops) :
  (forall policy catalog registry scope input re sf now,
     request_ok input re sf ->
     is_Some (activation (run_ops l1 ops) (ValidateInput.machine_id input)) ->
     (target = Revoke.License \/ target = Revoke.Machine (ValidateInput.machine_id input)) ->
     exists reason msg,
       validate (run_ops l1 ops) policy catalog registry scope input re sf now =
       Ok (ValidateOutcome.Kill reason msg)) /\
  (target = Revoke.License ->
   forall policy catalog registry input scope mid now,
     Activate.reserve_seat (run_ops l1 ops) policy catalog registry input scope mid now =
     (run_ops l1 ops, Err ClientFault.InvalidCredential)).
Proof.
  split.
  - intros policy catalog registry scope input re sf now Hq%check_request_ok [a Ha] Ht.
    unfold validate. rewrite Hq, Ha. simpl.
    destruct (kill_order (run_ops l1 ops) a) as [o|] eqn:Ek.
    { destruct (kill_order_kills _ _ _ Ek) as (r & m & ->). eauto. }
    exfalso. apply kill_order_None in Ek as [Hl Hs]. destruct Ht as [->| ->].
    + apply Hl. eapply run_ops_license_revoked; [done|]. by eapply revoke_license_status.
    + apply revoke_machine_status, (run_ops_status_revoked _ _ _ _ Hops) in Hrev.
      unfold status_of in Hrev. rewrite Ha in Hrev. injection Hrev as Hst.
      unfold holds_seat in Hs. by rewrite Hst in Hs.
  - intros -> policy catalog registry input scope mid now.
    apply revoke_license_status, (run_ops_license_revoked _ _ _ Hops) in Hrev.
    unfold Activate.reserve_seat, Activate.check_device. by rewrite Hrev.
Qed.

Lemma revocation_is_final_witness :
  match Revoke.revoke demo_active (Revoke.Machine [1]) 0 1 with
  | (l1, Ok _) =>
      exists reason msg,
        validate (run_ops l1 [OpCommit [1]]) demo_policy demo_catalog demo_registry
          VersionScope.Unlimited (demo_request 0) 1 0 50 = Ok (ValidateOutcome.Kill reason msg)
  | _ => False
  end.
Proof.
  destruct (Revoke.revoke demo_active (Revoke.Machine [1]) 0 1) as [l1 [p|e]] eqn:E.
  - apply (revocation_is_final demo_active l1 (Revoke.Machine [1]) 0 1 0 p [OpCommit [1]] E).
    + unfold ops_within. apply List.Forall_cons; [intros m Hm; discriminate Hm|apply List.Forall_nil].
    + split; [reflexivity|]. split; [reflexivity|]. split; discriminate.
    + vm_compute in E. injection E as <- <-. eexists. vm_compute. reflexivity.
    + right. reflexivity.
  - vm_compute in E. discriminate E.
Defined.

(** ** The expiry a ticket carries *)

Lemma validate_not_after l policy catalog registry scope input re sf now t :
  validate l policy catalog registry scope input re sf now = Ok (ValidateOutcome.Ticket t) ->
  TicketPlan.not_after t = Activate.credential_expiry l policy now.
Proof.
  unfold validate. intros H. apply rbind_ok in H as ([] & _ & H).
  destruct (activation _ _) as [a|]; [|done].
  destruct (kill_order l a) as [k|] eqn:Ek.
  { destruct (kill_order_kills _ _ _ Ek) as (? & ? & ->). done. }
  destruct (match LicenseRecord.status l with
            | LicenseStatus.Suspended | LicenseStatus.Expired => true | _ => false end); [done|].
  destruct (Activate.expired l now); [done|].
  destruct (release_verdict _ _ _) as [[[v va] st]|final] eqn:Ev; [by injection H as <-|].
  unfold release_verdict in Ev. repeat case_match; simplify_eq.
Qed.

(** A ticket's hard expiry is anchored at the validation, not at the start of the term: for a
    fixed-term or trial policy it is [now + duration] at every validation, so it exceeds the
    expiry stored on the licence whenever less than a full term remains. *)
Theorem ticket_expiry_slides (l : LicenseRecord) (policy : Policy) (catalog : Catalog)
    (registry : ReleaseRegistry) (scope : VersionScope) (input : ValidateInput)
    (re sf now d : Z) (t : TicketPlan)
    (Hv : validate l policy catalog registry scope input re sf now = Ok (ValidateOutcome.Ticket t))
    (Hd : Policy.validity policy = Validity.FixedTerm d \/
          exists once ext, Policy.validity policy = Validity.Trial d once ext)
    (Hnow : in_i64 (now + d)) :
  TicketPlan.not_after t = now + d /\
  (forall e, LicenseRecord.expires_at l = Some e -> e < now + d -> e < TicketPlan.not_after t).
Proof.
  rewrite (validate_not_after _ _ _ _ _ _ _ _ _ _ Hv). unfold Activate.credential_expiry.
  assert (Policy.expires_at policy now = Some (now + d)) as ->; [|done].
  unfold Policy.expires_at. destruct Hd as [->|(once & ext & ->)]; by rewrite sat_add_i64_exact.
Qed.

Definition demo_term_license : LicenseRecord :=
  LicenseRecord.mk [1] "prod" "pol" LicenseStatus.Active None (Some YEAR) None
    (activations demo_active).

Lemma ticket_expiry_slides_witness :
  match validate demo_term_license (Preset.build Preset.Edu1y "pol" "prod" "pro" 0) demo_catalog
          demo_registry VersionScope.Unlimited (demo_request 0) 0 0 (YEAR - 1) with
  | Ok (ValidateOutcome.Ticket t) => TicketPlan.not_after t = YEAR - 1 + YEAR
  | _ => False
  end.
Proof.
  destruct (validate demo_term_license (Preset.build Preset.Edu1y "pol" "prod" "pro" 0)
    demo_catalog demo_registry VersionScope.Unlimited (demo_request 0) 0 0 (YEAR - 1))
    as [[t|? ?]|f] eqn:E.
  - apply (ticket_expiry_slides demo_term_license (Preset.build Preset.Edu1y "pol" "prod" "pro" 0)
             demo_catalog demo_registry VersionScope.Unlimited (demo_request 0) 0 0 (YEAR - 1)
             YEAR t E).
    + left. reflexivity.
    + split; discriminate.
  - vm_compute in E. discriminate E.
  - vm_compute in E. discriminate E.
Defined.
