(* ===== verification/Cbor.v ===== *)
(** * Deterministic CBOR ([crates/copylocker-suite/src/cbor.rs])

    The value type, the canonical writer, the strict parser and the map builder.  A parser
    state [buf]/[pos] is the list of the bytes not read yet.  [value] recurses on
    [remaining = max_depth + 1 - depth], so it needs no fuel; [depth] is a [u8] in the source,
    so the model stands for limits with [max_depth < 255] (the default is 16). *)

From S2P Require Import Prelude Types Errors.

Definition DEFAULT_MAX_DEPTH : Z := 16.

(** ** UTF-8 ([core::str::from_utf8]) *)

Definition in_range (lo hi b : Z) : bool := (lo <=? b) && (b <=? hi).
Definition is_cont (b : Z) : bool := in_range 128 191 b.

(** The first continuation byte a three- or four-byte lead allows. *)
Definition second_of_three (b0 b1 : Z) : bool :=
  if b0 =? 224 then in_range 160 191 b1
  else if b0 =? 237 then in_range 128 159 b1
  else in_range 225 239 b0 && is_cont b1.
Definition second_of_four (b0 b1 : Z) : bool :=
  if b0 =? 240 then in_range 144 191 b1
  else if b0 =? 244 then in_range 128 143 b1
  else in_range 241 243 b0 && is_cont b1.

Fixpoint utf8_valid (s : list byte) : bool :=
  match s with
  | [] => true
  | b0 :: r0 =>
      if b0 <? 128 then utf8_valid r0
      else
        match r0 with
        | [] => false
        | b1 :: r1 =>
            if in_range 194 223 b0 && is_cont b1 then utf8_valid r1
            else
              match r1 with
              | [] => false
              | b2 :: r2 =>
                  if second_of_three b0 b1 && is_cont b2 then utf8_valid r2
                  else
                    match r2 with
                    | [] => false
                    | b3 :: r3 =>
                        second_of_four b0 b1 && is_cont b2 && is_cont b3 && utf8_valid r3
                    end
              end
        end
  end.

(** ** Values *)

Module CborValue.
(** [Text] holds the UTF-8 bytes of the source's [String]. *)
Inductive CborValue :=
| Uint (v : Z)
| Nint (v : Z)
| Bytes (b : list byte)
| Text (t : list byte)
| Array (a : list CborValue)
| Map (m : list (CborValue * CborValue))
| Bool (b : bool)
| Null.

Section Induction.
Variable P : CborValue -> Prop.
Hypotheses (HUint : forall v, P (Uint v)) (HNint : forall v, P (Nint v))
  (HBytes : forall b, P (Bytes b)) (HText : forall t, P (Text t))
  (HArray : forall a, Forall P a -> P (Array a))
  (HMap : forall m, Forall (fun kv => P kv.1 /\ P kv.2) m -> P (Map m))
  (HBool : forall b, P (Bool b)) (HNull : P Null).

Fixpoint value_ind (v : CborValue) : P v :=
  match v with
  | Uint v => HUint v
  | Nint v => HNint v
  | Bytes b => HBytes b
  | Text t => HText t
  | Array a =>
      HArray a ((fix go (a : list CborValue) : Forall P a :=
                   match a with
                   | [] => @List.Forall_nil _ _
                   | x :: a => @List.Forall_cons _ _ x a (value_ind x) (go a)
                   end) a)
  | Map m =>
      HMap m ((fix go (m : list (CborValue * CborValue)) : Forall (fun kv => P kv.1 /\ P kv.2) m :=
                 match m with
                 | [] => @List.Forall_nil _ _
                 | kv :: m => @List.Forall_cons _ _ kv m (conj (value_ind kv.1) (value_ind kv.2)) (go m)
                 end) m)
  | Bool b => HBool b
  | Null => HNull
  end.
End Induction.

(** The derived [PartialEq]. *)
Fixpoint eqb (x y : CborValue) {struct x} : bool :=
  match x, y with
  | Uint v, Uint w | Nint v, Nint w => v =? w
  | Bytes b, Bytes c | Text b, Text c => bool_decide (b = c)
  | Array a, Array b =>
      (fix go (a b : list CborValue) : bool :=
         match a, b with
         | [], [] => true
         | x :: a, y :: b => eqb x y && go a b
         | _, _ => false
         end) a b
  | Map a, Map b =>
      (fix go (a b : list (CborValue * CborValue)) : bool :=
         match a, b with
         | [], [] => true
         | x :: a, y :: b => eqb x.1 y.1 && eqb x.2 y.2 && go a b
         | _, _ => false
         end) a b
  | Bool b, Bool c => Bool.eqb b c
  | Null, Null => true
  | _, _ => false
  end.

Definition int (v : Z) : CborValue := if v <? 0 then Nint (- (v + 1)) else Uint v.

Definition i64_try_from (v : Z) : option Z := if v <=? i64_max then Some v else None.

Definition as_int (v : CborValue) : option Z :=
  match v with
  | Uint v => i64_try_from v
  | Nint v => option_map (fun n => - n - 1) (i64_try_from v)
  | _ => None
  end.
Definition as_uint (v : CborValue) : option Z := match v with Uint v => Some v | _ => None end.
Definition as_bytes (v : CborValue) := match v with Bytes b => Some b | _ => None end.
Definition as_text (v : CborValue) := match v with Text b => Some b | _ => None end.
Definition as_array (v : CborValue) := match v with Array b => Some b | _ => None end.
Definition as_map (v : CborValue) := match v with Map b => Some b | _ => None end.
Definition as_bool (v : CborValue) := match v with Bool b => Some b | _ => None end.
Definition is_null (v : CborValue) : bool := match v with Null => true | _ => false end.

Definition get (v : CborValue) (key : Z) : option CborValue :=
  entries ← as_map v;
  option_map snd (find_first (fun kv => bool_decide (as_uint kv.1 = Some key)) entries).

(** ** The canonical writer *)

Definition write_head (major arg : Z) : list byte :=
  let m := Z.shiftl major 5 in
  if arg <? 24 then [Z.lor m arg]
  else if arg <=? u8_max then [Z.lor m 24; arg]
  else if arg <=? u16_max then Z.lor m 25 :: be_bytes 2 arg
  else if arg <=? u32_max then Z.lor m 26 :: be_bytes 4 arg
  else Z.lor m 27 :: be_bytes 8 arg.

(** The order of byte strings. *)
Fixpoint bytes_le (a b : list byte) : bool :=
  match a, b with
  | [], _ => true
  | _ :: _, [] => false
  | x :: a, y :: b => (x <? y) || ((x =? y) && bytes_le a b)
  end.

(** [sort_by(|a, b| a.0.cmp(&b.0))]: stable, by key. *)
Fixpoint insert_by_key {A} (x : list byte * A) (l : list (list byte * A)) :=
  match l with
  | [] => [x]
  | y :: l => if bytes_le x.1 y.1 then x :: y :: l else y :: insert_by_key x l
  end.
Definition sort_by_key {A} (l : list (list byte * A)) : list (list byte * A) :=
  foldr insert_by_key [] l.

Definition flatten (l : list (list byte * list byte)) : list byte :=
  concat (map (fun e => e.1 ++ e.2) l).

Fixpoint to_canonical (v : CborValue) : list byte :=
  match v with
  | Uint v => write_head 0 v
  | Nint v => write_head 1 v
  | Bytes b => write_head 2 (Z.of_nat (length b)) ++ b
  | Text t => write_head 3 (Z.of_nat (length t)) ++ t
  | Array a => write_head 4 (Z.of_nat (length a)) ++ concat (map to_canonical a)
  | Map m =>
      let encoded := map (fun kv => match kv with (k, v) => (to_canonical k, to_canonical v) end) m in
      write_head 5 (Z.of_nat (length m)) ++ flatten (sort_by_key encoded)
  | Bool b => [if b then 245 else 244]
  | Null => [246]
  end.
End CborValue.
Notation CborValue := CborValue.CborValue.
Import CborValue.

(** ** The parser *)

Module Limits.
Record Limits := mk { max_depth : Z; max_items : Z; max_string : Z }.
Definition default_ : Limits := mk DEFAULT_MAX_DEPTH 4096 (64 * 1024).
End Limits.
Notation Limits := Limits.Limits.

Module Parser.
Definition parse (A : Type) := list byte -> result (A * list byte) CodecError.

Definition take (n : Z) : parse (list byte) := fun s =>
  if n <=? Z.of_nat (length s)
  then Ok (list.take (Z.to_nat n) s, list.drop (Z.to_nat n) s)
  else Err CodecError.Malformed.

Definition byte_ : parse Z := fun s =>
  match s with [] => Err CodecError.Malformed | b :: s => Ok (b, s) end.

Definition head : parse (Z * Z) := fun s =>
  r <-? byte_ s ;;
  let '(ib, s) := r in
  let major := Z.shiftr ib 5 in
  let ai := Z.land ib 31 in
  if ai <? 24 then Ok ((major, ai), s)
  else if ai =? 24 then r <-? byte_ s ;; Ok ((major, r.1), r.2)
  else if ai =? 25 then r <-? take 2 s ;; Ok ((major, of_be_bytes r.1), r.2)
  else if ai =? 26 then r <-? take 4 s ;; Ok ((major, of_be_bytes r.1), r.2)
  else if ai =? 27 then r <-? take 8 s ;; Ok ((major, of_be_bytes r.1), r.2)
  else Err CodecError.Malformed.

Definition count (l : Limits) (arg : Z) : result nat CodecError :=
  if Limits.max_items l <? arg then Err CodecError.TooLong else Ok (Z.to_nat arg).

(** The two string branches up to the payload. *)
Definition string_ (l : Limits) (arg : Z) : parse (list byte) := fun s =>
  if Limits.max_string l <? arg then Err CodecError.TooLong else take arg s.

(** [for _ in 0..n { items.push(self.value(depth + 1)?) }]. *)
Fixpoint items (p : parse CborValue) (n : nat) (s : list byte)
    : result (list CborValue * list byte) CodecError :=
  match n with
  | O => Ok ([], s)
  | S n => r <-? p s ;; rs <-? items p n r.2 ;; Ok (r.1 :: rs.1, rs.2)
  end.

(** The map loop, with the entries read so far for the duplicate check. *)
Fixpoint entries (p : parse CborValue) (n : nat) (acc : list (CborValue * CborValue))
    (s : list byte) : result (list (CborValue * CborValue) * list byte) CodecError :=
  match n with
  | O => Ok (acc, s)
  | S n =>
      k <-? p s ;;
      if existsb (fun e => eqb e.1 k.1) acc then Err CodecError.NotCanonical
      else v <-? p k.2 ;; entries p n (acc ++ [(k.1, v.1)]) v.2
  end.

Fixpoint value (l : Limits) (remaining : nat) (s : list byte)
    : result (CborValue * list byte) CodecError :=
  match remaining with
  | O => Err CodecError.DepthExceeded
  | S remaining =>
      r <-? head s ;;
      let '((major, arg), s) := r in
      if major =? 0 then Ok (Uint arg, s)
      else if major =? 1 then Ok (Nint arg, s)
      else if major =? 2 then b <-? string_ l arg s ;; Ok (Bytes b.1, b.2)
      else if major =? 3 then
        b <-? string_ l arg s ;;
        if utf8_valid b.1 then Ok (Text b.1, b.2) else Err CodecError.Malformed
      else if major =? 4 then
        n <-? count l arg ;; r <-? items (value l remaining) n s ;; Ok (Array r.1, r.2)
      else if major =? 5 then
        n <-? count l arg ;; r <-? entries (value l remaining) n [] s ;; Ok (Map r.1, r.2)
      else if major =? 7 then
        if arg =? 20 then Ok (Bool false, s)
        else if arg =? 21 then Ok (Bool true, s)
        else if arg =? 22 then Ok (Null, s)
        else Err CodecError.Malformed
      else Err CodecError.Malformed
  end.

Definition depth_budget (l : Limits) : nat := S (Z.to_nat (Limits.max_depth l)).

Definition decode_canonical (bytes : list byte) (l : Limits) : result CborValue CodecError :=
  r <-? value l (depth_budget l) bytes ;;
  match r.2 with
  | _ :: _ => Err CodecError.TrailingBytes
  | [] => if bool_decide (to_canonical r.1 = bytes) then Ok r.1 else Err CodecError.NotCanonical
  end.
End Parser.
Import Parser.

Module MapBuilder.
Record MapBuilder := mk { entries : list (CborValue * CborValue) }.
Definition new : MapBuilder := mk [].
Definition put (b : MapBuilder) (key : Z) (value : CborValue) : MapBuilder :=
  mk (entries b ++ [(Uint key, value)]).
Definition put_opt (b : MapBuilder) (key : Z) (value : option CborValue) : MapBuilder :=
  match value with Some v => put b key v | None => b end.
Definition build (b : MapBuilder) : CborValue := Map (entries b).
Definition finish (b : MapBuilder) : list byte := to_canonical (build b).
End MapBuilder.
Notation MapBuilder := MapBuilder.MapBuilder.

(** ** Heads *)

Lemma of_be_bytes_app n v acc :
  fold_left (fun acc b => acc * 256 + b) (be_bytes n v) acc =
  acc * 256 ^ Z.of_nat n + v mod 256 ^ Z.of_nat n.
Proof.
  revert acc. induction n as [|n IH]; intros acc; simpl be_bytes; simpl fold_left.
  { rewrite Z.mod_1_r. simpl. lia. }
  rewrite IH. change 255 with (Z.ones 8). rewrite Z.land_ones by lia.
  rewrite Z.shiftr_div_pow2 by lia.
  replace (2 ^ (8 * Z.of_nat n)) with (256 ^ Z.of_nat n)
    by (rewrite Z.pow_mul_r by lia; done).
  replace (2 ^ 8) with 256 by done.
  rewrite Nat2Z.inj_succ, Z.pow_succ_r, (Z.mul_comm 256) by lia.
  rewrite (Z.rem_mul_r v (256 ^ Z.of_nat n) 256) by lia. lia.
Qed.

Lemma of_be_bytes_be_bytes n v :
  0 <= v < 256 ^ Z.of_nat n -> of_be_bytes (be_bytes n v) = v.
Proof. intros Hv. unfold of_be_bytes. rewrite of_be_bytes_app, Z.mod_small by done. lia. Qed.

Lemma be_bytes_length n v : length (be_bytes n v) = n.
Proof. induction n; simpl; auto. Qed.

Lemma be_bytes_bytes n v : is_bytes (be_bytes n v).
Proof.
  unfold is_bytes. induction n; simpl; constructor; [|done].
  change 255 with (Z.ones 8). rewrite Z.land_ones by lia. unfold in_u8, u8_max.
  pose proof (Z.mod_pos_bound (Z.shiftr v (8 * Z.of_nat n)) (2 ^ 8) ltac:(done)).
  change (2 ^ 8) with 256 in *. lia.
Qed.

Lemma head_byte_major m x : 0 <= x < 32 -> Z.shiftr (Z.lor (Z.shiftl m 5) x) 5 = m.
Proof.
  intros Hx. rewrite Z.shiftr_lor, Z.shiftr_shiftl_l, Z.shiftl_0_r by lia.
  rewrite (Z.shiftr_div_pow2 x), Z.div_small by lia. apply Z.lor_0_r.
Qed.

Lemma head_byte_info m x : 0 <= x < 32 -> Z.land (Z.lor (Z.shiftl m 5) x) 31 = x.
Proof.
  intros Hx. rewrite Z.land_lor_distr_l. change 31 with (Z.ones 5).
  rewrite !Z.land_ones, Z.shiftl_mul_pow2, Z.mod_mul by lia. simpl.
  apply Z.mod_small. lia.
Qed.

Lemma take_app n b s : Z.of_nat (length b) = n -> take n (b ++ s) = Ok (b, s).
Proof.
  intros <-. unfold take. rewrite length_app, (proj2 (Z.leb_le _ _)) by lia.
  by rewrite Nat2Z.id, take_app_length, drop_app_length.
Qed.

(** Reading a head back. *)
Lemma head_write_head major arg s :
  in_u64 arg -> head (write_head major arg ++ s) = Ok ((major, arg), s).
Proof.
  intros Hu. unfold write_head, head.
  destruct (Z.ltb_spec arg 24).
  { simpl. rewrite head_byte_major, head_byte_info by int_lia.
    by rewrite (proj2 (Z.ltb_lt _ _)). }
  assert (Hbe : forall n, 0 <= arg < 256 ^ Z.of_nat n ->
    take (Z.of_nat n) (be_bytes n arg ++ s) = Ok (be_bytes n arg, s) /\
    of_be_bytes (be_bytes n arg) = arg).
  { intros n Hn. split; [apply take_app; by rewrite be_bytes_length|by apply of_be_bytes_be_bytes]. }
  destruct (Z.leb_spec arg u8_max);
    [simpl; rewrite head_byte_major, head_byte_info by lia; reflexivity|].
  destruct (Z.leb_spec arg u16_max).
  { destruct (Hbe 2%nat) as [Ht Hv]; [int_lia|]. cbn [byte_ rbind app].
    rewrite head_byte_major, head_byte_info by lia. cbn -[take be_bytes].
    change 2 with (Z.of_nat 2). rewrite Ht. cbn [rbind fst snd]. by rewrite Hv. }
  destruct (Z.leb_spec arg u32_max).
  { destruct (Hbe 4%nat) as [Ht Hv]; [int_lia|]. cbn [byte_ rbind app].
    rewrite head_byte_major, head_byte_info by lia. cbn -[take be_bytes].
    change 4 with (Z.of_nat 4). rewrite Ht. cbn [rbind fst snd]. by rewrite Hv. }
  destruct (Hbe 8%nat) as [Ht Hv]; [int_lia|]. cbn [byte_ rbind app].
  rewrite head_byte_major, head_byte_info by lia. cbn -[take be_bytes].
  change 8 with (Z.of_nat 8). rewrite Ht. cbn [rbind fst snd]. by rewrite Hv.
Qed.

(** ** Equality and order *)

Lemma eqb_eq x : forall y, eqb x y = true <-> x = y.
Proof.
  induction x as [v|v|b|t|a IH|m IH|b|] using value_ind; intros y; destruct y; simpl;
    try (split; [done|discriminate]).
  - rewrite Z.eqb_eq. naive_solver.
  - rewrite Z.eqb_eq. naive_solver.
  - rewrite bool_decide_eq_true. naive_solver.
  - rewrite bool_decide_eq_true. naive_solver.
  - transitivity (a = a0); [|naive_solver]. revert a0.
    induction IH as [|x a Hx _ IHa]; intros [|y b]; try done.
    rewrite andb_true_iff, Hx, IHa. naive_solver.
  - transitivity (m = m0); [|naive_solver]. revert m0.
    induction IH as [|[k v] m [Hk Hv] _ IHm]; intros [|[k' v'] m']; try done. simpl in *.
    rewrite !andb_true_iff, Hk, Hv, IHm. naive_solver.
  - rewrite eqb_true_iff. naive_solver.
  - done.
Qed.

Lemma bytes_le_refl a : bytes_le a a = true.
Proof. induction a as [|x a IH]; simpl; [done|]. by rewrite Z.eqb_refl, IH, orb_true_r. Qed.

Lemma bytes_le_total a b : bytes_le a b = true \/ bytes_le b a = true.
Proof.
  revert b. induction a as [|x a IH]; intros [|y b]; simpl; auto.
  destruct (Z.ltb_spec x y), (Z.ltb_spec y x), (Z.eqb_spec x y), (Z.eqb_spec y x); simpl;
    auto; lia.
Qed.

Lemma bytes_le_antisym a b : bytes_le a b = true -> bytes_le b a = true -> a = b.
Proof.
  revert b. induction a as [|x a IH]; intros [|y b]; simpl; try done.
  destruct (Z.ltb_spec x y), (Z.ltb_spec y x), (Z.eqb_spec x y), (Z.eqb_spec y x); simpl;
    try lia; try done. intros. f_equal; auto.
Qed.

Lemma bytes_le_trans a b c : bytes_le a b = true -> bytes_le b c = true -> bytes_le a c = true.
Proof.
  revert b c. induction a as [|x a IH]; intros [|y b] [|z c]; simpl; try done.
  destruct (Z.ltb_spec x y), (Z.ltb_spec y z), (Z.ltb_spec x z), (Z.eqb_spec x y),
    (Z.eqb_spec y z), (Z.eqb_spec x z); simpl; try lia; try done. eauto.
Qed.

(** Strictly increasing keys: what a canonical map's encoded keys are. *)
Definition key_lt (a b : list byte) : Prop := bytes_le b a = false.

Lemma key_lt_le a b : key_lt a b -> bytes_le a b = true.
Proof. unfold key_lt. destruct (bytes_le_total a b); congruence. Qed.

Lemma sort_sorted {A} (l : list (list byte * A)) :
  StronglySorted key_lt (map fst l) -> sort_by_key l = l.
Proof.
  induction l as [|x l IH]; simpl; [done|]. intros Hs. inversion Hs as [|? ? Hl Hx]; subst.
  rewrite IH by done. destruct l as [|y l]; simpl; [done|].
  simpl in Hx. apply Forall_cons in Hx as [Hx _]. by rewrite (key_lt_le _ _ Hx).
Qed.

Lemma insert_by_key_swap {A} (x y : list byte * A) l :
  x.1 <> y.1 -> insert_by_key x (insert_by_key y l) = insert_by_key y (insert_by_key x l).
Proof.
  intros Hne. induction l as [|z l IH]; simpl.
  - destruct (bytes_le x.1 y.1) eqn:E1, (bytes_le y.1 x.1) eqn:E2; try done.
    + exfalso. by apply Hne, bytes_le_antisym.
    + destruct (bytes_le_total x.1 y.1); congruence.
  - destruct (bytes_le y.1 z.1) eqn:Ey, (bytes_le x.1 z.1) eqn:Ex; simpl.
    + rewrite Ex, Ey. destruct (bytes_le x.1 y.1) eqn:E1, (bytes_le y.1 x.1) eqn:E2; try done.
      * exfalso. by apply Hne, bytes_le_antisym.
      * destruct (bytes_le_total x.1 y.1); congruence.
    + rewrite Ey, Ex. destruct (bytes_le x.1 y.1) eqn:E1; [|done].
      rewrite (bytes_le_trans _ _ _ E1 Ey) in Ex. done.
    + rewrite Ex, Ey. destruct (bytes_le y.1 x.1) eqn:E1; [|done].
      rewrite (bytes_le_trans _ _ _ E1 Ex) in Ey. done.
    + rewrite Ex, Ey. by rewrite IH.
Qed.

Lemma sort_perm {A} (l l' : list (list byte * A)) :
  l ≡ₚ l' -> NoDup (map fst l) -> sort_by_key l = sort_by_key l'.
Proof.
  induction 1 as [|x l l' _ IH|x y l|l1 l2 l3 H12 IH1 _ IH2]; simpl; intros Hd.
  - done.
  - apply NoDup_cons in Hd as [_ Hd]. by rewrite IH.
  - repeat rewrite NoDup_cons in Hd. apply insert_by_key_swap. set_solver.
  - rewrite IH1 by done. apply IH2. by rewrite <- H12.
Qed.

(** ** Round trip *)

(** The values that have a canonical encoding within the limits: integers are [u64], strings
    and collections respect their bounds, text is UTF-8, map keys are in strictly increasing
    order of their encodings, and nesting fits the remaining depth. *)
Fixpoint canonical (l : Limits) (remaining : nat) (v : CborValue) : Prop :=
  match remaining with
  | O => False
  | S remaining =>
      match v with
      | Uint n | Nint n => in_u64 n
      | Bytes b => Z.of_nat (length b) <= Limits.max_string l
      | Text t => Z.of_nat (length t) <= Limits.max_string l /\ utf8_valid t = true
      | Array a => Z.of_nat (length a) <= Limits.max_items l /\ Forall (canonical l remaining) a
      | Map m =>
          Z.of_nat (length m) <= Limits.max_items l /\
          Forall (fun kv => canonical l remaining kv.1 /\ canonical l remaining kv.2) m /\
          StronglySorted key_lt (map (fun kv => to_canonical kv.1) m)
      | Bool _ | Null => True
      end
  end.

(** The limits are [usize] values. *)
Definition limits_typed (l : Limits) : Prop :=
  in_u64 (Limits.max_items l) /\ in_u64 (Limits.max_string l).

Lemma string_app l b s :
  Z.of_nat (length b) <= Limits.max_string l ->
  string_ l (Z.of_nat (length b)) (b ++ s) = Ok (b, s).
Proof.
  intros Hb. unfold string_. rewrite (proj2 (Z.ltb_ge _ _)) by lia. by apply take_app.
Qed.

Lemma count_length {A} l (a : list A) :
  Z.of_nat (length a) <= Limits.max_items l -> count l (Z.of_nat (length a)) = Ok (length a).
Proof.
  intros Ha. unfold count. rewrite (proj2 (Z.ltb_ge _ _)) by lia. by rewrite Nat2Z.id.
Qed.

Lemma items_app (p : parse CborValue) a s :
  Forall (fun v => forall s, p (to_canonical v ++ s) = Ok (v, s)) a ->
  items p (length a) (concat (map to_canonical a) ++ s) = Ok (a, s).
Proof.
  induction 1 as [|v a Hv _ IH]; simpl; [done|].
  rewrite <- app_assoc, Hv. simpl. by rewrite IH.
Qed.

Lemma entries_app (p : parse CborValue) m acc s :
  Forall (fun kv => (forall s, p (to_canonical kv.1 ++ s) = Ok (kv.1, s)) /\
                    (forall s, p (to_canonical kv.2 ++ s) = Ok (kv.2, s))) m ->
  NoDup (map fst (acc ++ m)) ->
  entries p (length m) acc
    (flatten (map (fun kv => match kv with (k, v) => (to_canonical k, to_canonical v) end) m) ++ s)
  = Ok (acc ++ m, s).
Proof.
  intros Hm. revert acc. induction Hm as [|[k v] m [Hk Hv] _ IH]; intros acc Hd; simpl.
  { by rewrite app_nil_r. }
  unfold flatten. simpl. rewrite <- !app_assoc, Hk. simpl.
  assert (existsb (fun e => eqb e.1 k) acc = false) as ->.
  { apply not_true_is_false. rewrite existsb_exists. intros (e & He & Heq).
    apply eqb_eq in Heq. rewrite map_app in Hd. apply NoDup_app in Hd as (_ & Hd & _).
    apply (Hd k); [|set_solver]. apply list_elem_of_fmap. exists e.
    split; [done|by apply list_elem_of_In]. }
  simpl. unfold flatten in IH. rewrite Hv. simpl.
  rewrite (IH (acc ++ [(k, v)])); [by rewrite <- app_assoc|]. by rewrite <- app_assoc.
Qed.

Lemma sorted_keys_NoDup (m : list (CborValue * CborValue)) :
  StronglySorted key_lt (map (fun kv => to_canonical kv.1) m) -> NoDup (map fst m).
Proof.
  induction m as [|[k v] m IH]; simpl; [constructor|]. intros Hs.
  inversion Hs as [|? ? Hl Hx]; subst. apply NoDup_cons. split; [|auto].
  intros ([k' v'] & Hkk & Hin)%list_elem_of_fmap. simpl in Hkk. subst k'.
  rewrite Forall_forall in Hx. specialize (Hx (to_canonical k)).
  rewrite list_elem_of_fmap in Hx. unfold key_lt in Hx. rewrite bytes_le_refl in Hx.
  by discriminate Hx; exists (k, v').
Qed.

Lemma value_to_canonical l (Hl : limits_typed l) r : forall v s,
  canonical l r v -> value l r (to_canonical v ++ s) = Ok (v, s).
Proof.
  destruct Hl as [Hi Hs]. induction r as [|r IH]; intros v s Hc; [done|].
  destruct v as [n|n|b|t|a|m|b|]; simpl in Hc; cbn [to_canonical value];
    try (rewrite <- app_assoc, head_write_head by int_lia);
    try (rewrite head_write_head by done); cbn [rbind]; cbn -[to_canonical string_ count items entries utf8_valid].
  - done.
  - done.
  - by rewrite string_app.
  - destruct Hc as [Hb Hu]. rewrite string_app by done. simpl. by rewrite Hu.
  - destruct Hc as [Hn Ha]. rewrite count_length by done. simpl. rewrite items_app; [done|].
    eapply Forall_impl; [exact Ha|]. auto.
  - destruct Hc as (Hn & Ha & Hsort). rewrite count_length by done. simpl.
    rewrite sort_sorted by (rewrite map_map; erewrite map_ext; [exact Hsort|by intros []]).
    rewrite entries_app; [done| |by apply sorted_keys_NoDup].
    eapply Forall_impl; [exact Ha|]. intros kv [? ?]. auto.
  - by destruct b.
  - done.
Qed.

Definition demo_limits : Limits := Limits.mk 2 4096 (64 * 1024).

(** ** Acceptance *)

(** What the parser enforces on its own: like [canonical], with distinct instead of ordered
    keys. *)
Fixpoint within (l : Limits) (remaining : nat) (v : CborValue) : Prop :=
  match remaining with
  | O => False
  | S remaining =>
      match v with
      | Uint n | Nint n => in_u64 n
      | Bytes b => Z.of_nat (length b) <= Limits.max_string l
      | Text t => Z.of_nat (length t) <= Limits.max_string l /\ utf8_valid t = true
      | Array a => Z.of_nat (length a) <= Limits.max_items l /\ Forall (within l remaining) a
      | Map m =>
          Z.of_nat (length m) <= Limits.max_items l /\
          Forall (fun kv => within l remaining kv.1 /\ within l remaining kv.2) m /\
          NoDup (map fst m)
      | Bool _ | Null => True
      end
  end.

Lemma of_be_bytes_range bs :
  is_bytes bs -> 0 <= of_be_bytes bs < 256 ^ Z.of_nat (length bs).
Proof.
  unfold of_be_bytes, is_bytes. intros Hb.
  assert (Hgen : forall acc n, 0 <= acc < 256 ^ n -> 0 <= n ->
    0 <= fold_left (fun acc b => acc * 256 + b) bs acc < 256 ^ (n + Z.of_nat (length bs))).
  { induction Hb as [|b bs Hb0 _ IH]; intros acc n Ha Hn; simpl.
    - by rewrite Z.add_0_r.
    - replace (n + Z.of_nat (S (length bs))) with (n + 1 + Z.of_nat (length bs)) by lia.
      apply IH; [|lia]. rewrite Z.pow_add_r by lia. int_lia. }
  apply (Hgen 0 0); lia.
Qed.

Lemma take_sound n s b s' :
  is_bytes s -> take n s = Ok (b, s') -> is_bytes b /\ is_bytes s' /\ length b = Z.to_nat n.
Proof.
  unfold take, is_bytes. intros Hs. destruct (Z.leb_spec n (Z.of_nat (length s))); [|done].
  intros [= <- <-]. split_and!; [by apply Forall_take|by apply Forall_drop|].
  rewrite length_take. lia.
Qed.

Lemma head_sound s major arg s' :
  is_bytes s -> head s = Ok ((major, arg), s') -> in_u64 arg /\ is_bytes s'.
Proof.
  intros Hs. unfold head. destruct s as [|ib s]; [done|]. cbn [byte_ rbind].
  apply Forall_cons in Hs as [Hib Hs]. set (ai := Z.land ib 31).
  assert (0 <= ai < 32) as Hai.
  { subst ai. change 31 with (Z.ones 5). rewrite Z.land_ones by lia. apply Z.mod_pos_bound. lia. }
  assert (Htake : forall n, 0 <= n <= 8 ->
    (r <-? take n s ;; Ok ((Z.shiftr ib 5, of_be_bytes r.1), r.2)) = Ok ((major, arg), s') ->
    in_u64 arg /\ is_bytes s').
  { intros n Hn H. apply rbind_ok in H as ([b r] & Ht & [= _ <- <-]).
    destruct (take_sound _ _ _ _ Hs Ht) as (Hb & Hr & Hlen). split; [|done]. simpl.
    pose proof (of_be_bytes_range b Hb) as Hrange. rewrite Hlen, Z2Nat.id in Hrange by lia.
    assert (256 ^ n <= 256 ^ 8) by (apply Z.pow_le_mono_r; lia). int_lia. }
  destruct (Z.ltb_spec ai 24); [intros [= _ <- <-]; split; [int_lia|done]|].
  destruct (ai =? 24).
  { destruct s as [|b s]; [done|]. cbn [byte_ rbind fst snd]. apply Forall_cons in Hs as [Hb Hs].
    intros [= _ <- <-]. split; [unfold in_u8 in *; int_lia|done]. }
  destruct (ai =? 25); [by apply Htake|]. destruct (ai =? 26); [by apply Htake|].
  destruct (ai =? 27); [by apply Htake|done].
Qed.

Lemma items_sound (p : parse CborValue) (Q : CborValue -> Prop) n : forall s a s',
  (forall s v s', is_bytes s -> p s = Ok (v, s') -> Q v /\ is_bytes s') ->
  is_bytes s -> items p n s = Ok (a, s') -> Forall Q a /\ length a = n /\ is_bytes s'.
Proof.
  induction n as [|n IH]; intros s a s' Hp Hs; simpl.
  - intros [= <- <-]. split_and!; [constructor|done|done].
  - intros H. apply rbind_ok in H as ([v s1] & Hv & H). apply rbind_ok in H as ([vs s2] & Hr & H).
    simplify_eq/=. destruct (Hp _ _ _ Hs Hv) as [HQ Hs1].
    destruct (IH _ _ _ Hp Hs1 Hr) as (HQs & Hlen & Hs2). split_and!; [by constructor|lia|done].
Qed.

Lemma entries_sound (p : parse CborValue) (Q : CborValue -> Prop) n : forall acc s m s',
  (forall s v s', is_bytes s -> p s = Ok (v, s') -> Q v /\ is_bytes s') ->
  is_bytes s -> Forall (fun kv => Q kv.1 /\ Q kv.2) acc -> NoDup (map fst acc) ->
  entries p n acc s = Ok (m, s') ->
  Forall (fun kv => Q kv.1 /\ Q kv.2) m /\ NoDup (map fst m) /\
  length m = (length acc + n)%nat /\ is_bytes s'.
Proof.
  induction n as [|n IH]; intros acc s m s' Hp Hs Hacc Hd; simpl.
  - intros [= <- <-]. split_and!; [done..|lia|done].
  - intros H. apply rbind_ok in H as ([k s1] & Hk & H). destruct (Hp _ _ _ Hs Hk) as [HQk Hs1].
    simpl in H. destruct (existsb _ acc) eqn:Ex; [done|].
    apply rbind_ok in H as ([v s2] & Hv & H). destruct (Hp _ _ _ Hs1 Hv) as [HQv Hs2].
    simpl in H. apply IH in H as (? & ? & Hlen & ?); [|done|done| |].
    + split_and!; [done..| |done]. rewrite Hlen, length_app. simpl. lia.
    + apply Forall_app. split; [done|]. by constructor.
    + rewrite map_app. apply NoDup_app. split_and!; [done| |apply NoDup_singleton].
      intros x Hx ->%list_elem_of_singleton. apply not_true_iff_false in Ex. apply Ex.
      apply existsb_exists. apply list_elem_of_fmap in Hx as (e & He & Hin). exists e.
      split; [by apply list_elem_of_In|]. by apply eqb_eq.
Qed.

Lemma value_sound l r : forall s v s',
  is_bytes s -> value l r s = Ok (v, s') -> within l r v /\ is_bytes s'.
Proof.
  induction r as [|r IH]; intros s v s' Hs; [done|]. cbn [value]. intros H.
  apply rbind_ok in H as ([[major arg] s1] & Hh & H).
  destruct (head_sound _ _ _ _ Hs Hh) as [Ha Hs1].
  assert (Hstr : forall b s2, string_ l arg s1 = Ok (b, s2) ->
    Z.of_nat (length b) <= Limits.max_string l /\ is_bytes s2).
  { unfold string_. intros b s2. destruct (Z.ltb_spec (Limits.max_string l) arg); [done|].
    intros (? & ? & Hlen)%take_sound; [|done]. split; [int_lia|done]. }
  destruct (major =? 0); [by simplify_eq/=|]. destruct (major =? 1); [by simplify_eq/=|].
  destruct (major =? 2).
  { apply rbind_ok in H as ([b s2] & Hb & H). simplify_eq/=. by apply Hstr. }
  destruct (major =? 3).
  { apply rbind_ok in H as ([b s2] & Hb & H). simpl in H. destruct (utf8_valid b) eqn:Eu; [|done].
    simplify_eq/=. destruct (Hstr _ _ Hb). done. }
  destruct (major =? 4).
  { apply rbind_ok in H as (n & Hc & H). apply rbind_ok in H as ([a s2] & Hi & H). simplify_eq/=.
    unfold count in Hc. destruct (Z.ltb_spec (Limits.max_items l) arg); simplify_eq.
    destruct (items_sound _ (within l r) _ _ _ _ IH Hs1 Hi) as (? & Hlen & ?).
    split_and!; [int_lia|done|done]. }
  destruct (major =? 5).
  { apply rbind_ok in H as (n & Hc & H). apply rbind_ok in H as ([a s2] & Hi & H). simplify_eq/=.
    unfold count in Hc. destruct (Z.ltb_spec (Limits.max_items l) arg); simplify_eq.
    destruct (entries_sound _ (within l r) _ _ _ _ _ IH Hs1 (List.Forall_nil _) NoDup_nil_2 Hi)
      as (? & ? & Hlen & ?).
    split_and!; [simpl in Hlen; int_lia|done|done|done]. }
  destruct (major =? 7); [|done].
  destruct (arg =? 20); [by simplify_eq/=|]. destruct (arg =? 21); [by simplify_eq/=|].
  destruct (arg =? 22); [by simplify_eq/=|done].
Qed.

(** The value the canonical bytes of [v] denote: every map in key order. *)
Fixpoint norm (v : CborValue) : CborValue :=
  match v with
  | Array a => Array (map norm a)
  | Map m =>
      Map (map snd (sort_by_key
        (map (fun kv => match kv with (k, v) => (to_canonical k, (norm k, norm v)) end) m)))
  | v => v
  end.

Lemma insert_by_key_map {A B} (g : list byte * A -> list byte * B) x l :
  (forall y, (g y).1 = y.1) -> insert_by_key (g x) (map g l) = map g (insert_by_key x l).
Proof.
  intros Hg. induction l as [|y l IH]; simpl; [done|]. rewrite !Hg.
  destruct (bytes_le x.1 y.1); simpl; [done|]. by rewrite IH.
Qed.

Lemma sort_map {A B} (g : list byte * A -> list byte * B) l :
  (forall y, (g y).1 = y.1) -> sort_by_key (map g l) = map g (sort_by_key l).
Proof.
  intros Hg. induction l as [|x l IH]; simpl; [done|]. by rewrite IH, insert_by_key_map.
Qed.

Lemma insert_perm {A} (x : list byte * A) l : insert_by_key x l ≡ₚ x :: l.
Proof.
  induction l as [|y l IH]; simpl; [done|]. destruct (bytes_le x.1 y.1); [done|].
  rewrite IH. apply Permutation_swap.
Qed.

Lemma sort_perm_self {A} (l : list (list byte * A)) : sort_by_key l ≡ₚ l.
Proof. induction l as [|x l IH]; simpl; [done|]. by rewrite insert_perm, IH. Qed.

Definition keys_sorted {A} (l : list (list byte * A)) : Prop :=
  StronglySorted (fun a b => bytes_le a.1 b.1 = true) l.

Lemma insert_sorted {A} (x : list byte * A) l : keys_sorted l -> keys_sorted (insert_by_key x l).
Proof.
  unfold keys_sorted. induction 1 as [|y l Hl IH Hy]; simpl; [by repeat constructor|].
  destruct (bytes_le x.1 y.1) eqn:E.
  - constructor; [by constructor|]. constructor; [done|]. eapply Forall_impl; [exact Hy|].
    intros z Hz. by eapply bytes_le_trans.
  - constructor; [done|]. rewrite insert_perm. constructor; [|done].
    destruct (bytes_le_total x.1 y.1); congruence.
Qed.

Lemma sort_keys_sorted {A} (l : list (list byte * A)) : keys_sorted (sort_by_key l).
Proof. induction l as [|x l IH]; simpl; [constructor|]. by apply insert_sorted. Qed.

Lemma keys_sorted_fst {A} (l : list (list byte * A)) :
  keys_sorted l -> StronglySorted (fun a b => bytes_le a b = true) (map fst l).
Proof.
  induction 1 as [|e es _ IH He]; simpl; [constructor|].
  constructor; [done|]. by apply Forall_fmap.
Qed.

Lemma sort_id {A} (l : list (list byte * A)) : keys_sorted l -> sort_by_key l = l.
Proof.
  induction 1 as [|x l Hl IH Hx]; simpl; [done|]. rewrite IH.
  destruct l as [|y l]; simpl; [done|]. apply Forall_cons in Hx as [Hx _]. by rewrite Hx.
Qed.

(** The four things [sort_by_key] carries along with an entry's key. *)
Definition tagged (m : list (CborValue * CborValue)) :=
  map (fun kv => (to_canonical kv.1, (to_canonical kv.2, (norm kv.1, norm kv.2)))) m.

Lemma encoded_tagged m :
  sort_by_key (map (fun kv => match kv with (k, v) => (to_canonical k, to_canonical v) end) m) =
  map (fun e => (e.1, e.2.1)) (sort_by_key (tagged m)).
Proof.
  rewrite <- sort_map by done. unfold tagged. rewrite map_map. f_equal. apply map_ext. by intros [].
Qed.

Lemma norm_tagged m :
  norm (Map m) = Map (map (fun e => e.2.2) (sort_by_key (tagged m))).
Proof.
  cbn [norm]. f_equal.
  transitivity (map snd (map (fun e => (e.1, e.2.2)) (sort_by_key (tagged m)))); [|by rewrite map_map].
  f_equal. rewrite <- sort_map by done. unfold tagged. rewrite map_map. f_equal.
  apply map_ext. by intros [].
Qed.

Lemma elem_of_sorted_tagged m e :
  e ∈ sort_by_key (tagged m) ->
  exists k v, (k, v) ∈ m /\ e = (to_canonical k, (to_canonical v, (norm k, norm v))).
Proof.
  rewrite sort_perm_self. unfold tagged. intros ([k v] & -> & Hin)%list_elem_of_fmap. eauto.
Qed.

Lemma sort_tagged_length m : length (sort_by_key (tagged m)) = length m.
Proof. rewrite sort_perm_self. unfold tagged. by rewrite length_map. Qed.

(** The tagged entries of a normalised map are those of the map. *)
Lemma tagged_norm m :
  (forall k v, (k, v) ∈ m -> to_canonical (norm k) = to_canonical k /\
     to_canonical (norm v) = to_canonical v /\ norm (norm k) = norm k /\ norm (norm v) = norm v) ->
  tagged (map (fun e => e.2.2) (sort_by_key (tagged m))) = sort_by_key (tagged m).
Proof.
  intros Hm. unfold tagged at 1. rewrite map_map.
  transitivity (map (fun e => e) (sort_by_key (tagged m))); [|apply map_id].
  apply map_ext_in. intros e He%list_elem_of_In%elem_of_sorted_tagged.
  destruct He as (k & v & Hin & ->). simpl. by destruct (Hm k v Hin) as (-> & -> & -> & ->).
Qed.

Lemma norm_spec v : to_canonical (norm v) = to_canonical v /\ norm (norm v) = norm v.
Proof.
  induction v as [v|v|b|t|a IH|m IH|b|] using value_ind; try done.
  - cbn [norm to_canonical]. rewrite length_map, !map_map. rewrite Forall_forall in IH.
    split; f_equal; [f_equal|]; apply map_ext_in; intros x Hx%list_elem_of_In; by apply IH.
  - assert (Hm : forall k v, (k, v) ∈ m -> to_canonical (norm k) = to_canonical k /\
      to_canonical (norm v) = to_canonical v /\ norm (norm k) = norm k /\ norm (norm v) = norm v).
    { rewrite Forall_forall in IH. intros k v Hin. specialize (IH _ Hin). naive_solver. }
    rewrite norm_tagged. split.
    + cbn [to_canonical]. rewrite !encoded_tagged, (tagged_norm m Hm).
      rewrite (sort_id (sort_by_key (tagged m))) by apply sort_keys_sorted.
      rewrite length_map, sort_tagged_length. done.
    + rewrite norm_tagged, (tagged_norm m Hm). by rewrite (sort_id _ (sort_keys_sorted _)).
Qed.

(** Reading bytes back yields the normal form, or runs into two keys with the same one. *)
Definition reads (p : parse CborValue) (b : list byte) (v : CborValue) : Prop :=
  forall s, p (b ++ s) = Ok (v, s) \/ p (b ++ s) = Err CodecError.NotCanonical.

Lemma items_norm (p : parse CborValue) a s :
  Forall (fun v => reads p (to_canonical v) (norm v)) a ->
  items p (length a) (concat (map to_canonical a) ++ s) = Ok (map norm a, s) \/
  items p (length a) (concat (map to_canonical a) ++ s) = Err CodecError.NotCanonical.
Proof.
  induction 1 as [|v a Hv _ IH]; simpl; [by left|]. rewrite <- app_assoc.
  destruct (Hv (concat (map to_canonical a) ++ s)) as [-> | ->]; simpl; [|by right].
  destruct IH as [-> | ->]; simpl; [by left|by right].
Qed.

Lemma entries_norm (p : parse CborValue) (es : list (list byte * (list byte * (CborValue * CborValue))))
    acc s :
  Forall (fun e => reads p e.1 e.2.2.1 /\ reads p e.2.1 e.2.2.2) es ->
  let bytes := flatten (map (fun e => (e.1, e.2.1)) es) ++ s in
  entries p (length es) acc bytes = Ok (acc ++ map (fun e => e.2.2) es, s) \/
  entries p (length es) acc bytes = Err CodecError.NotCanonical.
Proof.
  intros Hes. revert acc. induction Hes as [|[bk [bv [k v]]] es [Hk Hv] _ IH]; intros acc; simpl in *.
  { left. by rewrite app_nil_r. }
  unfold flatten in *. simpl. rewrite <- !app_assoc.
  set (rest := concat _ ++ s) in *.
  destruct (Hk (bv ++ rest)) as [-> | ->]; simpl; [|by right].
  destruct (existsb _ acc); [by right|].
  destruct (Hv rest) as [-> | ->]; simpl; [|by right].
  destruct (IH (acc ++ [(k, v)])) as [-> | ->]; [left|by right]. by rewrite <- app_assoc.
Qed.

Lemma value_norm l (Hl : limits_typed l) r : forall v,
  within l r v -> reads (value l r) (to_canonical v) (norm v).
Proof.
  destruct Hl as [Hi Hs]. induction r as [|r IH]; intros v Hc s; [done|].
  destruct v as [n|n|b|t|a|m|b|]; simpl in Hc; cbn [to_canonical value];
    try (rewrite <- app_assoc, head_write_head by int_lia);
    try (rewrite head_write_head by done); cbn [rbind];
    cbn -[to_canonical string_ count items entries utf8_valid norm].
  - by left.
  - by left.
  - left. by rewrite string_app.
  - left. destruct Hc as [Hb Hu]. rewrite string_app by done. simpl. by rewrite Hu.
  - destruct Hc as [Hn Ha]. rewrite count_length by done. simpl.
    destruct (items_norm (value l r) a s) as [-> | ->]; [|by left|by right].
    eapply Forall_impl; [exact Ha|]. auto.
  - destruct Hc as (Hn & Ha & _). rewrite count_length by done. cbn [rbind].
    rewrite encoded_tagged, <- (sort_tagged_length m), norm_tagged.
    destruct (entries_norm (value l r) (sort_by_key (tagged m)) [] s) as [-> | ->];
      [|by left|by right].
    apply Forall_forall. intros e (k & v & Hin & ->)%elem_of_sorted_tagged.
    rewrite Forall_forall in Ha. destruct (Ha _ Hin). split; by apply IH.
  - left. by destruct b.
  - by left.
Qed.

Lemma sorted_strict (ks : list (list byte)) :
  StronglySorted (fun a b => bytes_le a b = true) ks -> NoDup ks -> StronglySorted key_lt ks.
Proof.
  induction 1 as [|k ks _ IH Hk]; intros Hd; constructor; apply NoDup_cons in Hd as [Hk' Hd].
  - auto.
  - rewrite Forall_forall in Hk |- *. intros x Hx. unfold key_lt.
    destruct (bytes_le x k) eqn:E; [|done]. exfalso. apply Hk'.
    by rewrite (bytes_le_antisym k x (Hk x Hx) E).
Qed.

Lemma NoDup_map_inj {A B} (f : A -> B) l :
  (forall x y, x ∈ l -> y ∈ l -> f x = f y -> x = y) -> NoDup l -> NoDup (map f l).
Proof.
  intros Hinj. induction l as [|x l IH]; simpl; intros Hd; [constructor|].
  apply NoDup_cons in Hd as [Hx Hd]. apply NoDup_cons. split.
  - intros (y & Hf & Hy)%list_elem_of_fmap. apply Hx. rewrite (Hinj x y); set_solver.
  - apply IH; [|done]. intros. apply Hinj; set_solver.
Qed.

(** A value that is its own normal form is canonical. *)
Lemma norm_fixed_canonical l (Hl : limits_typed l) r : forall v,
  within l r v -> norm v = v -> canonical l r v.
Proof.
  induction r as [|r IH]; intros v Hw Hn; [done|]. destruct v as [n|n|b|t|a|m|b|]; simpl in *; try done.
  - destruct Hw as [Hlen Ha]. split; [done|]. injection Hn as Hn. rewrite Forall_forall in Ha |- *.
    intros x Hx. apply IH; [auto|]. rewrite <- Hn in Hx.
    apply list_elem_of_fmap in Hx as (y & -> & _). apply norm_spec.
  - change (norm (Map m) = Map m) in Hn. rewrite norm_tagged in Hn. injection Hn as Hn.
    destruct Hw as (Hlen & Ha & Hd). rewrite Forall_forall in Ha.
    assert (Hfix : forall k v, (k, v) ∈ m -> norm k = k /\ norm v = v).
    { intros k v Hin. rewrite <- Hn in Hin. apply list_elem_of_fmap in Hin as (e & He & Hin).
      apply elem_of_sorted_tagged in Hin as (k' & v' & _ & ->). simpl in He. injection He as -> ->.
      split; apply norm_spec. }
    assert (Hcan : forall k v, (k, v) ∈ m -> canonical l r k /\ canonical l r v).
    { intros k v Hin. destruct (Ha _ Hin), (Hfix _ _ Hin). split; by apply IH. }
    split_and!; [done|apply Forall_forall; intros [k v] Hin; by apply Hcan|].
    rewrite <- (map_map fst to_canonical). apply sorted_strict.
    + rewrite map_map. rewrite <- Hn at 1. rewrite map_map.
      rewrite (map_ext_in _ fst).
      2: { intros e He%list_elem_of_In%elem_of_sorted_tagged. destruct He as (k & v & _ & ->).
           apply norm_spec. }
      apply keys_sorted_fst, sort_keys_sorted.
    + apply NoDup_map_inj; [|done]. intros k1 k2 H1 H2 Heq.
      apply list_elem_of_fmap in H1 as ([? v1] & -> & H1), H2 as ([? v2] & -> & H2). simpl in *.
      pose proof (value_to_canonical l Hl r _ [] (proj1 (Hcan _ _ H1))) as P1.
      pose proof (value_to_canonical l Hl r _ [] (proj1 (Hcan _ _ H2))) as P2. congruence.
Qed.

(** C18 The decoder accepts exactly the canonical encodings: a byte string decodes to [v] if and
    only if [v] is in canonical form within the limits (shortest heads, bounded sizes and depth,
    valid UTF-8, strictly ordered map keys at every level) and the bytes are its encoding - so
    each value has exactly one accepted encoding and signed artifacts are not malleable. *)
Theorem decode_exact (l : Limits) (bytes : list byte) (v : CborValue) (Hl : limits_typed l)
    (Hb : is_bytes bytes) :
  decode_canonical bytes l = Ok v <-> canonical l (depth_budget l) v /\ bytes = to_canonical v.
Proof.
  unfold decode_canonical. split.
  - intros H. apply rbind_ok in H as ([v' s] & Hv & H). simpl in H.
    destruct s as [|]; [|done]. case_bool_decide as Heq; [|done]. injection H as ->.
    destruct (value_sound _ _ _ _ _ Hb Hv) as [Hw _]. split; [|done].
    apply norm_fixed_canonical; [done|done|].
    destruct (value_norm l Hl _ v Hw []) as [Hn|Hn]; rewrite app_nil_r, Heq in Hn; congruence.
  - intros [Hc ->]. rewrite <- (app_nil_r (to_canonical v)) at 1.
    rewrite (value_to_canonical l Hl (depth_budget l) v [] Hc). simpl.
    by rewrite bool_decide_eq_true_2.
Qed.

Definition demo_value : CborValue :=
  Map [(Uint 1, Bytes [1; 2; 3]); (Uint 24, Array [Bool true; Null]); (Text [104; 195; 169], int (-42))].

Lemma decode_exact_witness :
  decode_canonical (to_canonical demo_value) demo_limits = Ok demo_value /\
  canonical demo_limits (depth_budget demo_limits) demo_value.
Proof.
  assert (H : decode_canonical (to_canonical demo_value) demo_limits = Ok demo_value)
    by (vm_compute; reflexivity).
  split; [exact H|].
  apply (decode_exact demo_limits (to_canonical demo_value) demo_value); [| |exact H].
  - split; split; discriminate.
  - apply (bool_decide_unpack (Forall _ _)). vm_compute. reflexivity.
Defined.

(** The encoding of a map does not depend on the order its fields were inserted in, for any
    set of fields whose keys encode differently: builders and attribute maps are deterministic. *)
Theorem map_encoding_order_free (m m' : list (CborValue * CborValue)) (Hp : m ≡ₚ m')
    (Hd : NoDup (map (fun kv => to_canonical kv.1) m)) :
  to_canonical (Map m) = to_canonical (Map m').
Proof.
  cbn [to_canonical]. rewrite (Permutation_length Hp). do 2 f_equal. apply sort_perm.
  - by apply Permutation_map.
  - rewrite map_map. erewrite map_ext; [exact Hd|]. by intros [].
Qed.

Lemma map_encoding_order_free_witness :
  to_canonical (Map [(Uint 10, Uint 1); (Uint 1, Uint 2)]) =
  to_canonical (Map [(Uint 1, Uint 2); (Uint 10, Uint 1)]).
Proof.
  apply (map_encoding_order_free [(Uint 10, Uint 1); (Uint 1, Uint 2)]).
  - apply Permutation_swap.
  - apply (bool_decide_unpack (NoDup _)). reflexivity.
Defined.

Lemma int_roundtrip v : in_i64 v -> as_int (int v) = Some v.
Proof.
  intros Hv. unfold int. destruct (Z.ltb_spec v 0); simpl; unfold i64_try_from;
    rewrite (proj2 (Z.leb_le _ _)) by int_lia; simpl; f_equal; lia.
Qed.
