(* ===== verification/Anomaly.v ===== *)
(** * Sharing-abuse heuristics ([crates/copylocker-server-core/src/anomaly.rs])

    The suspicion score and its breakdown.  The signals are [u32] counters; the two products
    are computed in [u64], so the model uses [Z] and the theorem proves that every intermediate
    fits the width the source computes it in. *)

From S2P Require Import Prelude.

Module AnomalySignals.
Record AnomalySignals := mk {
  distinct_fingerprints_24h : Z;
  seats : Z;
  impossible_travel : bool;
  attr_churn : Z;
  validations_in_window : Z;
  expected_validations : Z;
  distinct_app_versions : Z;
}.
End AnomalySignals.
Notation AnomalySignals := AnomalySignals.AnomalySignals.
Import AnomalySignals.

Module Weight.
Definition FINGERPRINT_SPREAD : Z := 40.
Definition GEO_JUMP : Z := 25.
Definition ATTR_CHURN : Z := 15.
Definition CALL_RATE : Z := 10.
Definition VERSION_SPREAD : Z := 10.
End Weight.

Module Contribution.
Record Contribution := mk { signal : string; points : Z; max : Z }.
End Contribution.
Notation Contribution := Contribution.Contribution.

Module AnomalyScore.
Record AnomalyScore := mk { score : Z; contributions : list Contribution }.
End AnomalyScore.
Notation AnomalyScore := AnomalyScore.AnomalyScore.

(** The ramp both volume signals use: nothing up to [base], the full weight at twice it. *)
Definition ramp (observed base weight : Z) : Z :=
  if observed <=? base then 0
  else
    let excess := observed - base in
    try_into_or u32_max (Z.min (Z.quot (excess * weight) base) weight) weight.

Definition spread_points (s : AnomalySignals) : Z :=
  ramp (distinct_fingerprints_24h s) (Z.max (seats s) 1) Weight.FINGERPRINT_SPREAD.
Definition geo_points (s : AnomalySignals) : Z :=
  if impossible_travel s then Weight.GEO_JUMP else 0.
Definition churn_points (s : AnomalySignals) : Z :=
  Z.min (sat_mul_u32 (sat_sub_u32 (attr_churn s) 2) 5) Weight.ATTR_CHURN.
Definition rate_points (s : AnomalySignals) : Z :=
  ramp (validations_in_window s) (Z.max (expected_validations s) 1 * 3) Weight.CALL_RATE.
Definition version_points (s : AnomalySignals) : Z :=
  Z.min (sat_mul_u32 (sat_sub_u32 (distinct_app_versions s) 2) 3) Weight.VERSION_SPREAD.

Definition score (s : AnomalySignals) : AnomalyScore :=
  let contributions :=
    [Contribution.mk "fingerprint_spread" (spread_points s) Weight.FINGERPRINT_SPREAD;
     Contribution.mk "geo_jump" (geo_points s) Weight.GEO_JUMP;
     Contribution.mk "attr_churn" (churn_points s) Weight.ATTR_CHURN;
     Contribution.mk "call_rate" (rate_points s) Weight.CALL_RATE;
     Contribution.mk "version_spread" (version_points s) Weight.VERSION_SPREAD] in
  let total := foldr (fun c acc => Contribution.points c + acc) 0 contributions in
  AnomalyScore.mk (try_into_or u8_max (Z.min total 100) 100) contributions.

(** ** Properties *)

(** The counters are [u32]. *)
Record signals_typed (s : AnomalySignals) : Prop := {
  ty_fpr : in_u32 (distinct_fingerprints_24h s);
  ty_seats : in_u32 (seats s);
  ty_churn : in_u32 (attr_churn s);
  ty_obs : in_u32 (validations_in_window s);
  ty_exp : in_u32 (expected_validations s);
  ty_ver : in_u32 (distinct_app_versions s);
}.

(** At least as suspicious: every counter at least as high, and no more seats or expected
    traffic. *)
Record more_suspicious (s t : AnomalySignals) : Prop := {
  ms_fpr : distinct_fingerprints_24h s <= distinct_fingerprints_24h t;
  ms_seats : seats t <= seats s;
  ms_travel : impossible_travel s = true -> impossible_travel t = true;
  ms_churn : attr_churn s <= attr_churn t;
  ms_obs : validations_in_window s <= validations_in_window t;
  ms_exp : expected_validations t <= expected_validations s;
  ms_ver : distinct_app_versions s <= distinct_app_versions t;
}.

Lemma ramp_bounds observed base weight :
  0 < base -> 0 <= weight <= u32_max -> 0 <= ramp observed base weight <= weight.
Proof.
  intros Hb Hw. unfold ramp. destruct (Z.leb_spec observed base); [lia|].
  assert (0 <= (observed - base) * weight ÷ base) by (apply Z.quot_pos; nia).
  unfold try_into_or. destruct (_ && _); lia.
Qed.

Lemma ramp_eq observed base weight :
  0 < base -> 0 <= weight <= u32_max -> base < observed ->
  ramp observed base weight = Z.min ((observed - base) * weight / base) weight.
Proof.
  intros Hb Hw Ho. unfold ramp. rewrite (proj2 (Z.leb_gt _ _)) by done. cbv zeta.
  rewrite Z.quot_div_nonneg by nia.
  assert (0 <= (observed - base) * weight / base) by (apply Z.div_pos; nia).
  unfold try_into_or. rewrite (proj2 (Z.leb_le _ _)), (proj2 (Z.leb_le _ _)) by lia. done.
Qed.

Lemma ramp_mono o1 o2 b1 b2 w :
  0 < b2 <= b1 -> 0 <= w <= u32_max -> o1 <= o2 -> ramp o1 b1 w <= ramp o2 b2 w.
Proof.
  intros Hb Hw Ho. destruct (Z.leb_spec o1 b1) as [Hle|Hlt].
  { unfold ramp at 1. rewrite (proj2 (Z.leb_le _ _)) by done. apply ramp_bounds; lia. }
  rewrite !ramp_eq by lia. apply Z.min_le_compat_r.
  transitivity ((o2 - b2) * w / b1).
  - apply Z.div_le_mono; nia.
  - apply Z.div_le_compat_l; nia.
Qed.

Lemma points_bounds x (Hx : signals_typed x) :
  0 <= spread_points x <= 40 /\ 0 <= geo_points x <= 25 /\ 0 <= churn_points x <= 15 /\
  0 <= rate_points x <= 10 /\ 0 <= version_points x <= 10.
Proof.
  destruct Hx. unfold spread_points, rate_points, Weight.FINGERPRINT_SPREAD, Weight.CALL_RATE.
  pose proof (ramp_bounds (distinct_fingerprints_24h x) (Z.max (seats x) 1) 40 ltac:(lia)
    ltac:(int_lia)).
  pose proof (ramp_bounds (validations_in_window x) (Z.max (expected_validations x) 1 * 3) 10
    ltac:(lia) ltac:(int_lia)).
  unfold geo_points, churn_points, version_points, Weight.GEO_JUMP, Weight.ATTR_CHURN,
    Weight.VERSION_SPREAD.
  split_and!; try lia; try (destruct (impossible_travel x); lia); int_lia.
Qed.

(** The suspicion score is a sound signal: for all counters it is between 0 and 100 and
    equals the sum of its breakdown (the weights add up to 100, so nothing is clamped away);
    each contribution stays within its weight; the widened products fit [u64]; and more
    suspicious observations never score lower. *)
Theorem score_sound (s t : AnomalySignals) (Hs : signals_typed s) (Ht : signals_typed t)
    (Hm : more_suspicious s t) :
  0 <= AnomalyScore.score (score s) <= 100 /\
  AnomalyScore.score (score s) =
    foldr (fun c acc => Contribution.points c + acc) 0 (AnomalyScore.contributions (score s)) /\
  Forall (fun c => 0 <= Contribution.points c <= Contribution.max c)
    (AnomalyScore.contributions (score s)) /\
  in_u64 (distinct_fingerprints_24h s * Weight.FINGERPRINT_SPREAD) /\
  in_u64 (validations_in_window s * Weight.CALL_RATE) /\
  in_u64 (Z.max (expected_validations s) 1 * 3) /\
  AnomalyScore.score (score s) <= AnomalyScore.score (score t).
Proof.
  pose proof points_bounds as Hb.
  assert (Hsum : forall x, signals_typed x -> AnomalyScore.score (score x) =
    spread_points x + geo_points x + churn_points x + rate_points x + version_points x).
  { intros x Hx. specialize (Hb x Hx). simpl. rewrite Z.min_l by lia. unfold try_into_or.
    rewrite (proj2 (Z.leb_le _ _)), (proj2 (Z.leb_le _ _)) by int_lia. simpl. lia. }
  rewrite !Hsum by done. pose proof (Hb s Hs). pose proof (Hb t Ht).
  destruct Hs, Ht, Hm. split_and!; try lia.
  - simpl. lia.
  - simpl. repeat apply List.Forall_cons; try apply List.Forall_nil; simpl;
      unfold Weight.FINGERPRINT_SPREAD, Weight.GEO_JUMP, Weight.ATTR_CHURN, Weight.CALL_RATE,
        Weight.VERSION_SPREAD; lia.
  - unfold Weight.FINGERPRINT_SPREAD. int_lia.
  - unfold Weight.CALL_RATE. int_lia.
  - int_lia.
  - assert (spread_points s <= spread_points t) by (apply ramp_mono; unfold Weight.FINGERPRINT_SPREAD, Weight.CALL_RATE; int_lia).
    assert (rate_points s <= rate_points t) by (apply ramp_mono; unfold Weight.FINGERPRINT_SPREAD, Weight.CALL_RATE; int_lia).
    assert (geo_points s <= geo_points t).
    { unfold geo_points, Weight.GEO_JUMP. destruct (impossible_travel s); [|destruct (impossible_travel t); lia].
      by rewrite ms_travel0. }
    assert (churn_points s <= churn_points t) by (unfold churn_points; int_lia).
    assert (version_points s <= version_points t) by (unfold version_points; int_lia).
    lia.
Qed.

Definition demo_ordinary : AnomalySignals := AnomalySignals.mk 1 1 false 0 1 1 1.
Definition demo_shared : AnomalySignals := AnomalySignals.mk 40 1 true 8 200 1 9.

Lemma score_sound_witness :
  AnomalyScore.score (score demo_ordinary) <= AnomalyScore.score (score demo_shared) /\
  AnomalyScore.score (score demo_ordinary) = 0 /\ AnomalyScore.score (score demo_shared) = 100.
Proof.
  split; [|split; reflexivity].
  apply (score_sound demo_ordinary demo_shared); split; simpl; try discriminate;
    try (split; discriminate).
Defined.
