(* ===== verification/Field.v ===== *)
(** * Typed fields of signed artifacts ([crates/copylocker-proto/src/field.rs])

    The accessors the artifact decoders are written with, the parse limits of the protocol
    ([lib.rs]), and the interface [Artifact] (the trait of [crates/copylocker-suite/src/artifact.rs]
    with the [artifact_impl!] macro of [artifacts.rs]): an artifact is a pair of conversions to and
    from CBOR values.  [ArtifactLaws] states what an instance promises; the round trip through
    bytes is proved once, from the laws. *)

From S2P Require Import Prelude Types Errors Cbor.
Import CborValue.

(** ** Text

    A Rust [String] is its UTF-8 bytes; [Types] keeps text as [string]. *)
Definition text_bytes (s : string) : list byte :=
  map (fun a => Z.of_N (N_of_ascii a)) (String.list_ascii_of_string s).
Definition bytes_text (b : list byte) : string :=
  String.string_of_list_ascii (map (fun z => ascii_of_N (Z.to_N z)) b).

#[global] Arguments text_bytes : simpl never.
#[global] Arguments bytes_text : simpl never.

(** ** Limits ([lib.rs]) *)
Definition CLIENT_LIMITS : Limits := Limits.mk MAX_CBOR_DEPTH 1024 (16 * 1024).
Definition BULK_LIMITS : Limits := Limits.mk MAX_CBOR_DEPTH 65536 (1024 * 1024).

(** [iter().map(f).collect::<Result<Vec<_>, _>>()]. *)
Fixpoint traverse {A B E} (f : A -> result B E) (l : list A) : result (list B) E :=
  match l with
  | [] => Ok []
  | x :: l => y <-? f x ;; ys <-? traverse f l ;; Ok (y :: ys)
  end.

(** ** Accessors *)
Module field.
(** [key as u8]. *)
Definition as_u8 (key : Z) : Z := Z.land key 255.

Definition req (map_ : CborValue) (key : Z) : result CborValue ProtoError :=
  ok_of_option (get map_ key) (ProtoError.Codec (CodecError.MissingField (as_u8 key))).

Definition opt (map_ : CborValue) (key : Z) : option CborValue :=
  match get map_ key with
  | Some v => if is_null v then None else Some v
  | None => None
  end.

Definition mismatch (key : Z) : ProtoError :=
  ProtoError.Codec (CodecError.TypeMismatch (as_u8 key)).

Definition uint (map_ : CborValue) (key : Z) : result Z ProtoError :=
  v <-? req map_ key ;; ok_of_option (as_uint v) (mismatch key).

(** [T::try_from] for an unsigned [T] with greatest value [hi]. *)
Definition try_from (hi : Z) (key n : Z) : result Z ProtoError :=
  if n <=? hi then Ok n else Err (ProtoError.FieldOutOfRange (as_u8 key)).

Definition u8_field (map_ : CborValue) (key : Z) : result Z ProtoError :=
  n <-? uint map_ key ;; try_from u8_max key n.

Definition u32_field (map_ : CborValue) (key : Z) : result Z ProtoError :=
  n <-? uint map_ key ;; try_from u32_max key n.

Definition int (map_ : CborValue) (key : Z) : result Z ProtoError :=
  v <-? req map_ key ;; ok_of_option (as_int v) (mismatch key).

Definition opt_uint (map_ : CborValue) (key : Z) : result (option Z) ProtoError :=
  match opt map_ key with
  | None => Ok None
  | Some v => ok_of_option (option_map Some (as_uint v)) (mismatch key)
  end.

(** [opt_uint(..)?.map(T::try_from).transpose().map_err(..)]. *)
Definition narrow_opt (hi key : Z) (o : option Z) : result (option Z) ProtoError :=
  match o with
  | None => Ok None
  | Some n => m <-? try_from hi key n ;; Ok (Some m)
  end.

Definition bytes (map_ : CborValue) (key : Z) : result (list byte) ProtoError :=
  v <-? req map_ key ;; ok_of_option (as_bytes v) (mismatch key).

Definition opt_bytes (map_ : CborValue) (key : Z) : result (option (list byte)) ProtoError :=
  match opt map_ key with
  | None => Ok None
  | Some v => ok_of_option (option_map Some (as_bytes v)) (mismatch key)
  end.

(** [b.try_into()] to an array of [N] bytes. *)
Definition to_array (N : nat) (key : Z) (b : list byte) : result (list byte) ProtoError :=
  if bool_decide (length b = N) then Ok b else Err (ProtoError.FieldOutOfRange (as_u8 key)).

Definition fixed (N : nat) (map_ : CborValue) (key : Z) : result (list byte) ProtoError :=
  v <-? req map_ key ;; b <-? ok_of_option (as_bytes v) (mismatch key) ;; to_array N key b.

Definition text_of (key : Z) (v : CborValue) : result string ProtoError :=
  ok_of_option (option_map bytes_text (as_text v)) (mismatch key).

Definition text (map_ : CborValue) (key : Z) : result string ProtoError :=
  v <-? req map_ key ;; text_of key v.

Definition opt_text (map_ : CborValue) (key : Z) : result (option string) ProtoError :=
  match opt map_ key with
  | None => Ok None
  | Some v => t <-? text_of key v ;; Ok (Some t)
  end.

Definition text_array (map_ : CborValue) (key : Z) : result (list string) ProtoError :=
  v <-? req map_ key ;; arr <-? ok_of_option (as_array v) (mismatch key) ;;
  traverse (text_of key) arr.

Definition fixed_array (N : nat) (map_ : CborValue) (key : Z)
    : result (list (list byte)) ProtoError :=
  v <-? req map_ key ;; arr <-? ok_of_option (as_array v) (mismatch key) ;;
  traverse (fun v => b <-? ok_of_option (as_bytes v) (mismatch key) ;; to_array N key b) arr.

Definition suite_id := fixed 4.
Definition license_id := fixed 16.
Definition machine_id := fixed 16.
Definition epoch_id := fixed 8.
Definition fingerprint := bytes.

(** One iteration of a loop that reads a text-keyed map into a [BTreeMap]. *)
Definition text_entry {A} (get_ : CborValue -> option A) (key : Z) (acc : gmap string A)
    (kv : CborValue * CborValue) : result (gmap string A) ProtoError :=
  k <-? text_of key kv.1 ;; v <-? ok_of_option (get_ kv.2) (mismatch key) ;; Ok (<[k := v]> acc).

Definition text_bytes_map (map_ : CborValue) (key : Z)
    : result (gmap string (list byte)) ProtoError :=
  v <-? req map_ key ;; entries <-? ok_of_option (as_map v) (mismatch key) ;;
  try_fold (text_entry as_bytes key) ∅ entries.

Definition opt_text_bytes_map (map_ : CborValue) (key : Z)
    : result (option (gmap string (list byte))) ProtoError :=
  match opt map_ key with
  | None => Ok None
  | Some _ => m <-? text_bytes_map map_ key ;; Ok (Some m)
  end.

(** [dec(field::req(v, key)?)?]. *)
Definition req_with {A} (dec : CborValue -> result A ProtoError) (map_ : CborValue) (key : Z)
    : result A ProtoError :=
  r <-? req map_ key ;; dec r.

(** [match field::opt(v, key) { None => None, Some(e) => Some(dec(e)?) }]. *)
Definition opt_with {A} (dec : CborValue -> result A ProtoError) (map_ : CborValue) (key : Z)
    : result (option A) ProtoError :=
  match opt map_ key with
  | None => Ok None
  | Some e => x <-? dec e ;; Ok (Some x)
  end.

Definition enc_text_bytes_map (m : gmap string (list byte)) : CborValue :=
  Map (map (fun kv => (Text (text_bytes kv.1), Bytes kv.2)) (bt_iter m)).
End field.

(** The discriminant of an enum, decoded. *)
Definition enum_field `{WireEnum E} (raw : Z) : result E ProtoError :=
  ok_of_option (Types.from_u8 raw) (ProtoError.Codec CodecError.UnknownDiscriminant).

(** ** The artifact interface *)

Class Artifact (A : Type) := {
  KIND : ArtifactKind;
  limits : Limits;
  to_value : A -> CborValue;
  from_value : CborValue -> result A ProtoError;
}.

Section ArtifactImpl.
Context `{Artifact A}.

Definition to_canonical (a : A) : result (list byte) CodecError :=
  Ok (CborValue.to_canonical (to_value a)).

Definition parse (v : CborValue) : result A ProtoError :=
  match as_map v with
  | None => Err (ProtoError.Codec CodecError.Malformed)
  | Some _ => from_value v
  end.

Definition from_canonical (bytes : list byte) : result A CodecError :=
  v <-? Parser.decode_canonical bytes limits ;;
  map_err (fun e => match e with ProtoError.Codec c => c | _ => CodecError.Malformed end) (parse v).

Definition decode (bytes : list byte) : result A ProtoError :=
  v <-? map_err ProtoError.Codec (Parser.decode_canonical bytes limits) ;; parse v.

Definition encode (a : A) : list byte := CborValue.to_canonical (to_value a).
End ArtifactImpl.

(** ** Encoding and normal forms *)

(** Every map key of the value is an integer or text: normalisation leaves it alone. *)
Definition is_leaf (v : CborValue) : bool := match v with Uint _ | Text _ => true | _ => false end.
Fixpoint leaf_keys (v : CborValue) : bool :=
  match v with
  | Array a => forallb leaf_keys a
  | Map m => forallb (fun kv => match kv with (k, v) => is_leaf k && leaf_keys v end) m
  | _ => true
  end.

Lemma norm_leaf k : is_leaf k = true -> norm k = k.
Proof. by destruct k. Qed.

Lemma norm_map_perm m :
  exists es, norm (Map m) = Map es /\ es ≡ₚ map (fun kv => (norm kv.1, norm kv.2)) m.
Proof.
  rewrite norm_tagged. eexists. split; [done|].
  rewrite sort_perm_self. unfold tagged. by rewrite map_map.
Qed.

Lemma norm_int n : norm (int n) = int n.
Proof. unfold int. by destruct (n <? 0). Qed.

Lemma norm_within l r : forall v, within l r v -> leaf_keys v = true -> within l r (norm v).
Proof.
  induction r as [|r IH]; intros v; [done|]. destruct v as [n|n|b|t|a|m|b|]; try done.
  - intros [Hn Ha] Hk. cbn [norm within leaf_keys] in *. split; [by rewrite length_map|].
    rewrite Forall_forall in Ha |- *. intros x (y & -> & Hy)%list_elem_of_fmap.
    apply IH; [auto|]. rewrite forallb_forall in Hk. by apply Hk, list_elem_of_In.
  - intros (Hn & Ha & Hd) Hk. cbn [leaf_keys] in Hk. rewrite forallb_forall in Hk.
    destruct (norm_map_perm m) as (es & -> & Hes).
    assert (Hm : forall k v, (k, v) ∈ m -> norm k = k /\ leaf_keys v = true).
    { intros k v Hin%list_elem_of_In. specialize (Hk _ Hin). simpl in Hk. bprop.
      split; [by apply norm_leaf|done]. }
    cbn [within]. rewrite Hes, length_map. split_and!; [done| |].
    + rewrite Forall_forall in Ha |- *. intros e ([k v] & -> & Hin)%list_elem_of_fmap.
      destruct (Ha _ Hin), (Hm _ _ Hin) as [Hk' Hv]. simpl in *. rewrite Hk'. auto.
    + rewrite map_map. simpl. rewrite (map_ext_in _ fst); [done|].
      intros [k v] Hin%list_elem_of_In. apply (Hm _ _ Hin).
Qed.

(** The bytes of a value with simple keys decode to its normal form. *)
Lemma decode_to_canonical l v (Hl : limits_typed l) :
  within l (Parser.depth_budget l) v -> leaf_keys v = true ->
  Parser.decode_canonical (CborValue.to_canonical v) l = Ok (norm v).
Proof.
  intros Hw Hk. destruct (norm_spec v) as [Hc Hn]. unfold Parser.decode_canonical.
  rewrite <- Hc, <- (app_nil_r (CborValue.to_canonical (norm v))) at 1.
  rewrite value_to_canonical; [|done|apply norm_fixed_canonical; auto using norm_within].
  simpl. by rewrite bool_decide_eq_true_2.
Qed.

(** A value that its own bytes decode to is within the limits: the executable check. *)
Lemma within_by_decoding l v :
  is_bytes (CborValue.to_canonical v) ->
  Parser.decode_canonical (CborValue.to_canonical v) l = Ok v -> within l (Parser.depth_budget l) v.
Proof.
  intros Hb H. unfold Parser.decode_canonical in H. apply rbind_ok in H as ([v' s] & Hv & H).
  simpl in H. destruct s as [|]; [|done]. case_bool_decide; [|done]. injection H as ->.
  by apply (value_sound _ _ _ _ _ Hb Hv).
Qed.

(** Values with simple keys and the same bytes have the same normal form. *)
Lemma to_canonical_inj l r v w (Hl : limits_typed l) :
  within l r v -> within l r w -> leaf_keys v = true -> leaf_keys w = true ->
  CborValue.to_canonical v = CborValue.to_canonical w -> norm v = norm w.
Proof.
  intros Hv Hw Hkv Hkw Heq. destruct (norm_spec v) as [Hcv Hnv], (norm_spec w) as [Hcw Hnw].
  assert (P : forall u, within l r u -> leaf_keys u = true ->
    Parser.value l r (CborValue.to_canonical u) = Ok (norm u, [])).
  { intros u Hu Hk. destruct (norm_spec u) as [Hc Hn].
    rewrite <- Hc, <- (app_nil_r (CborValue.to_canonical (norm u))).
    apply value_to_canonical; [done|]. apply norm_fixed_canonical; auto using norm_within. }
  pose proof (P v Hv Hkv) as P1. rewrite Heq, (P w Hw Hkw) in P1. by injection P1.
Qed.

(** ** Artifacts as lists of numbered fields *)

Definition of_fields (l : list (Z * option CborValue)) : MapBuilder :=
  fold_left (fun b f => MapBuilder.put_opt b f.1 f.2) l MapBuilder.new.

Fixpoint assoc {A} (l : list (Z * option A)) (k : Z) : option A :=
  match l with
  | [] => None
  | (j, o) :: l => if j =? k then o else assoc l k
  end.

Definition present (f : Z * option CborValue) : option (CborValue * CborValue) :=
  option_map (fun v => (Uint f.1, v)) f.2.

Lemma entries_of_fields l : MapBuilder.build (of_fields l) = Map (omap present l).
Proof.
  unfold MapBuilder.build, of_fields. f_equal.
  enough (forall b, MapBuilder.entries (fold_left (fun b f => MapBuilder.put_opt b f.1 f.2) l b) =
    MapBuilder.entries b ++ omap present l) as -> by done.
  induction l as [|[k [v|]] l IH]; intros b; simpl; [by rewrite app_nil_r| |apply IH].
  rewrite IH. unfold MapBuilder.put. simpl. by rewrite <- app_assoc.
Qed.

Lemma leaf_keys_of_fields l :
  leaf_keys (MapBuilder.build (of_fields l)) =
  forallb (fun f => match f.2 with Some v => leaf_keys v | None => true end) l.
Proof.
  rewrite entries_of_fields. cbn [leaf_keys]. induction l as [|[k [v|]] l IH]; [done| |exact IH].
  cbn. f_equal. exact IH.
Qed.

(** A list of fields fits when each of them does. *)
Lemma within_fields l r fs :
  Z.of_nat (length fs) <= Limits.max_items l -> NoDup (map fst fs) ->
  Forall (fun f => in_u64 f.1 /\ forall v, f.2 = Some v -> within l (S r) v) fs ->
  within l (S (S r)) (MapBuilder.build (of_fields fs)).
Proof.
  intros Hn Hd Hf. rewrite entries_of_fields.
  assert (Hp : forall e, e ∈ omap present fs -> exists k v, (k, Some v) ∈ fs /\ e = (Uint k, v)).
  { intros e ([k [v|]] & Hin & He)%list_elem_of_omap; unfold present in He; simplify_eq/=; eauto. }
  rewrite Forall_forall in Hf. change (Z.of_nat (length (omap present fs)) <= Limits.max_items l /\
    Forall (fun kv => within l (S r) kv.1 /\ within l (S r) kv.2) (omap present fs) /\
    NoDup (map fst (omap present fs))). split_and!.
  - etransitivity; [|exact Hn]. apply inj_le. clear.
    induction fs as [|[k [v|]] fs IH]; [done|apply le_n_S, IH|apply le_S, IH].
  - apply Forall_forall. intros e (k & v & Hin & ->)%Hp. destruct (Hf _ Hin) as [Hk Hv]. split; [exact Hk|].
    by apply Hv.
  - clear - Hd. induction fs as [|[j [v|]] fs IH]; simpl in *; [constructor| |];
      apply NoDup_cons in Hd as [Hj Hd]; [|exact (IH Hd)]. apply NoDup_cons. split; [|exact (IH Hd)].
    intros ([x w] & Hx & Hin)%list_elem_of_fmap. simpl in Hx.
    apply list_elem_of_omap in Hin as ([j' [w'|]] & Hin & Ho); unfold present in Ho; simplify_eq/=.
    apply Hj, list_elem_of_fmap. by exists (j, Some w).
Qed.

(** ** The size of an encoding *)

(** Bytes of a head: the five sizes of [write_head]. *)
Definition head_len (arg : Z) : Z :=
  if arg <? 24 then 1 else if arg <=? u8_max then 2 else if arg <=? u16_max then 3
  else if arg <=? u32_max then 5 else 9.

Definition size_of (v : CborValue) : Z := Z.of_nat (length (CborValue.to_canonical v)).

Lemma write_head_len m arg : Z.of_nat (length (write_head m arg)) = head_len arg.
Proof.
  unfold write_head, head_len. repeat (case_match; [done|]). done.
Qed.

Lemma size_bytes b : size_of (Bytes b) = head_len (Z.of_nat (length b)) + Z.of_nat (length b).
Proof. unfold size_of. cbn [CborValue.to_canonical]. rewrite length_app, Nat2Z.inj_add, write_head_len. done. Qed.
Lemma size_text t : size_of (Text t) = head_len (Z.of_nat (length t)) + Z.of_nat (length t).
Proof. unfold size_of. cbn [CborValue.to_canonical]. rewrite length_app, Nat2Z.inj_add, write_head_len. done. Qed.
Lemma size_uint n : size_of (Uint n) = head_len n.
Proof. apply write_head_len. Qed.

Definition field_size (f : Z * option CborValue) : Z :=
  match f.2 with Some v => head_len f.1 + size_of v | None => 0 end.

Lemma flatten_perm_length (a b : list (list byte * list byte)) :
  a ≡ₚ b -> length (flatten a) = length (flatten b).
Proof.
  unfold flatten. induction 1; simpl; rewrite ?length_app; try lia.
Qed.

Lemma size_fields l :
  size_of (MapBuilder.build (of_fields l)) =
  head_len (Z.of_nat (length (omap present l))) + foldr (fun f acc => field_size f + acc) 0 l.
Proof.
  rewrite entries_of_fields. unfold size_of. cbn [CborValue.to_canonical].
  rewrite length_app, Nat2Z.inj_add, write_head_len. f_equal.
  rewrite (flatten_perm_length _ _ (sort_perm_self _)). unfold flatten.
  induction l as [|[k [v|]] l IH]; [done| |exact IH].
  change (omap present ((k, Some v) :: l)) with ((Uint k, v) :: omap present l).
  cbn [map concat foldr fst snd CborValue.to_canonical].
  rewrite !length_app, !Nat2Z.inj_add, write_head_len, IH. unfold field_size, size_of. simpl. lia.
Qed.

(** Looking a key up in a list without repeated keys does not depend on the order. *)
Lemma find_uint_perm (es fs : list (CborValue * CborValue)) k :
  es ≡ₚ fs -> NoDup (map fst fs) ->
  option_map snd (find_first (fun kv => bool_decide (as_uint kv.1 = Some k)) es) =
  option_map snd (find_first (fun kv => bool_decide (as_uint kv.1 = Some k)) fs).
Proof.
  unfold find_first. intros Hp. induction Hp as [|[x v] l l' Hp IH|[x v] [y w] l|l l' l'' Hp1 IH1 Hp2 IH2];
    intros Hd; simpl in *; [done| | |].
  - apply NoDup_cons in Hd as [_ Hd]. case_bool_decide; simpl; auto.
  - repeat case_bool_decide; simpl; try done. exfalso.
    repeat rewrite NoDup_cons in Hd. destruct x, y; simplify_eq/=. set_solver.
  - rewrite IH1 by (by rewrite Hp2). auto.
Qed.

Lemma get_norm_fields l k :
  NoDup (map fst l) ->
  get (norm (MapBuilder.build (of_fields l))) k = option_map norm (assoc l k).
Proof.
  intros Hd. rewrite entries_of_fields. destruct (norm_map_perm (omap present l)) as (es & -> & Hes).
  unfold get. simpl. rewrite (find_uint_perm _ _ k Hes).
  - clear Hes es. induction l as [|[j [v|]] l IH]; simpl in *; [done| |];
      apply NoDup_cons in Hd as [Hj Hd].
    + destruct (Z.eqb_spec j k) as [-> |Hjk]; case_bool_decide; simplify_eq/=; auto.
    + etransitivity; [exact (IH Hd)|]. destruct (Z.eqb_spec j k) as [-> |]; [|done].
      clear - Hj. induction l as [|[j o] l IH]; simpl in *; [done|].
      destruct (Z.eqb_spec j k); [set_solver|]. apply IH. set_solver.
  - rewrite map_map. simpl. clear Hes es. induction l as [|[j [v|]] l IH]; simpl in *; [constructor| |];
      apply NoDup_cons in Hd as [Hj Hd]; [|exact (IH Hd)]. apply NoDup_cons. split; [|exact (IH Hd)].
    intros ([x w] & Hx & Hin)%list_elem_of_fmap. simpl in Hx.
    apply list_elem_of_omap in Hin as ([j' [w'|]] & Hin & Ho); unfold present in Ho; simplify_eq/=.
    apply Hj, list_elem_of_fmap. by exists (j', Some w).
Qed.

(** ** Reading back what was written *)

Lemma bytes_text_bytes s : bytes_text (text_bytes s) = s.
Proof.
  unfold bytes_text, text_bytes. rewrite map_map, (map_ext _ id), map_id.
  - apply String.string_of_list_ascii_of_string.
  - intros a. rewrite N2Z.id. apply ascii_N_embedding.
Qed.

Lemma text_bytes_inj s t : text_bytes s = text_bytes t -> s = t.
Proof. intros H. by rewrite <- (bytes_text_bytes s), H, bytes_text_bytes. Qed.

Lemma rbind_eq {A B E} (m : result A E) (k : A -> result B E) a r :
  m = Ok a -> k a = r -> rbind m k = r.
Proof. by intros ->. Qed.

Lemma traverse_map {A B C E} (f : B -> result C E) (g : A -> B) (h : A -> C) l :
  (forall x, x ∈ l -> f (g x) = Ok (h x)) -> traverse f (map g l) = Ok (map h l).
Proof.
  induction l as [|x l IH]; intros Hf; simpl; [done|].
  rewrite Hf by set_solver. simpl. rewrite IH; [done|]. set_solver.
Qed.

(** Inserting the entries of a map in any order rebuilds it. *)
Lemma fold_insert_perm `{Countable K} {A} (l : list (K * A)) (m : gmap K A) :
  l ≡ₚ map_to_list m -> fold_left (fun acc kv => <[kv.1 := kv.2]> acc) l ∅ = m.
Proof.
  intros Hp. rewrite <- fold_left_rev_right.
  assert (Hd : NoDup (map fst l)) by (rewrite Hp; apply NoDup_fst_map_to_list).
  transitivity (list_to_map (M := gmap K A) (rev l)).
  { unfold list_to_map. induction (rev l) as [|[k v] r IH]; simpl; [done|]. by rewrite IH. }
  rewrite <- (list_to_map_to_list m). apply list_to_map_proper.
  - change (NoDup (map fst (rev l))). by rewrite map_rev, <- Permutation_rev.
  - by rewrite <- Permutation_rev.
Qed.

Lemma try_fold_ok {A B E} (body : B -> A -> result B E) (f : B -> A -> B) l acc :
  (forall acc x, x ∈ l -> body acc x = Ok (f acc x)) -> try_fold body acc l = Ok (fold_left f l acc).
Proof.
  revert acc. induction l as [|x l IH]; intros acc Hb; simpl; [done|].
  rewrite Hb by set_solver. simpl. apply IH. set_solver.
Qed.

Lemma enum_field_ok `{WireEnum E} (e : E) : enum_field (Types.to_u8 e) = Ok e.
Proof. unfold enum_field. by rewrite from_to_u8. Qed.

Section Read.
Import field.
Context (v : CborValue) (k : Z).

Lemma opt_norm o :
  get v k = option_map norm o -> (forall x, o = Some x -> is_null x = false) ->
  opt v k = option_map norm o.
Proof.
  intros Hg Hn. unfold opt. rewrite Hg. destruct o as [x|]; simpl; [|done].
  specialize (Hn x eq_refl). by destruct x.
Qed.

Lemma uint_ok n : get v k = Some (Uint n) -> uint v k = Ok n.
Proof. unfold uint, req. by intros ->. Qed.
Lemma u8_ok n : get v k = Some (Uint n) -> in_u8 n -> u8_field v k = Ok n.
Proof.
  intros Hg Hn. unfold u8_field, try_from. rewrite (uint_ok n Hg). simpl.
  by rewrite (proj2 (Z.leb_le _ _)) by apply Hn.
Qed.
Lemma u32_ok n : get v k = Some (Uint n) -> in_u32 n -> u32_field v k = Ok n.
Proof.
  intros Hg Hn. unfold u32_field, try_from. rewrite (uint_ok n Hg). simpl.
  by rewrite (proj2 (Z.leb_le _ _)) by apply Hn.
Qed.
Lemma int_ok n : get v k = Some (norm (CborValue.int n)) -> in_i64 n -> int v k = Ok n.
Proof. intros Hg Hn. unfold int, req. by rewrite Hg, norm_int; simpl; rewrite int_roundtrip. Qed.
Lemma bytes_ok b : get v k = Some (Bytes b) -> bytes v k = Ok b.
Proof. unfold bytes, req. by intros ->. Qed.
Lemma fixed_ok N b : get v k = Some (Bytes b) -> length b = N -> fixed N v k = Ok b.
Proof.
  intros Hg Hn. unfold fixed, req, to_array. rewrite Hg. simpl. by rewrite bool_decide_eq_true_2.
Qed.
Lemma text_ok s : get v k = Some (Text (text_bytes s)) -> text v k = Ok s.
Proof. unfold text, req. intros ->. unfold text_of. simpl. by rewrite bytes_text_bytes. Qed.

Lemma opt_uint_ok o : get v k = option_map norm (option_map Uint o) -> opt_uint v k = Ok o.
Proof. unfold opt_uint. intros Hg. rewrite (opt_norm _ Hg); by destruct o; naive_solver. Qed.
Lemma opt_bytes_ok o : get v k = option_map norm (option_map Bytes o) -> opt_bytes v k = Ok o.
Proof. unfold opt_bytes. intros Hg. rewrite (opt_norm _ Hg); by destruct o; naive_solver. Qed.
Lemma opt_text_ok o :
  get v k = option_map norm (option_map (fun s => Text (text_bytes s)) o) -> opt_text v k = Ok o.
Proof.
  unfold opt_text. intros Hg. rewrite (opt_norm _ Hg); destruct o; try naive_solver.
  unfold text_of. simpl. by rewrite bytes_text_bytes.
Qed.
Lemma narrow_ok hi o : (forall n, o = Some n -> n <= hi) -> narrow_opt hi k o = Ok o.
Proof.
  intros Ho. destruct o as [n|]; simpl; [|done]. unfold try_from.
  by rewrite (proj2 (Z.leb_le _ _)) by auto.
Qed.

Lemma text_array_ok ts :
  get v k = Some (norm (Array (map (fun s => Text (text_bytes s)) ts))) -> text_array v k = Ok ts.
Proof.
  unfold text_array, req. intros ->. simpl. rewrite map_map. simpl.
  rewrite (traverse_map _ _ id); [by rewrite map_id|].
  intros s _. unfold text_of. simpl. by rewrite bytes_text_bytes.
Qed.

Lemma fixed_array_ok N bs :
  get v k = Some (norm (Array (map Bytes bs))) -> Forall (fun b => length b = N) bs ->
  fixed_array N v k = Ok bs.
Proof.
  unfold fixed_array, req. intros -> Hn. simpl. rewrite map_map. simpl.
  rewrite (traverse_map _ _ id); [by rewrite map_id|].
  intros b Hb. simpl. unfold to_array. rewrite Forall_forall in Hn. by rewrite bool_decide_eq_true_2 by auto.
Qed.

Lemma req_with_ok {A} (enc : A -> CborValue) (dec : CborValue -> result A ProtoError) x :
  get v k = Some (norm (enc x)) -> dec (norm (enc x)) = Ok x -> req_with dec v k = Ok x.
Proof. unfold req_with, req. by intros ->. Qed.

Lemma uint_array_ok ns :
  get v k = Some (norm (Array (map Uint ns))) ->
  (r <-? req v k ;; arr <-? ok_of_option (as_array r) (mismatch k) ;;
   traverse (fun x => ok_of_option (as_uint x) (mismatch k)) arr) = Ok ns.
Proof.
  unfold req. intros ->. simpl. rewrite map_map. simpl.
  rewrite (traverse_map _ _ id); [by rewrite map_id|done].
Qed.

Lemma opt_with_ok {A} (enc : A -> CborValue) (dec : CborValue -> result A ProtoError) o :
  get v k = option_map norm (option_map enc o) ->
  (forall x, o = Some x -> is_null (enc x) = false /\ dec (norm (enc x)) = Ok x) ->
  opt_with dec v k = Ok o.
Proof.
  unfold opt_with. intros Hg Hx. rewrite (opt_norm _ Hg).
  - destruct o as [x|]; simpl; [|done]. by rewrite (proj2 (Hx x eq_refl)).
  - destruct o; naive_solver.
Qed.

(** A map read back entry by entry; the keys met so far are never met again. *)
Lemma map_fold_perm `{Countable K} {A} (enck : K -> CborValue) (encv : A -> CborValue)
    (body : gmap K A -> CborValue * CborValue -> result (gmap K A) ProtoError) (m : gmap K A) l :
  l ≡ₚ map_to_list m ->
  (forall acc x y, m !! x = Some y -> acc !! x = None ->
     body acc (norm (enck x), norm (encv y)) = Ok (<[x := y]> acc)) ->
  exists es, norm (Map (map (fun kv => (enck kv.1, encv kv.2)) l)) = Map es /\
    try_fold body ∅ es = Ok m.
Proof.
  intros Hl Hb. destruct (norm_map_perm (map (fun kv => (enck kv.1, encv kv.2)) l)) as (es & Hn & Hes).
  exists es. split; [done|]. rewrite map_map in Hes. simpl in Hes.
  apply Permutation_map_inv in Hes as (l' & -> & Hl'). rewrite Hl in Hl'.
  assert (Hd : NoDup (map fst l')) by (rewrite <- Hl'; apply NoDup_fst_map_to_list).
  assert (Hf : forall acc : gmap K A, (forall x, x ∈ l' -> m !! x.1 = Some x.2) ->
    (forall x, x ∈ map fst l' -> acc !! x = None) ->
    try_fold body acc (map (fun x => (norm (enck x.1), norm (encv x.2))) l') =
    Ok (fold_left (fun acc kv => <[kv.1 := kv.2]> acc) l' acc)).
  { clear - Hb Hd. induction l' as [|[x y] l IH]; intros acc Hin Hacc; simpl in *; [done|].
    apply NoDup_cons in Hd as [Hx Hd].
    rewrite (Hb acc x y) by (apply (Hin (x, y)) || apply Hacc; set_solver). simpl.
    apply IH; [done|set_solver|]. intros z Hz. rewrite lookup_insert_ne by set_solver.
    apply Hacc. set_solver. }
  rewrite Hf; [f_equal; by apply fold_insert_perm| |by intros; apply lookup_empty].
  intros [x y]. rewrite <- Hl'. apply elem_of_map_to_list.
Qed.

Lemma text_map_fold {A} (enc : A -> CborValue) (dec : CborValue -> option A) (m : gmap string A) :
  (forall x y, m !! x = Some y -> dec (norm (enc y)) = Some y) ->
  exists es, norm (Map (map (fun kv => (Text (text_bytes kv.1), enc kv.2)) (bt_iter m))) = Map es /\
    try_fold (text_entry dec k) ∅ es = Ok m.
Proof.
  intros Hdec. apply (map_fold_perm (fun s => Text (text_bytes s))); [apply bt_iter_perm|].
  intros acc x y Hm _. unfold text_entry, text_of. simpl. rewrite bytes_text_bytes. simpl.
  by rewrite (Hdec x y).
Qed.

Lemma text_bytes_map_ok m :
  get v k = Some (norm (enc_text_bytes_map m)) -> text_bytes_map v k = Ok m.
Proof.
  unfold text_bytes_map, req, enc_text_bytes_map. intros ->.
  destruct (text_map_fold Bytes as_bytes m) as (es & -> & Hf); [done|]. exact Hf.
Qed.

Lemma opt_text_bytes_map_ok o :
  get v k = option_map norm (option_map enc_text_bytes_map o) -> opt_text_bytes_map v k = Ok o.
Proof.
  unfold opt_text_bytes_map. intros Hg. rewrite (opt_norm _ Hg) by (destruct o; naive_solver).
  destruct o as [m|]; simpl in *; [|done]. by rewrite (text_bytes_map_ok m Hg).
Qed.
End Read.

(** ** The laws of an artifact *)

(** What the Rust types of the fields guarantee. *)
Class WellTyped (A : Type) := typed : A -> Prop.

Class ArtifactLaws (A : Type) `{Artifact A} `{WellTyped A} : Prop := {
  limits_ok : limits_typed limits;
  value_is_map : forall a, exists m, to_value a = Map m;
  value_leaf_keys : forall a, leaf_keys (to_value a) = true;
  value_roundtrip : forall a, typed a -> from_value (norm (to_value a)) = Ok a;
}.

(** The encoding is within the limits of the artifact's decoder. *)
Definition fits `{Artifact A} (a : A) : Prop :=
  within limits (Parser.depth_budget limits) (to_value a).

Section Laws.
Context `{ArtifactLaws A}.

Lemma parse_to_value a : typed a -> parse (norm (to_value a)) = Ok a.
Proof.
  intros Ha. pose proof (value_roundtrip a Ha) as Hr. destruct (value_is_map a) as [m Hm].
  unfold parse. rewrite Hm in *. exact Hr.
Qed.

Lemma artifact_decode_encode a : typed a -> fits a -> decode (encode a) = Ok a.
Proof.
  intros Ha Hf. unfold decode, encode.
  rewrite decode_to_canonical by (apply limits_ok || done || apply value_leaf_keys). simpl.
  by apply parse_to_value.
Qed.

Lemma from_canonical_encode a : typed a -> fits a -> from_canonical (encode a) = Ok a.
Proof.
  intros Ha Hf. unfold from_canonical, encode.
  rewrite decode_to_canonical by (apply limits_ok || done || apply value_leaf_keys). simpl.
  by rewrite parse_to_value.
Qed.
End Laws.

(** Discharge of the laws for an artifact built with [MapBuilder]. *)
Ltac reify_builder b :=
  lazymatch b with
  | of_fields ?l => constr:(l)
  | MapBuilder.put ?b ?k ?x =>
      let l := reify_builder b in constr:(l ++ [(k, Some x)])
  | MapBuilder.put_opt ?b ?k ?x =>
      let l := reify_builder b in constr:(l ++ [(k, x)])
  | MapBuilder.new => constr:(@nil (Z * option CborValue))
  end.

(** Replace a builder by its list of fields. *)
Ltac as_fields :=
  cbv zeta;
  match goal with
  | |- context [MapBuilder.build ?b] =>
      let l := reify_builder b in
      let l' := eval cbn [app] in l in
      change (MapBuilder.build b) with (MapBuilder.build (of_fields l'))
  end.

Lemma keys_NoDup {A} (l : list (Z * A)) :
  bool_decide (NoDup (map fst l)) = true -> NoDup (map fst l).
Proof. apply bool_decide_eq_true_1. Qed.

(** Make the decoder's argument opaque, keeping what [get] finds in it. *)
Ltac abstract_fields :=
  as_fields;
  match goal with
  | |- context [norm (MapBuilder.build (of_fields ?l))] =>
      let Hget := fresh "Hget" in let v := fresh "v" in
      pose proof (fun k => get_norm_fields l k (keys_NoDup l eq_refl)) as Hget;
      set (v := norm (MapBuilder.build (of_fields l))) in *; clearbody v
  end.

Ltac find_field Hget := etransitivity; [apply Hget|reflexivity].

Ltac accessor Hget :=
  lazymatch goal with
  | |- field.u8_field _ _ = _ => eapply u8_ok; [find_field Hget|eassumption || apply to_u8_range]
  | |- field.u32_field _ _ = _ => eapply u32_ok; [find_field Hget|eassumption]
  | |- field.uint _ _ = _ => eapply uint_ok; find_field Hget
  | |- field.int _ _ = _ => eapply int_ok; [find_field Hget|eassumption]
  | |- field.bytes _ _ = _ => eapply bytes_ok; find_field Hget
  | |- field.fingerprint _ _ = _ => eapply bytes_ok; find_field Hget
  | |- field.fixed _ _ _ = _ => eapply fixed_ok; [find_field Hget|eassumption]
  | |- field.suite_id _ _ = _ => eapply fixed_ok; [find_field Hget|eassumption]
  | |- field.license_id _ _ = _ => eapply fixed_ok; [find_field Hget|eassumption]
  | |- field.machine_id _ _ = _ => eapply fixed_ok; [find_field Hget|eassumption]
  | |- field.epoch_id _ _ = _ => eapply fixed_ok; [find_field Hget|eassumption]
  | |- field.text _ _ = _ => eapply text_ok; find_field Hget
  | |- field.opt_uint _ _ = _ => eapply opt_uint_ok; find_field Hget
  | |- field.opt_bytes _ _ = _ => eapply opt_bytes_ok; find_field Hget
  | |- field.opt_text _ _ = _ => eapply opt_text_ok; find_field Hget
  | |- field.text_array _ _ = _ => eapply text_array_ok; find_field Hget
  | |- field.fixed_array _ _ _ = _ => eapply fixed_array_ok; [find_field Hget|eassumption]
  | |- field.text_bytes_map _ _ = _ => eapply text_bytes_map_ok; find_field Hget
  | |- field.opt_text_bytes_map _ _ = _ => eapply opt_text_bytes_map_ok; find_field Hget
  | |- enum_field (Types.to_u8 _) = _ => apply enum_field_ok
  end.

Ltac read_fields Hget := repeat (eapply rbind_eq; [accessor Hget|cbv beta]).

(** The maps an artifact contains have simple keys. *)
Lemma leaf_int n : leaf_keys (CborValue.int n) = true.
Proof. unfold CborValue.int. by destruct (n <? 0). Qed.
Lemma leaf_text_map {A} (enc : A -> CborValue) (l : list (string * A)) :
  (forall x, leaf_keys (enc x) = true) ->
  leaf_keys (Map (map (fun kv => (Text (text_bytes kv.1), enc kv.2)) l)) = true.
Proof. intros Henc. cbn [leaf_keys]. induction l; simpl; [done|]. by rewrite Henc. Qed.
Lemma leaf_array {A} (enc : A -> CborValue) (l : list A) :
  (forall x, leaf_keys (enc x) = true) -> leaf_keys (Array (map enc l)) = true.
Proof. intros Henc. cbn [leaf_keys]. induction l; simpl; [done|]. by rewrite Henc. Qed.
Lemma leaf_uint_map {A} (enc : A -> CborValue) (l : list (Z * A)) :
  (forall x, leaf_keys (enc x) = true) ->
  leaf_keys (Map (map (fun kv => (Uint kv.1, enc kv.2)) l)) = true.
Proof. intros Henc. cbn [leaf_keys]. induction l; simpl; [done|]. by rewrite Henc. Qed.
Lemma leaf_text_bytes_map m : leaf_keys (field.enc_text_bytes_map m) = true.
Proof. by apply leaf_text_map. Qed.
Lemma leaf_opt {A} (enc : A -> CborValue) (o : option A) :
  (forall x, leaf_keys (enc x) = true) ->
  match option_map enc o with Some v => leaf_keys v | None => true end = true.
Proof. intros Henc. destruct o; simpl; auto. Qed.

Create HintDb leaf.
#[export] Hint Resolve leaf_int leaf_text_map leaf_uint_map leaf_array leaf_text_bytes_map leaf_opt : leaf.

Ltac leaf_fields :=
  as_fields; rewrite leaf_keys_of_fields; cbn [forallb fst snd];
  repeat match goal with |- _ && _ = true => apply andb_true_intro; split end; auto with leaf.
