(* ===== verification/Artifacts.v ===== *)
(** * The signed artifacts ([crates/copylocker-proto/src/artifacts.rs], [entitlements.rs])

    One [Module] per artifact: its record, its [to_value] and [from_value], and an instance of
    [Artifact] with its laws.  [typed] is what the Rust types guarantee: integer widths and the
    lengths of fixed-size arrays. *)

From S2P Require Import Prelude Types Errors Cbor Ticket Field.
Import CborValue.

(** ** Entitlement snapshots ([entitlements.rs]) *)
Module ent.
Import Types.Entitlements.
Definition malformed : ProtoError := ProtoError.Codec CodecError.Malformed.

Definition enc_texts (ts : list string) : CborValue :=
  Array (map (fun s => Text (text_bytes s)) ts).

Definition encode_version_scope (vs : VersionScope) : CborValue :=
  let b := MapBuilder.new in
  MapBuilder.build
    match vs with
    | VersionScope.Unlimited => MapBuilder.put b 0 (Uint 0)
    | VersionScope.SemverRange r => MapBuilder.put b 1 (Text (text_bytes r))
    | VersionScope.ReleasedBefore t => MapBuilder.put b 2 (CborValue.int t)
    | VersionScope.Pinned ids => MapBuilder.put b 3 (enc_texts ids)
    end.

Definition decode_version_scope (v : CborValue) : result VersionScope ProtoError :=
  entries <-? ok_of_option (as_map v) malformed ;;
  if negb (length entries =? 1)%nat then Err malformed
  else match field.opt v 0 with
  | Some _ => Ok VersionScope.Unlimited
  | None =>
  match field.opt v 1 with
  | Some _ => r <-? field.text v 1 ;; Ok (VersionScope.SemverRange r)
  | None =>
  match field.opt v 2 with
  | Some _ => t <-? field.int v 2 ;; Ok (VersionScope.ReleasedBefore t)
  | None =>
  match field.opt v 3 with
  | Some _ => ids <-? field.text_array v 3 ;; Ok (VersionScope.Pinned ids)
  | None => Err (ProtoError.Codec CodecError.UnknownDiscriminant)
  end end end end.

Definition encode_hint (h : SubscriptionHint) : CborValue :=
  let b := MapBuilder.new in
  let b := MapBuilder.put b 0 (Uint (Types.to_u8 (SubscriptionHint.state h))) in
  let b := MapBuilder.put b 1 (CborValue.int (SubscriptionHint.current_period_end h)) in
  let b := MapBuilder.put_opt b 2 (option_map Uint (SubscriptionHint.fallback_progress_months h)) in
  let b := MapBuilder.put_opt b 3 (option_map Uint (SubscriptionHint.fallback_required_months h)) in
  MapBuilder.build b.

Definition decode_hint (v : CborValue) : result SubscriptionHint ProtoError :=
  state_raw <-? field.u8_field v 0 ;;
  state <-? enum_field state_raw ;;
  current_period_end <-? field.int v 1 ;;
  p <-? field.opt_uint v 2 ;;
  progress <-? field.narrow_opt u32_max 2 p ;;
  r <-? field.opt_uint v 3 ;;
  required <-? field.narrow_opt u32_max 3 r ;;
  Ok (SubscriptionHint.mk state current_period_end progress required).

Definition encode (e : Entitlements) : CborValue :=
  let b := MapBuilder.new in
  let b := MapBuilder.put b 0 (enc_texts (bt_elems (features e))) in
  let b := MapBuilder.put b 1
    (Map (map (fun kv => (Text (text_bytes kv.1), CborValue.int kv.2)) (bt_iter (limits e)))) in
  let b := MapBuilder.put b 2 (Text (text_bytes (tier_id e))) in
  let b := MapBuilder.put b 3 (Text (text_bytes (tier_label e))) in
  let b := MapBuilder.put b 4 (Uint (catalog_version e)) in
  let b := MapBuilder.put_opt b 5 (option_map encode_version_scope (version_scope e)) in
  let b := MapBuilder.put_opt b 6 (option_map encode_hint (subscription_hint e)) in
  MapBuilder.build b.

Definition decode (v : CborValue) : result Entitlements ProtoError :=
  match as_map v with
  | None => Err malformed
  | Some _ =>
  feature_list <-? field.text_array v 0 ;;
  let features : gset string := list_to_set feature_list in
  if negb (size features =? length feature_list)%nat then
    Err (ProtoError.Codec CodecError.NotCanonical)
  else
  r <-? field.req v 1 ;;
  limits_raw <-? ok_of_option (as_map r) (field.mismatch 1) ;;
  limits <-? try_fold (field.text_entry as_int 1) ∅ limits_raw ;;
  tier_id <-? field.text v 2 ;;
  tier_label <-? field.text v 3 ;;
  catalog_version <-? field.u32_field v 4 ;;
  version_scope <-? field.opt_with decode_version_scope v 5 ;;
  subscription_hint <-? field.opt_with decode_hint v 6 ;;
  Ok (mk features limits tier_id tier_label catalog_version version_scope subscription_hint)
  end.

Definition opt_u32 (o : option Z) : Prop := forall n, o = Some n -> in_u32 n.
Record hint_typed (h : SubscriptionHint) : Prop := {
  ty_end : in_i64 (SubscriptionHint.current_period_end h);
  ty_progress : opt_u32 (SubscriptionHint.fallback_progress_months h);
  ty_required : opt_u32 (SubscriptionHint.fallback_required_months h);
}.
Record typed (e : Entitlements) : Prop := {
  ty_limits : map_Forall (fun _ n => in_i64 n) (limits e);
  ty_catalog : in_u32 (catalog_version e);
  ty_cutoff : forall t, version_scope e = Some (VersionScope.ReleasedBefore t) -> in_i64 t;
  ty_hint : forall h, subscription_hint e = Some h -> hint_typed h;
}.

Lemma leaf_version_scope vs : leaf_keys (encode_version_scope vs) = true.
Proof. destruct vs; unfold encode_version_scope, enc_texts; cbv iota; leaf_fields. Qed.

Lemma leaf_hint h : leaf_keys (encode_hint h) = true.
Proof. unfold encode_hint. leaf_fields. Qed.
#[local] Hint Resolve leaf_version_scope leaf_hint : leaf.

Lemma leaf_encode e : leaf_keys (encode e) = true.
Proof. unfold encode, enc_texts. leaf_fields. Qed.

Lemma narrow_u32 k o : opt_u32 o -> field.narrow_opt u32_max k o = Ok o.
Proof. intros Ho. apply narrow_ok. intros n Hn. apply (Ho n Hn). Qed.

Lemma decode_hint_encode h : hint_typed h -> decode_hint (norm (encode_hint h)) = Ok h.
Proof.
  intros []. unfold encode_hint, decode_hint. abstract_fields. read_fields Hget.
  eapply rbind_eq; [by apply narrow_u32|]. read_fields Hget.
  eapply rbind_eq; [by apply narrow_u32|]. by destruct h.
Qed.

Lemma decode_version_scope_encode vs :
  (forall t, vs = VersionScope.ReleasedBefore t -> in_i64 t) ->
  decode_version_scope (norm (encode_version_scope vs)) = Ok vs.
Proof.
  intros Ht.
  assert (Hm : exists e, as_map (norm (encode_version_scope vs)) = Some [e])
    by (destruct vs; by eexists).
  destruct Hm as [e Hm]. unfold decode_version_scope. rewrite Hm. clear Hm.
  destruct vs as [|r|t|ids]; unfold encode_version_scope, enc_texts; cbv iota; abstract_fields;
    cbn [ok_of_option rbind length Nat.eqb negb]; unfold field.opt; rewrite !Hget;
    cbn [assoc Z.eqb Pos.eqb option_map norm is_null].
  - done.
  - by read_fields Hget.
  - rewrite norm_int. assert (is_null (CborValue.int t) = false) as ->
      by (unfold CborValue.int; by destruct (t <? 0)).
    pose proof (Ht t eq_refl). by read_fields Hget.
  - by read_fields Hget.
Qed.

Lemma features_size (s : gset string) : size (list_to_set (bt_elems s) : gset string) = length (bt_elems s).
Proof.
  unfold bt_elems. rewrite merge_sort_Permutation. rewrite list_to_set_elements_L. done.
Qed.

Lemma ent_decode_encode e : typed e -> decode (norm (encode e)) = Ok e.
Proof.
  intros [Hl Hc Hs Hh]. unfold decode.
  assert (Hm : exists m, as_map (norm (encode e)) = Some m) by by eexists.
  destruct Hm as [m ->]. unfold encode, enc_texts. abstract_fields. read_fields Hget.
  rewrite features_size, Nat.eqb_refl. simpl.
  unfold field.req at 1. rewrite Hget. cbn [assoc Z.eqb Pos.eqb option_map ok_of_option rbind].
  destruct (text_map_fold 1 CborValue.int as_int (limits e)) as (es & -> & Hf).
  { intros x y Hxy. rewrite norm_int. apply int_roundtrip. by apply (Hl x). }
  cbn [as_map ok_of_option rbind]. rewrite Hf. cbn [rbind]. read_fields Hget.
  eapply rbind_eq.
  { eapply (opt_with_ok _ _ encode_version_scope); [find_field Hget|].
    intros vs Hvs. split; [by destruct vs|]. apply decode_version_scope_encode. naive_solver. }
  eapply rbind_eq.
  { eapply (opt_with_ok _ _ encode_hint); [find_field Hget|].
    intros h Hh'. split; [done|]. apply decode_hint_encode. auto. }
  destruct e; simpl. do 2 f_equal. apply set_eq. intros x.
  rewrite elem_of_list_to_set. apply elem_of_bt_elems.
Qed.

Lemma encode_not_null e : is_null (encode e) = false.
Proof. done. Qed.
End ent.
Lemma leaf_texts ts : leaf_keys (ent.enc_texts ts) = true.
Proof. by apply leaf_array. Qed.
#[export] Hint Resolve ent.leaf_encode leaf_texts : leaf.

(** [ent::decode(field::req(v, key)?)?]. *)
Definition required_entitlements (v : CborValue) (key : Z) : result Entitlements ProtoError :=
  r <-? field.req v key ;; ent.decode r.

Lemma required_entitlements_ok v k e :
  get v k = Some (norm (ent.encode e)) -> ent.typed e -> required_entitlements v k = Ok e.
Proof.
  intros Hg He. unfold required_entitlements, field.req. rewrite Hg. by apply ent.ent_decode_encode.
Qed.

(** ** The root-signed certificate of an epoch key *)
Module EpochCert.
Record EpochCert := mk {
  proto_ver : Z;
  suite_id : list byte;
  epoch_id : EpochId;
  vk : list byte;
  vk_fast : list byte;
  not_before : Z;
  not_after : Z;
  product_scope : option string;
  issuer_vk_digest : Digest;
}.

Definition window (c : EpochCert) : TimeWindow := TimeWindow.new (not_before c) (not_after c).

Definition to_value (c : EpochCert) : CborValue :=
  let b := MapBuilder.new in
  let b := MapBuilder.put b 0 (Uint (proto_ver c)) in
  let b := MapBuilder.put b 1 (Bytes (suite_id c)) in
  let b := MapBuilder.put b 2 (Bytes (epoch_id c)) in
  let b := MapBuilder.put b 3 (Bytes (vk c)) in
  let b := MapBuilder.put b 4 (Bytes (vk_fast c)) in
  let b := MapBuilder.put b 5 (CborValue.int (not_before c)) in
  let b := MapBuilder.put b 6 (CborValue.int (not_after c)) in
  let b := MapBuilder.put_opt b 7 (option_map (fun s => Text (text_bytes s)) (product_scope c)) in
  let b := MapBuilder.put b 8 (Bytes (issuer_vk_digest c)) in
  MapBuilder.build b.

Definition from_value (v : CborValue) : result EpochCert ProtoError :=
  proto_ver <-? field.u8_field v 0 ;;
  suite_id <-? field.suite_id v 1 ;;
  epoch_id <-? field.epoch_id v 2 ;;
  vk <-? field.bytes v 3 ;;
  vk_fast <-? field.bytes v 4 ;;
  not_before <-? field.int v 5 ;;
  not_after <-? field.int v 6 ;;
  product_scope <-? field.opt_text v 7 ;;
  issuer_vk_digest <-? field.fixed 32 v 8 ;;
  Ok (mk proto_ver suite_id epoch_id vk vk_fast not_before not_after product_scope
        issuer_vk_digest).

#[global] Instance EpochCert_artifact : Artifact EpochCert := {|
  KIND := ArtifactKind.EpochCert; limits := BULK_LIMITS;
  Field.to_value := to_value; Field.from_value := from_value |}.

Record typed (c : EpochCert) : Prop := {
  ty_proto : in_u8 (proto_ver c);
  ty_suite : length (suite_id c) = 4%nat;
  ty_epoch : length (epoch_id c) = 8%nat;
  ty_nb : in_i64 (not_before c);
  ty_na : in_i64 (not_after c);
  ty_digest : length (issuer_vk_digest c) = 32%nat;
}.

#[global] Instance EpochCert_typed : WellTyped EpochCert := typed.
#[global] Instance EpochCert_laws : ArtifactLaws EpochCert.
Proof.
  split.
  - by split; split.
  - intros c. by eexists.
  - intros c. change (leaf_keys (to_value c) = true). unfold to_value. leaf_fields.
  - intros c []. change (from_value (norm (to_value c)) = Ok c). unfold to_value, from_value.
    abstract_fields. read_fields Hget. by destruct c.
Qed.
End EpochCert.
Notation EpochCert := EpochCert.EpochCert.

(** ** Immediate revocation of one device *)
Module KillOrder.
Record KillOrder := mk {
  proto_ver : Z;
  suite_id : list byte;
  machine_id : MachineId;
  nonce_c_echo : list byte;
  server_time : Z;
  reason : KillReason;
  user_message : option string;
  revocation_epoch : Z;
}.

Definition to_value (c : KillOrder) : CborValue :=
  let b := MapBuilder.new in
  let b := MapBuilder.put b 0 (Uint (proto_ver c)) in
  let b := MapBuilder.put b 1 (Bytes (suite_id c)) in
  let b := MapBuilder.put b 2 (Bytes (machine_id c)) in
  let b := MapBuilder.put b 3 (Bytes (nonce_c_echo c)) in
  let b := MapBuilder.put b 4 (CborValue.int (server_time c)) in
  let b := MapBuilder.put b 5 (Uint (Types.to_u8 (reason c))) in
  let b := MapBuilder.put_opt b 6 (option_map (fun s => Text (text_bytes s)) (user_message c)) in
  let b := MapBuilder.put b 7 (Uint (revocation_epoch c)) in
  MapBuilder.build b.

Definition from_value (v : CborValue) : result KillOrder ProtoError :=
  reason_raw <-? field.u8_field v 5 ;;
  proto_ver <-? field.u8_field v 0 ;;
  suite_id <-? field.suite_id v 1 ;;
  machine_id <-? field.machine_id v 2 ;;
  nonce_c_echo <-? field.fixed 32 v 3 ;;
  server_time <-? field.int v 4 ;;
  reason <-? enum_field reason_raw ;;
  user_message <-? field.opt_text v 6 ;;
  revocation_epoch <-? field.uint v 7 ;;
  Ok (mk proto_ver suite_id machine_id nonce_c_echo server_time reason user_message
        revocation_epoch).

#[global] Instance KillOrder_artifact : Artifact KillOrder := {|
  KIND := ArtifactKind.KillOrder; limits := CLIENT_LIMITS;
  Field.to_value := to_value; Field.from_value := from_value |}.

Record typed (c : KillOrder) : Prop := {
  ty_proto : in_u8 (proto_ver c);
  ty_suite : length (suite_id c) = 4%nat;
  ty_machine : length (machine_id c) = 16%nat;
  ty_nonce : length (nonce_c_echo c) = 32%nat;
  ty_time : in_i64 (server_time c);
}.

#[global] Instance KillOrder_typed : WellTyped KillOrder := typed.
#[global] Instance KillOrder_laws : ArtifactLaws KillOrder.
Proof.
  split.
  - by split; split.
  - intros c. by eexists.
  - intros c. change (leaf_keys (to_value c) = true). unfold to_value. leaf_fields.
  - intros c []. change (from_value (norm (to_value c)) = Ok c). unfold to_value, from_value.
    abstract_fields. read_fields Hget. by destruct c.
Qed.
End KillOrder.
Notation KillOrder := KillOrder.KillOrder.

(** ** Batched revocation state *)
Module RevocationBatch.
Record RevocationBatch := mk {
  proto_ver : Z;
  suite_id : list byte;
  from_epoch : Z;
  to_epoch : Z;
  issued_at : Z;
  revoked_license_ids : list LicenseId;
  revoked_machine_ids : list MachineId;
  revoked_epoch_ids : list EpochId;
  bloom_filter : option (list byte);
}.

Definition to_value (c : RevocationBatch) : CborValue :=
  let b := MapBuilder.new in
  let b := MapBuilder.put b 0 (Uint (proto_ver c)) in
  let b := MapBuilder.put b 1 (Bytes (suite_id c)) in
  let b := MapBuilder.put b 2 (Uint (from_epoch c)) in
  let b := MapBuilder.put b 3 (Uint (to_epoch c)) in
  let b := MapBuilder.put b 4 (CborValue.int (issued_at c)) in
  let b := MapBuilder.put b 5 (Array (map Bytes (revoked_license_ids c))) in
  let b := MapBuilder.put b 6 (Array (map Bytes (revoked_machine_ids c))) in
  let b := MapBuilder.put b 7 (Array (map Bytes (revoked_epoch_ids c))) in
  let b := MapBuilder.put_opt b 8 (option_map Bytes (bloom_filter c)) in
  MapBuilder.build b.

Definition from_value (v : CborValue) : result RevocationBatch ProtoError :=
  proto_ver <-? field.u8_field v 0 ;;
  suite_id <-? field.suite_id v 1 ;;
  from_epoch <-? field.uint v 2 ;;
  to_epoch <-? field.uint v 3 ;;
  issued_at <-? field.int v 4 ;;
  revoked_license_ids <-? field.fixed_array 16 v 5 ;;
  revoked_machine_ids <-? field.fixed_array 16 v 6 ;;
  revoked_epoch_ids <-? field.fixed_array 8 v 7 ;;
  bloom_filter <-? field.opt_bytes v 8 ;;
  Ok (mk proto_ver suite_id from_epoch to_epoch issued_at revoked_license_ids revoked_machine_ids
        revoked_epoch_ids bloom_filter).

#[global] Instance RevocationBatch_artifact : Artifact RevocationBatch := {|
  KIND := ArtifactKind.RevocationBatch; limits := BULK_LIMITS;
  Field.to_value := to_value; Field.from_value := from_value |}.

Record typed (c : RevocationBatch) : Prop := {
  ty_proto : in_u8 (proto_ver c);
  ty_suite : length (suite_id c) = 4%nat;
  ty_issued : in_i64 (issued_at c);
  ty_licenses : Forall (fun i => length i = 16%nat) (revoked_license_ids c);
  ty_machines : Forall (fun i => length i = 16%nat) (revoked_machine_ids c);
  ty_epochs : Forall (fun i => length i = 8%nat) (revoked_epoch_ids c);
}.

#[global] Instance RevocationBatch_typed : WellTyped RevocationBatch := typed.
#[global] Instance RevocationBatch_laws : ArtifactLaws RevocationBatch.
Proof.
  split.
  - by split; split.
  - intros c. by eexists.
  - intros c. change (leaf_keys (to_value c) = true). unfold to_value. leaf_fields.
  - intros c []. change (from_value (norm (to_value c)) = Ok c). unfold to_value, from_value.
    abstract_fields. read_fields Hget. by destruct c.
Qed.
End RevocationBatch.
Notation RevocationBatch := RevocationBatch.RevocationBatch.

(** ** The compact offline licence *)
Module OfflineLicenseKey.
Record OfflineLicenseKey := mk {
  proto_ver : Z;
  suite_id : list byte;
  product_id : string;
  license_id : LicenseId;
  entitlements : Entitlements;
  issued_at : Z;
  not_after : Z;
  bound_fingerprint : option Fingerprint;
  max_seats : Z;
  epoch_id : EpochId;
  machine_id : MachineId;
  offline_nonce : list byte;
  key_seed : list byte;
  build_fingerprint : string;
  variant_id : Z;
  security_floor : Z;
  revocation_epoch : Z;
  wrapped_keks : gmap string (list byte);
}.

Definition to_value (c : OfflineLicenseKey) : CborValue :=
  let b := MapBuilder.new in
  let b := MapBuilder.put b 0 (Uint (proto_ver c)) in
  let b := MapBuilder.put b 1 (Bytes (suite_id c)) in
  let b := MapBuilder.put b 2 (Text (text_bytes (product_id c))) in
  let b := MapBuilder.put b 3 (Bytes (license_id c)) in
  let b := MapBuilder.put b 4 (ent.encode (entitlements c)) in
  let b := MapBuilder.put b 5 (CborValue.int (issued_at c)) in
  let b := MapBuilder.put b 6 (CborValue.int (not_after c)) in
  let b := MapBuilder.put_opt b 7 (option_map Bytes (bound_fingerprint c)) in
  let b := MapBuilder.put b 8 (Uint (max_seats c)) in
  let b := MapBuilder.put b 9 (Bytes (epoch_id c)) in
  let b := MapBuilder.put b 10 (Bytes (machine_id c)) in
  let b := MapBuilder.put b 11 (Bytes (offline_nonce c)) in
  let b := MapBuilder.put b 12 (Bytes (key_seed c)) in
  let b := MapBuilder.put b 13 (Text (text_bytes (build_fingerprint c))) in
  let b := MapBuilder.put b 14 (Uint (variant_id c)) in
  let b := MapBuilder.put b 15 (Uint (security_floor c)) in
  let b := MapBuilder.put b 16 (Uint (revocation_epoch c)) in
  let b := MapBuilder.put b 17 (field.enc_text_bytes_map (wrapped_keks c)) in
  MapBuilder.build b.

Definition from_value (v : CborValue) : result OfflineLicenseKey ProtoError :=
  proto_ver <-? field.u8_field v 0 ;;
  suite_id <-? field.suite_id v 1 ;;
  product_id <-? field.text v 2 ;;
  license_id <-? field.license_id v 3 ;;
  entitlements <-? required_entitlements v 4 ;;
  issued_at <-? field.int v 5 ;;
  not_after <-? field.int v 6 ;;
  bound_fingerprint <-? field.opt_bytes v 7 ;;
  max_seats <-? field.uint v 8 ;;
  epoch_id <-? field.epoch_id v 9 ;;
  machine_id <-? field.machine_id v 10 ;;
  offline_nonce <-? field.fixed 32 v 11 ;;
  key_seed <-? field.fixed 32 v 12 ;;
  build_fingerprint <-? field.text v 13 ;;
  variant_id <-? field.uint v 14 ;;
  security_floor <-? field.uint v 15 ;;
  revocation_epoch <-? field.uint v 16 ;;
  wrapped_keks <-? field.text_bytes_map v 17 ;;
  Ok (mk proto_ver suite_id product_id license_id entitlements issued_at not_after
        bound_fingerprint max_seats epoch_id machine_id offline_nonce key_seed build_fingerprint
        variant_id security_floor revocation_epoch wrapped_keks).

#[global] Instance OfflineLicenseKey_artifact : Artifact OfflineLicenseKey := {|
  KIND := ArtifactKind.OfflineLicenseKey; limits := CLIENT_LIMITS;
  Field.to_value := to_value; Field.from_value := from_value |}.

Record typed (c : OfflineLicenseKey) : Prop := {
  ty_proto : in_u8 (proto_ver c);
  ty_suite : length (suite_id c) = 4%nat;
  ty_license : length (license_id c) = 16%nat;
  ty_ent : ent.typed (entitlements c);
  ty_issued : in_i64 (issued_at c);
  ty_after : in_i64 (not_after c);
  ty_epoch : length (epoch_id c) = 8%nat;
  ty_machine : length (machine_id c) = 16%nat;
  ty_nonce : length (offline_nonce c) = 32%nat;
  ty_seed : length (key_seed c) = 32%nat;
}.

#[global] Instance OfflineLicenseKey_typed : WellTyped OfflineLicenseKey := typed.
#[global] Instance OfflineLicenseKey_laws : ArtifactLaws OfflineLicenseKey.
Proof.
  split.
  - by split; split.
  - intros c. by eexists.
  - intros c. change (leaf_keys (to_value c) = true). unfold to_value. leaf_fields.
  - intros c []. change (from_value (norm (to_value c)) = Ok c). unfold to_value, from_value.
    abstract_fields. read_fields Hget.
    eapply rbind_eq; [eapply required_entitlements_ok; [find_field Hget|done]|cbv beta].
    read_fields Hget. by destruct c.
Qed.
End OfflineLicenseKey.
Notation OfflineLicenseKey := OfflineLicenseKey.OfflineLicenseKey.

(** ** The build-time integrity manifest *)
Module IntegrityManifest.
Record IntegrityManifest := mk {
  proto_ver : Z;
  suite_id : list byte;
  product_id : string;
  build_fingerprint : string;
  built_at : Z;
  hash_alg : string;
  entries : gmap string (list byte);
  guarded : option (gmap string (list byte));
  sealed_assets : option (list string);
  root : list byte;
}.

Definition to_value (c : IntegrityManifest) : CborValue :=
  let b := MapBuilder.new in
  let b := MapBuilder.put b 0 (Uint (proto_ver c)) in
  let b := MapBuilder.put b 1 (Bytes (suite_id c)) in
  let b := MapBuilder.put b 2 (Text (text_bytes (product_id c))) in
  let b := MapBuilder.put b 3 (Text (text_bytes (build_fingerprint c))) in
  let b := MapBuilder.put b 4 (CborValue.int (built_at c)) in
  let b := MapBuilder.put b 5 (Text (text_bytes (hash_alg c))) in
  let b := MapBuilder.put b 6 (field.enc_text_bytes_map (entries c)) in
  let b := MapBuilder.put_opt b 7 (option_map field.enc_text_bytes_map (guarded c)) in
  let b := MapBuilder.put_opt b 8 (option_map ent.enc_texts (sealed_assets c)) in
  let b := MapBuilder.put b 9 (Bytes (root c)) in
  MapBuilder.build b.

Definition from_value (v : CborValue) : result IntegrityManifest ProtoError :=
  proto_ver <-? field.u8_field v 0 ;;
  suite_id <-? field.suite_id v 1 ;;
  product_id <-? field.text v 2 ;;
  build_fingerprint <-? field.text v 3 ;;
  built_at <-? field.int v 4 ;;
  hash_alg <-? field.text v 5 ;;
  entries <-? field.text_bytes_map v 6 ;;
  guarded <-? field.opt_text_bytes_map v 7 ;;
  sealed_assets <-? match field.opt v 8 with
    | None => Ok None
    | Some _ => a <-? field.text_array v 8 ;; Ok (Some a)
    end ;;
  root <-? field.bytes v 9 ;;
  Ok (mk proto_ver suite_id product_id build_fingerprint built_at hash_alg entries guarded
        sealed_assets root).

#[global] Instance IntegrityManifest_artifact : Artifact IntegrityManifest := {|
  KIND := ArtifactKind.IntegrityManifest; limits := BULK_LIMITS;
  Field.to_value := to_value; Field.from_value := from_value |}.

Record typed (c : IntegrityManifest) : Prop := {
  ty_proto : in_u8 (proto_ver c);
  ty_suite : length (suite_id c) = 4%nat;
  ty_built : in_i64 (built_at c);
}.

#[global] Instance IntegrityManifest_typed : WellTyped IntegrityManifest := typed.
#[global] Instance IntegrityManifest_laws : ArtifactLaws IntegrityManifest.
Proof.
  split.
  - by split; split.
  - intros c. by eexists.
  - intros c. change (leaf_keys (to_value c) = true). unfold to_value. leaf_fields.
  - intros c []. change (from_value (norm (to_value c)) = Ok c). unfold to_value, from_value.
    abstract_fields. read_fields Hget. apply (rbind_eq _ _ (sealed_assets c)).
    { rewrite (opt_norm _ 8 (option_map ent.enc_texts (sealed_assets c)) (Hget 8)) by
        (destruct (sealed_assets c); naive_solver).
      destruct (sealed_assets c) as [a|] eqn:Ha; simpl; [|reflexivity].
      rewrite (text_array_ok _ 8 a); [reflexivity|]. find_field Hget. }
    cbv beta. read_fields Hget. by destruct c.
Qed.
End IntegrityManifest.
Notation IntegrityManifest := IntegrityManifest.IntegrityManifest.

(** ** The response to an offline activation request *)
Module ActivationResponse.
Record ActivationResponse := mk {
  proto_ver : Z;
  suite_id : list byte;
  nonce_c_echo : list byte;
  credential : list byte;
  chain : list (list byte);
  server_time : Z;
  valid_until : Z;
}.

Definition to_value (c : ActivationResponse) : CborValue :=
  let b := MapBuilder.new in
  let b := MapBuilder.put b 0 (Uint (proto_ver c)) in
  let b := MapBuilder.put b 1 (Bytes (suite_id c)) in
  let b := MapBuilder.put b 2 (Bytes (nonce_c_echo c)) in
  let b := MapBuilder.put b 3 (Bytes (credential c)) in
  let b := MapBuilder.put b 4 (Array (map Bytes (chain c))) in
  let b := MapBuilder.put b 5 (CborValue.int (server_time c)) in
  let b := MapBuilder.put b 6 (CborValue.int (valid_until c)) in
  MapBuilder.build b.

Definition from_value (v : CborValue) : result ActivationResponse ProtoError :=
  r <-? field.req v 4 ;;
  chain_raw <-? ok_of_option (as_array r) (field.mismatch 4) ;;
  chain <-? traverse (fun c => ok_of_option (as_bytes c) (field.mismatch 4)) chain_raw ;;
  proto_ver <-? field.u8_field v 0 ;;
  suite_id <-? field.suite_id v 1 ;;
  nonce_c_echo <-? field.fixed 32 v 2 ;;
  credential <-? field.bytes v 3 ;;
  server_time <-? field.int v 5 ;;
  valid_until <-? field.int v 6 ;;
  Ok (mk proto_ver suite_id nonce_c_echo credential chain server_time valid_until).

#[global] Instance ActivationResponse_artifact : Artifact ActivationResponse := {|
  KIND := ArtifactKind.ActivationResponse; limits := BULK_LIMITS;
  Field.to_value := to_value; Field.from_value := from_value |}.

Record typed (c : ActivationResponse) : Prop := {
  ty_proto : in_u8 (proto_ver c);
  ty_suite : length (suite_id c) = 4%nat;
  ty_nonce : length (nonce_c_echo c) = 32%nat;
  ty_time : in_i64 (server_time c);
  ty_until : in_i64 (valid_until c);
}.

#[global] Instance ActivationResponse_typed : WellTyped ActivationResponse := typed.
#[global] Instance ActivationResponse_laws : ArtifactLaws ActivationResponse.
Proof.
  split.
  - by split; split.
  - intros c. by eexists.
  - intros c. change (leaf_keys (to_value c) = true). unfold to_value. leaf_fields.
  - intros c []. change (from_value (norm (to_value c)) = Ok c). unfold to_value, from_value.
    abstract_fields. unfold field.req. rewrite Hget. cbn [assoc Z.eqb Pos.eqb option_map ok_of_option rbind].
    cbn [norm as_array ok_of_option rbind]. rewrite map_map. cbn [norm].
    rewrite (traverse_map _ _ id), map_id by done. cbn [rbind]. read_fields Hget. by destruct c.
Qed.
End ActivationResponse.
Notation ActivationResponse := ActivationResponse.ActivationResponse.

(** ** The per-validation ticket (its record is in [Ticket]) *)
Module TicketCodec.
Import Ticket.ValidationTicket.

Definition to_value (c : ValidationTicket) : CborValue :=
  let b := MapBuilder.new in
  let b := MapBuilder.put b 0 (Uint (proto_ver c)) in
  let b := MapBuilder.put b 1 (Bytes (suite_id c)) in
  let b := MapBuilder.put b 2 (Bytes (machine_id c)) in
  let b := MapBuilder.put b 3 (Bytes (nonce_c_echo c)) in
  let b := MapBuilder.put b 4 (Bytes (server_nonce c)) in
  let b := MapBuilder.put b 5 (CborValue.int (server_time c)) in
  let b := MapBuilder.put b 6 (CborValue.int (next_refresh_after c)) in
  let b := MapBuilder.put b 7 (CborValue.int (not_after c)) in
  let b := MapBuilder.put b 8 (Uint (revocation_epoch c)) in
  let b := MapBuilder.put b 9 (Uint (Types.to_u8 (verdict c))) in
  let b := MapBuilder.put_opt b 10 (option_map ent.encode (entitlements c)) in
  let b := MapBuilder.put b 11 (Bytes (epoch_id c)) in
  let b := MapBuilder.put_opt b 12 (option_map Uint (suspicion_score c)) in
  let b := MapBuilder.put b 13 (Uint (security_floor c)) in
  let b := MapBuilder.put_opt b 14 (option_map Uint (release_status c)) in
  let b := MapBuilder.put_opt b 15 (option_map field.enc_text_bytes_map (wrapped_keks c)) in
  let b := MapBuilder.put_opt b 16 (option_map Bool (refresh_now c)) in
  MapBuilder.build b.

Definition from_value (v : CborValue) : result ValidationTicket ProtoError :=
  verdict_raw <-? field.u8_field v 9 ;;
  s <-? field.opt_uint v 12 ;;
  suspicion <-? field.narrow_opt u8_max 12 s ;;
  if match suspicion with Some s => 100 <? s | None => false end then
    Err (ProtoError.FieldOutOfRange 12)
  else
  proto_ver <-? field.u8_field v 0 ;;
  suite_id <-? field.suite_id v 1 ;;
  machine_id <-? field.machine_id v 2 ;;
  nonce_c_echo <-? field.fixed 32 v 3 ;;
  server_nonce <-? field.fixed 32 v 4 ;;
  server_time <-? field.int v 5 ;;
  next_refresh_after <-? field.int v 6 ;;
  not_after <-? field.int v 7 ;;
  revocation_epoch <-? field.uint v 8 ;;
  verdict <-? enum_field verdict_raw ;;
  entitlements <-? field.opt_with ent.decode v 10 ;;
  epoch_id <-? field.epoch_id v 11 ;;
  security_floor <-? field.uint v 13 ;;
  r <-? field.opt_uint v 14 ;;
  release_status <-? field.narrow_opt u8_max 14 r ;;
  wrapped_keks <-? field.opt_text_bytes_map v 15 ;;
  refresh_now <-? field.opt_with (fun b => ok_of_option (as_bool b) (field.mismatch 16)) v 16 ;;
  Ok (mk proto_ver suite_id machine_id nonce_c_echo server_nonce server_time next_refresh_after
        not_after revocation_epoch verdict entitlements epoch_id suspicion security_floor
        release_status wrapped_keks refresh_now).

#[global] Instance ValidationTicket_artifact : Artifact ValidationTicket := {|
  KIND := ArtifactKind.ValidationTicket; limits := CLIENT_LIMITS;
  Field.to_value := to_value; Field.from_value := from_value |}.

Record typed (c : ValidationTicket) : Prop := {
  ty_proto : in_u8 (proto_ver c);
  ty_suite : length (suite_id c) = 4%nat;
  ty_machine : length (machine_id c) = 16%nat;
  ty_nonce : length (nonce_c_echo c) = 32%nat;
  ty_server_nonce : length (server_nonce c) = 32%nat;
  ty_time : in_i64 (server_time c);
  ty_refresh : in_i64 (next_refresh_after c);
  ty_after : in_i64 (not_after c);
  ty_ent : forall e, entitlements c = Some e -> ent.typed e;
  ty_epoch : length (epoch_id c) = 8%nat;
  ty_score : forall n, suspicion_score c = Some n -> n <= 100;
  ty_status : forall n, release_status c = Some n -> in_u8 n;
}.

#[global] Instance ValidationTicket_typed : WellTyped ValidationTicket := typed.
#[global] Instance ValidationTicket_laws : ArtifactLaws ValidationTicket.
Proof.
  split.
  - by split; split.
  - intros c. by eexists.
  - intros c. change (leaf_keys (to_value c) = true). unfold to_value. leaf_fields.
  - intros c []. change (from_value (norm (to_value c)) = Ok c). unfold to_value, from_value.
    abstract_fields. read_fields Hget.
    eapply rbind_eq; [apply narrow_ok; intros n Hn; specialize (ty_score0 n Hn); int_lia|].
    assert (match suspicion_score c with Some s => 100 <? s | None => false end = false) as ->.
    { destruct (suspicion_score c) as [s|]; [|done]. apply Z.ltb_ge. auto. }
    read_fields Hget. eapply rbind_eq.
    { eapply (opt_with_ok _ _ ent.encode); [find_field Hget|].
      intros e He. split; [done|]. auto using ent.ent_decode_encode. }
    cbv beta. read_fields Hget.
    eapply rbind_eq; [apply narrow_ok; intros n Hn; apply (ty_status0 n Hn)|]. read_fields Hget.
    eapply rbind_eq; [eapply (opt_with_ok _ _ Bool); [find_field Hget|done]|]. by destruct c.
Qed.
End TicketCodec.

(** ** The durable per-device credential *)
Module MachineCredential.
Record MachineCredential := mk {
  proto_ver : Z;
  suite_id : list byte;
  product_id : string;
  license_id : LicenseId;
  machine_id : MachineId;
  fingerprint : Fingerprint;
  kem_ct : list byte;
  sealed_cs : list byte;
  offline_nonce : list byte;
  entitlements : Entitlements;
  issued_at : Z;
  not_after : Z;
  refresh_after : Z;
  grace_seconds : Z;
  mode : Mode;
  revocation_epoch : Z;
  epoch_id : EpochId;
  build_fingerprint : option string;
  policy_flags : option Z;
  security_floor : Z;
  variant_id : Z;
  wrapped_keks : gmap string (list byte);
  preloaded_keks : option (gmap Z (gmap string (list byte)));
}.

Definition window (c : MachineCredential) : TimeWindow :=
  TimeWindow.new (issued_at c) (not_after c).

Definition grace_deadline (c : MachineCredential) : Z :=
  let soft := sat_add_i64 (refresh_after c) (grace_seconds c) in
  if not_after c =? TimeWindow.UNLIMITED then soft else Z.min soft (not_after c).

(** Iteration of a [BTreeMap<u64, _>], in key order. *)
Definition u64_key_le {A} (x y : Z * A) : Prop := x.1 <= y.1.
#[global] Instance u64_key_le_dec {A} (x y : Z * A) : Decision (u64_key_le x y).
Proof. unfold u64_key_le. apply _. Defined.
Definition bt_iter_u64 {A} (m : gmap Z A) : list (Z * A) :=
  merge_sort u64_key_le (map_to_list m).

Definition enc_preloaded (m : gmap Z (gmap string (list byte))) : CborValue :=
  Map (map (fun kv => (Uint kv.1, field.enc_text_bytes_map kv.2)) (bt_iter_u64 m)).

Definition preloaded_entry (out : gmap Z (gmap string (list byte))) (kv : CborValue * CborValue)
    : result (gmap Z (gmap string (list byte))) ProtoError :=
  vid <-? ok_of_option (as_uint kv.1) (field.mismatch 22) ;;
  inner_entries <-? ok_of_option (as_map kv.2) (field.mismatch 22) ;;
  keks <-? try_fold (field.text_entry as_bytes 22) ∅ inner_entries ;;
  Ok (<[vid := keks]> out).

Definition dec_preloaded (m : CborValue) : result (gmap Z (gmap string (list byte))) ProtoError :=
  entries <-? ok_of_option (as_map m) (field.mismatch 22) ;;
  try_fold preloaded_entry ∅ entries.

Definition to_value (c : MachineCredential) : CborValue :=
  let b := MapBuilder.new in
  let b := MapBuilder.put b 0 (Uint (proto_ver c)) in
  let b := MapBuilder.put b 1 (Bytes (suite_id c)) in
  let b := MapBuilder.put b 2 (Text (text_bytes (product_id c))) in
  let b := MapBuilder.put b 3 (Bytes (license_id c)) in
  let b := MapBuilder.put b 4 (Bytes (machine_id c)) in
  let b := MapBuilder.put b 5 (Bytes (fingerprint c)) in
  let b := MapBuilder.put b 6 (Bytes (kem_ct c)) in
  let b := MapBuilder.put b 7 (Bytes (sealed_cs c)) in
  let b := MapBuilder.put b 8 (Bytes (offline_nonce c)) in
  let b := MapBuilder.put b 9 (ent.encode (entitlements c)) in
  let b := MapBuilder.put b 10 (CborValue.int (issued_at c)) in
  let b := MapBuilder.put b 11 (CborValue.int (not_after c)) in
  let b := MapBuilder.put b 12 (CborValue.int (refresh_after c)) in
  let b := MapBuilder.put b 13 (Uint (grace_seconds c)) in
  let b := MapBuilder.put b 14 (Uint (Types.to_u8 (mode c))) in
  let b := MapBuilder.put b 15 (Uint (revocation_epoch c)) in
  let b := MapBuilder.put b 16 (Bytes (epoch_id c)) in
  let b := MapBuilder.put_opt b 17
    (option_map (fun s => Text (text_bytes s)) (build_fingerprint c)) in
  let b := MapBuilder.put_opt b 18 (option_map Uint (policy_flags c)) in
  let b := MapBuilder.put b 19 (Uint (security_floor c)) in
  let b := MapBuilder.put b 20 (Uint (variant_id c)) in
  let b := MapBuilder.put b 21 (field.enc_text_bytes_map (wrapped_keks c)) in
  let b := MapBuilder.put_opt b 22 (option_map enc_preloaded (preloaded_keks c)) in
  MapBuilder.build b.

Definition from_value (v : CborValue) : result MachineCredential ProtoError :=
  mode_raw <-? field.u8_field v 14 ;;
  preloaded <-? field.opt_with dec_preloaded v 22 ;;
  proto_ver <-? field.u8_field v 0 ;;
  suite_id <-? field.suite_id v 1 ;;
  product_id <-? field.text v 2 ;;
  license_id <-? field.license_id v 3 ;;
  machine_id <-? field.machine_id v 4 ;;
  fingerprint <-? field.fingerprint v 5 ;;
  kem_ct <-? field.bytes v 6 ;;
  sealed_cs <-? field.bytes v 7 ;;
  offline_nonce <-? field.fixed 32 v 8 ;;
  entitlements <-? required_entitlements v 9 ;;
  issued_at <-? field.int v 10 ;;
  not_after <-? field.int v 11 ;;
  refresh_after <-? field.int v 12 ;;
  grace_seconds <-? field.u32_field v 13 ;;
  mode <-? enum_field mode_raw ;;
  revocation_epoch <-? field.uint v 15 ;;
  epoch_id <-? field.epoch_id v 16 ;;
  build_fingerprint <-? field.opt_text v 17 ;;
  policy_flags <-? field.opt_uint v 18 ;;
  security_floor <-? field.uint v 19 ;;
  variant_id <-? field.uint v 20 ;;
  wrapped_keks <-? field.text_bytes_map v 21 ;;
  Ok (mk proto_ver suite_id product_id license_id machine_id fingerprint kem_ct sealed_cs
        offline_nonce entitlements issued_at not_after refresh_after grace_seconds mode
        revocation_epoch epoch_id build_fingerprint policy_flags security_floor variant_id
        wrapped_keks preloaded).

#[global] Instance MachineCredential_artifact : Artifact MachineCredential := {|
  KIND := ArtifactKind.MachineCred; limits := BULK_LIMITS;
  Field.to_value := to_value; Field.from_value := from_value |}.

Record typed (c : MachineCredential) : Prop := {
  ty_proto : in_u8 (proto_ver c);
  ty_suite : length (suite_id c) = 4%nat;
  ty_license : length (license_id c) = 16%nat;
  ty_machine : length (machine_id c) = 16%nat;
  ty_nonce : length (offline_nonce c) = 32%nat;
  ty_ent : ent.typed (entitlements c);
  ty_issued : in_i64 (issued_at c);
  ty_after : in_i64 (not_after c);
  ty_refresh : in_i64 (refresh_after c);
  ty_grace : in_u32 (grace_seconds c);
  ty_epoch : length (epoch_id c) = 8%nat;
}.

Lemma leaf_preloaded m : leaf_keys (enc_preloaded m) = true.
Proof. apply leaf_uint_map, leaf_text_bytes_map. Qed.
#[local] Hint Resolve leaf_preloaded : leaf.

Lemma dec_preloaded_encode m : dec_preloaded (norm (enc_preloaded m)) = Ok m.
Proof.
  unfold dec_preloaded, enc_preloaded.
  destruct (map_fold_perm Uint field.enc_text_bytes_map preloaded_entry m (bt_iter_u64 m))
    as (es & -> & Hf); [apply merge_sort_Permutation| |exact Hf].
  intros acc vid keks _ _. destruct (text_map_fold 22 Bytes as_bytes keks) as (es & Hn & Hf); [done|].
  change (norm (field.enc_text_bytes_map keks) = Map es) in Hn.
  unfold preloaded_entry. cbn [fst snd]. rewrite Hn. cbn [norm as_uint as_map ok_of_option rbind].
  by rewrite Hf.
Qed.

#[global] Instance MachineCredential_typed : WellTyped MachineCredential := typed.
#[global] Instance MachineCredential_laws : ArtifactLaws MachineCredential.
Proof.
  split.
  - by split; split.
  - intros c. by eexists.
  - intros c. change (leaf_keys (to_value c) = true). unfold to_value. leaf_fields.
  - intros c []. change (from_value (norm (to_value c)) = Ok c). unfold to_value, from_value.
    abstract_fields. read_fields Hget. eapply rbind_eq.
    { eapply (opt_with_ok _ _ enc_preloaded); [find_field Hget|].
      intros m _. split; [done|]. apply dec_preloaded_encode. }
    cbv beta. read_fields Hget.
    eapply rbind_eq; [eapply required_entitlements_ok; [find_field Hget|done]|cbv beta].
    read_fields Hget. by destruct c.
Qed.
End MachineCredential.
Notation MachineCredential := MachineCredential.MachineCredential.

(** ** Every artifact survives the wire *)

Definition roundtrips (A : Type) `{Artifact A} `{WellTyped A} : Prop :=
  forall a : A, typed a -> fits a ->
    Field.decode (Field.encode a) = Ok a /\ Field.from_canonical (Field.encode a) = Ok a /\
    (forall b : A, typed b -> fits b -> Field.encode a = Field.encode b -> a = b).

Lemma laws_roundtrip `{ArtifactLaws A} : roundtrips A.
Proof.
  intros a Ha Hf. split_and!; [by apply artifact_decode_encode|by apply from_canonical_encode|].
  intros b Hb Hfb Heq. pose proof (artifact_decode_encode a Ha Hf) as Hd.
  rewrite Heq, artifact_decode_encode in Hd by done. by injection Hd.
Qed.

(** C35 Each of the eight signed artifacts decodes from its own bytes to itself, on both decoding
    paths, for all field values the Rust types allow and the decoder's limits admit (optional
    fields present or absent, maps in any insertion order); so no two artifacts of a kind share
    their signed bytes. *)
Theorem artifacts_roundtrip :
  roundtrips EpochCert /\ roundtrips MachineCredential /\ roundtrips ValidationTicket /\
  roundtrips KillOrder /\ roundtrips RevocationBatch /\ roundtrips OfflineLicenseKey /\
  roundtrips IntegrityManifest /\ roundtrips ActivationResponse.
Proof. split_and!; apply laws_roundtrip. Qed.

Definition demo_entitlements : Entitlements :=
  Entitlements.mk {["export.pdf"]} {["max_projects" := 100]} "pro" "Pro" 3
    (Some VersionScope.Unlimited) None.
Definition demo_credential : MachineCredential :=
  MachineCredential.mk 1 [1; 0; 0; 1] "acme" (repeat 3 16) (repeat 4 16) [1; 2; 3] [9] [8]
    (repeat 6 32) demo_entitlements 1000 0 2000 86400 Mode.OfflineHybrid 7 (repeat 1 8) None
    (Some 5) 2 11 {["export.pdf" := [1; 2]]} (Some {[12 := {["export.pdf" := [3]]}]}).

Lemma artifacts_roundtrip_witness :
  Field.decode (Field.encode demo_credential) = Ok demo_credential.
Proof.
  destruct artifacts_roundtrip as (_ & Hmc & _). apply Hmc.
  - change (MachineCredential.typed demo_credential).
    split; try reflexivity; try (split; discriminate).
    split; try (split; discriminate); try discriminate.
    change (map_Forall (fun _ n => in_i64 n) ({["max_projects" := 100]} : gmap string Z)).
    apply map_Forall_singleton. split; discriminate.
  - apply within_by_decoding.
    + apply (bool_decide_unpack (Forall _ _)). vm_compute. reflexivity.
    + vm_compute. reflexivity.
Defined.
