(* ===== verification/Chain.v ===== *)
(** * Envelopes and the certificate chain

    The domain context of a signature ([crates/copylocker-suite/src/domain.rs]), the signature
    envelope ([crates/copylocker-proto/src/envelope.rs]), the root-epoch-artifact chain
    ([crates/copylocker-proto/src/chain.rs]) and the client's trust anchors
    ([crates/copylocker-client/src/trust.rs]).  The signature and hash schemes are interfaces of
    the suite, implemented with third-party primitives: the definitions take them as arguments,
    and [SignatureLaws] states the correctness of a scheme where a theorem needs it. *)

From S2P Require Import Prelude Types Errors Cbor Field Artifacts.
Import CborValue.

(** ** Domain separation *)
Module DomainCtx.
Record DomainCtx := new { kind : ArtifactKind; suite_id : list byte; product_id : string }.

Definition DOMAIN_PREFIX : list byte := text_bytes "copylocker/v1/".

Definition encoded_len (c : DomainCtx) : nat :=
  length DOMAIN_PREFIX + length (text_bytes (ArtifactKind.ctx_name (kind c))) + 1 + SuiteId.LEN +
  length (text_bytes (product_id c)).

Definition to_bytes (c : DomainCtx) : list byte :=
  DOMAIN_PREFIX ++ text_bytes (ArtifactKind.ctx_name (kind c)) ++ [0] ++ suite_id c ++
  text_bytes (product_id c).
End DomainCtx.
Notation DomainCtx := DomainCtx.DomainCtx.

(** ** The slots of a suite *)

(** The trait [SignatureScheme], the operations the protocol layer calls. *)
Class SignatureScheme := {
  SigningKey : Type;
  VerifyingKey : Type;
  verifying_key : SigningKey -> VerifyingKey;
  sign : SigningKey -> DomainCtx -> list byte -> result (list byte) CryptoError;
  verify : VerifyingKey -> DomainCtx -> list byte -> list byte -> result unit CryptoError;
  encode_vk : VerifyingKey -> list byte;
  decode_vk : list byte -> result VerifyingKey CryptoError;
}.

(** What a signature scheme documents: what a key signs, its verifying key accepts. *)
Class SignatureLaws (S : SignatureScheme) : Prop := {
  verify_sign : forall sk ctx m s, sign sk ctx m = Ok s -> verify (verifying_key sk) ctx m s = Ok tt;
}.

(** The trait [HashScheme]. *)
Class HashScheme := { hash : list byte -> Digest }.

Definition codec_err {A} (m : result A CodecError) : result A ProtoError := map_err ProtoError.Codec m.
Definition crypto_err {A} (m : result A CryptoError) : result A ProtoError :=
  map_err ProtoError.Crypto m.

(** ** The signature envelope *)
Module Envelope.
Record Envelope := mk {
  proto_ver : Z;
  suite_id : list byte;
  kind : ArtifactKind;
  tbs : list byte;
  sig_ : list byte;
  epoch_ref : option EpochId;
}.

Definition seal `{S : SignatureScheme} `{Artifact A} (artifact : A) (suite_id : list byte)
    (product_id : string) (epoch_ref : option EpochId) (sk : SigningKey)
    : result Envelope ProtoError :=
  tbs <-? codec_err (Field.to_canonical artifact) ;;
  let ctx := DomainCtx.new (KIND (A := A)) suite_id product_id in
  s <-? crypto_err (sign sk ctx tbs) ;;
  Ok (mk PROTO_VER suite_id (KIND (A := A)) tbs s epoch_ref).

Definition open `{S : SignatureScheme} (A : Type) `{Artifact A} (e : Envelope)
    (product_id : string) (vk : VerifyingKey) : result A ProtoError :=
  if negb (proto_ver e =? PROTO_VER) then Err (ProtoError.UnsupportedProtoVersion (proto_ver e))
  else if negb (bool_decide (kind e = KIND (A := A))) then Err ProtoError.ArtifactKindMismatch
  else
    let ctx := DomainCtx.new (KIND (A := A)) (suite_id e) product_id in
    check? crypto_err (verify vk ctx (tbs e) (sig_ e)) ;;
    codec_err (Field.from_canonical (tbs e)).

Definition peek_unverified (A : Type) `{Artifact A} (e : Envelope) : result A ProtoError :=
  if negb (bool_decide (kind e = KIND (A := A))) then Err ProtoError.ArtifactKindMismatch
  else codec_err (Field.from_canonical (tbs e)).

Definition to_value (e : Envelope) : CborValue :=
  let b := MapBuilder.new in
  let b := MapBuilder.put b 0 (Uint (proto_ver e)) in
  let b := MapBuilder.put b 1 (Bytes (suite_id e)) in
  let b := MapBuilder.put b 2 (Uint (Types.to_u8 (kind e))) in
  let b := MapBuilder.put b 3 (Bytes (tbs e)) in
  let b := MapBuilder.put b 4 (Bytes (sig_ e)) in
  let b := MapBuilder.put_opt b 5 (option_map Bytes (epoch_ref e)) in
  MapBuilder.build b.

Definition encode (e : Envelope) : list byte := CborValue.to_canonical (to_value e).

Definition decode (bytes : list byte) : result Envelope ProtoError :=
  v <-? codec_err (Parser.decode_canonical bytes BULK_LIMITS) ;;
  match as_map v with
  | None => Err (ProtoError.Codec CodecError.Malformed)
  | Some _ =>
  kind_raw <-? field.u8_field v 2 ;;
  proto_ver <-? field.u8_field v 0 ;;
  suite_id <-? field.suite_id v 1 ;;
  kind <-? enum_field kind_raw ;;
  tbs <-? field.bytes v 3 ;;
  sig_ <-? field.bytes v 4 ;;
  epoch_ref <-? match field.opt v 5 with
    | None => Ok None
    | Some _ => e <-? field.fixed 8 v 5 ;; Ok (Some e)
    end ;;
  Ok (mk proto_ver suite_id kind tbs sig_ epoch_ref)
  end.
End Envelope.
Notation Envelope := Envelope.Envelope.

(** ** Pinned roots, revocation knowledge and the chain *)
Module PinnedRoots.
Record PinnedRoots := mk { current : Digest; next : option Digest }.
Definition single (current : Digest) : PinnedRoots := mk current None.
Definition with_next (current next : Digest) : PinnedRoots := mk current (Some next).
Definition accepts (r : PinnedRoots) (d : Digest) : bool :=
  bool_decide (current r = d) || bool_decide (next r = Some d).
End PinnedRoots.
Notation PinnedRoots := PinnedRoots.PinnedRoots.

Module RevocationState.
Record RevocationState := mk { epoch : Z; revoked_epochs : list EpochId }.
Definition default_ : RevocationState := mk 0 [].

Definition is_epoch_revoked (r : RevocationState) (id : EpochId) : bool :=
  bool_decide (id ∈ revoked_epochs r).

(** One iteration of [advance]'s loop. *)
Definition push_new (l : list EpochId) (e : EpochId) : list EpochId :=
  if bool_decide (e ∈ l) then l else l ++ [e].

Definition advance (r : RevocationState) (to_epoch : Z) (revoked : list EpochId)
    : RevocationState * result unit ProtoError :=
  if to_epoch <? epoch r then (r, Err ProtoError.MonotonicityViolation)
  else (mk to_epoch (fold_left push_new revoked (revoked_epochs r)), Ok tt).
End RevocationState.
Notation RevocationState := RevocationState.RevocationState.

Module VerifiedChain.
Section Chain.
Context `{S : SignatureScheme} `{H : HashScheme}.

Record VerifiedEpoch := mkEpoch { cert : EpochCert; vk : VerifyingKey }.
Record VerifiedChain := mk {
  roots : PinnedRoots;
  epochs : list VerifiedEpoch;
  revocation : RevocationState;
}.

Definition new (roots : PinnedRoots) : VerifiedChain := mk roots [] RevocationState.default_.

(** [revocation_mut().advance(..)]. *)
Definition advance_revocation (c : VerifiedChain) (to_epoch : Z) (revoked : list EpochId)
    : VerifiedChain * result unit ProtoError :=
  let (r, res) := RevocationState.advance (revocation c) to_epoch revoked in
  (mk (roots c) (epochs c) r, res).

(** [add_epoch] up to the update of the chain. *)
Definition check_epoch (c : VerifiedChain) (env : Envelope) (product_id : string)
    (root_vk : VerifyingKey) (now : Z) : result VerifiedEpoch ProtoError :=
  cert <-? Envelope.peek_unverified EpochCert env ;;
  if negb (PinnedRoots.accepts (roots c) (EpochCert.issuer_vk_digest cert)) then
    Err ProtoError.RootPinMismatch
  else if negb (bool_decide (hash (encode_vk root_vk) = EpochCert.issuer_vk_digest cert)) then
    Err ProtoError.RootPinMismatch
  else
    let ctx := DomainCtx.new ArtifactKind.EpochCert (EpochCert.suite_id cert) product_id in
    check? crypto_err (verify root_vk ctx (Envelope.tbs env) (Envelope.sig_ env)) ;;
    if negb (TimeWindow.contains (EpochCert.window cert) now) then
      Err ProtoError.OutsideValidityWindow
    else if RevocationState.is_epoch_revoked (revocation c) (EpochCert.epoch_id cert) then
      Err ProtoError.EpochRevoked
    else
      vk <-? crypto_err (decode_vk (EpochCert.vk cert)) ;; Ok (mkEpoch cert vk).

Definition add_epoch (c : VerifiedChain) (env : Envelope) (product_id : string)
    (root_vk : VerifyingKey) (now : Z) : VerifiedChain * result unit ProtoError :=
  match check_epoch c env product_id root_vk now with
  | Err e => (c, Err e)
  | Ok e =>
      let kept := List.filter (fun x =>
        negb (bool_decide (EpochCert.epoch_id (cert x) = EpochCert.epoch_id (cert e)))) (epochs c) in
      (mk (roots c) (kept ++ [e]) (revocation c), Ok tt)
  end.

Definition epoch (c : VerifiedChain) (id : EpochId) : option VerifiedEpoch :=
  find_first (fun e => bool_decide (EpochCert.epoch_id (cert e) = id)) (epochs c).

(** The part [verify_artifact] and [verify_artifact_fast] share: the epoch that signed. *)
Definition signing_epoch (c : VerifiedChain) (env : Envelope) (now : Z)
    : result VerifiedEpoch ProtoError :=
  epoch_id <-? ok_of_option (Envelope.epoch_ref env) ProtoError.UnknownEpoch ;;
  e <-? ok_of_option (epoch c epoch_id) ProtoError.UnknownEpoch ;;
  if RevocationState.is_epoch_revoked (revocation c) epoch_id then Err ProtoError.EpochRevoked
  else if negb (TimeWindow.contains (EpochCert.window (cert e)) now) then
    Err ProtoError.OutsideValidityWindow
  else Ok e.

Definition verify_artifact (A : Type) `{Artifact A} (c : VerifiedChain) (env : Envelope)
    (product_id : string) (now : Z) : result A ProtoError :=
  e <-? signing_epoch c env now ;; Envelope.open A env product_id (vk e).

Definition verify_artifact_fast (F : SignatureScheme) (A : Type) `{Artifact A} (c : VerifiedChain)
    (env : Envelope) (product_id : string) (now : Z) : result A ProtoError :=
  e <-? signing_epoch c env now ;;
  vk <-? map_err (fun _ => ProtoError.Crypto CryptoError.Invalid)
    (decode_vk (SignatureScheme := F) (EpochCert.vk_fast (cert e))) ;;
  Envelope.open (S := F) A env product_id vk.
End Chain.
End VerifiedChain.

(** ** The client's trust anchors *)

(** The server's keyset ([crates/copylocker-proto/src/responses.rs]). *)
Module Keyset.
Record Keyset := mk {
  proto_ver : Z;
  epoch_certificates : list (list byte);
  revocation_epoch : Z;
}.
End Keyset.
Notation Keyset := Keyset.Keyset.

Module TrustAnchors.
Import VerifiedChain.
Section Anchors.
Context `{S : SignatureScheme} `{H : HashScheme}.
(** [S::SUITE_ID] of the client's suite. *)
Context (SUITE_ID : list byte).

Record RootVerifier := mkRoot { digest : Digest; key : VerifyingKey }.
Record TrustAnchors := mk {
  current : RootVerifier;
  next : option RootVerifier;
  pins : PinnedRoots;
}.

Definition decode_root (encoded : list byte) : result RootVerifier FatalError :=
  key <-? map_err (fun _ => FatalError.ChainInvalid) (decode_vk encoded) ;;
  Ok (mkRoot (hash encoded) key).

Definition decode (current : list byte) (next : option (list byte))
    : result TrustAnchors FatalError :=
  current <-? decode_root current ;;
  next <-? match next with
    | None => Ok None
    | Some n => r <-? decode_root n ;; Ok (Some r)
    end ;;
  let pins := match next with
    | Some successor => PinnedRoots.with_next (digest current) (digest successor)
    | None => PinnedRoots.single (digest current)
    end in
  Ok (mk current next pins).

Definition root_for (t : TrustAnchors) (d : Digest) : option VerifyingKey :=
  if bool_decide (digest (current t) = d) then Some (key (current t))
  else match next t with
  | Some n => if bool_decide (digest n = d) then Some (key n) else None
  | None => None
  end.

Definition fatal {A} (m : result A ProtoError) : result A FatalError :=
  map_err FatalError.from_proto m.

(** The [CredentialCorrupt] guard of [verify_keyset]'s loop. *)
Definition corrupt (env : Envelope) (cert : EpochCert) : bool :=
  negb (Envelope.proto_ver env =? PROTO_VER)
  || negb (bool_decide (Envelope.suite_id env = SUITE_ID))
  || bool_decide (is_Some (Envelope.epoch_ref env))
  || negb (EpochCert.proto_ver cert =? PROTO_VER)
  || negb (bool_decide (EpochCert.suite_id cert = SUITE_ID))
  || (EpochCert.not_after cert <=? EpochCert.not_before cert).

(** One iteration of the loop over the certificates. *)
Definition add_certificate (t : TrustAnchors) (product_id : string) (now : Z)
    (chain : VerifiedChain) (encoded : list byte) : result VerifiedChain FatalError :=
  envelope <-? fatal (Envelope.decode encoded) ;;
  certificate <-? fatal (Envelope.peek_unverified EpochCert envelope) ;;
  if negb (bool_decide (EpochCert.product_scope certificate = Some product_id)) then Ok chain
  else if corrupt envelope certificate then Err FatalError.CredentialCorrupt
  else if negb (TimeWindow.contains (EpochCert.window certificate) now) then Ok chain
  else
    root <-? ok_of_option (root_for t (EpochCert.issuer_vk_digest certificate))
      FatalError.ChainInvalid ;;
    let (chain, r) := add_epoch chain envelope product_id root now in
    check? fatal r ;; Ok chain.

Definition verify_keyset (t : TrustAnchors) (keyset : Keyset) (product_id : string) (now : Z)
    (known_revocation_epoch : Z) (revoked_epochs : list EpochId)
    : result VerifiedChain FatalError :=
  if negb (Keyset.proto_ver keyset =? PROTO_VER) then Err FatalError.CredentialCorrupt
  else if Keyset.revocation_epoch keyset <? known_revocation_epoch then
    Err FatalError.RevocationRollback
  else
    let chain := VerifiedChain.new (pins t) in
    let (chain, r) := advance_revocation chain known_revocation_epoch revoked_epochs in
    check? fatal r ;;
    try_fold (add_certificate t product_id now) chain (Keyset.epoch_certificates keyset).
End Anchors.
End TrustAnchors.

(** ** Domain separation is injective *)

Lemma text_bytes_app s t : text_bytes (String.append s t) = text_bytes s ++ text_bytes t.
Proof. induction s as [|a s IH]; [done|]. unfold text_bytes in *. simpl. by rewrite IH. Qed.

(** No artifact name contains the separator. *)
Lemma ctx_name_no_zero k : 0 ∉ text_bytes (ArtifactKind.ctx_name k).
Proof. apply (bool_decide_unpack (0 ∉ _)). by destruct k. Qed.

Lemma split_at_separator (a b x y : list byte) :
  0 ∉ a -> 0 ∉ b -> a ++ 0 :: x = b ++ 0 :: y -> a = b /\ x = y.
Proof.
  revert b. induction a as [|p a IH]; intros [|q b] Ha Hb Heq; simplify_eq/=; [done|set_solver|set_solver|].
  destruct (IH b) as [-> ->]; [set_solver|set_solver|done|done].
Qed.

Lemma domain_ctx_inj (c d : DomainCtx) :
  length (DomainCtx.suite_id c) = SuiteId.LEN -> length (DomainCtx.suite_id d) = SuiteId.LEN ->
  DomainCtx.to_bytes c = DomainCtx.to_bytes d -> c = d.
Proof.
  intros Hc Hd Heq. unfold DomainCtx.to_bytes in Heq. apply app_inv_head in Heq.
  apply split_at_separator in Heq as [Hk Hs]; [|apply ctx_name_no_zero..].
  apply app_inj_1 in Hs as [Hs Hp]; [|congruence].
  apply text_bytes_inj in Hk, Hp. apply ctx_name_inj in Hk. destruct c, d; simpl in *. congruence.
Qed.

(** The bytes a signature covers besides the body determine the artifact kind, the suite and
    the product, and have the announced length: a signature made for one context is never a
    signature for another. *)
Theorem domain_context_injective (c d : DomainCtx)
    (Hc : length (DomainCtx.suite_id c) = SuiteId.LEN) (Hd : length (DomainCtx.suite_id d) = SuiteId.LEN)
    (Heq : DomainCtx.to_bytes c = DomainCtx.to_bytes d) :
  c = d /\ length (DomainCtx.to_bytes c) = DomainCtx.encoded_len c.
Proof.
  split; [by apply domain_ctx_inj|].
  unfold DomainCtx.to_bytes, DomainCtx.encoded_len. rewrite !length_app, Hc. cbn [length]. lia.
Qed.

Lemma domain_context_injective_witness :
  DomainCtx.to_bytes (DomainCtx.new ArtifactKind.KillOrder [1; 0; 0; 1] "acme") <>
  DomainCtx.to_bytes (DomainCtx.new ArtifactKind.MachineCred [1; 0; 0; 1] "acme").
Proof.
  intros Heq. destruct (domain_context_injective
    (DomainCtx.new ArtifactKind.KillOrder [1; 0; 0; 1] "acme")
    (DomainCtx.new ArtifactKind.MachineCred [1; 0; 0; 1] "acme") eq_refl eq_refl Heq) as [E _].
  discriminate E.
Defined.

(** ** Envelopes *)

Record envelope_typed (e : Envelope) : Prop := {
  ty_proto : in_u8 (Envelope.proto_ver e);
  ty_suite : length (Envelope.suite_id e) = 4%nat;
  ty_tbs : Z.of_nat (length (Envelope.tbs e)) <= Limits.max_string BULK_LIMITS;
  ty_sig : Z.of_nat (length (Envelope.sig_ e)) <= Limits.max_string BULK_LIMITS;
  ty_epoch : forall id, Envelope.epoch_ref e = Some id -> length id = 8%nat;
}.

Lemma short_string (b : list byte) (n : Z) :
  Z.of_nat (length b) = n -> n <=? 100 = true ->
  Z.of_nat (length b) <= Limits.max_string BULK_LIMITS.
Proof. intros -> Hn%Z.leb_le. change (Limits.max_string BULK_LIMITS) with 1048576. lia. Qed.

Lemma envelope_within e :
  envelope_typed e -> within BULK_LIMITS (Parser.depth_budget BULK_LIMITS) (Envelope.to_value e).
Proof.
  intros [Hp Hs Ht Hg He]. pose proof (to_u8_range (Envelope.kind e)) as Hk.
  change (Parser.depth_budget BULK_LIMITS) with 17%nat. unfold Envelope.to_value. as_fields.
  apply within_fields; [done|by apply keys_NoDup|].
  repeat apply List.Forall_cons; try apply List.Forall_nil.
  all: split; [by split|].
  all: intros v Hv; cbn [snd] in Hv.
  1-5: injection Hv as <-.
  - change (in_u64 (Envelope.proto_ver e)). unfold in_u8, in_u64, u8_max, u64_max in *. lia.
  - apply (short_string _ 4); [by rewrite Hs|done].
  - change (in_u64 (Types.to_u8 (Envelope.kind e))). unfold in_u8, in_u64, u8_max, u64_max in *. lia.
  - exact Ht.
  - exact Hg.
  - destruct (Envelope.epoch_ref e) as [id|] eqn:E; [|discriminate Hv]. injection Hv as <-.
    apply (short_string _ 8); [by rewrite (He id)|done].
Qed.

Lemma envelope_leaf e : leaf_keys (Envelope.to_value e) = true.
Proof. unfold Envelope.to_value. leaf_fields. Qed.

(** An envelope survives the wire: what is encoded decodes to itself, whatever the kind, the
    body and the signature (both within the 1 MiB string limit), with or without an epoch
    reference. *)
Theorem envelope_roundtrip (e : Envelope) (He : envelope_typed e) :
  Envelope.decode (Envelope.encode e) = Ok e.
Proof.
  unfold Envelope.decode, Envelope.encode, codec_err.
  rewrite decode_to_canonical by (apply envelope_leaf || by apply envelope_within || by split; split).
  cbn [map_err rbind].
  assert (Hm : exists m, as_map (norm (Envelope.to_value e)) = Some m) by by eexists.
  destruct Hm as [m ->]. destruct He. unfold Envelope.to_value. abstract_fields. read_fields Hget.
  apply (rbind_eq _ _ (Envelope.epoch_ref e)); [|by destruct e].
  rewrite (opt_norm _ 5 (option_map Bytes (Envelope.epoch_ref e)) (Hget 5))
    by (destruct (Envelope.epoch_ref e); naive_solver).
  destruct (Envelope.epoch_ref e) as [id|] eqn:E; simpl; [|done].
  erewrite fixed_ok; [reflexivity|find_field Hget|auto].
Qed.

Definition demo_envelope : Envelope :=
  Envelope.mk 1 [1; 0; 0; 1] ArtifactKind.KillOrder [160] [7; 7] (Some [1; 2; 3; 4; 5; 6; 7; 8]).

Lemma envelope_roundtrip_witness :
  Envelope.decode (Envelope.encode demo_envelope) = Ok demo_envelope /\
  Envelope.encode demo_envelope = [166; 0; 1; 1; 68; 1; 0; 0; 1; 2; 4; 3; 65; 160; 4; 66; 7; 7; 5;
    72; 1; 2; 3; 4; 5; 6; 7; 8].
Proof.
  split; [|reflexivity]. apply (envelope_roundtrip demo_envelope).
  split; try reflexivity; try (split; discriminate); try discriminate.
  simpl. intros id Hid. injection Hid as <-. reflexivity.
Defined.

(** Sealing and opening, for any artifact and any signature scheme that verifies its own
    signatures: an envelope opens under the sealing key's verifying key and the same product to
    exactly the artifact that was sealed; it never opens as an artifact of another kind, nor
    once its protocol version has changed, whatever key is used. *)
Theorem seal_open_roundtrip `{S : SignatureScheme} (HS : SignatureLaws S) `{ArtifactLaws A}
    (a : A) suite product eref sk env
    (Ha : typed a) (Hf : fits a) (Hseal : Envelope.seal a suite product eref sk = Ok env) :
  Envelope.open A env product (verifying_key sk) = Ok a /\
  Envelope.peek_unverified A env = Ok a /\
  (forall B (HB : Artifact B) vk p, KIND (A := B) <> KIND (A := A) ->
     Envelope.open B env p vk = Err ProtoError.ArtifactKindMismatch) /\
  (forall pv vk p, pv <> PROTO_VER ->
     Envelope.open A (Envelope.mk pv (Envelope.suite_id env) (Envelope.kind env)
       (Envelope.tbs env) (Envelope.sig_ env) (Envelope.epoch_ref env)) p vk =
     Err (ProtoError.UnsupportedProtoVersion pv)).
Proof.
  unfold Envelope.seal in Hseal. apply rbind_ok in Hseal as (tbs & Htbs & Hseal).
  injection Htbs as <-. apply rbind_ok in Hseal as (s & Hs & Hseal). injection Hseal as <-.
  unfold crypto_err in Hs. destruct (sign _ _ _) as [s'|] eqn:Hsign; [|done]. injection Hs as ->.
  pose proof (from_canonical_encode a Ha Hf) as Hdec.
  unfold Envelope.open, Envelope.peek_unverified, codec_err. fold (encode a) in *.
  cbn [Envelope.proto_ver Envelope.suite_id Envelope.kind Envelope.tbs Envelope.sig_].
  split_and!.
  - rewrite bool_decide_eq_true_2 by done. cbn [negb Z.eqb PROTO_VER Pos.eqb].
    by rewrite (verify_sign _ _ _ _ Hsign), Hdec.
  - rewrite bool_decide_eq_true_2 by done. by rewrite Hdec.
  - intros B HB vk p Hne. by rewrite bool_decide_eq_false_2 by congruence.
  - intros pv vk p Hne. by rewrite (proj2 (Z.eqb_neq _ _)).
Qed.

(** A concrete scheme: the signature spells out what it covers. *)
#[local] Instance demo_scheme : SignatureScheme := {|
  SigningKey := list byte;
  VerifyingKey := list byte;
  verifying_key sk := sk;
  sign sk ctx m := Ok (sk ++ DomainCtx.to_bytes ctx ++ m);
  verify vk ctx m s :=
    if bool_decide (s = vk ++ DomainCtx.to_bytes ctx ++ m) then Ok tt else Err CryptoError.Invalid;
  encode_vk vk := vk;
  decode_vk b := Ok b;
|}.

Lemma demo_scheme_laws : SignatureLaws demo_scheme.
Proof. split. intros sk ctx m s [= <-]. simpl. by rewrite bool_decide_eq_true_2. Qed.

Definition demo_kill_order : KillOrder :=
  KillOrder.mk 1 [1; 0; 0; 1] (repeat 9 16) (repeat 5 32) 1000 KillReason.Fraud (Some "bye") 3.

Lemma demo_kill_order_typed : typed demo_kill_order.
Proof. change (KillOrder.typed demo_kill_order). split; try reflexivity; by split. Qed.

Lemma demo_kill_order_fits : fits demo_kill_order.
Proof.
  apply within_by_decoding.
  - apply (bool_decide_unpack (Forall _ _)). by vm_compute.
  - by vm_compute.
Qed.

Definition demo_sealed : Envelope :=
  match Envelope.seal demo_kill_order [1; 0; 0; 1] "acme" None [42] with
  | Ok e => e
  | Err _ => demo_envelope
  end.

Lemma seal_open_roundtrip_witness :
  Envelope.open KillOrder demo_sealed "acme" [42] = Ok demo_kill_order /\
  Envelope.open KillOrder demo_sealed "other" [42] = Err (ProtoError.Crypto CryptoError.Invalid).
Proof.
  split; [|by vm_compute].
  apply (seal_open_roundtrip demo_scheme_laws demo_kill_order [1; 0; 0; 1] "acme" None [42]);
    [exact demo_kill_order_typed|exact demo_kill_order_fits|by vm_compute].
Defined.

Lemma open_ok `{S : SignatureScheme} `{Artifact A} (e : Envelope) product vk (a : A) :
  Envelope.open A e product vk = Ok a <->
  Envelope.proto_ver e = PROTO_VER /\ Envelope.kind e = KIND (A := A) /\
  verify vk (DomainCtx.new (KIND (A := A)) (Envelope.suite_id e) product) (Envelope.tbs e)
    (Envelope.sig_ e) = Ok tt /\
  Field.from_canonical (Envelope.tbs e) = Ok a.
Proof.
  unfold Envelope.open, crypto_err, codec_err.
  destruct (Z.eqb_spec (Envelope.proto_ver e) PROTO_VER); [|naive_solver].
  case_bool_decide; [|naive_solver]. cbn [negb].
  destruct (verify _ _ _ _) as [[]|]; [|naive_solver]. cbn [map_err rbind].
  destruct (Field.from_canonical _); naive_solver.
Qed.

(** ** The chain *)

Section ChainProperties.
Context `{S : SignatureScheme} `{H : HashScheme}.
Import VerifiedChain.

(** An epoch is certified by pinned roots when some root key whose digest is pinned signed the
    certificate for some product, and the epoch's key is the certified one. *)
Definition certified (roots : PinnedRoots) (e : VerifiedEpoch) : Prop :=
  exists env product root_vk,
    Envelope.peek_unverified EpochCert env = Ok (cert e) /\
    PinnedRoots.accepts roots (hash (encode_vk root_vk)) = true /\
    hash (encode_vk root_vk) = EpochCert.issuer_vk_digest (cert e) /\
    verify root_vk (DomainCtx.new ArtifactKind.EpochCert (EpochCert.suite_id (cert e)) product)
      (Envelope.tbs env) (Envelope.sig_ env) = Ok tt /\
    decode_vk (EpochCert.vk (cert e)) = Ok (vk e).

(** The operations a holder of the chain can perform. *)
Inductive chain_op :=
| AddEpoch (env : Envelope) (product : string) (root_vk : VerifyingKey) (now : Z)
| Advance (to_epoch : Z) (revoked : list EpochId).

Definition chain_step (c : VerifiedChain) (op : chain_op) : VerifiedChain :=
  match op with
  | AddEpoch env product root_vk now => (add_epoch c env product root_vk now).1
  | Advance to_epoch revoked => (advance_revocation c to_epoch revoked).1
  end.
Definition chain_run (c : VerifiedChain) (ops : list chain_op) : VerifiedChain :=
  fold_left chain_step ops c.

Record chain_inv (r : PinnedRoots) (c : VerifiedChain) : Prop := {
  inv_roots : roots c = r;
  inv_certified : Forall (certified r) (epochs c);
  inv_ids : NoDup (map (fun e => EpochCert.epoch_id (cert e)) (epochs c));
}.

Lemma check_epoch_ok c env product root_vk now e :
  check_epoch c env product root_vk now = Ok e ->
  certified (roots c) e /\ TimeWindow.contains (EpochCert.window (cert e)) now = true /\
  RevocationState.is_epoch_revoked (revocation c) (EpochCert.epoch_id (cert e)) = false.
Proof.
  unfold check_epoch, crypto_err. intros Hc. apply rbind_ok in Hc as (ce & Hp & Hc).
  destruct (PinnedRoots.accepts _ _) eqn:Ha; [|done]. simpl in Hc.
  case_bool_decide as Hh; [|done]. simpl in Hc.
  apply rbind_ok in Hc as ([] & Hv & Hc). destruct (verify _ _ _ _) as [[]|] eqn:Hver; [|done].
  destruct (TimeWindow.contains _ _) eqn:Hw; [|done]. simpl in Hc.
  destruct (RevocationState.is_epoch_revoked _ _) eqn:Hr; [done|].
  apply rbind_ok in Hc as (k & Hk & Hc). destruct (decode_vk _) as [k'|] eqn:Hd; [|done].
  injection Hk as ->. injection Hc as <-. split; [|by split].
  exists env, product, root_vk. simpl. rewrite Hh. auto.
Qed.

Lemma chain_step_inv r c op : chain_inv r c -> chain_inv r (chain_step c op).
Proof.
  intros [Hr Hc Hn]. destruct op as [env product root_vk now|to_epoch revoked]; simpl.
  - unfold add_epoch. destruct (check_epoch _ _ _ _ _) as [e|] eqn:He; [|by split].
    apply check_epoch_ok in He as (He & _ & _). rewrite Hr in He. simpl. split; simpl; [done| |].
    + apply Forall_app. split; [|by constructor]. rewrite Forall_forall in Hc |- *.
      intros x Hx%list_elem_of_In%filter_In. apply Hc, list_elem_of_In, Hx.
    + rewrite map_app. apply NoDup_app. split_and!.
      * clear - Hn. induction (epochs c) as [|x l IH]; simpl in *; [constructor|].
        apply NoDup_cons in Hn as [Hx Hn]. case_bool_decide; simpl; [auto|].
        apply NoDup_cons. split; [|auto]. intros (y & Hxy & Hy)%list_elem_of_fmap.
        apply Hx, list_elem_of_fmap. exists y. split; [exact Hxy|].
        by apply list_elem_of_In, filter_In in Hy as [Hy%list_elem_of_In _].
      * intros x (y & -> & Hy)%list_elem_of_fmap Hx. apply list_elem_of_In, filter_In in Hy as [_ Hy].
        simpl in Hx. apply list_elem_of_singleton in Hx. bprop. done.
      * simpl. apply NoDup_singleton.
  - unfold advance_revocation. destruct (RevocationState.advance _ _ _) as [r' res]. by split.
Qed.

Lemma chain_run_inv r ops : forall c, chain_inv r c -> chain_inv r (chain_run c ops).
Proof. induction ops as [|op ops IH]; intros c Hc; simpl; [done|]. apply IH. by apply chain_step_inv. Qed.

Lemma chain_new_inv r : chain_inv r (VerifiedChain.new r).
Proof. split; simpl; [done|constructor|constructor]. Qed.

Lemma signing_epoch_ok r c env now e :
  chain_inv r c ->
  signing_epoch c env now = Ok e <->
  e ∈ epochs c /\ Envelope.epoch_ref env = Some (EpochCert.epoch_id (cert e)) /\
  EpochCert.epoch_id (cert e) ∉ RevocationState.revoked_epochs (revocation c) /\
  TimeWindow.contains (EpochCert.window (cert e)) now = true.
Proof.
  intros [_ _ Hn]. unfold signing_epoch, epoch, RevocationState.is_epoch_revoked. split.
  - intros Hs. apply rbind_ok in Hs as (id & Hid & Hs).
    destruct (Envelope.epoch_ref env) as [id'|]; [|done]. injection Hid as ->.
    apply rbind_ok in Hs as (e' & He & Hs). destruct (find_first _ _) as [e''|] eqn:Hf; [|done].
    injection He as ->. apply find_first_Some in Hf as [Hin Heq]. bprop. subst id.
    case_bool_decide as Hrev; [done|]. destruct (TimeWindow.contains _ _) eqn:Hw; [|done].
    injection Hs as <-. done.
  - intros (Hin & -> & Hrev & Hw). simpl.
    assert (Hf : find_first (fun x => bool_decide (EpochCert.epoch_id (cert x) =
      EpochCert.epoch_id (cert e))) (epochs c) = Some e).
    { clear - Hin Hn. unfold find_first. induction (epochs c) as [|x l IH]; [set_solver|]. simpl in *.
      apply NoDup_cons in Hn as [Hx Hn]. case_bool_decide as Heq.
      - apply elem_of_cons in Hin as [->|Hin]; [done|]. exfalso. apply Hx. rewrite Heq.
        apply list_elem_of_fmap. by exists e.
      - apply elem_of_cons in Hin as [->|Hin]; [done|auto]. }
    rewrite Hf. simpl. rewrite bool_decide_eq_false_2 by done. by rewrite Hw.
Qed.

(** What it takes for an artifact to be accepted through the chain. *)
Record vouched `{Artifact A} (r : PinnedRoots) (c : VerifiedChain) (env : Envelope)
    (product : string) (now : Z) (e : VerifiedEpoch) (a : A) : Prop := {
  v_held : e ∈ epochs c;
  v_ref : Envelope.epoch_ref env = Some (EpochCert.epoch_id (cert e));
  v_certified : certified r e;
  v_live : EpochCert.epoch_id (cert e) ∉ RevocationState.revoked_epochs (revocation c);
  v_window : TimeWindow.contains (EpochCert.window (cert e)) now = true;
  v_version : Envelope.proto_ver env = PROTO_VER;
  v_kind : Envelope.kind env = KIND (A := A);
  v_body : Field.from_canonical (Envelope.tbs env) = Ok a;
}.

(** C33 Whatever certificates a client was fed and whatever revocation lists it merged, the chain
    accepts an artifact exactly when there is an unbroken line of trust: the envelope names an
    epoch the chain holds, some pinned root signed that epoch's certificate, the epoch is
    neither revoked nor outside its window now, the envelope has the supported version and the
    artifact's own kind, the certified key verifies the signature over the body in the domain
    of kind, suite and product, and the body decodes. *)
Theorem accepted_artifacts_are_vouched `{Artifact A} (r : PinnedRoots) (ops : list chain_op)
    (env : Envelope) (product : string) (now : Z) (a : A) :
  let c := chain_run (VerifiedChain.new r) ops in
  verify_artifact A c env product now = Ok a <->
  exists e, vouched r c env product now e a /\
    verify (vk e) (DomainCtx.new (KIND (A := A)) (Envelope.suite_id env) product)
      (Envelope.tbs env) (Envelope.sig_ env) = Ok tt.
Proof.
  intros c. pose proof (chain_run_inv r ops _ (chain_new_inv r)) as Hinv. fold c in Hinv.
  unfold verify_artifact. split.
  - intros Hv. apply rbind_ok in Hv as (e & He & Hv).
    apply (signing_epoch_ok r) in He as (Hin & Href & Hlive & Hw); [|done].
    apply open_ok in Hv as (Hver & Hk & Hsig & Hbody). exists e. split; [|done]. split; try done.
    apply (proj1 (Forall_forall _ _) (inv_certified _ _ Hinv)). done.
  - intros (e & [Hin Href _ Hlive Hw Hver Hk Hbody] & Hsig).
    rewrite (proj2 (signing_epoch_ok r c env now e Hinv)) by done. simpl. by apply open_ok.
Qed.

(** The fast path, for tickets and kill orders: the signature is checked under the classical
    key certified in the same root-signed certificate. *)
Theorem accepted_fast_artifacts_are_vouched (F : SignatureScheme) `{Artifact A} (r : PinnedRoots)
    (ops : list chain_op) (env : Envelope) (product : string) (now : Z) (a : A) :
  let c := chain_run (VerifiedChain.new r) ops in
  verify_artifact_fast F A c env product now = Ok a <->
  exists e vk_fast, vouched r c env product now e a /\
    decode_vk (SignatureScheme := F) (EpochCert.vk_fast (cert e)) = Ok vk_fast /\
    verify (SignatureScheme := F) vk_fast
      (DomainCtx.new (KIND (A := A)) (Envelope.suite_id env) product)
      (Envelope.tbs env) (Envelope.sig_ env) = Ok tt.
Proof.
  intros c. pose proof (chain_run_inv r ops _ (chain_new_inv r)) as Hinv. fold c in Hinv.
  unfold verify_artifact_fast. split.
  - intros Hv. apply rbind_ok in Hv as (e & He & Hv). apply rbind_ok in Hv as (k & Hk' & Hv).
    apply (signing_epoch_ok r) in He as (Hin & Href & Hlive & Hw); [|done].
    destruct (decode_vk _) as [k'|] eqn:Hd; [|done]. injection Hk' as ->.
    apply open_ok in Hv as (Hver & Hk & Hsig & Hbody). exists e, k. split; [|done]. split; try done.
    apply (proj1 (Forall_forall _ _) (inv_certified _ _ Hinv)). done.
  - intros (e & k & [Hin Href _ Hlive Hw Hver Hk Hbody] & Hd & Hsig).
    rewrite (proj2 (signing_epoch_ok r c env now e Hinv)) by done. simpl. rewrite Hd. simpl.
    by apply open_ok.
Qed.

(** ** Revocation *)

Lemma push_new_mono l x e : e ∈ l -> e ∈ RevocationState.push_new l x.
Proof. unfold RevocationState.push_new. case_bool_decide; set_solver. Qed.

Lemma fold_push_new revoked : forall l e,
  e ∈ fold_left RevocationState.push_new revoked l <-> e ∈ l \/ e ∈ revoked.
Proof.
  induction revoked as [|x revoked IH]; intros l e; simpl; [set_solver|].
  rewrite IH. unfold RevocationState.push_new. case_bool_decide; set_solver.
Qed.

Lemma chain_step_revocation c op :
  RevocationState.epoch (revocation c) <= RevocationState.epoch (revocation (chain_step c op)) /\
  (forall id, id ∈ RevocationState.revoked_epochs (revocation c) ->
     id ∈ RevocationState.revoked_epochs (revocation (chain_step c op))).
Proof.
  destruct op as [env product root_vk now|to_epoch revoked]; simpl.
  - unfold add_epoch. destruct (check_epoch _ _ _ _ _); simpl; split; auto; lia.
  - unfold advance_revocation, RevocationState.advance.
    destruct (Z.ltb_spec to_epoch (RevocationState.epoch (revocation c))); simpl; [split; auto; lia|].
    split; [lia|]. intros id Hid. apply fold_push_new. by left.
Qed.

Lemma chain_run_revocation ops : forall c,
  RevocationState.epoch (revocation c) <= RevocationState.epoch (revocation (chain_run c ops)) /\
  (forall id, id ∈ RevocationState.revoked_epochs (revocation c) ->
     id ∈ RevocationState.revoked_epochs (revocation (chain_run c ops))).
Proof.
  induction ops as [|op ops IH]; intros c; simpl; [split; auto; lia|].
  destruct (chain_step_revocation c op), (IH (chain_step c op)). split; [lia|auto].
Qed.

(** Revocation cannot be undone: once a merged list names an epoch, then after any further
    certificates and lists - including replayed older lists - the revocation sequence has not
    gone back, no artifact signed by that epoch is accepted, and no certificate of that epoch
    can be added. *)
Theorem revoked_epochs_stay_revoked `{Artifact A} (r : PinnedRoots) (ops later : list chain_op)
    (id : EpochId) (env : Envelope) (product : string) (root_vk : VerifyingKey) (now : Z) (a : A)
    (Hrev : id ∈ RevocationState.revoked_epochs
       (revocation (chain_run (VerifiedChain.new r) ops))) :
  let before := chain_run (VerifiedChain.new r) ops in
  let c := chain_run before later in
  RevocationState.epoch (revocation before) <= RevocationState.epoch (revocation c) /\
  (Envelope.epoch_ref env = Some id -> verify_artifact A c env product now <> Ok a) /\
  (forall ce, Envelope.peek_unverified EpochCert env = Ok ce -> EpochCert.epoch_id ce = id ->
     (add_epoch c env product root_vk now).1 = c /\
     exists e, (add_epoch c env product root_vk now).2 = Err e).
Proof.
  intros before c. destruct (chain_run_revocation later before) as [Hep Hmono]. fold c in Hep, Hmono.
  specialize (Hmono id Hrev). split_and!; [done| |].
  - intros Href Hv. unfold verify_artifact, signing_epoch in Hv. rewrite Href in Hv. simpl in Hv.
    destruct (epoch c id); [|done]. simpl in Hv.
    unfold RevocationState.is_epoch_revoked in Hv. by rewrite bool_decide_eq_true_2 in Hv.
  - intros ce Hp Hce. unfold add_epoch. destruct (check_epoch c env product root_vk now) as [e|] eqn:He;
      [|by eauto]. exfalso.
    assert (Hcert : cert e = ce).
    { unfold check_epoch in He. rewrite Hp in He. simpl in He. inv_result. done. }
    apply check_epoch_ok in He as (_ & _ & Hr). unfold RevocationState.is_epoch_revoked in Hr.
    bprop. apply Hr. by rewrite Hcert, Hce.
Qed.
End ChainProperties.

(** ** The keyset *)

Section KeysetProperties.
Context `{S : SignatureScheme} `{H : HashScheme}.
Import VerifiedChain.
Context (SUITE_ID : list byte) (t : TrustAnchors.TrustAnchors) (product : string) (now : Z).

(** What [verify_keyset] has checked about a held epoch. *)
Record trusted_epoch (certs : list (list byte)) (e : VerifiedEpoch) : Prop := {
  te_source : exists encoded env root, encoded ∈ certs /\ Envelope.decode encoded = Ok env /\
    Envelope.peek_unverified EpochCert env = Ok (cert e) /\
    TrustAnchors.root_for t (EpochCert.issuer_vk_digest (cert e)) = Some root /\
    hash (encode_vk root) = EpochCert.issuer_vk_digest (cert e) /\
    verify root (DomainCtx.new ArtifactKind.EpochCert SUITE_ID product)
      (Envelope.tbs env) (Envelope.sig_ env) = Ok tt;
  te_key : decode_vk (EpochCert.vk (cert e)) = Ok (vk e);
  te_scope : EpochCert.product_scope (cert e) = Some product;
  te_suite : EpochCert.suite_id (cert e) = SUITE_ID;
  te_order : EpochCert.not_before (cert e) < EpochCert.not_after (cert e);
  te_window : TimeWindow.contains (EpochCert.window (cert e)) now = true;
}.

(** A certificate of this product, in its window. *)
Definition applies (encoded : list byte) (ce : EpochCert) : Prop :=
  exists env, Envelope.decode encoded = Ok env /\
    Envelope.peek_unverified EpochCert env = Ok ce /\
    EpochCert.product_scope ce = Some product /\
    TimeWindow.contains (EpochCert.window ce) now = true.

Definition holds_id (c : VerifiedChain) (id : EpochId) : Prop :=
  exists e, e ∈ epochs c /\ EpochCert.epoch_id (cert e) = id.

Record keyset_inv (rv : RevocationState) (certs : list (list byte)) (c : VerifiedChain) : Prop := {
  ki_revocation : revocation c = rv;
  ki_trusted : forall e, e ∈ epochs c -> trusted_epoch certs e;
  ki_live : forall e, e ∈ epochs c -> EpochCert.epoch_id (cert e) ∉ RevocationState.revoked_epochs rv;
  ki_complete : forall encoded ce, encoded ∈ certs -> applies encoded ce ->
    holds_id c (EpochCert.epoch_id ce);
}.

Lemma trusted_epoch_mono certs x e : trusted_epoch certs e -> trusted_epoch (certs ++ [x]) e.
Proof. intros [(b & env & root & Hin & Hrest)]. split; try done. exists b, env, root. set_solver. Qed.

Lemma fatal_ok {A} (m : result A ProtoError) a : TrustAnchors.fatal m = Ok a -> m = Ok a.
Proof. destruct m; by intros [= ->]. Qed.

Lemma add_epoch_ok c env root c' :
  add_epoch c env product root now = (c', Ok tt) ->
  exists e, check_epoch c env product root now = Ok e /\ revocation c' = revocation c /\
    e ∈ epochs c' /\ (forall x, x ∈ epochs c' -> x = e \/ x ∈ epochs c) /\
    (forall id, holds_id c id -> holds_id c' id).
Proof.
  unfold add_epoch. destruct (check_epoch _ _ _ _ _) as [e|] eqn:He; [|done]. intros [= <-].
  exists e. simpl. split_and!; [done|done|set_solver| |].
  - intros x [Hx|Hx]%elem_of_app; [right|left; set_solver].
    by apply list_elem_of_In, filter_In in Hx as [Hx%list_elem_of_In _].
  - intros id (x & Hx & Hid). destruct (decide (id = EpochCert.epoch_id (cert e))) as [->|Hne].
    + exists e. simpl. set_solver.
    + exists x. simpl. split; [|done]. apply elem_of_app. left. apply list_elem_of_In, filter_In.
      split; [by apply list_elem_of_In|]. rewrite bool_decide_eq_false_2; [done|congruence].
Qed.

Lemma add_certificate_inv rv certs c encoded c' :
  TrustAnchors.add_certificate SUITE_ID t product now c encoded = Ok c' ->
  keyset_inv rv certs c -> keyset_inv rv (certs ++ [encoded]) c'.
Proof.
  unfold TrustAnchors.add_certificate. intros Hadd [Hrv Ht Hl Hc].
  apply rbind_ok in Hadd as (env & Hd%fatal_ok & Hadd). apply rbind_ok in Hadd as (ce & Hp%fatal_ok & Hadd).
  assert (Happ : forall b x, b ∈ certs ++ [encoded] -> applies b x ->
    b ∈ certs \/ (x = ce /\ EpochCert.product_scope ce = Some product /\
      TimeWindow.contains (EpochCert.window ce) now = true)).
  { intros b x [Hb|Hb]%elem_of_app (env' & Hd' & Hp' & Hs & Hw); [by left|right].
    apply list_elem_of_singleton in Hb as ->. rewrite Hd in Hd'. injection Hd' as <-.
    rewrite Hp in Hp'. injection Hp' as <-. done. }
  case_bool_decide as Hscope; simpl in Hadd.
  2: { injection Hadd as <-. split; [done|auto using trusted_epoch_mono|done|].
       intros b x Hb Ha. destruct (Happ b x Hb Ha) as [Hb'|(-> & ? & ?)]; [by eapply Hc|done]. }
  destruct (TrustAnchors.corrupt _ _ _) eqn:Hcor; [done|].
  destruct (TimeWindow.contains _ _) eqn:Hw; simpl in Hadd.
  2: { injection Hadd as <-. split; [done|auto using trusted_epoch_mono|done|].
       intros b x Hb Ha. destruct (Happ b x Hb Ha) as [Hb'|(-> & ? & ?)]; [by eapply Hc|congruence]. }
  apply rbind_ok in Hadd as (root & Hroot & Hadd).
  destruct (TrustAnchors.root_for _ _) as [root'|] eqn:Hfor; [|done]. injection Hroot as ->.
  destruct (add_epoch c env product root now) as [c1 r1] eqn:Hae.
  apply rbind_ok in Hadd as ([] & Hr%fatal_ok & Hadd). subst r1. injection Hadd as ->.
  apply add_epoch_ok in Hae as (e & Hck & Hrv' & Hin & Hsub & Hholds).
  assert (Hce : cert e = ce).
  { unfold check_epoch in Hck. rewrite Hp in Hck. simpl in Hck. inv_result. done. }
  pose proof Hck as (_ & _ & Hlive)%check_epoch_ok. unfold RevocationState.is_epoch_revoked in Hlive.
  unfold TrustAnchors.corrupt in Hcor. bprop. split.
  - congruence.
  - intros x [->|Hx]%Hsub; [|auto using trusted_epoch_mono].
    unfold check_epoch, crypto_err in Hck. rewrite Hp in Hck. simpl in Hck. inv_result. simpl in *.
    destruct (verify _ _ _ _) as [[]|] eqn:Hver; [|done]. destruct (decode_vk _) eqn:Hdv; [|done].
    inv_result. bprop. split; simpl; try done; [|by simplify_eq/=].
    exists encoded, env, root. split_and!; try done; [set_solver|]. congruence.
  - intros x [->|Hx]%Hsub; [|auto]. bprop. by rewrite <- Hrv.
  - intros b x Hb Ha. destruct (Happ b x Hb Ha) as [Hb'|(-> & _)]; [by eapply Hholds, Hc|].
    exists e. by rewrite Hce.
Qed.

Lemma add_certificates_inv rv todo : forall certs c c',
  try_fold (TrustAnchors.add_certificate SUITE_ID t product now) c todo = Ok c' ->
  keyset_inv rv certs c -> keyset_inv rv (certs ++ todo) c'.
Proof.
  induction todo as [|x todo IH]; intros certs c c' Hf Hi; simpl in Hf.
  - injection Hf as <-. by rewrite app_nil_r.
  - apply rbind_ok in Hf as (c1 & Hx & Hf). pose proof (add_certificate_inv _ _ _ _ _ Hx Hi) as Hi1.
    specialize (IH _ _ _ Hf Hi1). by rewrite <- app_assoc in IH.
Qed.

(** C34 A keyset that is accepted yields a chain that is sound and complete: every epoch in it
    comes from a certificate of the keyset that one of the client's compiled-in roots signed
    for this product and suite, is inside its window now and is not among the revoked epochs
    the client knows; and no certificate of the keyset that is meant for this product and in
    its window is silently left out.  The keyset's own revocation sequence is not behind. *)
Theorem accepted_keyset_is_sound_and_complete (keyset : Keyset) (known : Z)
    (revoked : list EpochId) (c : VerifiedChain)
    (Hok : TrustAnchors.verify_keyset SUITE_ID t keyset product now known revoked = Ok c) :
  known <= Keyset.revocation_epoch keyset /\
  (forall e, e ∈ epochs c -> trusted_epoch (Keyset.epoch_certificates keyset) e /\
     EpochCert.epoch_id (cert e) ∉ revoked) /\
  (forall encoded ce, encoded ∈ Keyset.epoch_certificates keyset -> applies encoded ce ->
     holds_id c (EpochCert.epoch_id ce)).
Proof.
  unfold TrustAnchors.verify_keyset in Hok. destruct (_ =? PROTO_VER); [|done]. simpl in Hok.
  destruct (Z.ltb_spec (Keyset.revocation_epoch keyset) known) as [|Hle]; [done|].
  unfold advance_revocation, RevocationState.advance in Hok. simpl in Hok.
  destruct (known <? 0); [done|]. simpl in Hok.
  match type of Hok with try_fold _ ?c0 _ = _ => set (c0' := c0) in Hok end.
  eapply (add_certificates_inv (revocation c0') _ [] c0') in Hok.
  - destruct Hok as [_ Ht Hl Hc]. split_and!; [done| |done]. intros e He. split; [by apply Ht|].
    intros Hin. apply (Hl e He). subst c0'. simpl. apply fold_push_new. by right.
  - split; [done|set_solver|set_solver|set_solver].
Qed.
End KeysetProperties.

(** ** A concrete chain *)
#[local] Instance demo_hash : HashScheme := {| hash b := take 32 (b ++ repeat 0 32) |}.

Definition demo_suite : list byte := [1; 0; 0; 1].
Definition demo_epoch : EpochId := [1; 2; 3; 4; 5; 6; 7; 8].
Definition demo_cert : EpochCert :=
  EpochCert.mk 1 demo_suite demo_epoch [7] [8] 100 10000 (Some "acme") (hash [42]).
Definition demo_seal {A} `{Artifact A} (a : A) (eref : option EpochId) (sk : list byte) : Envelope :=
  match Envelope.seal a demo_suite "acme" eref sk with Ok e => e | Err _ => demo_envelope end.
Definition demo_anchors : TrustAnchors.TrustAnchors :=
  TrustAnchors.mk (TrustAnchors.mkRoot (hash [42]) [42]) None (PinnedRoots.single (hash [42])).
Definition demo_keyset : Keyset := Keyset.mk 1 [Envelope.encode (demo_seal demo_cert None [42])] 3.
Definition demo_chain : VerifiedChain.VerifiedChain :=
  VerifiedChain.mk (PinnedRoots.single (hash [42])) [VerifiedChain.mkEpoch demo_cert [7]]
    (RevocationState.mk 2 [[9; 9; 9; 9; 9; 9; 9; 9]]).

Lemma accepted_keyset_is_sound_and_complete_witness :
  VerifiedChain.epochs demo_chain = [VerifiedChain.mkEpoch demo_cert [7]] /\
  trusted_epoch demo_suite demo_anchors "acme" 500 (Keyset.epoch_certificates demo_keyset)
    (VerifiedChain.mkEpoch demo_cert [7]).
Proof.
  split; [reflexivity|].
  apply (accepted_keyset_is_sound_and_complete demo_suite demo_anchors "acme" 500 demo_keyset 2
    [[9; 9; 9; 9; 9; 9; 9; 9]] demo_chain).
  - vm_compute. reflexivity.
  - left.
Defined.

Definition demo_ops : list chain_op :=
  [AddEpoch (demo_seal demo_cert None [42]) "acme" [42] 500; Advance 5 [demo_epoch]].

Lemma revoked_epochs_stay_revoked_witness :
  VerifiedChain.verify_artifact KillOrder
    (chain_run (VerifiedChain.new (PinnedRoots.single (hash [42]))) (take 1 demo_ops))
    (demo_seal demo_kill_order (Some demo_epoch) [7]) "acme" 500 = Ok demo_kill_order /\
  VerifiedChain.verify_artifact KillOrder
    (chain_run (VerifiedChain.new (PinnedRoots.single (hash [42]))) demo_ops)
    (demo_seal demo_kill_order (Some demo_epoch) [7]) "acme" 500 <> Ok demo_kill_order.
Proof.
  split; [vm_compute; reflexivity|].
  apply (revoked_epochs_stay_revoked (PinnedRoots.single (hash [42])) demo_ops []
    demo_epoch (demo_seal demo_kill_order (Some demo_epoch) [7]) "acme" [42] 500 demo_kill_order).
  - vm_compute. left.
  - vm_compute. reflexivity.
Defined.
