(* ===== verification/Requests.v ===== *)
(** * Client requests ([crates/copylocker-proto/src/requests.rs], [responses.rs], [challenge.rs])

    The bodies a client sends and the unsigned wrappers it receives.  A request carries a device
    proof: a signature over its own canonical bytes with the proof field left out.  The device
    attributes travel in the same tagged form the fingerprint is computed over
    ([crates/copylocker-suite/src/device.rs]). *)

From S2P Require Import Prelude Types Errors Cbor Device Field.
Import CborValue.

Definition malformed : ProtoError := ProtoError.Codec CodecError.Malformed.
Definition too_long : ProtoError := ProtoError.Codec CodecError.TooLong.

(** [bytes.len() > limit] as the first check of a decoder. *)
Definition bounded {A} (limit : Z) (bytes : list byte) (k : result A ProtoError) : result A ProtoError :=
  if Z.of_nat (length bytes) >? limit then Err too_long else k.

(** ** Device attributes *)
Module attrs.
Definition enc_texts (ts : list string) : CborValue :=
  Array (map (fun s => Text (text_bytes s)) ts).

Definition encode_attr (v : AttrValue) : CborValue :=
  match v with
  | AttrValue.Absent => Array [Uint 0]
  | AttrValue.Text t => Array [Uint 1; Text (text_bytes t)]
  | AttrValue.Set_ items => Array [Uint 2; enc_texts items]
  | AttrValue.Int n => Array [Uint 3; CborValue.int n]
  end.

Definition encode_attrs (a : DeviceAttrs) : CborValue :=
  Map (map (fun kv => (Text (text_bytes kv.1), encode_attr kv.2)) (DeviceAttrs.iter a)).

(** [DeviceAttrs::canonical_bytes]. *)
Definition canonical_bytes (a : DeviceAttrs) : list byte := CborValue.to_canonical (encode_attrs a).

Definition text_or_malformed (v : CborValue) : result string ProtoError :=
  ok_of_option (option_map bytes_text (as_text v)) malformed.

#[global] Arguments text_or_malformed : simpl never.

Definition decode_attr (val : CborValue) : result AttrValue ProtoError :=
  arr <-? ok_of_option (as_array val) malformed ;;
  tag <-? ok_of_option (x ← head arr; as_uint x) malformed ;;
  match tag, arr !! 1%nat with
  | 0, None => Ok AttrValue.Absent
  | 1, Some p => t <-? text_or_malformed p ;; Ok (AttrValue.Text t)
  | 2, Some p =>
      items <-? ok_of_option (as_array p) malformed ;;
      v <-? traverse text_or_malformed items ;; Ok (AttrValue.Set_ v)
  | 3, Some p => n <-? ok_of_option (as_int p) malformed ;; Ok (AttrValue.Int n)
  | _, _ => Err (ProtoError.Codec CodecError.UnknownDiscriminant)
  end.

Definition attr_entry (out : gmap string AttrValue) (kv : CborValue * CborValue)
    : result (gmap string AttrValue) ProtoError :=
  key <-? text_or_malformed kv.1 ;; value <-? decode_attr kv.2 ;; Ok (<[key := value]> out).

Definition decode_attrs (v : CborValue) : result DeviceAttrs ProtoError :=
  entries <-? ok_of_option (as_map v) malformed ;;
  out <-? try_fold attr_entry ∅ entries ;; Ok (DeviceAttrs.mk out).

Definition attr_typed (v : AttrValue) : Prop :=
  match v with AttrValue.Int n => in_i64 n | _ => True end.
Definition typed (a : DeviceAttrs) : Prop := map_Forall (fun _ v => attr_typed v) (DeviceAttrs.entries a).

Lemma leaf_attr v : leaf_keys (encode_attr v) = true.
Proof.
  destruct v; simpl; rewrite ?andb_true_r; auto with leaf.
  by apply (leaf_array (fun s => Text (text_bytes s))).
Qed.
Lemma leaf_attrs a : leaf_keys (encode_attrs a) = true.
Proof. apply leaf_text_map, leaf_attr. Qed.

Lemma text_or_malformed_ok s : text_or_malformed (Text (text_bytes s)) = Ok s.
Proof. unfold text_or_malformed. simpl. by rewrite bytes_text_bytes. Qed.

Lemma decode_attr_ok v : attr_typed v -> decode_attr (norm (encode_attr v)) = Ok v.
Proof.
  intros Hv. destruct v as [|t|items|n]; unfold decode_attr; simpl; [done| | |].
  - by rewrite bytes_text_bytes.
  - rewrite map_map. simpl. rewrite (traverse_map _ _ id), map_id; [done|].
    intros s _. apply text_or_malformed_ok.
  - by rewrite norm_int, int_roundtrip.
Qed.

Lemma decode_attrs_ok a : typed a -> decode_attrs (norm (encode_attrs a)) = Ok a.
Proof.
  intros Ha. unfold decode_attrs, encode_attrs.
  destruct (map_fold_perm (fun s => Text (text_bytes s)) encode_attr attr_entry
    (DeviceAttrs.entries a) (DeviceAttrs.iter a)) as (es & -> & Hf).
  - apply bt_iter_perm.
  - intros acc x y Hm _. unfold attr_entry. cbn [fst snd norm]. rewrite text_or_malformed_ok. cbn [rbind].
    rewrite decode_attr_ok by (by apply (Ha x)). done.
  - simpl. rewrite Hf. by destruct a.
Qed.
End attrs.
#[export] Hint Resolve attrs.leaf_attrs : leaf.

(** ** The parts of a request *)
Module Credential.
Inductive Credential := LicenseKey (k : string) | AccountToken (t : list byte).

Definition to_value (c : Credential) : CborValue :=
  let b := MapBuilder.new in
  MapBuilder.build
    match c with
    | LicenseKey k => MapBuilder.put b 0 (Text (text_bytes k))
    | AccountToken t => MapBuilder.put b 1 (Bytes t)
    end.

Definition from_value (v : CborValue) : result Credential ProtoError :=
  entries <-? ok_of_option (as_map v) malformed ;;
  if negb (length entries =? 1)%nat then Err malformed
  else match field.opt v 0 with
  | Some _ => k <-? field.text v 0 ;; Ok (LicenseKey k)
  | None =>
  match field.opt v 1 with
  | Some _ => t <-? field.bytes v 1 ;; Ok (AccountToken t)
  | None => Err (ProtoError.Codec CodecError.UnknownDiscriminant)
  end end.

Lemma credential_leaf c : leaf_keys (to_value c) = true.
Proof. by destruct c. Qed.

Lemma credential_roundtrip c : from_value (norm (to_value c)) = Ok c.
Proof.
  destruct c as [k|t]; unfold from_value, field.opt; simpl; [|done].
  unfold field.text, field.text_of. simpl. by rewrite bytes_text_bytes.
Qed.
End Credential.
Notation Credential := Credential.Credential.
#[export] Hint Resolve Credential.credential_leaf : leaf.

Module ClientInfo.
Record ClientInfo := mk {
  app_version : string;
  sdk_version : string;
  os : string;
  arch : string;
  build_fingerprint : string;
  release_id : string;
  variant_id : Z;
  supported_suites : list (list byte);
  supported_variants : list Z;
}.

Definition to_value (c : ClientInfo) : CborValue :=
  let b := MapBuilder.new in
  let b := MapBuilder.put b 0 (Text (text_bytes (app_version c))) in
  let b := MapBuilder.put b 1 (Text (text_bytes (sdk_version c))) in
  let b := MapBuilder.put b 2 (Text (text_bytes (os c))) in
  let b := MapBuilder.put b 3 (Text (text_bytes (arch c))) in
  let b := MapBuilder.put b 4 (Text (text_bytes (build_fingerprint c))) in
  let b := MapBuilder.put b 5 (Text (text_bytes (release_id c))) in
  let b := MapBuilder.put b 6 (Uint (variant_id c)) in
  let b := MapBuilder.put b 7 (Array (map Bytes (supported_suites c))) in
  let b := MapBuilder.put b 8 (Array (map Uint (supported_variants c))) in
  MapBuilder.build b.

Definition from_value (v : CborValue) : result ClientInfo ProtoError :=
  variants <-? (r <-? field.req v 8 ;; arr <-? ok_of_option (as_array r) (field.mismatch 8) ;;
    traverse (fun x => ok_of_option (as_uint x) (field.mismatch 8)) arr) ;;
  app_version <-? field.text v 0 ;;
  sdk_version <-? field.text v 1 ;;
  os <-? field.text v 2 ;;
  arch <-? field.text v 3 ;;
  build_fingerprint <-? field.text v 4 ;;
  release_id <-? field.text v 5 ;;
  variant_id <-? field.uint v 6 ;;
  supported_suites <-? field.fixed_array 4 v 7 ;;
  Ok (mk app_version sdk_version os arch build_fingerprint release_id variant_id
        supported_suites variants).

Definition typed (c : ClientInfo) : Prop :=
  Forall (fun s => length s = 4%nat) (supported_suites c).

Lemma client_info_leaf c : leaf_keys (to_value c) = true.
Proof. unfold to_value. leaf_fields. Qed.

Lemma client_info_roundtrip c : typed c -> from_value (norm (to_value c)) = Ok c.
Proof.
  intros Hc. unfold typed in Hc. unfold to_value, from_value. abstract_fields.
  eapply rbind_eq; [eapply uint_array_ok; find_field Hget|]. read_fields Hget. by destruct c.
Qed.
End ClientInfo.
Notation ClientInfo := ClientInfo.ClientInfo.
#[export] Hint Resolve ClientInfo.client_info_leaf : leaf.

Definition MAX_TELEMETRY_BLOCK_BYTES : Z := 512.

Module TelemetryBlock.
Record TelemetryBlock := mk {
  consent_version : Z;
  window_start : Z;
  session_count : Z;
  session_duration_histogram : list Z;
  feature_hits : gmap string Z;
  days_active : Z;
}.

Definition to_value (t : TelemetryBlock) : CborValue :=
  let b := MapBuilder.new in
  let b := MapBuilder.put b 0 (Uint (consent_version t)) in
  let b := MapBuilder.put b 1 (Uint (window_start t)) in
  let b := MapBuilder.put b 2 (Uint (session_count t)) in
  let b := MapBuilder.put b 3 (Array (map Uint (session_duration_histogram t))) in
  let b := MapBuilder.put b 4
    (Map (map (fun kv => (Text (text_bytes kv.1), Uint kv.2)) (bt_iter (feature_hits t)))) in
  let b := MapBuilder.put b 5 (Uint (days_active t)) in
  MapBuilder.build b.

(** One iteration of the loop over the feature hits. *)
Definition hit_entry (acc : gmap string Z) (kv : CborValue * CborValue)
    : result (gmap string Z) ProtoError :=
  name <-? ok_of_option (option_map bytes_text (as_text kv.1)) (field.mismatch 4) ;;
  count <-? ok_of_option (as_uint kv.2) (field.mismatch 4) ;;
  match acc !! name with
  | Some _ => Err malformed
  | None => Ok (<[name := count]> acc)
  end.

Definition from_value (v : CborValue) : result TelemetryBlock ProtoError :=
  h <-? (r <-? field.req v 3 ;; arr <-? ok_of_option (as_array r) (field.mismatch 3) ;;
    traverse (fun x => ok_of_option (as_uint x) (field.mismatch 3)) arr) ;;
  histogram <-? (if (length h =? 4)%nat then Ok h else Err malformed) ;;
  r <-? field.req v 4 ;;
  hits <-? ok_of_option (as_map r) (field.mismatch 4) ;;
  feature_hits <-? try_fold hit_entry ∅ hits ;;
  consent_version <-? field.uint v 0 ;;
  window_start <-? field.uint v 1 ;;
  session_count <-? field.uint v 2 ;;
  days_active <-? field.uint v 5 ;;
  Ok (mk consent_version window_start session_count histogram feature_hits days_active).

Definition encode (t : TelemetryBlock) : list byte := CborValue.to_canonical (to_value t).

Definition decode (bytes : list byte) : result TelemetryBlock ProtoError :=
  bounded MAX_TELEMETRY_BLOCK_BYTES bytes
    (v <-? map_err ProtoError.Codec (Parser.decode_canonical bytes CLIENT_LIMITS) ;;
     match as_map v with None => Err malformed | Some _ => from_value v end).

Definition typed (t : TelemetryBlock) : Prop := length (session_duration_histogram t) = 4%nat.

Lemma telemetry_leaf t : leaf_keys (to_value t) = true.
Proof. unfold to_value. leaf_fields. Qed.

Lemma telemetry_roundtrip t : typed t -> from_value (norm (to_value t)) = Ok t.
Proof.
  intros Ht. unfold typed in Ht. unfold to_value, from_value. abstract_fields.
  eapply rbind_eq; [eapply uint_array_ok; find_field Hget|]. rewrite Ht. cbn [Nat.eqb rbind].
  unfold field.req at 1. rewrite Hget. cbn [assoc Z.eqb Pos.eqb option_map ok_of_option rbind].
  destruct (map_fold_perm (fun s => Text (text_bytes s)) Uint hit_entry (feature_hits t)
    (bt_iter (feature_hits t))) as (es & -> & Hf).
  - apply bt_iter_perm.
  - intros acc x y _ Hacc. unfold hit_entry. simpl. rewrite bytes_text_bytes. simpl. by rewrite Hacc.
  - cbn [as_map ok_of_option rbind]. rewrite Hf. cbn [rbind]. read_fields Hget. by destruct t.
Qed.
End TelemetryBlock.
Notation TelemetryBlock := TelemetryBlock.TelemetryBlock.
#[export] Hint Resolve TelemetryBlock.telemetry_leaf : leaf.

(** ** Requests with a device proof *)

Class SignedRequest (A : Type) := {
  to_value_inner : bool -> A -> CborValue;
  fields : bool -> A -> list (Z * option CborValue);
  proof : A -> list byte;
  set_proof : list byte -> A -> A;
  proof_key : Z;
}.

Class SignedRequestLaws (A : Type) `{SignedRequest A} `{Artifact A} `{WellTyped A} : Prop := {
  inner_true : forall a, to_value a = to_value_inner true a;
  request_limits : limits (A := A) = CLIENT_LIMITS;
  inner_fields : forall ip a, to_value_inner ip a = MapBuilder.build (of_fields (fields ip a));
  fields_keys : forall ip a, NoDup (map fst (fields ip a));
  fields_without_proof : forall a k, k <> proof_key -> assoc (fields true a) k = assoc (fields false a) k;
  set_proof_others : forall p a k, k <> proof_key ->
    assoc (fields true (set_proof p a)) k = assoc (fields true a) k;
  fields_proof : forall a, assoc (fields true a) proof_key = Some (Bytes (proof a));
  proof_set_proof : forall p a, proof (set_proof p a) = p;
  read_request : forall v a, typed a -> (forall k, get v k = option_map norm (assoc (fields true a) k)) ->
    from_value v = Ok a;
  set_proof_typed : forall p a, typed a -> typed (set_proof p a);
  inner_leaf : forall ip a, leaf_keys (to_value_inner ip a) = true;
}.

(** Case analysis on the key looked up in a literal list of fields. *)
Ltac assoc_cases :=
  cbn -[CborValue.int Z.eqb] in *; repeat match goal with |- context [?j =? ?k] => destruct (Z.eqb_spec j k) end;
  subst; try done.

(** ** Proving liveness *)
Module HeartbeatRequest.
Record HeartbeatRequest := mk {
  proto_ver : Z;
  suite_id : list byte;
  license_id : LicenseId;
  machine_id : MachineId;
  nonce_c : list byte;
  client_time : Z;
  proof : list byte;
}.

Definition to_value_inner (include_proof : bool) (c : HeartbeatRequest) : CborValue :=
  let b := MapBuilder.new in
  let b := MapBuilder.put b 0 (Uint (proto_ver c)) in
  let b := MapBuilder.put b 1 (Bytes (suite_id c)) in
  let b := MapBuilder.put b 2 (Bytes (license_id c)) in
  let b := MapBuilder.put b 3 (Bytes (machine_id c)) in
  let b := MapBuilder.put b 4 (Bytes (nonce_c c)) in
  let b := MapBuilder.put b 5 (CborValue.int (client_time c)) in
  let b := if include_proof then MapBuilder.put b 6 (Bytes (proof c)) else b in
  MapBuilder.build b.

Definition to_value (c : HeartbeatRequest) : CborValue := to_value_inner true c.

Definition proof_input (c : HeartbeatRequest) : list byte :=
  CborValue.to_canonical (to_value_inner false c).

Definition from_value (v : CborValue) : result HeartbeatRequest ProtoError :=
  proto_ver <-? field.u8_field v 0 ;;
  suite_id <-? field.suite_id v 1 ;;
  license_id <-? field.license_id v 2 ;;
  machine_id <-? field.machine_id v 3 ;;
  nonce_c <-? field.fixed 32 v 4 ;;
  client_time <-? field.int v 5 ;;
  proof <-? field.bytes v 6 ;;
  Ok (mk proto_ver suite_id license_id machine_id nonce_c client_time proof).

#[global] Instance HeartbeatRequest_artifact : Artifact HeartbeatRequest := {|
  KIND := ArtifactKind.HeartbeatRequest; limits := CLIENT_LIMITS;
  Field.to_value := to_value; Field.from_value := from_value |}.

Record typed (c : HeartbeatRequest) : Prop := {
  ty_proto : in_u8 (proto_ver c);
  ty_suite : length (suite_id c) = 4%nat;
  ty_license : length (license_id c) = 16%nat;
  ty_machine : length (machine_id c) = 16%nat;
  ty_nonce : length (nonce_c c) = 32%nat;
  ty_time : in_i64 (client_time c);
}.
#[global] Instance HeartbeatRequest_typed : WellTyped HeartbeatRequest := typed.

Definition fields (include_proof : bool) (c : HeartbeatRequest) : list (Z * option CborValue) :=
  [(0, Some (Uint (proto_ver c)));
   (1, Some (Bytes (suite_id c)));
   (2, Some (Bytes (license_id c)));
   (3, Some (Bytes (machine_id c)));
   (4, Some (Bytes (nonce_c c)));
   (5, Some (CborValue.int (client_time c)));
   (6, if include_proof then Some (Bytes (proof c)) else None)].

Definition set_proof (p : list byte) (c : HeartbeatRequest) : HeartbeatRequest :=
  mk (proto_ver c) (suite_id c) (license_id c) (machine_id c) (nonce_c c) (client_time c) p.

Lemma HeartbeatRequest_read v c :
  typed c -> (forall k, get v k = option_map norm (assoc (fields true c) k)) -> from_value v = Ok c.
Proof.
  intros [] Hget. unfold from_value. read_fields Hget.
  by destruct c.
Qed.

#[global] Instance HeartbeatRequest_request : SignedRequest HeartbeatRequest := {|
  Requests.to_value_inner := to_value_inner; Requests.fields := fields;
  Requests.proof := proof; Requests.set_proof := set_proof; proof_key := 6 |}.
#[global] Instance HeartbeatRequest_request_laws : SignedRequestLaws HeartbeatRequest.
Proof.
  split; try done.
  - intros [] c; reflexivity.
  - intros [] c; apply keys_NoDup; reflexivity.
  - intros c k Hk. by assoc_cases.
  - intros p c k Hk. by assoc_cases.
  - exact HeartbeatRequest_read.
  - intros p c []. by split.
  - intros ip c. change (leaf_keys (to_value_inner ip c) = true). unfold to_value_inner.
    destruct ip; leaf_fields.
Qed.
End HeartbeatRequest.
Notation HeartbeatRequest := HeartbeatRequest.HeartbeatRequest.

(** ** Releasing a seat *)
Module DeactivateRequest.
Record DeactivateRequest := mk {
  proto_ver : Z;
  suite_id : list byte;
  license_id : LicenseId;
  machine_id : MachineId;
  nonce_c : list byte;
  client_time : Z;
  proof : list byte;
}.

Definition to_value_inner (include_proof : bool) (c : DeactivateRequest) : CborValue :=
  let b := MapBuilder.new in
  let b := MapBuilder.put b 0 (Uint (proto_ver c)) in
  let b := MapBuilder.put b 1 (Bytes (suite_id c)) in
  let b := MapBuilder.put b 2 (Bytes (license_id c)) in
  let b := MapBuilder.put b 3 (Bytes (machine_id c)) in
  let b := MapBuilder.put b 4 (Bytes (nonce_c c)) in
  let b := MapBuilder.put b 5 (CborValue.int (client_time c)) in
  let b := if include_proof then MapBuilder.put b 6 (Bytes (proof c)) else b in
  MapBuilder.build b.

Definition to_value (c : DeactivateRequest) : CborValue := to_value_inner true c.

Definition proof_input (c : DeactivateRequest) : list byte :=
  CborValue.to_canonical (to_value_inner false c).

Definition from_value (v : CborValue) : result DeactivateRequest ProtoError :=
  proto_ver <-? field.u8_field v 0 ;;
  suite_id <-? field.suite_id v 1 ;;
  license_id <-? field.license_id v 2 ;;
  machine_id <-? field.machine_id v 3 ;;
  nonce_c <-? field.fixed 32 v 4 ;;
  client_time <-? field.int v 5 ;;
  proof <-? field.bytes v 6 ;;
  Ok (mk proto_ver suite_id license_id machine_id nonce_c client_time proof).

#[global] Instance DeactivateRequest_artifact : Artifact DeactivateRequest := {|
  KIND := ArtifactKind.DeactivateRequest; limits := CLIENT_LIMITS;
  Field.to_value := to_value; Field.from_value := from_value |}.

Record typed (c : DeactivateRequest) : Prop := {
  ty_proto : in_u8 (proto_ver c);
  ty_suite : length (suite_id c) = 4%nat;
  ty_license : length (license_id c) = 16%nat;
  ty_machine : length (machine_id c) = 16%nat;
  ty_nonce : length (nonce_c c) = 32%nat;
  ty_time : in_i64 (client_time c);
}.
#[global] Instance DeactivateRequest_typed : WellTyped DeactivateRequest := typed.

Definition fields (include_proof : bool) (c : DeactivateRequest) : list (Z * option CborValue) :=
  [(0, Some (Uint (proto_ver c)));
   (1, Some (Bytes (suite_id c)));
   (2, Some (Bytes (license_id c)));
   (3, Some (Bytes (machine_id c)));
   (4, Some (Bytes (nonce_c c)));
   (5, Some (CborValue.int (client_time c)));
   (6, if include_proof then Some (Bytes (proof c)) else None)].

Definition set_proof (p : list byte) (c : DeactivateRequest) : DeactivateRequest :=
  mk (proto_ver c) (suite_id c) (license_id c) (machine_id c) (nonce_c c) (client_time c) p.

Lemma DeactivateRequest_read v c :
  typed c -> (forall k, get v k = option_map norm (assoc (fields true c) k)) -> from_value v = Ok c.
Proof.
  intros [] Hget. unfold from_value. read_fields Hget.
  by destruct c.
Qed.

#[global] Instance DeactivateRequest_request : SignedRequest DeactivateRequest := {|
  Requests.to_value_inner := to_value_inner; Requests.fields := fields;
  Requests.proof := proof; Requests.set_proof := set_proof; proof_key := 6 |}.
#[global] Instance DeactivateRequest_request_laws : SignedRequestLaws DeactivateRequest.
Proof.
  split; try done.
  - intros [] c; reflexivity.
  - intros [] c; apply keys_NoDup; reflexivity.
  - intros c k Hk. by assoc_cases.
  - intros p c k Hk. by assoc_cases.
  - exact DeactivateRequest_read.
  - intros p c []. by split.
  - intros ip c. change (leaf_keys (to_value_inner ip c) = true). unfold to_value_inner.
    destruct ip; leaf_fields.
Qed.
End DeactivateRequest.
Notation DeactivateRequest := DeactivateRequest.DeactivateRequest.

(** ** Activation *)
Module ActivationRequest.
Record ActivationRequest := mk {
  proto_ver : Z;
  suite_id : list byte;
  product_id : string;
  credential : Credential;
  fingerprint : Fingerprint;
  device_attrs : option DeviceAttrs;
  device_kem_ek : list byte;
  device_sig_vk : list byte;
  nonce_c : list byte;
  client_time : Z;
  client_info : ClientInfo;
  attestation : option (list byte);
  proof : list byte;
}.

Definition to_value_inner (include_proof : bool) (c : ActivationRequest) : CborValue :=
  let b := MapBuilder.new in
  let b := MapBuilder.put b 0 (Uint (proto_ver c)) in
  let b := MapBuilder.put b 1 (Bytes (suite_id c)) in
  let b := MapBuilder.put b 2 (Text (text_bytes (product_id c))) in
  let b := MapBuilder.put b 3 (Credential.to_value (credential c)) in
  let b := MapBuilder.put b 4 (Bytes (fingerprint c)) in
  let b := MapBuilder.put_opt b 5 (option_map attrs.encode_attrs (device_attrs c)) in
  let b := MapBuilder.put b 6 (Bytes (device_kem_ek c)) in
  let b := MapBuilder.put b 7 (Bytes (nonce_c c)) in
  let b := MapBuilder.put b 8 (CborValue.int (client_time c)) in
  let b := MapBuilder.put b 9 (ClientInfo.to_value (client_info c)) in
  let b := MapBuilder.put_opt b 10 (option_map Bytes (attestation c)) in
  let b := MapBuilder.put b 11 (Bytes (device_sig_vk c)) in
  let b := if include_proof then MapBuilder.put b 12 (Bytes (proof c)) else b in
  MapBuilder.build b.

Definition to_value (c : ActivationRequest) : CborValue := to_value_inner true c.

Definition proof_input (c : ActivationRequest) : list byte :=
  CborValue.to_canonical (to_value_inner false c).

Definition from_value (v : CborValue) : result ActivationRequest ProtoError :=
  proto_ver <-? field.u8_field v 0 ;;
  suite_id <-? field.suite_id v 1 ;;
  product_id <-? field.text v 2 ;;
  credential <-? field.req_with Credential.from_value v 3 ;;
  fingerprint <-? field.fingerprint v 4 ;;
  device_attrs <-? field.opt_with attrs.decode_attrs v 5 ;;
  device_kem_ek <-? field.bytes v 6 ;;
  nonce_c <-? field.fixed 32 v 7 ;;
  client_time <-? field.int v 8 ;;
  client_info <-? field.req_with ClientInfo.from_value v 9 ;;
  attestation <-? field.opt_bytes v 10 ;;
  device_sig_vk <-? field.bytes v 11 ;;
  proof <-? field.bytes v 12 ;;
  Ok (mk proto_ver suite_id product_id credential fingerprint device_attrs device_kem_ek device_sig_vk nonce_c client_time client_info attestation proof).

#[global] Instance ActivationRequest_artifact : Artifact ActivationRequest := {|
  KIND := ArtifactKind.ActivationRequest; limits := CLIENT_LIMITS;
  Field.to_value := to_value; Field.from_value := from_value |}.

Record typed (c : ActivationRequest) : Prop := {
  ty_proto : in_u8 (proto_ver c);
  ty_suite : length (suite_id c) = 4%nat;
  ty_attrs : forall a, device_attrs c = Some a -> attrs.typed a;
  ty_nonce : length (nonce_c c) = 32%nat;
  ty_time : in_i64 (client_time c);
  ty_info : ClientInfo.typed (client_info c);
}.
#[global] Instance ActivationRequest_typed : WellTyped ActivationRequest := typed.

Definition fields (include_proof : bool) (c : ActivationRequest) : list (Z * option CborValue) :=
  [(0, Some (Uint (proto_ver c)));
   (1, Some (Bytes (suite_id c)));
   (2, Some (Text (text_bytes (product_id c))));
   (3, Some (Credential.to_value (credential c)));
   (4, Some (Bytes (fingerprint c)));
   (5, option_map attrs.encode_attrs (device_attrs c));
   (6, Some (Bytes (device_kem_ek c)));
   (7, Some (Bytes (nonce_c c)));
   (8, Some (CborValue.int (client_time c)));
   (9, Some (ClientInfo.to_value (client_info c)));
   (10, option_map Bytes (attestation c));
   (11, Some (Bytes (device_sig_vk c)));
   (12, if include_proof then Some (Bytes (proof c)) else None)].

Definition set_proof (p : list byte) (c : ActivationRequest) : ActivationRequest :=
  mk (proto_ver c) (suite_id c) (product_id c) (credential c) (fingerprint c) (device_attrs c) (device_kem_ek c) (device_sig_vk c) (nonce_c c) (client_time c) (client_info c) (attestation c) p.

Lemma ActivationRequest_read v c :
  typed c -> (forall k, get v k = option_map norm (assoc (fields true c) k)) -> from_value v = Ok c.
Proof.
  intros [] Hget. unfold from_value. read_fields Hget.
  eapply rbind_eq; [eapply (req_with_ok _ _ Credential.to_value); [find_field Hget|]|cbv beta].
  { apply Credential.credential_roundtrip. }
  read_fields Hget. eapply rbind_eq; [eapply (opt_with_ok _ _ attrs.encode_attrs); [find_field Hget|]|cbv beta].
  { intros a Ha. split; [done|]. auto using attrs.decode_attrs_ok. }
  read_fields Hget. eapply rbind_eq; [eapply (req_with_ok _ _ ClientInfo.to_value); [find_field Hget|]|cbv beta].
  { by apply ClientInfo.client_info_roundtrip. }
  read_fields Hget.
  by destruct c.
Qed.

#[global] Instance ActivationRequest_request : SignedRequest ActivationRequest := {|
  Requests.to_value_inner := to_value_inner; Requests.fields := fields;
  Requests.proof := proof; Requests.set_proof := set_proof; proof_key := 12 |}.
#[global] Instance ActivationRequest_request_laws : SignedRequestLaws ActivationRequest.
Proof.
  split; try done.
  - intros [] c; reflexivity.
  - intros [] c; apply keys_NoDup; reflexivity.
  - intros c k Hk. by assoc_cases.
  - intros p c k Hk. by assoc_cases.
  - exact ActivationRequest_read.
  - intros p c []. by split.
  - intros ip c. change (leaf_keys (to_value_inner ip c) = true). unfold to_value_inner.
    destruct ip; leaf_fields.
Qed.
End ActivationRequest.
Notation ActivationRequest := ActivationRequest.ActivationRequest.

(** ** Validation *)
Module ValidateRequest.
Record ValidateRequest := mk {
  proto_ver : Z;
  suite_id : list byte;
  license_id : LicenseId;
  machine_id : MachineId;
  fingerprint : Fingerprint;
  nonce_c : list byte;
  client_time : Z;
  known_revocation_epoch : Z;
  client_info : ClientInfo;
  proof : list byte;
  integrity_summary : option (list byte);
  known_security_floor : Z;
  telemetry : option TelemetryBlock;
}.

Definition to_value_inner (include_proof : bool) (c : ValidateRequest) : CborValue :=
  let b := MapBuilder.new in
  let b := MapBuilder.put b 0 (Uint (proto_ver c)) in
  let b := MapBuilder.put b 1 (Bytes (suite_id c)) in
  let b := MapBuilder.put b 2 (Bytes (machine_id c)) in
  let b := MapBuilder.put b 3 (Bytes (fingerprint c)) in
  let b := MapBuilder.put b 4 (Bytes (nonce_c c)) in
  let b := MapBuilder.put b 5 (CborValue.int (client_time c)) in
  let b := MapBuilder.put b 6 (Uint (known_revocation_epoch c)) in
  let b := MapBuilder.put b 7 (ClientInfo.to_value (client_info c)) in
  let b := if include_proof then MapBuilder.put b 8 (Bytes (proof c)) else b in
  let b := MapBuilder.put_opt b 9 (option_map Bytes (integrity_summary c)) in
  let b := MapBuilder.put b 10 (Uint (known_security_floor c)) in
  let b := MapBuilder.put_opt b 11 (option_map TelemetryBlock.to_value (telemetry c)) in
  let b := MapBuilder.put b 12 (Bytes (license_id c)) in
  MapBuilder.build b.

Definition to_value (c : ValidateRequest) : CborValue := to_value_inner true c.

Definition proof_input (c : ValidateRequest) : list byte :=
  CborValue.to_canonical (to_value_inner false c).

Definition from_value (v : CborValue) : result ValidateRequest ProtoError :=
  proto_ver <-? field.u8_field v 0 ;;
  suite_id <-? field.suite_id v 1 ;;
  license_id <-? field.license_id v 12 ;;
  machine_id <-? field.machine_id v 2 ;;
  fingerprint <-? field.fingerprint v 3 ;;
  nonce_c <-? field.fixed 32 v 4 ;;
  client_time <-? field.int v 5 ;;
  known_revocation_epoch <-? field.uint v 6 ;;
  client_info <-? field.req_with ClientInfo.from_value v 7 ;;
  proof <-? field.bytes v 8 ;;
  integrity_summary <-? field.opt_bytes v 9 ;;
  known_security_floor <-? field.uint v 10 ;;
  telemetry <-? field.opt_with TelemetryBlock.from_value v 11 ;;
  Ok (mk proto_ver suite_id license_id machine_id fingerprint nonce_c client_time known_revocation_epoch client_info proof integrity_summary known_security_floor telemetry).

#[global] Instance ValidateRequest_artifact : Artifact ValidateRequest := {|
  KIND := ArtifactKind.ValidateRequest; limits := CLIENT_LIMITS;
  Field.to_value := to_value; Field.from_value := from_value |}.

Record typed (c : ValidateRequest) : Prop := {
  ty_proto : in_u8 (proto_ver c);
  ty_suite : length (suite_id c) = 4%nat;
  ty_license : length (license_id c) = 16%nat;
  ty_machine : length (machine_id c) = 16%nat;
  ty_nonce : length (nonce_c c) = 32%nat;
  ty_time : in_i64 (client_time c);
  ty_info : ClientInfo.typed (client_info c);
  ty_telemetry : forall t, telemetry c = Some t -> TelemetryBlock.typed t;
}.
#[global] Instance ValidateRequest_typed : WellTyped ValidateRequest := typed.

Definition fields (include_proof : bool) (c : ValidateRequest) : list (Z * option CborValue) :=
  [(0, Some (Uint (proto_ver c)));
   (1, Some (Bytes (suite_id c)));
   (2, Some (Bytes (machine_id c)));
   (3, Some (Bytes (fingerprint c)));
   (4, Some (Bytes (nonce_c c)));
   (5, Some (CborValue.int (client_time c)));
   (6, Some (Uint (known_revocation_epoch c)));
   (7, Some (ClientInfo.to_value (client_info c)));
   (8, if include_proof then Some (Bytes (proof c)) else None);
   (9, option_map Bytes (integrity_summary c));
   (10, Some (Uint (known_security_floor c)));
   (11, option_map TelemetryBlock.to_value (telemetry c));
   (12, Some (Bytes (license_id c)))].

Definition set_proof (p : list byte) (c : ValidateRequest) : ValidateRequest :=
  mk (proto_ver c) (suite_id c) (license_id c) (machine_id c) (fingerprint c) (nonce_c c) (client_time c) (known_revocation_epoch c) (client_info c) p (integrity_summary c) (known_security_floor c) (telemetry c).

Lemma ValidateRequest_read v c :
  typed c -> (forall k, get v k = option_map norm (assoc (fields true c) k)) -> from_value v = Ok c.
Proof.
  intros [] Hget. unfold from_value. read_fields Hget.
  eapply rbind_eq; [eapply (req_with_ok _ _ ClientInfo.to_value); [find_field Hget|]|cbv beta].
  { by apply ClientInfo.client_info_roundtrip. }
  read_fields Hget. eapply rbind_eq; [eapply (opt_with_ok _ _ TelemetryBlock.to_value); [find_field Hget|]|cbv beta].
  { intros t Ht. split; [done|]. auto using TelemetryBlock.telemetry_roundtrip. }
  by destruct c.
Qed.

#[global] Instance ValidateRequest_request : SignedRequest ValidateRequest := {|
  Requests.to_value_inner := to_value_inner; Requests.fields := fields;
  Requests.proof := proof; Requests.set_proof := set_proof; proof_key := 8 |}.
#[global] Instance ValidateRequest_request_laws : SignedRequestLaws ValidateRequest.
Proof.
  split; try done.
  - intros [] c; reflexivity.
  - intros [] c; apply keys_NoDup; reflexivity.
  - intros c k Hk. by assoc_cases.
  - intros p c k Hk. by assoc_cases.
  - exact ValidateRequest_read.
  - intros p c []. by split.
  - intros ip c. change (leaf_keys (to_value_inner ip c) = true). unfold to_value_inner.
    destruct ip; leaf_fields.
Qed.
End ValidateRequest.
Notation ValidateRequest := ValidateRequest.ValidateRequest.

Section SignedRequests.
Context `{SignedRequestLaws A}.

(** [decode] of the [artifact_like!] macro. *)
Definition decode_request (bytes : list byte) : result A ProtoError :=
  bounded MAX_BODY_BYTES bytes (Field.decode bytes).

Definition request_proof_input (a : A) : list byte := CborValue.to_canonical (to_value_inner false a).

(** Within the limits every endpoint decodes with. *)
Definition request_fits (a : A) : Prop :=
  forall ip, within CLIENT_LIMITS (Parser.depth_budget CLIENT_LIMITS) (to_value_inner ip a).

Lemma client_limits_typed : limits_typed CLIENT_LIMITS.
Proof. by split; split. Qed.

Lemma get_request ip a k :
  get (norm (to_value_inner ip a)) k = option_map norm (assoc (fields ip a) k).
Proof. rewrite inner_fields. apply get_norm_fields, fields_keys. Qed.

#[local] Instance signed_request_artifact : ArtifactLaws A.
Proof.
  split.
  - rewrite request_limits. apply client_limits_typed.
  - intros a. rewrite inner_true, inner_fields, entries_of_fields. by eexists.
  - intros a. rewrite inner_true. apply inner_leaf.
  - intros a Ha. apply read_request; [done|]. intros k. rewrite inner_true. apply get_request.
Qed.

Lemma decode_request_encode a :
  typed a -> request_fits a ->
  decode_request (Field.encode a) =
    if Z.of_nat (length (Field.encode a)) >? MAX_BODY_BYTES then Err too_long else Ok a.
Proof.
  intros Ha Hf. unfold decode_request, bounded. destruct (_ >? _); [done|].
  apply artifact_decode_encode; [done|]. unfold fits. rewrite request_limits, inner_true. apply Hf.
Qed.

Lemma proof_input_binds a b :
  typed a -> typed b -> request_fits a -> request_fits b ->
  request_proof_input a = request_proof_input b -> a = set_proof (proof a) b.
Proof.
  intros Ha Hb Hfa Hfb Heq.
  apply (to_canonical_inj CLIENT_LIMITS (Parser.depth_budget CLIENT_LIMITS)) in Heq;
    [|apply client_limits_typed|apply Hfa|apply Hfb|apply inner_leaf..].
  pose proof (read_request (norm (to_value_inner true a)) a Ha (get_request true a)) as Hr.
  rewrite (read_request (norm (to_value_inner true a)) (set_proof (proof a) b)) in Hr.
  - by injection Hr.
  - by apply set_proof_typed.
  - intros k. rewrite get_request. destruct (decide (k = proof_key)) as [->|Hk].
    + by rewrite !fields_proof, proof_set_proof.
    + rewrite set_proof_others, !fields_without_proof by done.
      by rewrite <- !get_request, Heq.
Qed.
End SignedRequests.

(** Each of the four requests a device sends survives the wire: the server decodes what the
    client encoded, for all field values within the endpoint's limits, and refuses it exactly
    when the body is over 16 KiB. *)
Theorem requests_roundtrip :
  (forall a : ActivationRequest, typed a -> request_fits a ->
     decode_request (Field.encode a) =
     if Z.of_nat (length (Field.encode a)) >? MAX_BODY_BYTES then Err too_long else Ok a) /\
  (forall a : ValidateRequest, typed a -> request_fits a ->
     decode_request (Field.encode a) =
     if Z.of_nat (length (Field.encode a)) >? MAX_BODY_BYTES then Err too_long else Ok a) /\
  (forall a : HeartbeatRequest, typed a -> request_fits a ->
     decode_request (Field.encode a) =
     if Z.of_nat (length (Field.encode a)) >? MAX_BODY_BYTES then Err too_long else Ok a) /\
  (forall a : DeactivateRequest, typed a -> request_fits a ->
     decode_request (Field.encode a) =
     if Z.of_nat (length (Field.encode a)) >? MAX_BODY_BYTES then Err too_long else Ok a).
Proof. split_and!; apply decode_request_encode. Qed.

(** The device proof pins the whole request: two requests with the same signed bytes are the
    same in every field but the proof itself - an intermediary cannot keep the signature while
    replacing the encapsulation key, the nonce, the licence, the machine or the telemetry. *)
Theorem proof_pins_every_field :
  (forall a b : ActivationRequest, typed a -> typed b -> request_fits a -> request_fits b ->
     ActivationRequest.proof_input a = ActivationRequest.proof_input b ->
     a = ActivationRequest.set_proof (ActivationRequest.proof a) b) /\
  (forall a b : ValidateRequest, typed a -> typed b -> request_fits a -> request_fits b ->
     ValidateRequest.proof_input a = ValidateRequest.proof_input b ->
     a = ValidateRequest.set_proof (ValidateRequest.proof a) b) /\
  (forall a b : HeartbeatRequest, typed a -> typed b -> request_fits a -> request_fits b ->
     HeartbeatRequest.proof_input a = HeartbeatRequest.proof_input b ->
     a = HeartbeatRequest.set_proof (HeartbeatRequest.proof a) b) /\
  (forall a b : DeactivateRequest, typed a -> typed b -> request_fits a -> request_fits b ->
     DeactivateRequest.proof_input a = DeactivateRequest.proof_input b ->
     a = DeactivateRequest.set_proof (DeactivateRequest.proof a) b).
Proof. split_and!; intros a b Ha Hb Hfa Hfb Heq; exact (proof_input_binds a b Ha Hb Hfa Hfb Heq). Qed.

(** ** Fingerprint input *)

(** The bytes a fingerprint is computed over determine the attributes: no two attribute maps -
    an absent attribute and a missing one, a text ["1"] and the number 1, differently split
    sets - collide before hashing, whatever order they were inserted in. *)
Theorem attribute_bytes_injective (a b : DeviceAttrs) (l : Limits) (Hl : limits_typed l)
    (Ha : attrs.typed a) (Hb : attrs.typed b)
    (Hfa : within l (Parser.depth_budget l) (attrs.encode_attrs a))
    (Hfb : within l (Parser.depth_budget l) (attrs.encode_attrs b))
    (Heq : attrs.canonical_bytes a = attrs.canonical_bytes b) : a = b.
Proof.
  apply (to_canonical_inj l (Parser.depth_budget l)) in Heq; try done; try apply attrs.leaf_attrs.
  pose proof (attrs.decode_attrs_ok a Ha) as H1. rewrite Heq, attrs.decode_attrs_ok in H1 by done.
  by injection H1.
Qed.

Definition demo_attrs (v : AttrValue) : DeviceAttrs := DeviceAttrs.mk {["cpu_id" := v]}.

Lemma attribute_bytes_injective_witness :
  attrs.canonical_bytes (demo_attrs (AttrValue.Text "1")) <>
  attrs.canonical_bytes (demo_attrs (AttrValue.Int 1)).
Proof.
  intros Heq.
  assert (E : demo_attrs (AttrValue.Text "1") = demo_attrs (AttrValue.Int 1)).
  { apply (attribute_bytes_injective (demo_attrs (AttrValue.Text "1")) (demo_attrs (AttrValue.Int 1))
      CLIENT_LIMITS client_limits_typed); [| | | |exact Heq].
    - apply map_Forall_singleton. exact I.
    - apply map_Forall_singleton. split; discriminate.
    - apply within_by_decoding; [apply (bool_decide_unpack (Forall _ _))|]; vm_compute; reflexivity.
    - apply within_by_decoding; [apply (bool_decide_unpack (Forall _ _))|]; vm_compute; reflexivity. }
  discriminate E.
Defined.
