(* ===== verification/Messages.v ===== *)
(** * Small messages around the protocol
      (account requests of [requests.rs], [responses.rs], [challenge.rs])

    Sessions of the account endpoints, the keyset, error and acknowledgement bodies, and the
    feature challenge a host application exchanges with the client.  Every decoder bounds the
    body, requires the exact set of fields and validates what it read. *)

From S2P Require Import Prelude Types Errors Cbor LicenseKey Field Chain Requests.
Import CborValue.

(** [decode_canonical(bytes, limits)?] followed by a count of the map's entries. *)
Definition exact_map (l : Limits) (n : nat) (bytes : list byte) : result CborValue ProtoError :=
  v <-? map_err ProtoError.Codec (Parser.decode_canonical bytes l) ;;
  match as_map v with
  | Some entries => if (length entries =? n)%nat then Ok v else Err malformed
  | None => Err malformed
  end.

Definition contains_nul (s : string) : bool := bool_decide (0 ∈ text_bytes s).
Definition str_len (s : string) : Z := Z.of_nat (String.length s).

Definition is_product_slug (value : string) : bool :=
  negb (str_len value =? 0) && (str_len value <=? 128) &&
  forallb (fun b => is_ascii_alphanumeric b || (b =? 45) || (b =? 95) || (b =? 46)) (text_bytes value).

Definition MAX_ACCOUNT_EMAIL_BYTES : Z := 254.
Definition MAX_ACCOUNT_PASSWORD_BYTES : Z := 1024.
Definition ACCOUNT_SCHEMA_V1 : Z := 1.
Definition ACCOUNT_TOKEN_LEN : nat := 32.

Definition is_ascii_control (b : byte) : bool := (b <? 32) || (b =? 127).
Definition is_account_email (value : string) : bool :=
  (3 <=? str_len value) && (str_len value <=? MAX_ACCOUNT_EMAIL_BYTES) &&
  existsb (fun b => b =? 64) (text_bytes value) &&
  negb (existsb (fun b => is_ascii_control b || (b =? 32) || (b =? 0)) (text_bytes value)).

Module AccountLoginRequest.
Record AccountLoginRequest := mk { schema : Z; product_id : string; email : string; password : string }.

Definition validate (r : AccountLoginRequest) : result unit ProtoError :=
  if negb (schema r =? ACCOUNT_SCHEMA_V1)
     || negb (is_product_slug (product_id r))
     || negb (is_account_email (email r))
     || (str_len (password r) =? 0)
     || (MAX_ACCOUNT_PASSWORD_BYTES <? str_len (password r))
     || contains_nul (password r)
  then Err malformed else Ok tt.

Definition new (product_id email password : string) : result AccountLoginRequest ProtoError :=
  let value := mk ACCOUNT_SCHEMA_V1 product_id email password in
  check? validate value ;; Ok value.

Definition to_value (r : AccountLoginRequest) : CborValue :=
  let b := MapBuilder.new in
  let b := MapBuilder.put b 0 (Uint (schema r)) in
  let b := MapBuilder.put b 1 (Text (text_bytes (product_id r))) in
  let b := MapBuilder.put b 2 (Text (text_bytes (email r))) in
  let b := MapBuilder.put b 3 (Text (text_bytes (password r))) in
  MapBuilder.build b.
Definition encode (r : AccountLoginRequest) : list byte := CborValue.to_canonical (to_value r).

Definition decode (bytes : list byte) : result AccountLoginRequest ProtoError :=
  bounded MAX_BODY_BYTES bytes
    (value <-? exact_map CLIENT_LIMITS 4 bytes ;;
     schema <-? field.uint value 0 ;;
     product_id <-? field.text value 1 ;;
     email <-? field.text value 2 ;;
     password <-? field.text value 3 ;;
     let request := mk schema product_id email password in
     check? validate request ;; Ok request).
End AccountLoginRequest.
Notation AccountLoginRequest := AccountLoginRequest.AccountLoginRequest.

(** The refresh and logout requests have the same body. *)
Module AccountTokenRequest.
Record AccountTokenRequest := mk { schema : Z; refresh_token : list byte }.

Definition new (refresh_token : list byte) : AccountTokenRequest := mk ACCOUNT_SCHEMA_V1 refresh_token.

Definition to_value (r : AccountTokenRequest) : CborValue :=
  let b := MapBuilder.new in
  let b := MapBuilder.put b 0 (Uint (schema r)) in
  let b := MapBuilder.put b 1 (Bytes (refresh_token r)) in
  MapBuilder.build b.
Definition encode (r : AccountTokenRequest) : list byte := CborValue.to_canonical (to_value r).

Definition account_token_request (bytes : list byte) : result (list byte) ProtoError :=
  bounded MAX_BODY_BYTES bytes
    (value <-? exact_map CLIENT_LIMITS 2 bytes ;;
     schema <-? field.uint value 0 ;;
     if negb (schema =? ACCOUNT_SCHEMA_V1) then Err malformed
     else field.fixed ACCOUNT_TOKEN_LEN value 1).

Definition decode (bytes : list byte) : result AccountTokenRequest ProtoError :=
  refresh_token <-? account_token_request bytes ;; Ok (mk ACCOUNT_SCHEMA_V1 refresh_token).
End AccountTokenRequest.
Notation AccountTokenRequest := AccountTokenRequest.AccountTokenRequest.

Module AccountSession.
Record AccountSession := mk {
  account_token : list byte;
  refresh_token : list byte;
  expires_at : Z;
  refresh_expires_at : Z;
}.

Definition to_value (s : AccountSession) : CborValue :=
  let b := MapBuilder.new in
  let b := MapBuilder.put b 0 (Bytes (account_token s)) in
  let b := MapBuilder.put b 1 (Bytes (refresh_token s)) in
  let b := MapBuilder.put b 2 (CborValue.int (expires_at s)) in
  let b := MapBuilder.put b 3 (CborValue.int (refresh_expires_at s)) in
  MapBuilder.build b.
Definition encode (s : AccountSession) : list byte := CborValue.to_canonical (to_value s).

Definition decode (bytes : list byte) : result AccountSession ProtoError :=
  bounded MAX_BODY_BYTES bytes
    (value <-? exact_map CLIENT_LIMITS 4 bytes ;;
     account_token <-? field.fixed ACCOUNT_TOKEN_LEN value 0 ;;
     refresh_token <-? field.fixed ACCOUNT_TOKEN_LEN value 1 ;;
     expires_at <-? field.int value 2 ;;
     refresh_expires_at <-? field.int value 3 ;;
     Ok (mk account_token refresh_token expires_at refresh_expires_at)).
End AccountSession.
Notation AccountSession := AccountSession.AccountSession.

(** ** Responses *)
Definition MAX_KEYSET_BYTES : Z := 8 * 1024 * 1024.
Definition MAX_KEYSET_CERTIFICATES : Z := 1000.
Definition MAX_EPOCH_CERTIFICATE_BYTES : Z := 64 * 1024.

Module KeysetCodec.
Import Chain.Keyset.

Definition to_value (k : Keyset) : CborValue :=
  let b := MapBuilder.new in
  let b := MapBuilder.put b 0 (Uint (proto_ver k)) in
  let b := MapBuilder.put b 1 (Array (map Bytes (epoch_certificates k))) in
  let b := MapBuilder.put b 2 (Uint (revocation_epoch k)) in
  MapBuilder.build b.
Definition encode (k : Keyset) : list byte := CborValue.to_canonical (to_value k).

(** One iteration of the loop over the certificates. *)
Definition certificate (c : CborValue) : result (list byte) ProtoError :=
  encoded <-? ok_of_option (as_bytes c) (field.mismatch 1) ;;
  if Z.of_nat (length encoded) >? MAX_EPOCH_CERTIFICATE_BYTES then Err too_long else Ok encoded.

Definition decode (bytes : list byte) : result Keyset ProtoError :=
  bounded MAX_KEYSET_BYTES bytes
    (value <-? map_err ProtoError.Codec (Parser.decode_canonical bytes BULK_LIMITS) ;;
     r <-? field.req value 1 ;;
     certificates <-? ok_of_option (as_array r) (field.mismatch 1) ;;
     if Z.of_nat (length certificates) >? MAX_KEYSET_CERTIFICATES then Err too_long
     else
     epoch_certificates <-? traverse certificate certificates ;;
     proto_ver <-? field.u8_field value 0 ;;
     revocation_epoch <-? field.uint value 2 ;;
     Ok (mk proto_ver epoch_certificates revocation_epoch)).
End KeysetCodec.

Module ProtocolErrorResponse.
Record ProtocolErrorResponse := mk { code : Z; message : option string; retry_after : option Z }.

Definition decode (bytes : list byte) : result ProtocolErrorResponse ProtoError :=
  bounded MAX_BODY_BYTES bytes
    (value <-? map_err ProtoError.Codec (Parser.decode_canonical bytes CLIENT_LIMITS) ;;
     r <-? field.opt_uint value 2 ;;
     retry_after <-? field.narrow_opt u32_max 2 r ;;
     code <-? field.uint value 0 ;;
     message <-? field.opt_text value 1 ;;
     Ok (mk code message retry_after)).
End ProtocolErrorResponse.

Module AckResponse.
Record AckResponse := mk { ok : bool }.
Definition decode (bytes : list byte) : result AckResponse ProtoError :=
  bounded MAX_BODY_BYTES bytes
    (value <-? map_err ProtoError.Codec (Parser.decode_canonical bytes CLIENT_LIMITS) ;;
     r <-? field.req value 0 ;;
     ok <-? ok_of_option (as_bool r) (field.mismatch 0) ;; Ok (mk ok)).
End AckResponse.

(** ** Feature challenges *)
Definition FEATURE_CHALLENGE_SCHEMA_V1 : Z := 1.
Definition MAX_FEATURE_CHALLENGE_BYTES : Z := 64 * 1024.
Definition MAX_FEATURE_ID_BYTES : Z := 1024.
Definition MAX_CHALLENGE_BYTES : Z := 60 * 1024.
Definition FEATURE_RESPONSE_LEN : nat := 32.
Definition CHALLENGE_LIMITS : Limits := Limits.mk 2 3 MAX_CHALLENGE_BYTES.

Module FeatureChallenge.
Record FeatureChallenge := mk { schema : Z; feature_id : string; challenge : list byte }.

Definition validate (c : FeatureChallenge) : result unit ProtoError :=
  if negb (schema c =? FEATURE_CHALLENGE_SCHEMA_V1)
     || (str_len (feature_id c) =? 0)
     || (MAX_FEATURE_ID_BYTES <? str_len (feature_id c))
     || contains_nul (feature_id c)
     || (length (challenge c) =? 0)%nat
     || (MAX_CHALLENGE_BYTES <? Z.of_nat (length (challenge c)))
  then Err malformed else Ok tt.

Definition new (feature_id : string) (challenge : list byte) : result FeatureChallenge ProtoError :=
  let value := mk FEATURE_CHALLENGE_SCHEMA_V1 feature_id challenge in
  check? validate value ;; Ok value.

Definition to_value (c : FeatureChallenge) : CborValue :=
  let b := MapBuilder.new in
  let b := MapBuilder.put b 0 (Uint (schema c)) in
  let b := MapBuilder.put b 1 (Text (text_bytes (feature_id c))) in
  let b := MapBuilder.put b 2 (Bytes (challenge c)) in
  MapBuilder.build b.
Definition encode (c : FeatureChallenge) : list byte := CborValue.to_canonical (to_value c).

Definition decode (bytes : list byte) : result FeatureChallenge ProtoError :=
  bounded MAX_FEATURE_CHALLENGE_BYTES bytes
    (value <-? exact_map CHALLENGE_LIMITS 3 bytes ;;
     schema <-? field.uint value 0 ;;
     feature_id <-? field.text value 1 ;;
     challenge <-? field.bytes value 2 ;;
     let c := mk schema feature_id challenge in
     check? validate c ;; Ok c).
End FeatureChallenge.
Notation FeatureChallenge := FeatureChallenge.FeatureChallenge.

Module FeatureResponse.
Record FeatureResponse := mk { schema : Z; material : list byte }.
Definition LIMITS : Limits := Limits.mk 2 2 (Z.of_nat FEATURE_RESPONSE_LEN).

Definition new (material : list byte) : FeatureResponse := mk FEATURE_CHALLENGE_SCHEMA_V1 material.

Definition to_value (c : FeatureResponse) : CborValue :=
  let b := MapBuilder.new in
  let b := MapBuilder.put b 0 (Uint (schema c)) in
  let b := MapBuilder.put b 1 (Bytes (material c)) in
  MapBuilder.build b.
Definition encode (c : FeatureResponse) : list byte := CborValue.to_canonical (to_value c).

Definition decode (bytes : list byte) : result FeatureResponse ProtoError :=
  value <-? exact_map LIMITS 2 bytes ;;
  schema <-? field.uint value 0 ;;
  material <-? field.fixed FEATURE_RESPONSE_LEN value 1 ;;
  if negb (schema =? FEATURE_CHALLENGE_SCHEMA_V1) then Err malformed
  else Ok (mk schema material).
End FeatureResponse.
Notation FeatureResponse := FeatureResponse.FeatureResponse.

(** ** Everything a constructor accepts survives the wire *)

Definition utf8 (s : string) : Prop := utf8_valid (text_bytes s) = true.

Lemma str_len_bytes s : Z.of_nat (length (text_bytes s)) = str_len s.
Proof.
  unfold text_bytes, str_len. rewrite length_map. f_equal. induction s; simpl; congruence.
Qed.

Lemma exact_map_fields l n fs (Hl : limits_typed l) :
  within l (Parser.depth_budget l) (MapBuilder.build (of_fields fs)) ->
  leaf_keys (MapBuilder.build (of_fields fs)) = true -> length (omap present fs) = n ->
  exact_map l n (CborValue.to_canonical (MapBuilder.build (of_fields fs))) =
    Ok (norm (MapBuilder.build (of_fields fs))).
Proof.
  intros Hw Hk Hn. unfold exact_map. rewrite decode_to_canonical by done. cbn [map_err rbind].
  rewrite entries_of_fields. destruct (norm_map_perm (omap present fs)) as (es & -> & Hes).
  cbn [as_map]. rewrite (Permutation_length Hes), length_map, Hn, Nat.eqb_refl. done.
Qed.

Lemma bounded_ok {A} limit v (k : result A ProtoError) :
  size_of v <= limit -> bounded limit (CborValue.to_canonical v) k = k.
Proof. intros Hs. unfold bounded, size_of in *. destruct (Z.gtb_spec (Z.of_nat (length (CborValue.to_canonical v))) limit); [lia|done]. Qed.

Lemma head_len_u64 arg : 1 <= head_len arg <= 9.
Proof. unfold head_len. repeat case_match; lia. Qed.

(** Bound every head of the goal. *)
Ltac head_bounds :=
  repeat match goal with
  | |- context [head_len ?x] =>
      let h := fresh "h" in pose proof (head_len_u64 x); set (h := head_len x) in *; clearbody h
  end.

(** Reduce the encoding of a message to the sizes of its fields. *)
Ltac message_size :=
  as_fields; rewrite size_fields; cbn [foldr field_size fst snd length omap list_omap present option_map];
  rewrite ?size_uint, ?size_text, ?size_bytes, ?str_len_bytes.

(** The fields of a message are within the limits. *)
Ltac within_message :=
  as_fields; apply within_fields; [done|by apply keys_NoDup|];
  repeat apply List.Forall_cons; try apply List.Forall_nil;
  (split; [by split|]); let w := fresh "w" in let Hw := fresh "Hw" in
    intros w Hw; cbn [snd] in Hw; injection Hw as <-.

Lemma validate_challenge_ok c :
  FeatureChallenge.validate c = Ok tt <->
  FeatureChallenge.schema c = FEATURE_CHALLENGE_SCHEMA_V1 /\
  0 < str_len (FeatureChallenge.feature_id c) <= MAX_FEATURE_ID_BYTES /\
  0 ∉ text_bytes (FeatureChallenge.feature_id c) /\
  0 < Z.of_nat (length (FeatureChallenge.challenge c)) <= MAX_CHALLENGE_BYTES.
Proof.
  unfold FeatureChallenge.validate, contains_nul, str_len.
  destruct (_ || _) eqn:E.
  - split; [done|]. intros (Hs & Hf & Hn & Hc). exfalso. revert E. apply not_true_iff_false.
    rewrite Hs. repeat (apply orb_false_iff; split); try done;
      try (apply Z.eqb_neq; lia); try (apply Z.ltb_ge; lia); try (apply Nat.eqb_neq; lia).
    by apply bool_decide_eq_false.
  - split; [intros _|done]. bprop. apply Nat.eqb_neq in H1. split_and!; try done; lia.
Qed.

Lemma challenge_roundtrip (c : FeatureChallenge)
    (Hu : utf8 (FeatureChallenge.feature_id c)) (Hv : FeatureChallenge.validate c = Ok tt) :
  FeatureChallenge.decode (FeatureChallenge.encode c) = Ok c.
Proof.
  pose proof Hv as (Hs & Hf & _ & Hc)%validate_challenge_ok.
  assert (Hw : within CHALLENGE_LIMITS 3 (FeatureChallenge.to_value c)).
  { unfold FeatureChallenge.to_value. within_message.
    - rewrite Hs. by split.
    - split; [|exact Hu]. rewrite str_len_bytes. cbn.
      unfold MAX_FEATURE_ID_BYTES, MAX_CHALLENGE_BYTES in *. lia.
    - apply Hc. }
  unfold FeatureChallenge.decode, FeatureChallenge.encode. rewrite bounded_ok.
  - unfold FeatureChallenge.to_value in *. revert Hw. as_fields. intros Hw.
    rewrite exact_map_fields by first [exact Hw|done|split; by split]. cbn [rbind].
    abstract_fields. read_fields Hget. destruct c. cbn in *. by rewrite Hv.
  - unfold FeatureChallenge.to_value. message_size. rewrite Hs.
    unfold MAX_FEATURE_ID_BYTES, MAX_CHALLENGE_BYTES, MAX_FEATURE_CHALLENGE_BYTES in *.
    head_bounds. lia.
Qed.

Lemma validate_login_ok r :
  AccountLoginRequest.validate r = Ok tt ->
  AccountLoginRequest.schema r = 1 /\ str_len (AccountLoginRequest.product_id r) <= 128 /\
  str_len (AccountLoginRequest.email r) <= 254 /\ str_len (AccountLoginRequest.password r) <= 1024.
Proof.
  unfold AccountLoginRequest.validate, is_product_slug, is_account_email. destruct (_ || _) eqn:E; [done|].
  intros _. bprop. unfold ACCOUNT_SCHEMA_V1, MAX_ACCOUNT_EMAIL_BYTES, MAX_ACCOUNT_PASSWORD_BYTES in *. auto.
Qed.

Lemma login_roundtrip (r : AccountLoginRequest)
    (Hp : utf8 (AccountLoginRequest.product_id r)) (He : utf8 (AccountLoginRequest.email r))
    (Hw : utf8 (AccountLoginRequest.password r)) (Hv : AccountLoginRequest.validate r = Ok tt) :
  AccountLoginRequest.decode (AccountLoginRequest.encode r) = Ok r.
Proof.
  pose proof Hv as (Hs & Hlp & Hle & Hlw)%validate_login_ok.
  assert (Hfit : within CLIENT_LIMITS 17 (AccountLoginRequest.to_value r)).
  { unfold AccountLoginRequest.to_value. within_message.
    - rewrite Hs. by split.
    - split; [|done]. rewrite str_len_bytes. cbn. lia.
    - split; [|done]. rewrite str_len_bytes. cbn. lia.
    - split; [|done]. rewrite str_len_bytes. cbn. lia. }
  unfold AccountLoginRequest.decode, AccountLoginRequest.encode. rewrite bounded_ok.
  - unfold AccountLoginRequest.to_value in *. revert Hfit. as_fields. intros Hfit.
    rewrite exact_map_fields by first [exact Hfit|done|split; by split]. cbn [rbind].
    abstract_fields. read_fields Hget. clear Hfit. destruct r. cbn in *. by rewrite Hv.
  - unfold AccountLoginRequest.to_value. message_size. unfold MAX_BODY_BYTES. head_bounds. lia.
Qed.

Lemma token_request_roundtrip (token : list byte) (Ht : length token = ACCOUNT_TOKEN_LEN) :
  AccountTokenRequest.decode (AccountTokenRequest.encode (AccountTokenRequest.new token)) =
  Ok (AccountTokenRequest.new token).
Proof.
  assert (Hfit : within CLIENT_LIMITS 17 (AccountTokenRequest.to_value (AccountTokenRequest.new token))).
  { unfold AccountTokenRequest.to_value. within_message; cbn [within]; [by split|].
    cbn [AccountTokenRequest.refresh_token AccountTokenRequest.new]. rewrite Ht. done. }
  unfold AccountTokenRequest.decode, AccountTokenRequest.account_token_request, AccountTokenRequest.encode.
  rewrite bounded_ok.
  - unfold AccountTokenRequest.to_value in *. revert Hfit. as_fields. intros Hfit.
    rewrite exact_map_fields by first [exact Hfit|done|split; by split]. cbn [rbind].
    abstract_fields. erewrite uint_ok by (find_field Hget). cbn [rbind].
    erewrite fixed_ok; [reflexivity|find_field Hget|exact Ht].
  - unfold AccountTokenRequest.to_value. message_size. cbn [AccountTokenRequest.refresh_token AccountTokenRequest.new].
    rewrite Ht. unfold MAX_BODY_BYTES. head_bounds. change (Z.of_nat ACCOUNT_TOKEN_LEN) with 32 in *. lia.
Qed.

Lemma session_roundtrip (s : AccountSession)
    (Ha : length (AccountSession.account_token s) = ACCOUNT_TOKEN_LEN)
    (Hr : length (AccountSession.refresh_token s) = ACCOUNT_TOKEN_LEN)
    (He : in_i64 (AccountSession.expires_at s)) (Hx : in_i64 (AccountSession.refresh_expires_at s)) :
  AccountSession.decode (AccountSession.encode s) = Ok s.
Proof.
  assert (Hint : forall n, in_i64 n -> within CLIENT_LIMITS 16 (CborValue.int n) /\
    size_of (CborValue.int n) <= 9).
  { intros n Hn. unfold CborValue.int. destruct (Z.ltb_spec n 0); (split; [cbn; int_lia|]);
      unfold size_of; cbn [CborValue.to_canonical]; rewrite write_head_len; apply head_len_u64. }
  destruct (Hint _ He) as [He1 He2], (Hint _ Hx) as [Hx1 Hx2].
  assert (Hfit : within CLIENT_LIMITS 17 (AccountSession.to_value s)).
  { unfold AccountSession.to_value. within_message; [| |exact He1|exact Hx1]; cbn [within];
      rewrite ?Ha, ?Hr; done. }
  unfold AccountSession.decode, AccountSession.encode. rewrite bounded_ok.
  - unfold AccountSession.to_value in *. revert Hfit. as_fields. intros Hfit.
    rewrite exact_map_fields; [|by split; split|exact Hfit| |done].
    + cbn [rbind]. abstract_fields. read_fields Hget. by destruct s.
    + rewrite leaf_keys_of_fields. cbn [forallb fst snd]. by rewrite !leaf_int.
  - unfold AccountSession.to_value. message_size. rewrite Ha, Hr. unfold MAX_BODY_BYTES. head_bounds.
    change (Z.of_nat ACCOUNT_TOKEN_LEN) with 32 in *. lia.
Qed.

Lemma bounded_inv {A} limit bytes (k : result A ProtoError) a :
  bounded limit bytes k = Ok a -> k = Ok a /\ Z.of_nat (length bytes) <= limit.
Proof. unfold bounded. destruct (Z.gtb_spec (Z.of_nat (length bytes)) limit); [done|]. auto. Qed.

(** Every message a constructor's validation accepts survives the wire whole - the size limits
    of the decoder leave room for the largest valid message - and nothing else gets through:
    what a decoder returns has passed the same validation. *)
Theorem validated_messages_survive :
  (forall c, utf8 (FeatureChallenge.feature_id c) -> FeatureChallenge.validate c = Ok tt ->
     FeatureChallenge.decode (FeatureChallenge.encode c) = Ok c) /\
  (forall bytes c, FeatureChallenge.decode bytes = Ok c -> FeatureChallenge.validate c = Ok tt) /\
  (forall r, utf8 (AccountLoginRequest.product_id r) -> utf8 (AccountLoginRequest.email r) ->
     utf8 (AccountLoginRequest.password r) -> AccountLoginRequest.validate r = Ok tt ->
     AccountLoginRequest.decode (AccountLoginRequest.encode r) = Ok r) /\
  (forall bytes r, AccountLoginRequest.decode bytes = Ok r -> AccountLoginRequest.validate r = Ok tt) /\
  (forall token, length token = ACCOUNT_TOKEN_LEN ->
     AccountTokenRequest.decode (AccountTokenRequest.encode (AccountTokenRequest.new token)) =
     Ok (AccountTokenRequest.new token)) /\
  (forall s, length (AccountSession.account_token s) = ACCOUNT_TOKEN_LEN ->
     length (AccountSession.refresh_token s) = ACCOUNT_TOKEN_LEN ->
     in_i64 (AccountSession.expires_at s) -> in_i64 (AccountSession.refresh_expires_at s) ->
     AccountSession.decode (AccountSession.encode s) = Ok s).
Proof.
  split_and!; [apply challenge_roundtrip| |apply login_roundtrip| |apply token_request_roundtrip|
    apply session_roundtrip].
  - intros bytes c Hd. apply bounded_inv in Hd as [Hd _]. inv_result. cbv zeta in Hd. inv_result.
    by match goal with u : unit |- _ => destruct u end.
  - intros bytes r Hd. apply bounded_inv in Hd as [Hd _]. inv_result. cbv zeta in Hd. inv_result.
    by match goal with u : unit |- _ => destruct u end.
Qed.

Definition demo_challenge : FeatureChallenge := FeatureChallenge.mk 1 "export.pdf" [1; 2; 3].

Lemma validated_messages_survive_witness :
  FeatureChallenge.decode (FeatureChallenge.encode demo_challenge) = Ok demo_challenge.
Proof. apply validated_messages_survive; vm_compute; reflexivity. Defined.
