(* ===== verification/Armor.v ===== *)
(** * Text armor for offline licences and requests
      ([crates/copylocker-proto/src/offline_bundle.rs], [offline_armor.rs])

    Crockford Base32 without padding over a bit buffer, the two armored carriers, and the
    offline licence bundle.  Text is its UTF-8 bytes: ASCII whitespace and the alphabet are
    single bytes, so filtering characters is filtering bytes.  The codec is proved against the
    bit string its input denotes. *)

From S2P Require Import Prelude Types Errors Cbor Field Chain Requests Messages.
Import CborValue.

Definition OLK_BUNDLE_SCHEMA_V1 : Z := 1.
Definition MAX_OLK_BUNDLE_BYTES : Z := 1024 * 1024.
Definition UNBOUND_OLK_BINDING_LABEL : list byte := text_bytes "copylocker/olk-unbound/v1".
Definition MAX_OLK_ENVELOPE_BYTES : Z := 256 * 1024.
Definition CROCKFORD : list byte := text_bytes "0123456789ABCDEFGHJKMNPQRSTVWXYZ".
Definition BUNDLE_LIMITS : Limits := Limits.mk MAX_CBOR_DEPTH 32 MAX_OLK_BUNDLE_BYTES.

(** ** Base32 *)
Module Crockford.
Definition u16 (v : Z) : Z := Z.land v 65535.

(** [char::from(CROCKFORD.get(index).copied().unwrap_or(b'0'))]. *)
Definition symbol (index : Z) : byte := nth (Z.to_nat index) CROCKFORD 48.

(** The [while bits >= 5] loop: buffer, bits and the symbols pushed. *)
Fixpoint drain (fuel : nat) (buffer bits : Z) : Z * Z * list byte :=
  match fuel with
  | O => (buffer, bits, [])
  | S fuel =>
      if 5 <=? bits then
        let bits := bits - 5 in
        let s := symbol (Z.land (Z.shiftr buffer bits) 31) in
        let buffer := Z.land buffer (u16 (Z.shiftl 1 bits) - 1) in
        let '(buffer, bits, out) := drain fuel buffer bits in (buffer, bits, s :: out)
      else (buffer, bits, [])
  end.

Fixpoint encode_go (bytes : list byte) (buffer bits : Z) : list byte :=
  match bytes with
  | [] => if bits =? 0 then [] else [symbol (Z.land (u16 (Z.shiftl buffer (5 - bits))) 31)]
  | byte :: bytes =>
      let buffer := Z.lor (u16 (Z.shiftl buffer 8)) byte in
      let bits := bits + 8 in
      let '(buffer, bits, out) := drain (Z.to_nat bits) buffer bits in
      out ++ encode_go bytes buffer bits
  end.

Definition crockford_encode (bytes : list byte) : list byte := encode_go bytes 0 0.

(** [CROCKFORD.iter().position(|c| c == byte)]. *)
Fixpoint position (l : list byte) (b : byte) (i : Z) : option Z :=
  match l with
  | [] => None
  | c :: l => if c =? b then Some i else position l b (i + 1)
  end.

Fixpoint decode_go (input : list byte) (buffer bits : Z) (output : list byte)
    : result (list byte * Z * Z) ProtoError :=
  match input with
  | [] => Ok (output, buffer, bits)
  | b :: input =>
      value <-? ok_of_option (position CROCKFORD b 0) malformed ;;
      let buffer := Z.lor (u16 (Z.shiftl buffer 5)) value in
      let bits := bits + 5 in
      if 8 <=? bits then
        let bits := bits - 8 in
        let output := output ++ [Z.land (Z.shiftr buffer bits) 255] in
        let buffer := Z.land buffer (u16 (Z.shiftl 1 bits) - 1) in
        if Z.of_nat (length output) >? MAX_OLK_BUNDLE_BYTES then Err too_long
        else decode_go input buffer bits output
      else decode_go input buffer bits output
  end.

(** [MAX_OLK_BUNDLE_BYTES.saturating_mul(8).div_ceil(5)]. *)
Definition MAX_SYMBOLS : Z := (MAX_OLK_BUNDLE_BYTES * 8 + 4) / 5.

Definition crockford_decode (input : list byte) : result (list byte) ProtoError :=
  if (length input =? 0)%nat || (MAX_SYMBOLS <? Z.of_nat (length input)) then Err too_long
  else
    r <-? decode_go input 0 0 [] ;;
    let '(output, buffer, bits) := r in
    if negb (bits =? 0) && negb (buffer =? 0) then Err malformed else Ok output.
End Crockford.

(** ** Armor *)
Definition is_ascii_whitespace (b : byte) : bool :=
  (b =? 32) || (b =? 9) || (b =? 10) || (b =? 12) || (b =? 13).

Fixpoint trim_start (s : list byte) : list byte :=
  match s with
  | b :: s' => if is_ascii_whitespace b then trim_start s' else s
  | [] => []
  end.
Definition trim_matches (s : list byte) : list byte := rev (trim_start (rev (trim_start s))).

Fixpoint strip_prefix (p s : list byte) : option (list byte) :=
  match p, s with
  | [], s => Some s
  | x :: p, y :: s => if x =? y then strip_prefix p s else None
  | _ :: _, [] => None
  end.
Definition strip_suffix (p s : list byte) : option (list byte) :=
  option_map (@rev byte) (strip_prefix (rev p) (rev s)).

(** The part the two parsers share: optional boundaries, whitespace, prefix, Base32. *)
Definition unarmor (begin_ end_ prefix : list byte) (input : list byte)
    : result (list byte) ProtoError :=
  let trimmed := trim_matches input in
  body <-? match strip_prefix begin_ trimmed with
    | Some after_begin => ok_of_option (strip_suffix end_ after_begin) malformed
    | None => Ok trimmed
    end ;;
  let compact := List.filter (fun b => negb (is_ascii_whitespace b)) body in
  payload <-? ok_of_option (strip_prefix prefix compact) malformed ;;
  Crockford.crockford_decode payload.

Definition AR_ARMOR_PREFIX : list byte := text_bytes "CLR1:".
Definition MAX_AR_ARMORED_BYTES : Z := MAX_BODY_BYTES.
Definition AR_ARMOR_BEGIN : list byte := text_bytes "-----BEGIN COPYLOCKER ACTIVATION REQUEST-----".
Definition AR_ARMOR_END : list byte := text_bytes "-----END COPYLOCKER ACTIVATION REQUEST-----".

Definition armor_activation_request (bytes : list byte) : list byte :=
  AR_ARMOR_PREFIX ++ Crockford.crockford_encode bytes.

Definition unarmor_activation_request (input : list byte) : result (list byte) ProtoError :=
  decoded <-? unarmor AR_ARMOR_BEGIN AR_ARMOR_END AR_ARMOR_PREFIX input ;;
  if Z.of_nat (length decoded) >? MAX_AR_ARMORED_BYTES then Err too_long else Ok decoded.

Definition ARMOR_PREFIX : list byte := text_bytes "CLK1:".
Definition ARMOR_BEGIN : list byte := text_bytes "-----BEGIN COPYLOCKER OFFLINE LICENSE-----".
Definition ARMOR_END : list byte := text_bytes "-----END COPYLOCKER OFFLINE LICENSE-----".

Module OfflineLicenseBundle.
Record OfflineLicenseBundle := mk {
  schema : Z;
  license_envelope : list byte;
  epoch_certificates : list (list byte);
}.

Definition new (license_envelope : list byte) (epoch_certificates : list (list byte))
    : OfflineLicenseBundle :=
  mk OLK_BUNDLE_SCHEMA_V1 license_envelope epoch_certificates.

Definition to_value (b : OfflineLicenseBundle) : CborValue :=
  let m := MapBuilder.new in
  let m := MapBuilder.put m 0 (Uint (schema b)) in
  let m := MapBuilder.put m 1 (Bytes (license_envelope b)) in
  let m := MapBuilder.put m 2 (Array (map Bytes (epoch_certificates b))) in
  MapBuilder.build m.
Definition encode (b : OfflineLicenseBundle) : list byte := CborValue.to_canonical (to_value b).

Definition certificate (v : CborValue) : result (list byte) ProtoError :=
  bytes <-? ok_of_option (as_bytes v) (field.mismatch 2) ;;
  if (length bytes =? 0)%nat || (MAX_EPOCH_CERTIFICATE_BYTES <? Z.of_nat (length bytes))
  then Err too_long else Ok bytes.

Definition decode (bytes : list byte) : result OfflineLicenseBundle ProtoError :=
  bounded MAX_OLK_BUNDLE_BYTES bytes
    (value <-? map_err ProtoError.Codec (Parser.decode_canonical bytes BUNDLE_LIMITS) ;;
     match as_map value with
     | None => Err malformed
     | Some _ =>
     schema <-? field.uint value 0 ;;
     license_envelope <-? field.bytes value 1 ;;
     r <-? field.req value 2 ;;
     certificate_values <-? ok_of_option (as_array r) (field.mismatch 2) ;;
     if negb (schema =? OLK_BUNDLE_SCHEMA_V1)
        || (length license_envelope =? 0)%nat
        || (MAX_OLK_ENVELOPE_BYTES <? Z.of_nat (length license_envelope))
        || (length certificate_values =? 0)%nat
        || (MAX_KEYSET_CERTIFICATES <? Z.of_nat (length certificate_values))
     then Err malformed
     else
     epoch_certificates <-? traverse certificate certificate_values ;;
     Ok (mk schema license_envelope epoch_certificates)
     end).

Definition to_armored (b : OfflineLicenseBundle) : list byte :=
  ARMOR_PREFIX ++ Crockford.crockford_encode (encode b).

Definition from_armored (input : list byte) : result OfflineLicenseBundle ProtoError :=
  decoded <-? unarmor ARMOR_BEGIN ARMOR_END ARMOR_PREFIX input ;; decode decoded.
End OfflineLicenseBundle.
Notation OfflineLicenseBundle := OfflineLicenseBundle.OfflineLicenseBundle.

Definition olk_binding_fingerprint (bound : option Fingerprint) : Fingerprint :=
  match bound with Some f => f | None => UNBOUND_OLK_BINDING_LABEL end.

(** ** The bit string of a number *)

Fixpoint bits_of (w : nat) (v : Z) : list bool :=
  match w with
  | O => []
  | S w => Z.testbit v (Z.of_nat w) :: bits_of w v
  end.

Lemma bits_of_length w v : length (bits_of w v) = w.
Proof. induction w; simpl; congruence. Qed.

Lemma bits_of_zero w : bits_of w 0 = repeat false w.
Proof. induction w as [|w IH]; simpl; [done|]. by rewrite Z.bits_0, IH. Qed.

Lemma bits_of_low w x y b : (w <= b)%nat -> bits_of w (x * 2 ^ Z.of_nat b + y) = bits_of w y.
Proof.
  intros Hw. induction w as [|w IH]; simpl; [done|]. rewrite IH by lia. f_equal.
  rewrite <- (Z.mod_pow2_bits_low _ (Z.of_nat b)) by lia.
  rewrite Z.add_comm, Z.mod_add by lia. apply Z.mod_pow2_bits_low. lia.
Qed.

Lemma bits_of_app a b x y :
  0 <= y < 2 ^ Z.of_nat b -> bits_of (a + b) (x * 2 ^ Z.of_nat b + y) = bits_of a x ++ bits_of b y.
Proof.
  intros Hy. induction a as [|a IH]; simpl; [by apply bits_of_low|]. rewrite IH. f_equal.
  rewrite Nat2Z.inj_add, <- Z.div_pow2_bits by lia.
  by rewrite Z.div_add_l, Z.div_small, Z.add_0_r by lia.
Qed.

Lemma bits_of_inj w : forall u v, 0 <= u < 2 ^ Z.of_nat w -> 0 <= v < 2 ^ Z.of_nat w ->
  bits_of w u = bits_of w v -> u = v.
Proof.
  intros u v Hu Hv Heq. apply Z.bits_inj'. intros n Hn.
  assert (Hlow : forall m, (m < w)%nat -> Z.testbit u (Z.of_nat m) = Z.testbit v (Z.of_nat m)).
  { clear - Heq. induction w as [|w IH]; intros m Hm; [lia|]. simpl in Heq. injection Heq as H1 H2.
    destruct (decide (m = w)) as [->|]; [done|]. apply IH; [done|lia]. }
  destruct (Z.lt_ge_cases n (Z.of_nat w)).
  - specialize (Hlow (Z.to_nat n)). rewrite Z2Nat.id in Hlow by done. apply Hlow. lia.
  - assert (Hhigh : forall t, 0 <= t < 2 ^ Z.of_nat w -> Z.testbit t n = false).
    { intros t Ht. rewrite <- (Z.mod_small t (2 ^ Z.of_nat w)) by done. apply Z.mod_pow2_bits_high. lia. }
    by rewrite !Hhigh.
Qed.

(** ** The bit buffer *)
Section Buffer.
Import Crockford.

(** A buffer split at [k] bits. *)
Lemma buffer_split buffer (k j : nat) :
  0 <= buffer < 2 ^ Z.of_nat (j + k) -> (k <= 15)%nat ->
  let top := Z.shiftr buffer (Z.of_nat k) in
  let low := Z.land buffer (u16 (Z.shiftl 1 (Z.of_nat k)) - 1) in
  0 <= top < 2 ^ Z.of_nat j /\ 0 <= low < 2 ^ Z.of_nat k /\
  bits_of (j + k) buffer = bits_of j top ++ bits_of k low.
Proof.
  intros Hb Hk top low. assert (Hlow : low = buffer mod 2 ^ Z.of_nat k).
  { unfold low, u16. change 65535 with (Z.ones 16). rewrite Z.land_ones, Z.shiftl_1_l by lia.
    rewrite Z.mod_small by (split; [lia|apply Z.pow_lt_mono_r; lia]).
    rewrite <- Z.land_ones by lia. f_equal. rewrite Z.ones_equiv. lia. }
  assert (Htop : top = buffer / 2 ^ Z.of_nat k) by (apply Z.shiftr_div_pow2; lia).
  assert (0 < 2 ^ Z.of_nat k) by lia.
  assert (Hpow : 2 ^ Z.of_nat (j + k) = 2 ^ Z.of_nat j * 2 ^ Z.of_nat k)
    by (rewrite Nat2Z.inj_add, Z.pow_add_r; lia).
  split_and!; try lia.
  - rewrite Htop. apply Z.div_pos; lia.
  - rewrite Htop. apply Z.div_lt_upper_bound; lia.
  - rewrite Hlow. apply Z.mod_pos_bound. lia.
  - rewrite Hlow. apply Z.mod_pos_bound. lia.
  - rewrite (Z.div_mod buffer (2 ^ Z.of_nat k)) at 1 by lia.
    rewrite Z.mul_comm, bits_of_app by (apply Z.mod_pos_bound; lia). by rewrite Htop, Hlow.
Qed.

Lemma lor_disjoint buffer v w :
  0 <= w -> 0 <= v < 2 ^ w -> Z.lor (Z.shiftl buffer w) v = buffer * 2 ^ w + v.
Proof.
  intros Hw Hv. assert (Hd : Z.land (Z.shiftl buffer w) v = 0).
  { apply Z.bits_inj'. intros n Hn. rewrite Z.land_spec, Z.bits_0.
    destruct (Z.lt_ge_cases n w).
    - by rewrite Z.shiftl_spec_low.
    - rewrite <- (Z.mod_small v (2 ^ w)), (Z.mod_pow2_bits_high v) by lia. apply andb_false_r. }
  rewrite <- Z.lxor_lor, <- Z.add_nocarry_lxor, Z.shiftl_mul_pow2 by done. done.
Qed.

Lemma push_bits buffer v (k w : nat) :
  0 <= buffer < 2 ^ Z.of_nat k -> 0 <= v < 2 ^ Z.of_nat w -> (k + w <= 16)%nat ->
  let b := Z.lor (u16 (Z.shiftl buffer (Z.of_nat w))) v in
  0 <= b < 2 ^ Z.of_nat (k + w) /\ bits_of (k + w) b = bits_of k buffer ++ bits_of w v.
Proof.
  intros Hb Hv Hkw b.
  assert (Hpow : 2 ^ Z.of_nat (k + w) = 2 ^ Z.of_nat k * 2 ^ Z.of_nat w)
    by (rewrite Nat2Z.inj_add, Z.pow_add_r; lia).
  assert (2 ^ Z.of_nat (k + w) <= 2 ^ 16) by (apply Z.pow_le_mono_r; lia).
  assert (Heq : b = buffer * 2 ^ Z.of_nat w + v).
  { unfold b, u16. change 65535 with (Z.ones 16). rewrite Z.land_ones by lia.
    rewrite Z.mod_small by (rewrite Z.shiftl_mul_pow2 by lia; nia). apply lor_disjoint; lia. }
  rewrite Heq. split; [nia|]. by apply bits_of_app.
Qed.

Definition index_ok (i : Z) : Prop := 0 <= i < 32.
Definition bits5 (idxs : list Z) : list bool := concat (map (bits_of 5) idxs).
Definition bits8 (bytes : list byte) : list bool := concat (map (bits_of 8) bytes).

Lemma bits5_length idxs : length (bits5 idxs) = (5 * length idxs)%nat.
Proof. unfold bits5. induction idxs; [done|]. cbn [map concat length]. rewrite length_app, bits_of_length, IHidxs. lia. Qed.
Lemma bits8_length bytes : length (bits8 bytes) = (8 * length bytes)%nat.
Proof. unfold bits8. induction bytes; [done|]. cbn [map concat length]. rewrite length_app, bits_of_length, IHbytes. lia. Qed.

Lemma land_small v w : 0 <= w -> 0 <= v < 2 ^ w -> Z.land v (Z.ones w) = v.
Proof. intros Hw Hv. rewrite Z.land_ones by done. by apply Z.mod_small. Qed.

Lemma drain_spec fuel : forall k buffer,
  (k <= fuel)%nat -> (k <= 16)%nat -> 0 <= buffer < 2 ^ Z.of_nat k ->
  exists buffer' (k' : nat) idxs,
    drain fuel buffer (Z.of_nat k) = (buffer', Z.of_nat k', map symbol idxs) /\
    (k' < 5)%nat /\ 0 <= buffer' < 2 ^ Z.of_nat k' /\ Forall index_ok idxs /\
    bits_of k buffer = bits5 idxs ++ bits_of k' buffer'.
Proof.
  induction fuel as [|fuel IH]; intros k buffer Hf Hk Hb.
  - exists buffer, k, []. assert (k = O) as -> by lia. split_and!; try done; lia || constructor.
  - simpl. destruct (Z.leb_spec 5 (Z.of_nat k)).
    2: { exists buffer, k, []. split_and!; try done; lia || constructor. }
    destruct (buffer_split buffer (k - 5) 5) as (Ht & Hl & Hs).
    { by replace (5 + (k - 5))%nat with k by lia. }
    { lia. }
    replace (Z.of_nat k - 5) with (Z.of_nat (k - 5)) by lia.
    set (top := Z.shiftr buffer (Z.of_nat (k - 5))) in *.
    set (low := Z.land buffer (u16 (Z.shiftl 1 (Z.of_nat (k - 5))) - 1)) in *.
    destruct (IH (k - 5)%nat low) as (b' & k' & idxs & -> & Hk' & Hb' & Hi & Hbits); [lia|lia|done|].
    exists b', k', (top :: idxs). change 31 with (Z.ones 5). rewrite (land_small top 5) by (simpl in *; lia).
    split_and!; try done; try lia.
    + constructor; [|done]. unfold index_ok. simpl in Ht. lia.
    + replace k with (5 + (k - 5))%nat at 1 by lia. rewrite Hs, Hbits. unfold bits5. simpl. done.
Qed.

Lemma encode_spec bytes : forall k buffer,
  Forall in_u8 bytes -> (k < 5)%nat -> 0 <= buffer < 2 ^ Z.of_nat k ->
  exists idxs pad, encode_go bytes buffer (Z.of_nat k) = map symbol idxs /\
    Forall index_ok idxs /\ (pad < 5)%nat /\
    bits5 idxs = bits_of k buffer ++ bits8 bytes ++ repeat false pad.
Proof.
  induction bytes as [|byte bytes IH]; intros k buffer Hby Hk Hb.
  - simpl. destruct (Z.eqb_spec (Z.of_nat k) 0).
    + exists [], O. assert (k = O) as -> by lia. split_and!; try done; lia || constructor.
    + destruct (push_bits buffer 0 k (5 - k)) as [Hr Hbits]; [done|lia|lia|].
      rewrite Z.lor_0_r in Hr, Hbits. replace (k + (5 - k))%nat with 5%nat in * by lia.
      replace (5 - Z.of_nat k) with (Z.of_nat (5 - k)) by lia.
      set (i := u16 (Z.shiftl buffer (Z.of_nat (5 - k)))) in *.
      exists [i], (5 - k)%nat. change 31 with (Z.ones 5). rewrite land_small by (simpl in *; lia).
      split_and!; [done|apply Forall_singleton; exact Hr|lia|].
      unfold bits5. cbn [map concat]. rewrite app_nil_r, Hbits, bits_of_zero. done.
  - apply Forall_cons in Hby as [Hbyte Hby]. simpl.
    destruct (push_bits buffer byte k 8) as [Hr Hbits]; [done|unfold in_u8, u8_max in Hbyte; simpl; lia|lia|].
    change (Z.of_nat 8) with 8 in *. set (b := Z.lor (u16 (Z.shiftl buffer 8)) byte) in *.
    replace (Z.of_nat k + 8) with (Z.of_nat (k + 8)) by lia. rewrite Nat2Z.id.
    destruct (drain_spec (k + 8) (k + 8) b) as (b' & k' & idxs & -> & Hk' & Hb' & Hi & Hd); [lia|lia|done|].
    destruct (IH k' b' Hby Hk' Hb') as (idxs' & pad & -> & Hi' & Hpad & Hrest).
    exists (idxs ++ idxs'), pad. rewrite map_app. split_and!; [done|by apply Forall_app|done|].
    unfold bits5 in *. rewrite map_app, concat_app, Hrest. rewrite app_assoc, <- Hd, Hbits.
    unfold bits8. simpl. by rewrite <- !app_assoc.
Qed.

Lemma symbol_position i : index_ok i -> position CROCKFORD (symbol i) 0 = Some i.
Proof.
  intros Hi. assert (Hall : forall n : nat, (n < 32)%nat ->
    position CROCKFORD (symbol (Z.of_nat n)) 0 = Some (Z.of_nat n)).
  { intros n Hn. do 32 (destruct n as [|n]; [vm_compute; done|]). lia. }
  specialize (Hall (Z.to_nat i)). unfold index_ok in Hi. rewrite Z2Nat.id in Hall by lia. apply Hall. lia.
Qed.

Lemma decode_spec idxs : forall k buffer out,
  Forall index_ok idxs -> (k < 8)%nat -> 0 <= buffer < 2 ^ Z.of_nat k ->
  8 * Z.of_nat (length out) + Z.of_nat k + 5 * Z.of_nat (length idxs) < 8 * MAX_OLK_BUNDLE_BYTES + 8 ->
  exists o buffer' (k' : nat),
    decode_go (map symbol idxs) buffer (Z.of_nat k) out = Ok (out ++ o, buffer', Z.of_nat k') /\
    (k' < 8)%nat /\ 0 <= buffer' < 2 ^ Z.of_nat k' /\ Forall in_u8 o /\
    bits8 o ++ bits_of k' buffer' = bits_of k buffer ++ bits5 idxs.
Proof.
  induction idxs as [|i idxs IH]; intros k buffer out Hi Hk Hb Hlen; cbn [map decode_go].
  - exists [], buffer, k. unfold bits5, bits8. cbn [map concat]. rewrite !app_nil_r. split_and!; try done; lia || constructor.
  - apply Forall_cons in Hi as [Hi Hidxs]. rewrite symbol_position by done. cbn [ok_of_option rbind].
    destruct (push_bits buffer i k 5) as [Hr Hbits]; [done|unfold index_ok in Hi; simpl; lia|lia|].
    change (Z.of_nat 5) with 5 in *. set (b := Z.lor (u16 (Z.shiftl buffer 5)) i) in *.
    simpl length in Hlen. destruct (Z.leb_spec 8 (Z.of_nat k + 5)).
    + destruct (buffer_split b (k - 3) 8) as (Ht & Hl & Hs).
      { by replace (8 + (k - 3))%nat with (k + 5)%nat by lia. }
      { lia. }
      replace (Z.of_nat k + 5 - 8) with (Z.of_nat (k - 3)) by lia.
      set (top := Z.shiftr b (Z.of_nat (k - 3))) in *.
      set (low := Z.land b (u16 (Z.shiftl 1 (Z.of_nat (k - 3))) - 1)) in *.
      change 255 with (Z.ones 8). rewrite (land_small top 8) by (simpl in *; lia).
      rewrite length_app. simpl length. change (2 ^ Z.of_nat 8) with 256 in Ht.
      destruct (Z.gtb_spec (Z.of_nat (length out + 1)) MAX_OLK_BUNDLE_BYTES); [lia|].
      destruct (IH (k - 3)%nat low (out ++ [top])) as (o & b' & k' & -> & Hk' & Hb' & Ho & Hbits');
        [done|lia|done|rewrite length_app; simpl length; lia|].
      exists (top :: o), b', k'. rewrite <- app_assoc. split_and!; try done; try lia.
      * constructor; [|done]. unfold in_u8, u8_max. lia.
      * unfold bits8, bits5 in *. cbn [map concat]. rewrite <- app_assoc, Hbits', !app_assoc. f_equal.
        rewrite <- Hbits, <- Hs. f_equal. lia.
    + replace (Z.of_nat k + 5) with (Z.of_nat (k + 5)) in * by lia.
      destruct (IH (k + 5)%nat b out) as (o & b' & k' & -> & Hk' & Hb' & Ho & Hbits'); [done|lia|done|lia|].
      exists o, b', k'. split_and!; try done; try lia.
      rewrite Hbits', Hbits. unfold bits5. simpl. by rewrite <- app_assoc.
Qed.

Lemma bits8_inj a : forall b, Forall in_u8 a -> Forall in_u8 b -> bits8 a = bits8 b -> a = b.
Proof.
  induction a as [|x a IH]; intros [|y b] Ha Hb Heq; try done.
  apply Forall_cons in Ha as [Hx Ha], Hb as [Hy Hb]. unfold bits8 in Heq. cbn [map concat] in Heq.
  apply app_inj_1 in Heq as [Hxy Heq]; [|by rewrite !bits_of_length].
  f_equal; [|by apply IH]. apply (bits_of_inj 8); [unfold in_u8, u8_max in *; simpl; lia..|done].
Qed.

Lemma crockford_roundtrip bytes :
  Forall in_u8 bytes -> bytes <> [] -> Z.of_nat (length bytes) <= MAX_OLK_BUNDLE_BYTES ->
  crockford_decode (crockford_encode bytes) = Ok bytes.
Proof.
  intros Hb Hne Hlen. unfold crockford_encode.
  destruct (encode_spec bytes 0 0 Hb) as (idxs & pad & He & Hi & Hpad & Hbits); [lia|simpl; lia|].
  change (Z.of_nat 0) with 0 in He. rewrite He. unfold crockford_decode. rewrite length_map.
  assert (Hl : (5 * length idxs = 8 * length bytes + pad)%nat).
  { rewrite <- bits5_length, Hbits. simpl. by rewrite length_app, bits8_length, repeat_length. }
  assert (0 < length bytes)%nat by (destruct bytes; simpl; [done|lia]).
  rewrite (proj2 (Nat.eqb_neq _ _)) by lia. unfold MAX_SYMBOLS.
  destruct (Z.ltb_spec ((MAX_OLK_BUNDLE_BYTES * 8 + 4) / 5) (Z.of_nat (length idxs))) as [Hbig|_].
  { exfalso. apply Z.lt_nge in Hbig. apply Hbig. apply Z.div_le_lower_bound; lia. }
  cbn [orb]. destruct (decode_spec idxs 0 0 [] Hi) as (o & b' & k' & Hd & Hk' & Hb' & Ho & Hdb);
    [lia|simpl; lia|simpl; lia|]. change (Z.of_nat 0) with 0 in Hd. rewrite Hd. cbn [rbind app].
  simpl in Hdb, Hbits. rewrite Hbits in Hdb.
  assert (Hol : length o = length bytes).
  { apply (f_equal length) in Hdb. rewrite !length_app, !bits8_length, bits_of_length, repeat_length in Hdb. lia. }
  apply app_inj_1 in Hdb as [Heq Hrest]; [|by rewrite !bits8_length, Hol].
  apply bits8_inj in Heq as ->; [|done..].
  assert (pad = k') as -> by (apply (f_equal length) in Hrest; rewrite bits_of_length, repeat_length in Hrest; lia).
  rewrite <- bits_of_zero in Hrest. apply bits_of_inj in Hrest as ->; [|done|lia].
  by rewrite andb_false_r.
Qed.
End Buffer.

(** ** Armor *)

Definition compact (s : list byte) : list byte :=
  List.filter (fun b => negb (is_ascii_whitespace b)) s.
Definition blank (s : list byte) : Prop := Forall (fun b => is_ascii_whitespace b = true) s.

Lemma compact_app a b : compact (a ++ b) = compact a ++ compact b.
Proof. apply List.filter_app. Qed.

Lemma compact_trim_start s : compact (trim_start s) = compact s.
Proof.
  induction s as [|x s IH]; simpl; [done|]. destruct (is_ascii_whitespace x) eqn:E; simpl; [done|].
  by rewrite E.
Qed.

Lemma compact_rev s : compact (rev s) = rev (compact s).
Proof. apply List.filter_rev. Qed.

Lemma compact_trim s : compact (trim_matches s) = compact s.
Proof.
  unfold trim_matches. by rewrite compact_rev, compact_trim_start, compact_rev, rev_involutive, compact_trim_start.
Qed.

Lemma trim_start_blank ws s : blank ws -> trim_start (ws ++ s) = trim_start s.
Proof. induction 1 as [|x ws Hx Hws IH]; simpl; [done|]. by rewrite Hx. Qed.

(** Trimming stops at the first and the last byte that is not white space. *)
Lemma trim_framed ws1 x m y ws2 :
  blank ws1 -> blank ws2 -> is_ascii_whitespace x = false -> is_ascii_whitespace y = false ->
  trim_matches (ws1 ++ (x :: m ++ [y]) ++ ws2) = x :: m ++ [y].
Proof.
  intros H1 H2 Hx Hy. unfold trim_matches. rewrite trim_start_blank by done. simpl. rewrite Hx.
  change (x :: (m ++ [y]) ++ ws2) with ((x :: m ++ [y]) ++ ws2). rewrite rev_app_distr.
  rewrite trim_start_blank by (by apply Forall_rev). simpl. rewrite rev_app_distr. simpl. rewrite Hy.
  simpl. by rewrite rev_app_distr, rev_involutive.
Qed.

(** A trimmed text starts with its first byte that is not white space. *)
Lemma trim_start_head s x c : compact s = x :: c -> exists r, trim_start s = x :: r.
Proof.
  induction s as [|b s IH]; simpl; [done|]. destruct (is_ascii_whitespace b) eqn:E; simpl; [done|].
  intros Heq. injection Heq as -> _. by exists s.
Qed.

Lemma trim_head s x c : compact s = x :: c -> exists r, trim_matches s = x :: r.
Proof.
  intros Hc. destruct (trim_start_head s x c Hc) as [r Hr]. unfold trim_matches. rewrite Hr. simpl rev.
  assert (Hx : is_ascii_whitespace x = false).
  { assert (Hin : List.In x (compact s)) by (rewrite Hc; by left).
    apply List.filter_In in Hin as [_ Hin]. by apply negb_true_iff. }
  clear - Hx. induction (rev r) as [|b l IH]; simpl.
  - rewrite Hx. by exists [].
  - destruct (is_ascii_whitespace b); [done|]. simpl. rewrite rev_app_distr. by eexists.
Qed.

Lemma strip_prefix_app p s : strip_prefix p (p ++ s) = Some s.
Proof. induction p; simpl; [done|]. by rewrite Z.eqb_refl. Qed.
Lemma strip_suffix_app p s : strip_suffix p (s ++ p) = Some s.
Proof. unfold strip_suffix. rewrite rev_app_distr, strip_prefix_app. simpl. by rewrite rev_involutive. Qed.

Section Unarmor.
Context (begin_ end_ prefix : list byte) (b0 bn p0 : byte) (begin' end' prefix' : list byte).
Context (Hbegin : begin_ = b0 :: begin') (Hend : end_ = end' ++ [bn]) (Hprefix : prefix = p0 :: prefix').
Context (Hb0 : is_ascii_whitespace b0 = false) (Hbn : is_ascii_whitespace bn = false) (Hne : b0 <> p0).

(** Without boundaries, white space anywhere is ignored. *)
Lemma unarmor_bare t payload :
  compact t = prefix ++ payload -> unarmor begin_ end_ prefix t = Crockford.crockford_decode payload.
Proof.
  intros Hc. unfold unarmor. rewrite Hprefix in Hc.
  destruct (trim_head t p0 _ Hc) as [r Hr]. rewrite Hr, Hbegin. cbn [strip_prefix].
  rewrite (proj2 (Z.eqb_neq _ _)) by done. cbn [rbind]. rewrite <- Hr.
  change (List.filter _ (trim_matches t)) with (compact (trim_matches t)).
  rewrite compact_trim, Hc, Hprefix.
  change (p0 :: prefix' ++ payload) with ((p0 :: prefix') ++ payload).
  by rewrite strip_prefix_app.
Qed.

(** With boundaries, also around and between them. *)
Lemma unarmor_framed ws1 t ws2 payload :
  blank ws1 -> blank ws2 -> compact t = prefix ++ payload ->
  unarmor begin_ end_ prefix (ws1 ++ (begin_ ++ t ++ end_) ++ ws2) = Crockford.crockford_decode payload.
Proof.
  intros H1 H2 Hc. unfold unarmor.
  assert (Hf : begin_ ++ t ++ end_ = b0 :: (begin' ++ t ++ end') ++ [bn])
    by (rewrite Hbegin, Hend; simpl; by rewrite <- !app_assoc).
  rewrite Hf, trim_framed by done. rewrite <- Hf, strip_prefix_app, strip_suffix_app. cbn [ok_of_option rbind].
  change (List.filter _ t) with (compact t). rewrite Hc, strip_prefix_app. done.
Qed.
End Unarmor.

(** An activation request survives every transcription of its armor: white space may be
    inserted or removed anywhere in it, and it may be wrapped in its boundary lines. *)
Theorem armored_request_survives_transcription (b t ws1 ws2 : list byte) :
  Forall in_u8 b -> b <> [] -> Z.of_nat (length b) <= MAX_AR_ARMORED_BYTES ->
  compact t = armor_activation_request b -> blank ws1 -> blank ws2 ->
  unarmor_activation_request t = Ok b /\
  unarmor_activation_request (ws1 ++ (AR_ARMOR_BEGIN ++ t ++ AR_ARMOR_END) ++ ws2) = Ok b.
Proof.
  intros Hb Hne Hlen Hc H1 H2. unfold unarmor_activation_request.
  assert (Hd : Crockford.crockford_decode (Crockford.crockford_encode b) = Ok b).
  { apply crockford_roundtrip; [done..|]. unfold MAX_AR_ARMORED_BYTES, MAX_BODY_BYTES, MAX_OLK_BUNDLE_BYTES in *. lia. }
  rewrite (unarmor_bare AR_ARMOR_BEGIN AR_ARMOR_END AR_ARMOR_PREFIX 45 67
    (tail AR_ARMOR_BEGIN) (tail AR_ARMOR_PREFIX) eq_refl eq_refl ltac:(discriminate) t _ Hc), Hd.
  rewrite (unarmor_framed AR_ARMOR_BEGIN AR_ARMOR_END AR_ARMOR_PREFIX 45 45
    (tail AR_ARMOR_BEGIN) (removelast AR_ARMOR_END) eq_refl eq_refl eq_refl eq_refl ws1 t ws2 _ H1 H2 Hc), Hd.
  cbn [rbind]. destruct (Z.gtb_spec (Z.of_nat (length b)) MAX_AR_ARMORED_BYTES); [lia|done].
Qed.

Definition demo_request : list byte := [222; 173; 190; 239].

Lemma armored_request_survives_transcription_witness :
  unarmor_activation_request
    ([10] ++ (AR_ARMOR_BEGIN ++ (10 :: armor_activation_request demo_request ++ [13; 10]) ++ AR_ARMOR_END) ++ [10])
    = Ok demo_request.
Proof.
  apply (armored_request_survives_transcription demo_request
    (10 :: armor_activation_request demo_request ++ [13; 10]) [10] [10]);
    [repeat constructor; discriminate|discriminate|discriminate|vm_compute; reflexivity|
     repeat constructor|repeat constructor].
Defined.

(** ** The bundle *)

Definition bundle_ok (b : OfflineLicenseBundle) : Prop :=
  OfflineLicenseBundle.schema b = OLK_BUNDLE_SCHEMA_V1 /\
  0 < Z.of_nat (length (OfflineLicenseBundle.license_envelope b)) <= MAX_OLK_ENVELOPE_BYTES /\
  0 < Z.of_nat (length (OfflineLicenseBundle.epoch_certificates b)) <= Limits.max_items BUNDLE_LIMITS /\
  Forall (fun c => 0 < Z.of_nat (length c) <= MAX_EPOCH_CERTIFICATE_BYTES)
    (OfflineLicenseBundle.epoch_certificates b) /\
  Z.of_nat (length (OfflineLicenseBundle.encode b)) <= MAX_OLK_BUNDLE_BYTES.

Lemma bytes_within l n b : Z.of_nat (length b) <= Limits.max_string l -> within l (S n) (Bytes b).
Proof. done. Qed.

Lemma array_within {A} l n (enc : A -> CborValue) (xs : list A) :
  Z.of_nat (length xs) <= Limits.max_items l -> (forall x, x ∈ xs -> within l n (enc x)) ->
  within l (S n) (Array (map enc xs)).
Proof.
  intros Hl Hx. split; [by rewrite length_map|]. apply Forall_forall.
  intros v (x & -> & Hin)%list_elem_of_fmap. auto.
Qed.

Lemma bundle_within b : bundle_ok b -> within BUNDLE_LIMITS 17 (OfflineLicenseBundle.to_value b).
Proof.
  intros (Hs & He & Hc & Hcs & _).
  assert (Hmax : Limits.max_string BUNDLE_LIMITS = 1048576) by done.
  unfold MAX_OLK_ENVELOPE_BYTES, MAX_EPOCH_CERTIFICATE_BYTES in *.
  unfold OfflineLicenseBundle.to_value. within_message.
  - rewrite Hs. by split.
  - apply bytes_within. rewrite Hmax. lia.
  - apply array_within; [apply Hc|]. rewrite Forall_forall in Hcs. intros c Hin.
    specialize (Hcs c Hin). apply bytes_within. rewrite Hmax. lia.
Qed.

Lemma bundle_leaf b : leaf_keys (OfflineLicenseBundle.to_value b) = true.
Proof. unfold OfflineLicenseBundle.to_value. leaf_fields. Qed.

Lemma certificates_ok cs :
  Forall (fun c => 0 < Z.of_nat (length c) <= MAX_EPOCH_CERTIFICATE_BYTES) cs ->
  traverse OfflineLicenseBundle.certificate (map norm (map Bytes cs)) = Ok cs.
Proof.
  intros Hcs. rewrite map_map. rewrite (traverse_map _ _ id); [by rewrite map_id|].
  intros c Hc. rewrite Forall_forall in Hcs. specialize (Hcs c Hc). unfold OfflineLicenseBundle.certificate.
  cbn [norm as_bytes ok_of_option rbind]. rewrite (proj2 (Nat.eqb_neq _ _)), (proj2 (Z.ltb_ge _ _)) by lia. done.
Qed.

Lemma bundle_roundtrip b :
  bundle_ok b -> OfflineLicenseBundle.decode (OfflineLicenseBundle.encode b) = Ok b.
Proof.
  intros Hok. pose proof (bundle_within b Hok) as Hw. pose proof (bundle_leaf b) as Hleaf.
  destruct Hok as (Hs & He & Hc & Hcs & Hlen).
  unfold OfflineLicenseBundle.decode, OfflineLicenseBundle.encode. rewrite bounded_ok by exact Hlen.
  rewrite decode_to_canonical by first [exact Hw|exact Hleaf|split; by split]. cbn [map_err rbind].
  assert (Hm : exists es, norm (OfflineLicenseBundle.to_value b) = Map es) by (by eexists).
  destruct Hm as [es Hm]. unfold OfflineLicenseBundle.to_value in *. clear Hw Hleaf Hlen. revert Hm.
  abstract_fields. intros ->. cbn [as_map]. read_fields Hget.
  eapply rbind_eq; [unfold field.req; rewrite Hget; reflexivity|].
  cbn [norm as_array ok_of_option rbind]. rewrite Hs, Z.eqb_refl. cbn [negb orb].
  rewrite !length_map. change (Limits.max_items BUNDLE_LIMITS) with 32 in Hc.
  rewrite !(proj2 (Nat.eqb_neq _ _)) by lia. unfold MAX_KEYSET_CERTIFICATES.
  rewrite !(proj2 (Z.ltb_ge _ _)) by lia. cbn [orb]. rewrite certificates_ok by done.
  destruct b. cbn in *. by subst.
Qed.

(** The encoding is a string of bytes. *)
Lemma write_head_bytes (m : nat) arg : (m <= 7)%nat -> 0 <= arg -> is_bytes (write_head (Z.of_nat m) arg).
Proof.
  intros Hm Ha. unfold write_head, is_bytes, u8_max.
  assert (Hlor : forall a, 0 <= a < 32 -> in_u8 (Z.lor (Z.shiftl (Z.of_nat m) 5) a)).
  { intros a Hr. rewrite lor_disjoint by lia. unfold in_u8, u8_max. lia. }
  repeat case_match; bprop; repeat (apply List.Forall_cons; [first [apply Hlor; lia|int_lia]|]);
    first [apply List.Forall_nil|apply be_bytes_bytes].
Qed.

Lemma bytes_bytes b : is_bytes b -> is_bytes (CborValue.to_canonical (Bytes b)).
Proof. intros Hb. apply Forall_app. split; [apply (write_head_bytes 2); lia|done]. Qed.

Lemma array_bytes {A} (enc : A -> CborValue) xs :
  (forall x, x ∈ xs -> is_bytes (CborValue.to_canonical (enc x))) ->
  is_bytes (CborValue.to_canonical (Array (map enc xs))).
Proof.
  intros Hx. apply Forall_app. split; [apply (write_head_bytes 4); lia|]. rewrite map_map.
  apply Forall_concat, Forall_forall. intros l (x & -> & Hin)%list_elem_of_fmap. exact (Hx x Hin).
Qed.

Lemma fields_bytes l :
  (forall k v, (k, Some v) ∈ l -> 0 <= k /\ is_bytes (CborValue.to_canonical v)) ->
  is_bytes (CborValue.to_canonical (MapBuilder.build (of_fields l))).
Proof.
  intros Hl. rewrite entries_of_fields. cbn [CborValue.to_canonical].
  apply Forall_app. split; [apply (write_head_bytes 5); lia|]. unfold flatten.
  apply Forall_concat, Forall_forall. intros bs ([ek ev] & -> & Hin)%list_elem_of_fmap.
  rewrite sort_perm_self in Hin. apply list_elem_of_fmap in Hin as ([k v] & Heq & Hin). injection Heq as -> ->.
  apply list_elem_of_omap in Hin as ([n [w|]] & Hin & Ho); unfold present in Ho; simplify_eq/=.
  destruct (Hl _ _ Hin) as [Hn Hv]. apply Forall_app. split; [apply (write_head_bytes 0); lia|done].
Qed.

Definition bundle_typed (b : OfflineLicenseBundle) : Prop :=
  is_bytes (OfflineLicenseBundle.license_envelope b) /\
  Forall is_bytes (OfflineLicenseBundle.epoch_certificates b).

Lemma bundle_bytes b : bundle_ok b -> bundle_typed b -> is_bytes (OfflineLicenseBundle.encode b).
Proof.
  intros (Hs & _) (He & Hc). unfold OfflineLicenseBundle.encode, OfflineLicenseBundle.to_value. as_fields.
  apply fields_bytes. intros k v Hin. rewrite Hs in Hin.
  repeat (apply elem_of_cons in Hin as [Heq|Hin]; [injection Heq as -> ->|]); [| | |by apply elem_of_nil in Hin].
  - split; [lia|]. apply (write_head_bytes 0); unfold OLK_BUNDLE_SCHEMA_V1; lia.
  - split; [lia|]. by apply bytes_bytes.
  - split; [lia|]. apply array_bytes. intros c Hin. apply bytes_bytes. by rewrite Forall_forall in Hc; apply Hc.
Qed.


Definition demo_bundle : OfflineLicenseBundle := OfflineLicenseBundle.new [1; 2; 3] [[4; 5]; [6]].


(** The item limit of the bundle decoder is below the certificate count its own check admits:
    a bundle that carries 33 certificates - the keyset allows 1000 - encodes but never decodes. *)
Theorem bundle_item_limit_too_small :
  let b := OfflineLicenseBundle.new [1] (repeat [7] 33) in
  Z.of_nat (length (OfflineLicenseBundle.epoch_certificates b)) <= MAX_KEYSET_CERTIFICATES /\
  exists e, OfflineLicenseBundle.decode (OfflineLicenseBundle.encode b) = Err e.
Proof. split; [by vm_compute|]. eexists. vm_compute. reflexivity. Qed.
