(* ===== verification/Suite.v ===== *)
(** * The slots of a crypto suite and the reference suite

    The traits of [crates/copylocker-suite/src] with the default methods the protocol relies on
    ([aead.rs], [kdf.rs], [hash.rs], [binder.rs], [rng.rs]), and the adapters of
    [crates/copylocker-suite-std/src] that fill them: the hybrid and the fast signature
    ([sig.rs]), XChaCha20-Poly1305 ([aead.rs]), HKDF-SHA-512 and Argon2id ([kdf.rs]), the device
    binder ([binder.rs]) and the HMAC fingerprint ([fingerprint.rs]).  The primitives of
    third-party crates are class arguments; the laws of a slot are derived from what those
    crates document. *)

From S2P Require Import Prelude Types Errors Device Cbor Field Chain Requests.

(** ** Randomness ([rng.rs]): [fill_bytes] fills [n] bytes and moves the source on. *)
Class CryptoRng := { Rng : Type; fill_bytes : nat -> Rng -> list byte * Rng }.

(** "Fill [dest] entirely"; a partial fill is a contract violation. *)
Class RngLaws (R : CryptoRng) : Prop := { fill_length : forall n r, length (fill_bytes n r).1 = n }.

(** ** Authenticated encryption *)
Module Aead.
Class AeadScheme := {
  KEY_LEN : nat;
  NONCE_LEN : nat;
  TAG_LEN : nat;
  RANDOM_NONCE_SAFE : bool;
  seal : list byte -> list byte -> list byte -> list byte -> result (list byte) CryptoError;
  open : list byte -> list byte -> list byte -> list byte -> result (list byte) CryptoError;
}.

(** What an AEAD documents: opening inverts sealing, the output is ciphertext and tag, and
    sealing up to 64 MiB under a key and a nonce of the right width succeeds. *)
Class AeadLaws (A : AeadScheme) : Prop := {
  open_seal : forall k n a p c, seal k n a p = Ok c -> open k n a c = Ok p;
  seal_length : forall k n a p c, seal k n a p = Ok c -> length c = (length p + TAG_LEN)%nat;
  seal_total : forall k n a p, length k = KEY_LEN -> length n = NONCE_LEN ->
    Z.of_nat (length p) <= 64 * 1024 * 1024 -> exists c, seal k n a p = Ok c;
  random_nonce_safe : RANDOM_NONCE_SAFE = true;
}.

Section Methods.
Context `{R : CryptoRng} `{A : AeadScheme}.

Definition random_nonce (rng : Rng) : result (list byte) CryptoError * Rng :=
  if negb RANDOM_NONCE_SAFE then (Err CryptoError.BadLength, rng)
  else let '(n, rng) := fill_bytes NONCE_LEN rng in (Ok n, rng).

Definition seal_with_nonce (key aad pt : list byte) (rng : Rng)
    : result (list byte) CryptoError * Rng :=
  let '(r, rng) := random_nonce rng in
  (nonce <-? r ;; c <-? seal key nonce aad pt ;; Ok (nonce ++ c), rng).

Definition open_with_nonce (key aad blob : list byte) : result (list byte) CryptoError :=
  if (length blob <? NONCE_LEN + TAG_LEN)%nat then Err CryptoError.BadLength
  else open key (take NONCE_LEN blob) aad (drop NONCE_LEN blob).
End Methods.
End Aead.
Notation AeadScheme := Aead.AeadScheme.
Notation AeadLaws := Aead.AeadLaws.

(** ** Key derivation *)
Module Prk.
Definition MAX_LEN : nat := 64.
(** Truncating or zero-padding to the buffer width. *)
Definition from_bytes (b : list byte) : list byte :=
  let n := Nat.min (length b) MAX_LEN in take n b ++ repeat 0 (MAX_LEN - n).
End Prk.

(** Parts with their lengths before them, [w] bytes big endian each. *)
Definition framed (w : nat) (parts : list (list byte)) : list byte :=
  concat (map (fun p => be_bytes w (Z.of_nat (length p)) ++ p) parts).

Module Kdf.
Class KeyDerivation := {
  extract : list byte -> list byte -> list byte;
  expand : list byte -> list byte -> nat -> result (list byte) CryptoError;
}.

(** The loop of [expand_parts] that builds [info]. *)
Definition push_part (info p : list byte) : result (list byte) CryptoError :=
  if Z.of_nat (length p) <=? u32_max
  then Ok (info ++ be_bytes 4 (Z.of_nat (length p)) ++ p) else Err CryptoError.OutputTooLong.
Definition info_of (parts : list (list byte)) : result (list byte) CryptoError :=
  try_fold push_part [] parts.

Section Methods.
Context `{K : KeyDerivation}.
Definition expand_parts (prk : list byte) (parts : list (list byte)) (n : nat)
    : result (list byte) CryptoError :=
  info <-? info_of parts ;; expand prk info n.
Definition derive_key (prk : list byte) (parts : list (list byte)) : result (list byte) CryptoError :=
  expand_parts prk parts 32.
Definition derive_from (salt ikm : list byte) (parts : list (list byte))
    : result (list byte) CryptoError :=
  derive_key (extract salt ikm) parts.
End Methods.

(** What HKDF documents: extraction fills the key, and at least 64 bytes can be drawn. *)
Class KdfLaws (K : KeyDerivation) : Prop := {
  extract_length : forall salt ikm, length (extract salt ikm) = Prk.MAX_LEN;
  expand_short : forall prk info n, length prk = Prk.MAX_LEN -> (n <= 64)%nat ->
    exists out, expand prk info n = Ok out /\ length out = n;
}.
End Kdf.
Notation KeyDerivation := Kdf.KeyDerivation.
Notation KdfLaws := Kdf.KdfLaws.

(** ** Streaming hashes *)
Module Hash.
Class StreamingHash := {
  Hasher : Type;
  hasher : Hasher;
  update : Hasher -> list byte -> Hasher;
  finalize : Hasher -> Digest;
}.

(** Absorbing in pieces is absorbing the concatenation; the digest is of 32 bytes. *)
Class StreamingLaws (H : StreamingHash) : Prop := {
  update_app : forall h a b, update (update h a) b = update h (a ++ b);
  update_nil : forall h, update h [] = h;
  digest_length : forall h, length (finalize h) = 32%nat;
}.

Section Methods.
Context `{H : StreamingHash}.
Definition hash_ (data : list byte) : Digest := finalize (update hasher data).
Definition hash_parts (parts : list (list byte)) : Digest :=
  finalize (fold_left (fun h p => update (update h (be_bytes 8 (Z.of_nat (length p)))) p) parts hasher).
#[global] Instance scheme : HashScheme := {| hash := hash_ |}.
End Methods.
End Hash.
Notation StreamingHash := Hash.StreamingHash.
Notation StreamingLaws := Hash.StreamingLaws.

(** ** Device binding *)
Module EnvEvidence.
Record EnvEvidence := mk {
  module_digest : Digest; build_fingerprint : list byte; extra : list (list byte);
}.
Definition parts (e : EnvEvidence) : list (list byte) :=
  module_digest e :: build_fingerprint e :: extra e.
End EnvEvidence.
Notation EnvEvidence := EnvEvidence.EnvEvidence.

Class DeviceBinder := {
  bind_device : list byte -> Fingerprint -> EnvEvidence -> result (list byte) CryptoError;
}.

(** The bundle [CryptoSuite], the slots the layers above use. *)
Class CryptoSuite := {
  SUITE_ID : list byte;
  suite_proto_ver : Z;
  suite_rng :: CryptoRng;
  suite_aead :: AeadScheme;
  suite_kdf :: KeyDerivation;
  suite_binder :: DeviceBinder;
}.

Class SuiteLaws (S : CryptoSuite) : Prop := {
  suite_id_len : length SUITE_ID = SuiteId.LEN;
  suite_rng_laws :: RngLaws suite_rng;
  suite_aead_laws :: AeadLaws suite_aead;
  suite_kdf_laws :: KdfLaws suite_kdf;
}.

(** ** Framing is injective *)

Lemma be_bytes_inj n a b :
  0 <= a < 256 ^ Z.of_nat n -> 0 <= b < 256 ^ Z.of_nat n -> be_bytes n a = be_bytes n b -> a = b.
Proof. intros Ha Hb Heq. by rewrite <- (of_be_bytes_be_bytes n a Ha), Heq, of_be_bytes_be_bytes. Qed.

(** Equal widths and equal values are equal bytes. *)
Lemma of_be_bytes_inj a b :
  is_bytes a -> is_bytes b -> length a = length b -> of_be_bytes a = of_be_bytes b -> a = b.
Proof.
  revert b. induction a as [|x a IH] using rev_ind; intros b Ha Hb Hlen Heq.
  { by destruct b. }
  destruct b as [|y b _] using rev_ind; [rewrite length_app in Hlen; simpl in Hlen; lia|].
  rewrite !length_app in Hlen. simpl in Hlen. unfold of_be_bytes in Heq. rewrite !fold_left_app in Heq.
  simpl in Heq. apply Forall_app in Ha as [Ha [Hx _]%Forall_cons], Hb as [Hb [Hy _]%Forall_cons].
  unfold in_u8, u8_max in *. assert (x = y) as -> by lia.
  f_equal. apply IH; [done|done|lia|]. unfold of_be_bytes. lia.
Qed.

Lemma be_bytes_of_be_bytes bs : is_bytes bs -> be_bytes (length bs) (of_be_bytes bs) = bs.
Proof.
  intros Hb. apply of_be_bytes_inj; [apply be_bytes_bytes|done|apply be_bytes_length|].
  apply of_be_bytes_be_bytes. by apply of_be_bytes_range.
Qed.

Definition part_fits (w : nat) (p : list byte) : Prop := Z.of_nat (length p) < 256 ^ Z.of_nat w.

Lemma framed_inj w ps : forall qs,
  (0 < w)%nat -> Forall (part_fits w) ps -> Forall (part_fits w) qs -> framed w ps = framed w qs -> ps = qs.
Proof.
  unfold framed. induction ps as [|p ps IH]; intros [|q qs] Hw Hp Hq Heq; cbn [map concat] in *; [done| | |].
  - apply (f_equal length) in Heq. rewrite !length_app, be_bytes_length in Heq. cbn [length] in Heq. lia.
  - apply (f_equal length) in Heq. rewrite !length_app, be_bytes_length in Heq. cbn [length] in Heq. lia.
  - apply Forall_cons in Hp as [Hp Hps], Hq as [Hq Hqs]. rewrite <- !app_assoc in Heq.
    apply app_inj_1 in Heq as [Hlen Heq]; [|by rewrite !be_bytes_length].
    apply be_bytes_inj in Hlen; [|unfold part_fits in *; lia..].
    apply app_inj_1 in Heq as [-> Heq]; [|lia]. f_equal. by apply IH.
Qed.

Lemma info_of_spec parts info :
  Kdf.info_of parts = Ok info <-> Forall (part_fits 4) parts /\ info = framed 4 parts.
Proof.
  unfold Kdf.info_of. enough (Hgen : forall acc, try_fold Kdf.push_part acc parts = Ok info <->
    Forall (part_fits 4) parts /\ info = acc ++ framed 4 parts) by apply Hgen.
  induction parts as [|p parts IH]; intros acc; simpl.
  - unfold framed. simpl. rewrite app_nil_r. split; [by intros [= ->]|by intros [_ ->]].
  - unfold Kdf.push_part at 1. rewrite Forall_cons. destruct (Z.leb_spec (Z.of_nat (length p)) u32_max); simpl.
    + rewrite IH. unfold framed. cbn [map concat]. rewrite <- !app_assoc.
      split; [intros [H1 ->]|intros [[_ H1] ->]]; split; try done. split; [|done].
      unfold part_fits, u32_max in *. change (256 ^ Z.of_nat 4) with 4294967296. lia.
    + split; [done|]. intros [[Hp _] _]. unfold part_fits, u32_max in *.
      change (256 ^ Z.of_nat 4) with 4294967296 in Hp. lia.
Qed.

Lemma hash_parts_framed `{Hash.StreamingLaws} parts : Hash.hash_parts parts = Hash.hash_ (framed 8 parts).
Proof.
  unfold Hash.hash_parts, Hash.hash_. f_equal.
  enough (Hgen : forall h, fold_left (fun h p => Hash.update (Hash.update h (be_bytes 8 (Z.of_nat (length p)))) p) parts h
    = Hash.update h (framed 8 parts)) by apply Hgen.
  induction parts as [|p parts IH]; intros h; simpl; [by rewrite Hash.update_nil|].
  rewrite IH, !Hash.update_app. unfold framed. cbn [map concat]. by rewrite !app_assoc.
Qed.

(** The byte strings both derivations depend on determine the sequence of parts: no two
    sequences share a key-derivation input, and no two share a hash input. *)
Theorem framing_unambiguous `{H : StreamingHash} {HL : StreamingLaws H} :
  (forall ps qs, Kdf.info_of ps = Kdf.info_of qs -> is_ok (Kdf.info_of ps) = true -> ps = qs) /\
  (forall ps, (exists p, p ∈ ps /\ u32_max < Z.of_nat (length p)) <->
     Kdf.info_of ps = Err CryptoError.OutputTooLong) /\
  (forall ps qs, Forall (part_fits 8) ps -> Forall (part_fits 8) qs -> framed 8 ps = framed 8 qs -> ps = qs) /\
  (forall ps, Hash.hash_parts ps = Hash.hash_ (framed 8 ps)).
Proof.
  split_and!; [| | |apply hash_parts_framed].
  - intros ps qs Heq Hok. destruct (Kdf.info_of ps) as [i|e] eqn:Ep; [|done]. symmetry in Heq.
    apply info_of_spec in Ep as [Hp ->], Heq as [Hq Heq]. by apply (framed_inj 4); [lia|..].
  - intros ps. split.
    + intros (p & Hin & Hl). destruct (Kdf.info_of ps) as [i|e] eqn:E.
      * apply info_of_spec in E as [Hf _]. rewrite Forall_forall in Hf. specialize (Hf p Hin).
        unfold part_fits, u32_max in *. change (256 ^ Z.of_nat 4) with 4294967296 in Hf. lia.
      * f_equal. revert E. unfold Kdf.info_of. generalize (@nil byte). clear Hin. induction ps as [|q ps IH];
          intros acc; simpl; [done|]. unfold Kdf.push_part at 1. destruct (_ <=? _); simpl; [apply IH|by intros [= <-]].
    + intros E. destruct (decide (Forall (fun p => Z.of_nat (length p) <= u32_max) ps)) as [Hf|Hf].
      * assert (Kdf.info_of ps = Ok (framed 4 ps)); [|congruence]. apply info_of_spec. split; [|done].
        apply (Forall_impl _ _ _ Hf). intros p Hp. unfold part_fits, u32_max in *.
        change (256 ^ Z.of_nat 4) with 4294967296. lia.
      * apply not_Forall_Exists, Exists_exists in Hf as (p & Hin & Hl); [|tc_solve].
        exists p. split; [done|]. cbn in Hl. lia.
  - intros ps qs Hp Hq Heq. by apply (framed_inj 8); [lia|..].
Qed.

(** Sealing with a fresh nonce and opening again. *)
Lemma open_with_nonce_seal `{RngLaws} `{Aead.AeadLaws} key aad pt rng blob rng' :
  Aead.seal_with_nonce key aad pt rng = (Ok blob, rng') ->
  Aead.open_with_nonce key aad blob = Ok pt /\
  length blob = (Aead.NONCE_LEN + length pt + Aead.TAG_LEN)%nat.
Proof.
  unfold Aead.seal_with_nonce, Aead.random_nonce. rewrite Aead.random_nonce_safe. cbn [negb].
  destruct (fill_bytes Aead.NONCE_LEN rng) as [n r] eqn:En. intros [= Hs <-]. cbn [rbind] in Hs.
  destruct (Aead.seal key n aad pt) as [c|e] eqn:Ec; [|done]. cbn [rbind] in Hs. injection Hs as <-.
  assert (Hn : length n = Aead.NONCE_LEN) by (rewrite <- (fill_length Aead.NONCE_LEN rng), En; done).
  pose proof (Aead.seal_length _ _ _ _ _ Ec) as Hc. rewrite length_app. split; [|lia].
  unfold Aead.open_with_nonce. rewrite length_app.
  destruct (Nat.ltb_spec (length n + length c) (Aead.NONCE_LEN + Aead.TAG_LEN)); [lia|].
  rewrite take_app_length', drop_app_length' by done. by apply Aead.open_seal.
Qed.

Lemma seal_with_nonce_total `{RngLaws} `{Aead.AeadLaws} key aad pt rng :
  length key = Aead.KEY_LEN -> Z.of_nat (length pt) <= 64 * 1024 * 1024 ->
  exists blob rng', Aead.seal_with_nonce key aad pt rng = (Ok blob, rng').
Proof.
  intros Hk Hp. unfold Aead.seal_with_nonce, Aead.random_nonce. rewrite Aead.random_nonce_safe. cbn [negb].
  destruct (fill_bytes Aead.NONCE_LEN rng) as [n r] eqn:En. cbn [rbind].
  destruct (Aead.seal_total key n aad pt Hk) as [c Hc]; [|done|].
  { by rewrite <- (fill_length Aead.NONCE_LEN rng), En. }
  rewrite Hc. by eexists _, _.
Qed.

Lemma derive_from_ok `{Kdf.KdfLaws} salt ikm parts :
  Forall (part_fits 4) parts ->
  exists key, Kdf.derive_from salt ikm parts = Ok key /\ length key = 32%nat.
Proof.
  intros Hp. unfold Kdf.derive_from, Kdf.derive_key, Kdf.expand_parts.
  rewrite (proj2 (info_of_spec parts (framed 4 parts))) by done. cbn [rbind].
  apply Kdf.expand_short; [apply Kdf.extract_length|lia].
Qed.

(** ** A toy suite, to run the definitions on concrete inputs *)
Module Demo.
Definition mix (b : list byte) : Z := fold_left (fun acc x => (acc * 31 + x + 7) mod 1000003) b 0.
Definition digest (b : list byte) : list byte := be_bytes 32 (mix b).

#[local] Instance rng : CryptoRng := {|
  Rng := Z; fill_bytes := fun n r => (repeat (r mod 256) n, r + 1) |}.
#[local] Instance rng_laws : RngLaws rng.
Proof. constructor. intros n r. cbn. apply repeat_length. Qed.

Definition tag (k n a p : list byte) : list byte := be_bytes 16 (mix (k ++ n ++ a ++ p)).
Definition seal (k n a p : list byte) : result (list byte) CryptoError :=
  if (length k =? 32)%nat && (length n =? 24)%nat then Ok (p ++ tag k n a p) else Err CryptoError.BadLength.
Definition open (k n a c : list byte) : result (list byte) CryptoError :=
  let p := take (length c - 16) c in
  if (length k =? 32)%nat && (length n =? 24)%nat && bool_decide (c = p ++ tag k n a p)
  then Ok p else Err CryptoError.Invalid.
#[local] Instance aead : AeadScheme := {|
  Aead.KEY_LEN := 32; Aead.NONCE_LEN := 24; Aead.TAG_LEN := 16; Aead.RANDOM_NONCE_SAFE := true;
  Aead.seal := seal; Aead.open := open |}.
#[local] Instance aead_laws : AeadLaws aead.
Proof.
  constructor; cbn; unfold seal, open.
  - intros k n a p c Hs. destruct (_ && _) eqn:E; [|done]. injection Hs as <-.
    assert (Ht : length (tag k n a p) = 16%nat) by apply be_bytes_length.
    rewrite length_app, Ht, Nat.add_sub, take_app_length.
    by rewrite bool_decide_eq_true_2.
  - intros k n a p c Hs. destruct (_ && _); [|done]. injection Hs as <-. unfold tag.
    by rewrite length_app, be_bytes_length.
  - intros k n a p -> -> _. cbn. by eexists.
  - done.
Qed.

#[local] Instance kdf : KeyDerivation := {|
  Kdf.extract := fun salt ikm => be_bytes 64 (mix (salt ++ ikm));
  Kdf.expand := fun prk info n => Ok (be_bytes n (mix (prk ++ info))) |}.
#[local] Instance kdf_laws : KdfLaws kdf.
Proof.
  constructor; [done|]. intros prk info n _ _. eexists.
  split; [reflexivity|apply be_bytes_length].
Qed.

#[local] Instance binder : DeviceBinder := {|
  bind_device := fun secret fp env => Ok (digest (secret ++ fp ++ framed 8 (EnvEvidence.parts env))) |}.

#[local] Instance suite : CryptoSuite := {|
  SUITE_ID := [1; 0; 0; 1]; suite_proto_ver := PROTO_VER;
  suite_rng := rng; suite_aead := aead; suite_kdf := kdf; suite_binder := binder |}.
#[local] Instance suite_laws : SuiteLaws suite.
Proof. constructor; cbn; [done|tc_solve..]. Qed.

#[local] Instance hash_ : StreamingHash := {|
  Hash.Hasher := list byte; Hash.hasher := []; Hash.update := fun h d => h ++ d; Hash.finalize := digest |}.
#[local] Instance hash_laws : StreamingLaws hash_.
Proof.
  constructor; cbn; [intros; by rewrite app_assoc|intros; by rewrite app_nil_r|done].
Qed.
End Demo.

Lemma framing_unambiguous_witness :
  Kdf.info_of [[97; 98]; [99]] <> Kdf.info_of [[97]; [98; 99]] /\
  Hash.hash_parts (H := Demo.hash_) [[97; 98]; [99]] = Hash.hash_ (H := Demo.hash_) (framed 8 [[97; 98]; [99]]).
Proof.
  pose proof (@framing_unambiguous Demo.hash_ Demo.hash_laws) as (H1 & _ & _ & H4). split; [|apply H4].
  intros Heq. specialize (H1 _ _ Heq eq_refl). discriminate H1.
Defined.
