(* ===== verification/StdSuite.v ===== *)
(** * The reference suite CL-STD-1 ([crates/copylocker-suite-std/src])

    The adapters over third-party primitives.  [Primitives] bundles the operations of the
    ed25519-dalek, ml-dsa, sha2, hmac, hkdf, argon2 and chacha20poly1305 crates that the
    adapters call; [PrimitiveLaws] is what those crates document of them.  Each adapter is
    proved to fill its slot's contract. *)

From S2P Require Import Prelude Types Errors Device Cbor Field Chain Requests Suite.

(** The parameter set is chosen by a cargo feature; the lengths of FIPS-204 come with it. *)
Class PqParams := { PQ_VK_LEN : nat; PQ_SIG_LEN : nat; PQ_LEVEL : SecurityLevel.SecurityLevel }.

Class Primitives := {
  prim_params :: PqParams;
  sha256 :: StreamingHash;
  EdVk : Type; EdSig : Type;
  ed_verifying_key : list byte -> EdVk;
  ed_sign : list byte -> list byte -> list byte;
  ed_sig_from_slice : list byte -> option EdSig;
  ed_verify_strict : EdVk -> list byte -> EdSig -> bool;
  ed_vk_bytes : EdVk -> list byte;
  ed_vk_from_bytes : list byte -> option EdVk;
  PqVk : Type; PqSig : Type;
  pq_verifying_key : list byte -> PqVk;
  pq_sign_deterministic : list byte -> list byte -> list byte -> option PqSig;
  pq_sig_encode : PqSig -> list byte;
  pq_sig_decode : list byte -> option PqSig;
  pq_verify_with_context : PqVk -> list byte -> list byte -> PqSig -> bool;
  pq_vk_encode : PqVk -> list byte;
  pq_vk_decode : list byte -> PqVk;
  HkdfState : Type; Argon2Params : Type;
  hkdf_extract : list byte -> list byte -> list byte;
  hkdf_from_prk : list byte -> option HkdfState;
  hkdf_expand : HkdfState -> list byte -> nat -> option (list byte);
  argon2_params : Z -> Z -> Z -> nat -> option Argon2Params;
  argon2_hash : Argon2Params -> list byte -> list byte -> nat -> option (list byte);
  hmac_sha256 : list byte -> list byte -> option (list byte);
  xchacha_encrypt : list byte -> list byte -> list byte -> list byte -> option (list byte);
  xchacha_decrypt : list byte -> list byte -> list byte -> list byte -> option (list byte);
}.


(** ** Signatures ([sig.rs]) *)
Section Std1.
Context `{Prim : Primitives}.

Definition HYBRID_TBS_LABEL : list byte := text_bytes "copylocker/hybrid-sig/v1".
Definition ED_SK_LEN : nat := 32.
Definition ED_VK_LEN : nat := 32.
Definition ED_SIG_LEN : nat := 64.
Definition PQ_SK_SEED_LEN : nat := 32.

(** [(len as u32).to_be_bytes()]. *)
Definition len_prefix (b : list byte) : list byte :=
  be_bytes 4 (Z.land (Z.of_nat (length b)) u32_max).
#[global] Arguments len_prefix : simpl never.

Definition hybrid_tbs (ctx : DomainCtx) (msg : list byte) : list byte :=
  let ctx_bytes := DomainCtx.to_bytes ctx in
  let digest := Hash.hash_ msg in
  HYBRID_TBS_LABEL ++ len_prefix ctx_bytes ++ ctx_bytes ++ digest.

Record HybridSigningKey := hybrid_sk { pq_seed : list byte; ed_seed : list byte }.
Record HybridVerifyingKey := hybrid_vk { pq : PqVk; ed : EdVk }.

(** [split_at_checked]. *)
Definition split_at_checked (n : nat) (b : list byte) : option (list byte * list byte) :=
  if (n <=? length b)%nat then Some (take n b, drop n b) else None.

Definition read_prefixed (b : list byte) : option (list byte * list byte) :=
  '(len_raw, rest) ← split_at_checked 4 b;
  split_at_checked (Z.to_nat (of_be_bytes len_raw)) rest.

Definition split_hybrid (sig : list byte) : result (list byte * list byte) CryptoError :=
  r <-? ok_of_option (read_prefixed sig) CryptoError.BadLength ;;
  let '(pq, rest) := r in
  r <-? ok_of_option (read_prefixed rest) CryptoError.BadLength ;;
  let '(ed, tail) := r in
  if (length tail =? 0)%nat then Ok (pq, ed) else Err CryptoError.BadLength.

(** [EncodedSignature::try_from] checks the length before decoding. *)
Definition decode_pq_sig (bytes : list byte) : option PqSig :=
  if (length bytes =? PQ_SIG_LEN)%nat then pq_sig_decode bytes else None.
End Std1.

Module HybridSig.
Section Adapter.
Context `{Prim : Primitives}.

Definition SIG_MAX_LEN : nat := 4 + PQ_SIG_LEN + 4 + ED_SIG_LEN.
Definition VK_LEN : nat := PQ_VK_LEN + ED_VK_LEN.
Definition SK_LEN : nat := PQ_SK_SEED_LEN + ED_SK_LEN.

Definition verifying_key (sk : HybridSigningKey) : HybridVerifyingKey :=
  hybrid_vk (pq_verifying_key (pq_seed sk)) (ed_verifying_key (ed_seed sk)).

Definition generate `{CryptoRng} (rng : Rng) : HybridSigningKey * HybridVerifyingKey * Rng :=
  let '(pq_seed, rng) := fill_bytes PQ_SK_SEED_LEN rng in
  let '(ed_seed, rng) := fill_bytes ED_SK_LEN rng in
  let sk := hybrid_sk pq_seed ed_seed in (sk, verifying_key sk, rng).

Definition sign (sk : HybridSigningKey) (ctx : DomainCtx) (msg : list byte)
    : result (list byte) CryptoError :=
  let tbs := hybrid_tbs ctx msg in
  pq_sig <-? ok_of_option (pq_sign_deterministic (pq_seed sk) tbs []) CryptoError.Invalid ;;
  let pq_bytes := pq_sig_encode pq_sig in
  let ed_bytes := ed_sign (ed_seed sk) tbs in
  Ok (len_prefix pq_bytes ++ pq_bytes ++ len_prefix ed_bytes ++ ed_bytes).

(** The two component checks of [verify]. *)
Definition pq_ok (vk : HybridVerifyingKey) (tbs pq_bytes : list byte) : bool :=
  match decode_pq_sig pq_bytes with
  | Some s => pq_verify_with_context (pq vk) tbs [] s
  | None => false
  end.
Definition ed_ok (vk : HybridVerifyingKey) (tbs ed_bytes : list byte) : bool :=
  match ed_sig_from_slice ed_bytes with
  | Some s => ed_verify_strict (ed vk) tbs s
  | None => false
  end.

Definition verify (vk : HybridVerifyingKey) (ctx : DomainCtx) (msg sig : list byte)
    : result unit CryptoError :=
  r <-? split_hybrid sig ;;
  let '(pq_bytes, ed_bytes) := r in
  let tbs := hybrid_tbs ctx msg in
  match pq_ok vk tbs pq_bytes, ed_ok vk tbs ed_bytes with
  | true, true => Ok tt
  | true, false | false, true => Err CryptoError.HybridStripDetected
  | false, false => Err CryptoError.Invalid
  end.

Definition encode_vk (vk : HybridVerifyingKey) : list byte := pq_vk_encode (pq vk) ++ ed_vk_bytes (ed vk).

Definition decode_vk (bytes : list byte) : result HybridVerifyingKey CryptoError :=
  if negb (length bytes =? VK_LEN)%nat then Err CryptoError.BadLength
  else
    let pq_raw := take PQ_VK_LEN bytes in let ed_raw := drop PQ_VK_LEN bytes in
    ed <-? ok_of_option (ed_vk_from_bytes ed_raw) CryptoError.Invalid ;;
    Ok (hybrid_vk (pq_vk_decode pq_raw) ed).

Definition encode_sk (sk : HybridSigningKey) : list byte := pq_seed sk ++ ed_seed sk.

Definition decode_sk (bytes : list byte) : result HybridSigningKey CryptoError :=
  if negb (length bytes =? SK_LEN)%nat then Err CryptoError.BadLength
  else Ok (hybrid_sk (take PQ_SK_SEED_LEN bytes) (drop PQ_SK_SEED_LEN bytes)).

Definition security_level : SecurityLevel.SecurityLevel := PQ_LEVEL.
Definition is_post_quantum : bool := true.

#[global] Instance HybridSig : SignatureScheme := {|
  SigningKey := HybridSigningKey; VerifyingKey := HybridVerifyingKey;
  Chain.verifying_key := verifying_key; Chain.sign := sign; Chain.verify := verify;
  Chain.encode_vk := encode_vk; Chain.decode_vk := decode_vk |}.
End Adapter.
End HybridSig.

Module FastSig.
Section Adapter.
Context `{Prim : Primitives}.

Definition generate `{CryptoRng} (rng : Rng) : list byte * EdVk * Rng :=
  let '(seed, rng) := fill_bytes ED_SK_LEN rng in (seed, ed_verifying_key seed, rng).

Definition sign (sk : list byte) (ctx : DomainCtx) (msg : list byte) : result (list byte) CryptoError :=
  Ok (ed_sign sk (hybrid_tbs ctx msg)).

Definition verify (vk : EdVk) (ctx : DomainCtx) (msg sig : list byte) : result unit CryptoError :=
  let tbs := hybrid_tbs ctx msg in
  s <-? ok_of_option (ed_sig_from_slice sig) CryptoError.BadLength ;;
  if ed_verify_strict vk tbs s then Ok tt else Err CryptoError.Invalid.

Definition decode_vk (bytes : list byte) : result EdVk CryptoError :=
  if (length bytes =? ED_VK_LEN)%nat
  then ok_of_option (ed_vk_from_bytes bytes) CryptoError.Invalid else Err CryptoError.BadLength.

Definition encode_sk (sk : list byte) : list byte := sk.
Definition decode_sk (bytes : list byte) : result (list byte) CryptoError :=
  if (length bytes =? ED_SK_LEN)%nat then Ok bytes else Err CryptoError.BadLength.

Definition security_level : SecurityLevel.SecurityLevel := SecurityLevel.Category1.
Definition is_post_quantum : bool := false.

(** The per-request scheme; not a default instance, [Sig] of the suite is the hybrid. *)
Definition FastSig : SignatureScheme := {|
  SigningKey := list byte; VerifyingKey := EdVk;
  Chain.verifying_key := ed_verifying_key; Chain.sign := sign; Chain.verify := verify;
  Chain.encode_vk := ed_vk_bytes; Chain.decode_vk := decode_vk |}.
End Adapter.
End FastSig.

(** ** Encryption ([aead.rs]) *)
Module XChaCha20Poly1305Aead.
Section Adapter.
Context `{Prim : Primitives}.

Definition KEY_LEN : nat := 32.
Definition NONCE_LEN : nat := 24.
Definition TAG_LEN : nat := 16.

Definition seal (key nonce aad pt : list byte) : result (list byte) CryptoError :=
  if negb (length key =? KEY_LEN)%nat || negb (length nonce =? NONCE_LEN)%nat
  then Err CryptoError.BadLength
  else ok_of_option (xchacha_encrypt key nonce aad pt) CryptoError.Invalid.

Definition open (key nonce aad ct : list byte) : result (list byte) CryptoError :=
  if negb (length key =? KEY_LEN)%nat || negb (length nonce =? NONCE_LEN)%nat
  then Err CryptoError.BadLength
  else if (length ct <? TAG_LEN)%nat then Err CryptoError.BadLength
  else ok_of_option (xchacha_decrypt key nonce aad ct) CryptoError.Invalid.

#[global] Instance XChaCha20Poly1305Aead : AeadScheme := {|
  Aead.KEY_LEN := KEY_LEN; Aead.NONCE_LEN := NONCE_LEN; Aead.TAG_LEN := TAG_LEN;
  Aead.RANDOM_NONCE_SAFE := true; Aead.seal := seal; Aead.open := open |}.
End Adapter.
End XChaCha20Poly1305Aead.

(** ** Key derivation ([kdf.rs]) *)
Module HkdfSha512.
Section Adapter.
Context `{Prim : Primitives}.

Definition M_COST : Z := 64 * 1024.
Definition T_COST : Z := 3.
Definition P_COST : Z := 1.

Definition extract (salt ikm : list byte) : list byte := Prk.from_bytes (hkdf_extract salt ikm).

Definition expand (prk info : list byte) (out_len : nat) : result (list byte) CryptoError :=
  if (255 * 64 <? out_len)%nat then Err CryptoError.OutputTooLong
  else
    hk <-? ok_of_option (hkdf_from_prk prk) CryptoError.BadLength ;;
    ok_of_option (hkdf_expand hk info out_len) CryptoError.OutputTooLong.

Definition stretch (salt low_entropy : list byte) (out_len : nat) : result (list byte) CryptoError :=
  if (length salt <? 8)%nat then Err CryptoError.BadLength
  else
    params <-? ok_of_option (argon2_params M_COST T_COST P_COST out_len) CryptoError.BadLength ;;
    ok_of_option (argon2_hash params low_entropy salt out_len) CryptoError.BadLength.

#[global] Instance HkdfSha512 : KeyDerivation := {| Kdf.extract := extract; Kdf.expand := expand |}.
End Adapter.
End HkdfSha512.

(** ** Binding ([binder.rs]) *)
Section Std2.
Context `{Prim : Primitives}.

Definition BIND_SALT : list byte := text_bytes "copylocker/bind/v1".

Definition hkdf_bind (secret : list byte) (fp : Fingerprint) (env : EnvEvidence)
    : result (list byte) CryptoError :=
  let env_digest := Hash.hash_parts (EnvEvidence.parts env) in
  Kdf.derive_from BIND_SALT secret [fp; env_digest].

#[global] Instance HkdfBinder : DeviceBinder := {| bind_device := hkdf_bind |}.

(** ** Fingerprints ([fingerprint.rs]) *)
End Std2.

Module HmacFingerprint.
Section Adapter.
Context `{Prim : Primitives}.

Inductive HmacFingerprint := HmacFingerprint_.

Definition WEIGHTS : list (string * Z) :=
  [("machine_guid", 40); ("cpu_id", 15); ("board_serial", 15); ("disk_serial", 10);
   ("os_install_id", 10); ("platform_uuid", 45); ("hw_model_serial", 20);
   ("boot_volume_uuid", 15); ("machine_id", 40); ("dmi_product_uuid", 20); ("rootfs_uuid", 15);
   ("web_device_id", 60); ("ua_platform", 15); ("hardware_concurrency", 10); ("mac_addrs", 10);
   ("hostname", 5); ("timezone", 5)].

Definition compute_ (salt : list byte) (a : DeviceAttrs) : Fingerprint :=
  match hmac_sha256 salt (attrs.canonical_bytes a) with
  | Some mac => mac
  | None => repeat 0 32
  end.

Definition value_score (a b : AttrValue) : Z :=
  match a, b with
  | AttrValue.Text x, AttrValue.Text y => (if bool_decide (x = y) then 1 else 0) * 100
  | AttrValue.Int x, AttrValue.Int y => (if bool_decide (x = y) then 1 else 0) * 100
  | AttrValue.Set_ x, AttrValue.Set_ y =>
      if (length x =? 0)%nat && (length y =? 0)%nat then 100
      else
        let inter := Z.of_nat (length (List.filter (fun i => bool_decide (i ∈ y)) x)) in
        let union_ := Z.of_nat (length x) + Z.of_nat (length y) - inter in
        if union_ =? 0 then 100 else try_into_or u8_max (Z.quot (inter * 100) union_) 100
  | _, _ => 0
  end.

(** One iteration on [(total, matched)]. *)
Definition tally_ (a b : DeviceAttrs) (acc : Z * Z) (kw : string * Z) : Z * Z :=
  let '(total, matched) := acc in
  let '(key, weight) := kw in
  match DeviceAttrs.get_present a key, DeviceAttrs.get_present b key with
  | None, None => (total, matched)
  | None, Some _ | Some _, None => (total + weight, matched)
  | Some va, Some vb => (total + weight, matched + Z.quot (weight * value_score va vb) 100)
  end.

Definition similarity_ (a b : DeviceAttrs) : Z :=
  let '(total, matched) := fold_left (tally_ a b) WEIGHTS (0, 0) in
  if total =? 0 then 0 else try_into_or u8_max (Z.quot (matched * 100) total) 100.

#[global] Instance HmacFingerprint_scheme : FingerprintScheme HmacFingerprint := {|
  compute := compute_; similarity := similarity_; weights := WEIGHTS |}.
End Adapter.
End HmacFingerprint.

(** ** The suite ([lib.rs]) *)
Section Std3.
Context `{Prim : Primitives}.

Definition CL_STD_1_SUITE_ID : list byte := SuiteId.from_u32 16777217.

Definition ClStd1 `{R : CryptoRng} : CryptoSuite := {|
  SUITE_ID := CL_STD_1_SUITE_ID;
  suite_proto_ver := PROTO_VER;
  suite_rng := R;
  suite_aead := XChaCha20Poly1305Aead.XChaCha20Poly1305Aead;
  suite_kdf := HkdfSha512.HkdfSha512;
  suite_binder := HkdfBinder;
|}.
End Std3.

(** ** What the crates document *)
Class PrimitiveLaws (P : Primitives) : Prop := {
  sha256_laws :: StreamingLaws sha256;
  pq_sig_len_u32 : Z.of_nat PQ_SIG_LEN <= u32_max;
  ed_sign_len : forall seed m, length (ed_sign seed m) = ED_SIG_LEN;
  ed_sign_verifies : forall seed m, exists s, ed_sig_from_slice (ed_sign seed m) = Some s /\
    ed_verify_strict (ed_verifying_key seed) m s = true;
  ed_vk_len : forall vk, length (ed_vk_bytes vk) = ED_VK_LEN;
  ed_vk_decodes : forall vk, ed_vk_from_bytes (ed_vk_bytes vk) = Some vk;
  pq_sig_len : forall s, length (pq_sig_encode s) = PQ_SIG_LEN;
  pq_sig_decodes : forall s, pq_sig_decode (pq_sig_encode s) = Some s;
  pq_signs : forall seed m, exists s, pq_sign_deterministic seed m [] = Some s /\
    pq_verify_with_context (pq_verifying_key seed) m [] s = true;
  pq_vk_len : forall vk, length (pq_vk_encode vk) = PQ_VK_LEN;
  pq_vk_decodes : forall vk, pq_vk_decode (pq_vk_encode vk) = vk;
  hkdf_prk_ok : forall prk, length prk = Prk.MAX_LEN -> exists hk, hkdf_from_prk prk = Some hk;
  hkdf_expand_ok : forall hk info n, (n <= 255 * 64)%nat ->
    exists out, hkdf_expand hk info n = Some out /\ length out = n;
  xchacha_decrypts : forall k n a p c, xchacha_encrypt k n a p = Some c -> xchacha_decrypt k n a c = Some p;
  xchacha_len : forall k n a p c, xchacha_encrypt k n a p = Some c -> length c = (length p + 16)%nat;
  xchacha_encrypts : forall k n a p, Z.of_nat (length p) <= 64 * 1024 * 1024 ->
    exists c, xchacha_encrypt k n a p = Some c;
}.

(** ** The framing of a hybrid signature *)

Definition hybrid_frame (p e : list byte) : list byte := len_prefix p ++ p ++ len_prefix e ++ e.

Definition fits_u32 (b : list byte) : Prop := Z.of_nat (length b) <= u32_max.

Lemma len_prefix_length b : length (len_prefix b) = 4%nat.
Proof. apply be_bytes_length. Qed.

Lemma len_prefix_exact b : fits_u32 b -> len_prefix b = be_bytes 4 (Z.of_nat (length b)).
Proof.
  unfold fits_u32, len_prefix. intros Hb. change u32_max with (Z.ones 32). rewrite Z.land_ones by lia.
  rewrite Z.mod_small; [done|]. change (2 ^ 32) with 4294967296. unfold u32_max in Hb. lia.
Qed.

Lemma of_len_prefix b : fits_u32 b -> of_be_bytes (len_prefix b) = Z.of_nat (length b).
Proof.
  intros Hb. rewrite len_prefix_exact by done. apply of_be_bytes_be_bytes.
  change (256 ^ Z.of_nat 4) with 4294967296. unfold fits_u32, u32_max in Hb. lia.
Qed.

Lemma read_prefixed_app b rest : fits_u32 b -> read_prefixed (len_prefix b ++ b ++ rest) = Some (b, rest).
Proof.
  intros Hb. unfold read_prefixed, split_at_checked. rewrite !length_app, len_prefix_length.
  cbn [Nat.leb Nat.add mbind option_bind]. rewrite take_app_length', drop_app_length' by (by rewrite len_prefix_length).
  rewrite of_len_prefix, Nat2Z.id, length_app by done. rewrite (proj2 (Nat.leb_le _ _)) by lia.
  by rewrite take_app_length, drop_app_length.
Qed.

Lemma read_prefixed_inv s b rest :
  is_bytes s -> read_prefixed s = Some (b, rest) ->
  s = len_prefix b ++ b ++ rest /\ fits_u32 b /\ is_bytes rest.
Proof.
  unfold read_prefixed, split_at_checked. intros Hs. destruct (Nat.leb_spec 4 (length s)) as [H4|]; [|done].
  cbn [mbind option_bind]. set (raw := take 4 s). set (r := drop 4 s).
  assert (Hraw : length raw = 4%nat) by (unfold raw; rewrite length_take; lia).
  assert (Hrb : is_bytes raw) by (by apply Forall_take).
  pose proof (of_be_bytes_range raw Hrb) as Hrange. rewrite Hraw in Hrange.
  change (256 ^ Z.of_nat 4) with 4294967296 in Hrange.
  destruct (Nat.leb_spec (Z.to_nat (of_be_bytes raw)) (length r)) as [Hl|]; [|done]. intros [= <- <-].
  assert (Hlen : length (take (Z.to_nat (of_be_bytes raw)) r) = Z.to_nat (of_be_bytes raw))
    by (rewrite length_take; lia).
  assert (Hfit : fits_u32 (take (Z.to_nat (of_be_bytes raw)) r)) by (unfold fits_u32, u32_max; lia).
  split_and!; [|done|by repeat apply Forall_drop].
  rewrite len_prefix_exact, Hlen, Z2Nat.id by (done || lia). rewrite <- Hraw at 1.
  rewrite be_bytes_of_be_bytes by done. rewrite take_drop. unfold raw, r. by rewrite take_drop.
Qed.

(** A signature splits in exactly one way, and only if it is the frame of its parts. *)
Lemma split_hybrid_spec sig p e :
  is_bytes sig -> split_hybrid sig = Ok (p, e) <-> sig = hybrid_frame p e /\ fits_u32 p /\ fits_u32 e.
Proof.
  intros Hb. unfold split_hybrid, hybrid_frame. split.
  - destruct (read_prefixed sig) as [[p' rest]|] eqn:E1; [|done]. cbn [ok_of_option rbind].
    apply read_prefixed_inv in E1 as (-> & Hp & Hr); [|done].
    destruct (read_prefixed rest) as [[e' tl]|] eqn:E2; [|done]. cbn [ok_of_option rbind].
    apply read_prefixed_inv in E2 as (-> & He & _); [|done].
    destruct tl; [|done]. cbn [length Nat.eqb]. intros [= -> ->]. by rewrite app_nil_r.
  - intros (-> & Hp & He). rewrite read_prefixed_app by done. cbn [ok_of_option rbind].
    rewrite <- (app_nil_r e) at 2. rewrite read_prefixed_app by done. done.
Qed.

Lemma verify_framed `{Prim : Primitives} vk ctx msg sig :
  is_bytes sig ->
  (exists p e, sig = hybrid_frame p e /\ fits_u32 p /\ fits_u32 e /\
     HybridSig.verify vk ctx msg sig =
       match HybridSig.pq_ok vk (hybrid_tbs ctx msg) p, HybridSig.ed_ok vk (hybrid_tbs ctx msg) e with
       | true, true => Ok tt
       | true, false | false, true => Err CryptoError.HybridStripDetected
       | false, false => Err CryptoError.Invalid
       end) \/
  (~ (exists p e, sig = hybrid_frame p e /\ fits_u32 p /\ fits_u32 e)) /\
    HybridSig.verify vk ctx msg sig = Err CryptoError.BadLength.
Proof.
  intros Hb. unfold HybridSig.verify. destruct (split_hybrid sig) as [[p e]|er] eqn:E.
  - left. exists p, e. apply split_hybrid_spec in E as (-> & Hp & He); [|done]. by split_and!.
  - right. split.
    + intros (p & e & Hs). apply split_hybrid_spec in Hs; [congruence|done].
    + cbn [rbind]. f_equal. revert E. unfold split_hybrid.
      destruct (read_prefixed sig) as [[p rest]|]; cbn [ok_of_option rbind]; [|congruence].
      destruct (read_prefixed rest) as [[e tl]|]; cbn [ok_of_option rbind]; [|congruence].
      destruct (_ =? _)%nat; congruence.
Qed.

Lemma frame_inj p e p' e' :
  fits_u32 p -> fits_u32 p' -> hybrid_frame p e = hybrid_frame p' e' -> p = p' /\ e = e'.
Proof.
  unfold hybrid_frame. intros Hp Hp' Heq.
  apply (f_equal read_prefixed) in Heq. rewrite !read_prefixed_app in Heq by done.
  apply (inj Some), pair_equal_spec in Heq as [-> Heq]. split; [done|]. apply (f_equal (drop 4)) in Heq.
  by rewrite !drop_app_length' in Heq by (by rewrite len_prefix_length).
Qed.

(** C21 There is no way to pass verification with one component: a byte string is accepted exactly
    when it frames two signatures that both verify on the message bound to its context, a
    single verifying component is reported as a strip attempt and nothing else is, and a byte
    string that is not such a frame is rejected before any cryptography. *)
Theorem hybrid_needs_both `{Prim : Primitives} vk ctx msg sig (Hb : is_bytes sig) :
  let tbs := hybrid_tbs ctx msg in
  (HybridSig.verify vk ctx msg sig = Ok tt <->
   exists p e, sig = hybrid_frame p e /\ fits_u32 p /\ fits_u32 e /\
     HybridSig.pq_ok vk tbs p = true /\ HybridSig.ed_ok vk tbs e = true) /\
  (HybridSig.verify vk ctx msg sig = Err CryptoError.HybridStripDetected <->
   exists p e, sig = hybrid_frame p e /\ fits_u32 p /\ fits_u32 e /\
     HybridSig.pq_ok vk tbs p <> HybridSig.ed_ok vk tbs e) /\
  (HybridSig.verify vk ctx msg sig = Err CryptoError.BadLength <->
   ~ exists p e, sig = hybrid_frame p e /\ fits_u32 p /\ fits_u32 e).
Proof.
  intros tbs. destruct (verify_framed vk ctx msg sig Hb) as [(p & e & Hs & Hp & He & ->)|[Hno ->]].
  - assert (Huniq : forall p' e', sig = hybrid_frame p' e' -> fits_u32 p' -> p' = p /\ e' = e).
    { intros p' e' Hs' Hp'. apply frame_inj; [done..|congruence]. }
    fold tbs. destruct (HybridSig.pq_ok vk tbs p) eqn:E1, (HybridSig.ed_ok vk tbs e) eqn:E2;
      (split_and!; split; [|..]); try done; try (intros _; exists p, e; split_and!; congruence);
      try (intros (p' & e' & Hs' & Hp' & He' & Hx); destruct (Huniq p' e' Hs' Hp') as [-> ->]; 
           try destruct Hx; congruence);
      intros Hn; destruct Hn; by exists p, e.
  - split_and!; split; try done; intros (p & e & Hs & Hp & He & _); destruct Hno; by exists p, e.
Qed.

Lemma Ok_inj {A E} (a b : A) : @Ok A E a = Ok b -> a = b.
Proof. by intros [=]. Qed.

(** ** Each adapter fills its slot *)

Section Fill.
Context `{Prim : Primitives} {PL : PrimitiveLaws Prim}.

Lemma pq_component_fits seed m s :
  pq_sign_deterministic seed m [] = Some s -> fits_u32 (pq_sig_encode s).
Proof. intros _. unfold fits_u32. rewrite pq_sig_len. apply pq_sig_len_u32. Qed.

#[global] Instance HybridSig_laws : SignatureLaws HybridSig.HybridSig.
Proof.
  constructor. intros sk ctx m s Hs. change (HybridSig.verify (HybridSig.verifying_key sk) ctx m s = Ok tt).
  change (HybridSig.sign sk ctx m = Ok s) in Hs. unfold HybridSig.sign in Hs.
  destruct (pq_signs (pq_seed sk) (hybrid_tbs ctx m)) as (q & Hq & Hv). rewrite Hq in Hs.
  cbn [ok_of_option rbind] in Hs. apply Ok_inj in Hs as <-.
  unfold HybridSig.verify, split_hybrid.
  rewrite read_prefixed_app by (by eapply pq_component_fits). cbn [ok_of_option rbind].
  set (e := ed_sign (ed_seed sk) (hybrid_tbs ctx m)). rewrite <- (app_nil_r e) at 2.
  rewrite read_prefixed_app by (unfold fits_u32, e; by rewrite ed_sign_len).
  cbn [ok_of_option rbind length Nat.eqb]. unfold HybridSig.pq_ok, HybridSig.ed_ok, decode_pq_sig, e.
  rewrite pq_sig_len, Nat.eqb_refl, pq_sig_decodes. cbn [HybridSig.verifying_key pq ed]. rewrite Hv.
  destruct (ed_sign_verifies (ed_seed sk) (hybrid_tbs ctx m)) as (es & -> & ->). done.
Qed.

Lemma FastSig_laws : SignatureLaws FastSig.FastSig.
Proof.
  constructor. intros sk ctx m s Hs. cbn in *. injection Hs as <-. unfold FastSig.verify.
  destruct (ed_sign_verifies sk (hybrid_tbs ctx m)) as (es & -> & Hv). cbn. by rewrite Hv.
Qed.

Lemma hybrid_signs sk ctx m :
  exists s, HybridSig.sign sk ctx m = Ok s /\ length s = HybridSig.SIG_MAX_LEN.
Proof.
  unfold HybridSig.sign. destruct (pq_signs (pq_seed sk) (hybrid_tbs ctx m)) as (q & -> & _).
  eexists. split; [reflexivity|]. rewrite !length_app, !len_prefix_length, pq_sig_len, ed_sign_len.
  unfold HybridSig.SIG_MAX_LEN. lia.
Qed.

#[global] Instance XChaCha_laws : AeadLaws XChaCha20Poly1305Aead.XChaCha20Poly1305Aead.
Proof.
  constructor; cbn; unfold XChaCha20Poly1305Aead.seal, XChaCha20Poly1305Aead.open.
  - intros k n a p c Hs. destruct (_ || _); [done|].
    destruct (xchacha_encrypt k n a p) as [c'|] eqn:E; [|done]. injection Hs as ->.
    rewrite (xchacha_decrypts k n a p c E). pose proof (xchacha_len k n a p c E).
    unfold XChaCha20Poly1305Aead.TAG_LEN. by destruct (Nat.ltb_spec (length c) 16); [lia|].
  - intros k n a p c Hs. destruct (_ || _); [done|].
    destruct (xchacha_encrypt k n a p) as [c'|] eqn:E; [|done]. injection Hs as ->. by eapply xchacha_len.
  - intros k n a p -> -> Hp. rewrite !Nat.eqb_refl. cbn [negb orb].
    destruct (xchacha_encrypts k n a p Hp) as [c ->]. by exists c.
  - done.
Qed.

#[global] Instance Hkdf_laws : KdfLaws HkdfSha512.HkdfSha512.
Proof.
  constructor; cbn.
  - intros salt ikm. unfold HkdfSha512.extract, Prk.from_bytes.
    rewrite length_app, length_take, repeat_length. unfold Prk.MAX_LEN. lia.
  - intros prk info n Hp Hn. unfold HkdfSha512.expand.
    destruct (Nat.ltb_spec (255 * 64) n); [lia|]. destruct (hkdf_prk_ok prk Hp) as [hk ->]. cbn [ok_of_option rbind].
    destruct (hkdf_expand_ok hk info n) as (out & -> & Hl); [lia|]. by exists out.
Qed.

#[global] Instance ClStd1_laws `{RL : RngLaws} : SuiteLaws ClStd1.
Proof. constructor; cbn; [done|tc_solve..]. Qed.

(** The keys of the reference suite survive their encodings. *)
Lemma hybrid_keys_roundtrip :
  (forall vk, HybridSig.decode_vk (HybridSig.encode_vk vk) = Ok vk) /\
  (forall sk, length (pq_seed sk) = PQ_SK_SEED_LEN -> length (ed_seed sk) = ED_SK_LEN ->
     HybridSig.decode_sk (HybridSig.encode_sk sk) = Ok sk).
Proof.
  split.
  - intros vk. unfold HybridSig.decode_vk, HybridSig.encode_vk. rewrite length_app, pq_vk_len, ed_vk_len.
    unfold HybridSig.VK_LEN. rewrite Nat.eqb_refl. cbn [negb].
    rewrite take_app_length', drop_app_length' by (by rewrite pq_vk_len).
    rewrite ed_vk_decodes, pq_vk_decodes. by destruct vk.
  - intros sk Hp He. unfold HybridSig.decode_sk, HybridSig.encode_sk. rewrite length_app, Hp, He.
    unfold HybridSig.SK_LEN. rewrite Nat.eqb_refl. cbn [negb].
    rewrite take_app_length', drop_app_length' by done. by destruct sk.
Qed.

(** The signed string determines the context and the digest of the message. *)
Lemma hybrid_tbs_binds c d m m' :
  length (DomainCtx.suite_id c) = SuiteId.LEN -> length (DomainCtx.suite_id d) = SuiteId.LEN ->
  fits_u32 (DomainCtx.to_bytes c) -> fits_u32 (DomainCtx.to_bytes d) ->
  hybrid_tbs c m = hybrid_tbs d m' -> c = d /\ Hash.hash_ m = Hash.hash_ m'.
Proof.
  intros Hc Hd Fc Fd Heq. unfold hybrid_tbs in Heq. apply app_inv_head in Heq.
  apply (f_equal read_prefixed) in Heq. rewrite !read_prefixed_app in Heq by done.
  apply (inj Some), pair_equal_spec in Heq as [Heq Hh]. split; [|done]. by apply domain_ctx_inj.
Qed.

End Fill.

(** ** The HMAC fingerprint *)

(** [AttrValue::set] sorts and deduplicates; the wire decoder does not. *)
Definition sets_normal (d : DeviceAttrs) : Prop :=
  map_Forall (fun _ v => match v with AttrValue.Set_ l => NoDup l | _ => True end) (DeviceAttrs.entries d).

Import HmacFingerprint.

Definition inter_count (x y : list string) : nat := length (List.filter (fun i => bool_decide (i ∈ y)) x).

Lemma list_filter_eq (x y : list string) :
  List.filter (fun i : string => bool_decide (i ∈ y)) x = filter (fun i => i ∈ y) x.
Proof. induction x as [|a x IH]; [done|]. rewrite filter_cons. simpl. case_bool_decide; case_decide; try done; by rewrite IH. Qed.

Lemma inter_count_comm x y : NoDup x -> NoDup y -> inter_count x y = inter_count y x.
Proof.
  intros Hx Hy. unfold inter_count. rewrite !list_filter_eq. apply Permutation_length, NoDup_Permutation.
  - by apply NoDup_filter.
  - by apply NoDup_filter.
  - intros i. rewrite !list_elem_of_filter. tauto.
Qed.

Lemma inter_count_le x y : (inter_count x y <= length x)%nat.
Proof. apply List.filter_length_le. Qed.

Lemma inter_count_all (x y : list string) : (forall i, i ∈ x -> i ∈ y) -> inter_count x y = length x.
Proof.
  unfold inter_count. rewrite list_filter_eq. intros Hs. induction x as [|a x IH]; [done|].
  rewrite filter_cons, decide_True by (apply Hs; set_solver). simpl. f_equal. apply IH. set_solver.
Qed.

Definition attr_normal (v : AttrValue) : Prop :=
  match v with AttrValue.Set_ l => NoDup l | _ => True end.

Lemma value_score_range a b : attr_normal a -> attr_normal b -> 0 <= value_score a b <= 100.
Proof.
  intros Ha Hb. destruct a as [|x|x|x], b as [|y|y|y]; simpl; try lia; try (case_bool_decide; lia).
  destruct (_ && _); [lia|]. fold (inter_count x y). pose proof (inter_count_le x y) as Hi.
  assert (Hj : (inter_count x y <= length y)%nat) by (rewrite inter_count_comm by done; apply inter_count_le).
  destruct (Z.eqb_spec (Z.of_nat (length x) + Z.of_nat (length y) - Z.of_nat (inter_count x y)) 0); [lia|].
  unfold try_into_or. destruct (_ && _) eqn:E; [|lia]. bprop. split; [lia|].
  rewrite Z.quot_div_nonneg by lia. apply Z.div_le_upper_bound; lia.
Qed.

Lemma value_score_comm a b : attr_normal a -> attr_normal b -> value_score a b = value_score b a.
Proof.
  intros Ha Hb. destruct a as [|x|x|x], b as [|y|y|y]; simpl; try done;
    try (rewrite (bool_decide_ext (x = y) (y = x)) by naive_solver; done).
  rewrite (andb_comm (length y =? 0)%nat). destruct (_ && _); [done|]. fold (inter_count x y) (inter_count y x).
  rewrite (inter_count_comm x y) by done.
  replace (Z.of_nat (length x) + Z.of_nat (length y)) with (Z.of_nat (length y) + Z.of_nat (length x)) by lia. done.
Qed.

Lemma value_score_self v : v <> AttrValue.Absent -> attr_normal v -> value_score v v = 100.
Proof.
  intros Hv Hn. destruct v as [|x|x|x]; simpl; [done| | |]; try (by rewrite bool_decide_eq_true_2).
  destruct (_ && _) eqn:E; [done|]. fold (inter_count x x).
  assert (inter_count x x = length x) as ->.
  { by apply inter_count_all. }
  destruct (Z.eqb_spec (Z.of_nat (length x) + Z.of_nat (length x) - Z.of_nat (length x)) 0); [done|].
  replace (Z.of_nat (length x) + Z.of_nat (length x) - Z.of_nat (length x)) with (Z.of_nat (length x)) in * by lia.
  rewrite Z.quot_div_nonneg by lia. rewrite Z.mul_comm, Z.div_mul by done. done.
Qed.

(** What a weighted attribute adds to the denominator and to the numerator. *)
Definition seen_weight (a b : DeviceAttrs) (kw : string * Z) : Z :=
  if observed a b kw.1 then kw.2 else 0.
Definition earned_weight (a b : DeviceAttrs) (kw : string * Z) : Z :=
  match DeviceAttrs.get_present a kw.1, DeviceAttrs.get_present b kw.1 with
  | Some x, Some y => Z.quot (kw.2 * value_score x y) 100
  | _, _ => 0
  end.
Definition sum_over (f : string * Z -> Z) (kws : list (string * Z)) : Z := foldr (fun kw acc => f kw + acc) 0 kws.

Lemma tally_sums a b kws total matched :
  fold_left (tally_ a b) kws (total, matched) =
  (total + sum_over (seen_weight a b) kws, matched + sum_over (earned_weight a b) kws).
Proof.
  revert total matched. induction kws as [|[k w] kws IH]; intros total matched; simpl.
  { by rewrite !Z.add_0_r. }
  assert (Hs : seen_weight a b (k, w) = match DeviceAttrs.get_present a k, DeviceAttrs.get_present b k with
    | None, None => 0 | _, _ => w end).
  { unfold seen_weight, observed. simpl.
    by destruct (DeviceAttrs.get_present a k), (DeviceAttrs.get_present b k). }
  assert (He : earned_weight a b (k, w) = match DeviceAttrs.get_present a k, DeviceAttrs.get_present b k with
    | Some x, Some y => Z.quot (w * value_score x y) 100 | _, _ => 0 end) by done.
  rewrite Hs, He. clear Hs He.
  destruct (DeviceAttrs.get_present a k) as [x|], (DeviceAttrs.get_present b k) as [y|];
    rewrite IH; f_equal; lia.
Qed.

Lemma sum_over_mono f g kws :
  (forall kw, kw ∈ kws -> 0 <= f kw <= g kw) -> 0 <= sum_over f kws <= sum_over g kws.
Proof.
  unfold sum_over. induction kws as [|kw kws IH]; intros Hfg; simpl; [lia|].
  pose proof (Hfg kw ltac:(set_solver)). specialize (IH ltac:(set_solver)). lia.
Qed.
Lemma sum_over_ext f g kws : (forall kw, kw ∈ kws -> f kw = g kw) -> sum_over f kws = sum_over g kws.
Proof.
  unfold sum_over. induction kws as [|kw kws IH]; intros Hfg; simpl; [done|].
  rewrite (Hfg kw), IH by set_solver. done.
Qed.

Lemma present_normal d k v : sets_normal d -> DeviceAttrs.get_present d k = Some v -> attr_normal v /\ v <> AttrValue.Absent.
Proof.
  intros Hd. unfold DeviceAttrs.get_present. destruct (DeviceAttrs.entries d !! k) as [w|] eqn:E; [|done].
  intros Hv. specialize (Hd k w E). destruct w; simplify_eq; by split.
Qed.

Lemma hmac_weights_positive : forall kw, kw ∈ WEIGHTS -> 0 < kw.2.
Proof. apply Forall_forall, (bool_decide_unpack (Forall _ _)). reflexivity. Qed.

Section Similarity.
Context (a b : DeviceAttrs) (Ha : sets_normal a) (Hb : sets_normal b).

Lemma earned_range kw : kw ∈ WEIGHTS -> 0 <= earned_weight a b kw <= seen_weight a b kw.
Proof.
  intros Hin. pose proof (hmac_weights_positive kw Hin) as Hw. unfold earned_weight, seen_weight, observed.
  destruct (DeviceAttrs.get_present a kw.1) as [x|] eqn:E1, (DeviceAttrs.get_present b kw.1) as [y|] eqn:E2;
    cbn; try lia.
  apply present_normal in E1 as [Hx _], E2 as [Hy _]; [|done..]. pose proof (value_score_range x y Hx Hy).
  rewrite Z.quot_div_nonneg by nia. split; [apply Z.div_pos; nia|apply Z.div_le_upper_bound; nia].
Qed.

Lemma earned_comm kw : earned_weight a b kw = earned_weight b a kw.
Proof.
  unfold earned_weight. destruct (DeviceAttrs.get_present a kw.1) as [x|] eqn:E1,
    (DeviceAttrs.get_present b kw.1) as [y|] eqn:E2; try done.
  apply present_normal in E1 as [Hx _], E2 as [Hy _]; [|done..]. by rewrite value_score_comm.
Qed.
End Similarity.

Lemma earned_self a kw : sets_normal a -> kw ∈ WEIGHTS -> earned_weight a a kw = seen_weight a a kw.
Proof.
  intros Ha Hin. unfold earned_weight, seen_weight, observed.
  destruct (DeviceAttrs.get_present a kw.1) as [x|] eqn:E; cbn; [|done].
  apply present_normal in E as [Hx Hp]; [|done]. rewrite value_score_self by done.
  rewrite Z.quot_mul by done. done.
Qed.

(** On normalised attributes - sets without repeated members, as [AttrValue::set] builds them -
    the reference fingerprint scheme scores in 0..=100, symmetrically, and a device that
    reports any weighted attribute scores 100 against itself.  Without that the range is lost:
    the wire decoder accepts repeated members, and a stored set that repeats its only member
    scores 200 against the plain one. *)
Theorem hmac_similarity_sound :
  (forall a b, sets_normal a -> sets_normal b ->
     0 <= similarity_ a b <= 100 /\ similarity_ a b = similarity_ b a) /\
  (forall a, sets_normal a ->
     similarity_ a a = 100 /\ (exists kw, kw ∈ WEIGHTS /\ DeviceAttrs.get_present a kw.1 <> None) \/
     similarity_ a a = 0 /\ (forall kw, kw ∈ WEIGHTS -> DeviceAttrs.get_present a kw.1 = None)) /\
  (let dup := DeviceAttrs.mk {["mac_addrs" := AttrValue.Set_ ["m"; "m"]]} in
   let one := DeviceAttrs.mk {["mac_addrs" := AttrValue.Set_ ["m"]]} in
   similarity_ dup one = 200 /\ attrs.decode_attrs (norm (attrs.encode_attrs dup)) = Ok dup).
Proof.
  split_and!.
  - intros a b Ha Hb. unfold similarity_. rewrite !tally_sums.
    pose proof (sum_over_mono _ _ _ (earned_range a b Ha Hb)) as Hm.
    rewrite (sum_over_ext (earned_weight b a) (earned_weight a b)) by (intros; by apply earned_comm).
    rewrite (sum_over_ext (seen_weight b a) (seen_weight a b))
      by (intros; unfold seen_weight; by rewrite observed_comm).
    split; [|done]. destruct (Z.eqb_spec (0 + sum_over (seen_weight a b) WEIGHTS) 0); [lia|].
    unfold try_into_or. destruct (_ && _) eqn:E; [|lia]. bprop. split; [done|].
    rewrite Z.quot_div_nonneg by lia. apply Z.div_le_upper_bound; lia.
  - intros a Ha. unfold similarity_. rewrite tally_sums.
    rewrite (sum_over_ext (earned_weight a a) (seen_weight a a)) by (intros; by apply earned_self).
    assert (Hz : 0 + sum_over (seen_weight a a) WEIGHTS <> 0 <->
      exists kw, kw ∈ WEIGHTS /\ DeviceAttrs.get_present a kw.1 <> None).
    { change (sum_over (seen_weight a a) WEIGHTS) with (weigh (observed a a) WEIGHTS).
      rewrite Z.add_0_l, weigh_nonzero by (apply Forall_forall, hmac_weights_positive). split.
      - intros (k & w & Hin & Ho). exists (k, w). split; [done|]. simpl. intros Hn. unfold observed in Ho.
        by rewrite Hn in Ho.
      - intros ([k w] & Hin & Hp). exists k, w. split; [done|]. unfold observed.
        by rewrite bool_decide_eq_false_2. }
    destruct (Z.eqb_spec (0 + sum_over (seen_weight a a) WEIGHTS) 0) as [E|E].
    + right. split; [done|]. intros kw Hin.
      destruct (DeviceAttrs.get_present a kw.1) eqn:Ek; [|done]. exfalso. apply (proj2 Hz); [|done]. exists kw. by rewrite Ek.
    + left. split; [|by apply Hz]. rewrite Z.mul_comm, Z.quot_mul by done. done.
  - by vm_compute.
Qed.

(** ** Toy primitives, to run the adapters on concrete inputs *)
Module DemoPrim.
Import Demo.
Definition vk_of (seed : list byte) : bool := Z.odd (mix seed).
Definition vk_bytes (b : bool) : list byte := (if b then 1 else 0) :: repeat 0 31.
Definition vk_from (l : list byte) : bool := bool_decide (head l = Some 1).
Definition ed_mac (vk : bool) (m : list byte) : list byte := be_bytes 64 (mix (vk_bytes vk ++ m)).
Definition pq_mac (vk : bool) (m : list byte) : bool := Z.odd (mix (vk_bytes vk ++ m ++ [1])).

Definition params : PqParams := {| PQ_VK_LEN := 32; PQ_SIG_LEN := 1; PQ_LEVEL := SecurityLevel.Category3 |}.
Definition prims : Primitives := {|
  prim_params := params;
  sha256 := Demo.hash_;
  EdVk := bool; EdSig := list byte;
  ed_verifying_key := vk_of; ed_sign := fun seed m => ed_mac (vk_of seed) m;
  ed_sig_from_slice := fun s => if (length s =? 64)%nat then Some s else None;
  ed_verify_strict := fun vk m s => bool_decide (s = ed_mac vk m);
  ed_vk_bytes := vk_bytes; ed_vk_from_bytes := fun l => Some (vk_from l);
  PqVk := bool; PqSig := bool;
  pq_verifying_key := vk_of;
  pq_sign_deterministic := fun seed m _ => Some (pq_mac (vk_of seed) m);
  pq_sig_encode := fun b => [if b : bool then 1 else 0];
  pq_sig_decode := fun l => Some (vk_from l);
  pq_verify_with_context := fun vk m _ s => Bool.eqb s (pq_mac vk m);
  pq_vk_encode := vk_bytes; pq_vk_decode := vk_from;
  HkdfState := list byte; Argon2Params := unit;
  hkdf_extract := fun salt ikm => digest (salt ++ ikm);
  hkdf_from_prk := fun prk => Some prk;
  hkdf_expand := fun hk info n => Some (be_bytes n (mix (hk ++ info)));
  argon2_params := fun _ _ _ _ => Some tt;
  argon2_hash := fun _ pw salt n => Some (be_bytes n (mix (pw ++ salt)));
  hmac_sha256 := fun k m => Some (digest (k ++ m));
  xchacha_encrypt := fun k n a p => Some (p ++ tag k n a p);
  xchacha_decrypt := fun k n a c => Some (take (length c - 16) c);
|}.

Lemma prim_laws : PrimitiveLaws prims.
Proof.
  constructor; cbn -[be_bytes mix vk_bytes]; try done.
  - exact Demo.hash_laws.
  - intros seed m. exists (ed_mac (vk_of seed) m). unfold ed_mac at 1. rewrite be_bytes_length. cbn [Nat.eqb].
    by rewrite bool_decide_eq_true_2.
  - by intros [].
  - by intros [].
  - intros seed m. eexists. split; [reflexivity|]. apply eqb_reflx.
  - by intros [].
  - intros prk _. by eexists.
  - intros hk info n _. eexists. split; [reflexivity|]. apply be_bytes_length.
  - intros k n a p c [= <-]. rewrite length_app. unfold tag at 1. rewrite be_bytes_length, Nat.add_sub.
    by rewrite take_app_length.
  - intros k n a p c [= <-]. rewrite length_app. unfold tag. by rewrite be_bytes_length.
  - intros. by eexists.
Qed.
End DemoPrim.

Definition demo_ctx : DomainCtx := DomainCtx.new ArtifactKind.MachineCred [1; 0; 0; 1] "acme".

(** A signature without its Ed25519 half is a strip attempt. *)
Lemma hybrid_needs_both_witness :
  let sk := hybrid_sk [1] [2] in
  let vk := HybridSig.verifying_key (Prim := DemoPrim.prims) sk in
  let p := [if DemoPrim.pq_mac (DemoPrim.vk_of [1]) (hybrid_tbs (Prim := DemoPrim.prims) demo_ctx [7]) then 1 else 0] in
  HybridSig.verify vk demo_ctx [7] (hybrid_frame p (repeat 0 64)) = Err CryptoError.HybridStripDetected.
Proof.
  cbv zeta. apply (hybrid_needs_both (Prim := DemoPrim.prims)).
  - apply (bool_decide_unpack (Forall _ _)). vm_compute. reflexivity.
  - eexists _, _. split; [reflexivity|]. split; [vm_compute; discriminate|]. split; [vm_compute; discriminate|].
    vm_compute. discriminate.
Defined.



Lemma hmac_similarity_sound_witness :
  0 <= HmacFingerprint.similarity_ (demo_attrs (AttrValue.Text "1")) (demo_attrs (AttrValue.Text "1")) <= 100.
Proof.
  apply (proj1 hmac_similarity_sound); unfold sets_normal; apply map_Forall_singleton; exact I.
Defined.
