(* ===== verification/Seal.v ===== *)
(** * Sealing secrets and assets
      ([crates/copylocker-proto/src/keywrap.rs], [sealed_asset.rs])

    The associated data of the three sealed things - credential secret, wrapped key, asset -
    and the sealing and opening operations over the slots of a suite.  Secrets are byte lists
    of their width; wiping memory is not modelled. *)

From S2P Require Import Prelude Types Errors Cbor Field Chain Requests Messages Suite.
Import CborValue.

Definition WRAPPED_SECRET_LEN : nat := 32.
Definition CREDENTIAL_WRAP_SALT : list byte := text_bytes "copylocker/cs-wrap/v1".
Definition CREDENTIAL_AAD_LABEL : string := "copylocker/cs-aad/v1".
Definition KEK_AAD_LABEL : string := "copylocker/kek-aad/v1".

Module CredentialSealContext.
Record CredentialSealContext := mk {
  proto_ver : Z;
  suite_id : list byte;
  product_id : string;
  license_id : LicenseId;
  machine_id : MachineId;
  fingerprint : Fingerprint;
  kem_ct : list byte;
  offline_nonce : list byte;
  epoch_id : EpochId;
  variant_id : Z;
}.

Definition aad_value (c : CredentialSealContext) : CborValue :=
  let b := MapBuilder.new in
  let b := MapBuilder.put b 0 (Text (text_bytes CREDENTIAL_AAD_LABEL)) in
  let b := MapBuilder.put b 1 (Uint (proto_ver c)) in
  let b := MapBuilder.put b 2 (Bytes (suite_id c)) in
  let b := MapBuilder.put b 3 (Text (text_bytes (product_id c))) in
  let b := MapBuilder.put b 4 (Bytes (license_id c)) in
  let b := MapBuilder.put b 5 (Bytes (machine_id c)) in
  let b := MapBuilder.put b 6 (Bytes (fingerprint c)) in
  let b := MapBuilder.put b 7 (Bytes (kem_ct c)) in
  let b := MapBuilder.put b 8 (Bytes (offline_nonce c)) in
  let b := MapBuilder.put b 9 (Bytes (epoch_id c)) in
  let b := MapBuilder.put b 10 (Uint (variant_id c)) in
  MapBuilder.build b.
Definition aad (c : CredentialSealContext) : list byte := CborValue.to_canonical (aad_value c).
End CredentialSealContext.
Notation CredentialSealContext := CredentialSealContext.CredentialSealContext.

Module KekWrapKind.
Inductive KekWrapKind := Offline | Online.
Definition discriminant (k : KekWrapKind) : Z := match k with Offline => 0 | Online => 1 end.
End KekWrapKind.
Notation KekWrapKind := KekWrapKind.KekWrapKind.

Module KekWrapContext.
Record KekWrapContext := mk {
  proto_ver : Z;
  suite_id : list byte;
  product_id : string;
  license_id : LicenseId;
  machine_id : MachineId;
  epoch_id : EpochId;
  variant_id : Z;
  feature_id : string;
  kind : KekWrapKind;
  session_nonce : list byte;
}.

Definition aad_value (c : KekWrapContext) : CborValue :=
  let b := MapBuilder.new in
  let b := MapBuilder.put b 0 (Text (text_bytes KEK_AAD_LABEL)) in
  let b := MapBuilder.put b 1 (Uint (proto_ver c)) in
  let b := MapBuilder.put b 2 (Bytes (suite_id c)) in
  let b := MapBuilder.put b 3 (Text (text_bytes (product_id c))) in
  let b := MapBuilder.put b 4 (Bytes (license_id c)) in
  let b := MapBuilder.put b 5 (Bytes (machine_id c)) in
  let b := MapBuilder.put b 6 (Bytes (epoch_id c)) in
  let b := MapBuilder.put b 7 (Uint (variant_id c)) in
  let b := MapBuilder.put b 8 (Text (text_bytes (feature_id c))) in
  let b := MapBuilder.put b 9 (Uint (KekWrapKind.discriminant (kind c))) in
  let b := MapBuilder.put b 10 (Bytes (session_nonce c)) in
  MapBuilder.build b.
Definition aad (c : KekWrapContext) : list byte := CborValue.to_canonical (aad_value c).
End KekWrapContext.
Notation KekWrapContext := KekWrapContext.KekWrapContext.

(** [try_into] of a 32-byte array. *)
Definition to_secret (plaintext : list byte) : result (list byte) CryptoError :=
  if (length plaintext =? WRAPPED_SECRET_LEN)%nat then Ok plaintext else Err CryptoError.BadLength.

Section KeyWrap.
Context `{S : CryptoSuite}.

Definition credential_wrap_key (kem_shared_secret : list byte) (c : CredentialSealContext)
    : result (list byte) CryptoError :=
  let prk := Kdf.extract CREDENTIAL_WRAP_SALT kem_shared_secret in
  Kdf.expand_parts prk
    [CredentialSealContext.suite_id c; text_bytes (CredentialSealContext.product_id c);
     CredentialSealContext.license_id c; CredentialSealContext.machine_id c] Aead.KEY_LEN.

Definition seal_credential_secret (kem_shared_secret : list byte) (c : CredentialSealContext)
    (credential_secret : list byte) (rng : Rng) : result (list byte) CryptoError * Rng :=
  match credential_wrap_key kem_shared_secret c with
  | Err e => (Err e, rng)
  | Ok key => Aead.seal_with_nonce key (CredentialSealContext.aad c) credential_secret rng
  end.

(** The additions are of small constants and cannot overflow [usize]. *)
Definition ensure_wrapped_len (blob : list byte) : result unit CryptoError :=
  let expected := (Aead.NONCE_LEN + WRAPPED_SECRET_LEN + Aead.TAG_LEN)%nat in
  if negb (length blob =? expected)%nat then Err CryptoError.BadLength else Ok tt.

Definition open_credential_secret (kem_shared_secret : list byte) (c : CredentialSealContext)
    (sealed : list byte) : result (list byte) CryptoError :=
  check? ensure_wrapped_len sealed ;;
  key <-? credential_wrap_key kem_shared_secret c ;;
  plaintext <-? Aead.open_with_nonce key (CredentialSealContext.aad c) sealed ;;
  to_secret plaintext.

Definition seal_kek (feature_key : list byte) (c : KekWrapContext) (kek : list byte) (rng : Rng)
    : result (list byte) CryptoError * Rng :=
  Aead.seal_with_nonce feature_key (KekWrapContext.aad c) kek rng.

Definition open_kek (feature_key : list byte) (c : KekWrapContext) (wrapped : list byte)
    : result (list byte) CryptoError :=
  check? ensure_wrapped_len wrapped ;;
  plaintext <-? Aead.open_with_nonce feature_key (KekWrapContext.aad c) wrapped ;;
  to_secret plaintext.
End KeyWrap.

(** ** Sealed assets *)
Definition SEALED_ASSET_SCHEMA_V1 : Z := 1.
Definition MAX_SEALED_ASSET_BYTES : Z := 64 * 1024 * 1024.
Definition MAX_ASSET_ID_BYTES : Z := 1024.
Definition ASSET_AAD_LABEL : string := "copylocker/asset-aad/v1".
Definition ASSET_LIMITS : Limits := Limits.mk MAX_CBOR_DEPTH 32 MAX_SEALED_ASSET_BYTES.
Definition usize_max : Z := u64_max.

Definition cbor_uint_len (value : Z) : Z :=
  if value <=? 23 then 1 else if value <=? u8_max then 2 else if value <=? u16_max then 3
  else if value <=? u32_max then 5 else 9.
Definition cbor_blob_len (length_ : Z) : option Z := checked 0 usize_max (cbor_uint_len length_ + length_).

Module SealedAsset.
Record SealedAsset := mk {
  schema : Z;
  suite_id : list byte;
  product_id : string;
  variant_id : Z;
  feature_id : string;
  asset_id : string;
  ciphertext : list byte;
}.

Definition to_value (a : SealedAsset) : CborValue :=
  let b := MapBuilder.new in
  let b := MapBuilder.put b 0 (Uint (schema a)) in
  let b := MapBuilder.put b 1 (Bytes (suite_id a)) in
  let b := MapBuilder.put b 2 (Text (text_bytes (product_id a))) in
  let b := MapBuilder.put b 3 (Uint (variant_id a)) in
  let b := MapBuilder.put b 4 (Text (text_bytes (feature_id a))) in
  let b := MapBuilder.put b 5 (Text (text_bytes (asset_id a))) in
  let b := MapBuilder.put b 6 (Bytes (ciphertext a)) in
  MapBuilder.build b.
Definition encode (a : SealedAsset) : list byte := CborValue.to_canonical (to_value a).

Definition aad_value (a : SealedAsset) : CborValue :=
  let b := MapBuilder.new in
  let b := MapBuilder.put b 0 (Text (text_bytes ASSET_AAD_LABEL)) in
  let b := MapBuilder.put b 1 (Bytes (suite_id a)) in
  let b := MapBuilder.put b 2 (Text (text_bytes (product_id a))) in
  let b := MapBuilder.put b 3 (Uint (variant_id a)) in
  let b := MapBuilder.put b 4 (Text (text_bytes (feature_id a))) in
  let b := MapBuilder.put b 5 (Text (text_bytes (asset_id a))) in
  MapBuilder.build b.
Definition aad (a : SealedAsset) : list byte := CborValue.to_canonical (aad_value a).

Definition identifiers_are_valid (a : SealedAsset) : bool :=
  forallb (fun value => negb (str_len value =? 0) && (str_len value <=? MAX_ASSET_ID_BYTES) &&
             negb (contains_nul value))
    [product_id a; feature_id a; asset_id a].

Definition encoded_len_with_ciphertext (a : SealedAsset) (ciphertext_len : Z) : option Z :=
  foldl (fun total part => t ← total; p ← part; checked 0 usize_max (t + p)) (Some 0)
    [Some (1 + 7);
     Some (cbor_uint_len (schema a));
     cbor_blob_len (Z.of_nat (length (suite_id a)));
     cbor_blob_len (str_len (product_id a));
     Some (cbor_uint_len (variant_id a));
     cbor_blob_len (str_len (feature_id a));
     cbor_blob_len (str_len (asset_id a));
     cbor_blob_len ciphertext_len].

(** [.is_none_or(|length| length > MAX_SEALED_ASSET_BYTES)]. *)
Definition too_large (a : SealedAsset) (ciphertext_len : Z) : bool :=
  match encoded_len_with_ciphertext a ciphertext_len with
  | None => true
  | Some length_ => length_ >? MAX_SEALED_ASSET_BYTES
  end.

Definition with_ciphertext (a : SealedAsset) (c : list byte) : SealedAsset :=
  mk (schema a) (suite_id a) (product_id a) (variant_id a) (feature_id a) (asset_id a) c.

Section WithSuite.
Context `{S : CryptoSuite}.

Definition seal (product_id : string) (variant_id : Z) (feature_id asset_id : string)
    (plaintext kek : list byte) (rng : Rng) : result SealedAsset CryptoError * Rng :=
  let asset := mk SEALED_ASSET_SCHEMA_V1 SUITE_ID product_id variant_id feature_id asset_id [] in
  if negb (identifiers_are_valid asset) then (Err CryptoError.Invalid, rng)
  else
    match checked 0 usize_max (Z.of_nat (length plaintext) + Z.of_nat Aead.NONCE_LEN) ≫=
          fun n => checked 0 usize_max (n + Z.of_nat Aead.TAG_LEN) with
    | None => (Err CryptoError.BadLength, rng)
    | Some ciphertext_len =>
        if too_large asset ciphertext_len then (Err CryptoError.BadLength, rng)
        else
          match Aead.seal_with_nonce kek (aad asset) plaintext rng with
          | (Err e, rng) => (Err e, rng)
          | (Ok c, rng) =>
              let asset := with_ciphertext asset c in
              if too_large asset (Z.of_nat (length c)) then (Err CryptoError.BadLength, rng)
              else (Ok asset, rng)
          end
    end.

Definition open (a : SealedAsset) (kek : list byte) : result (list byte) CryptoError :=
  if negb (schema a =? SEALED_ASSET_SCHEMA_V1)
     || negb (bool_decide (suite_id a = SUITE_ID))
     || negb (identifiers_are_valid a)
     || too_large a (Z.of_nat (length (ciphertext a)))
  then Err CryptoError.Invalid
  else Aead.open_with_nonce kek (aad a) (ciphertext a).
End WithSuite.

Definition decode (bytes : list byte) : result SealedAsset ProtoError :=
  bounded MAX_SEALED_ASSET_BYTES bytes
    (value <-? map_err ProtoError.Codec (Parser.decode_canonical bytes ASSET_LIMITS) ;;
     match as_map value with
     | None => Err malformed
     | Some _ =>
     schema <-? field.uint value 0 ;;
     suite_id <-? field.suite_id value 1 ;;
     product_id <-? field.text value 2 ;;
     variant_id <-? field.uint value 3 ;;
     feature_id <-? field.text value 4 ;;
     asset_id <-? field.text value 5 ;;
     ciphertext <-? field.bytes value 6 ;;
     let asset := mk schema suite_id product_id variant_id feature_id asset_id ciphertext in
     if negb (schema =? SEALED_ASSET_SCHEMA_V1)
        || negb (identifiers_are_valid asset)
        || (Z.of_nat (length ciphertext) >? MAX_SEALED_ASSET_BYTES)
     then Err malformed else Ok asset
     end).
End SealedAsset.
Notation SealedAsset := SealedAsset.SealedAsset.

(** ** Associated data determines its context *)

(** A string of any length a machine can hold. *)
Definition WIDE : Limits := Limits.mk 2 64 u64_max.
Definition flat (v : CborValue) : Prop :=
  match v with
  | Uint n => in_u64 n
  | Bytes b => Z.of_nat (length b) <= u64_max
  | Text t => Z.of_nat (length t) <= u64_max /\ utf8_valid t = true
  | _ => False
  end.
Definition flat_fields (fs : list (Z * option CborValue)) : Prop :=
  Forall (fun f => in_u64 f.1 /\ forall v, f.2 = Some v -> flat v) fs.

Lemma flat_within v r : flat v -> within WIDE (S r) v.
Proof. by destruct v. Qed.
Lemma flat_leaf v : flat v -> leaf_keys v = true.
Proof. by destruct v. Qed.
Lemma flat_norm v : flat v -> norm v = v.
Proof. by destruct v. Qed.

Lemma flat_fields_within fs :
  (length fs <= 64)%nat -> NoDup (map fst fs) -> flat_fields fs ->
  within WIDE 3 (MapBuilder.build (of_fields fs)) /\ leaf_keys (MapBuilder.build (of_fields fs)) = true.
Proof.
  intros Hn Hd Hf. split.
  - apply within_fields; [change (Limits.max_items WIDE) with 64; lia|done|].
    apply (Forall_impl _ _ _ Hf). intros f [Hk Hv]. split; [done|]. intros v Hfv. by apply flat_within, Hv.
  - rewrite leaf_keys_of_fields. apply forallb_forall. intros f Hin%list_elem_of_In.
    unfold flat_fields in Hf. rewrite Forall_forall in Hf. destruct (Hf f Hin) as [_ Hv].
    destruct f.2 as [v|]; [|done]. by apply flat_leaf, Hv.
Qed.

Lemma assoc_elem (fs : list (Z * option CborValue)) k v : assoc fs k = Some v -> (k, Some v) ∈ fs.
Proof.
  induction fs as [|[j o] fs IH]; simpl; [done|]. destruct (Z.eqb_spec j k) as [->|].
  - intros ->. set_solver.
  - intros Hv. specialize (IH Hv). set_solver.
Qed.

(** Two encodings of flat fields agree only if every field does. *)
Lemma flat_fields_inj fs gs :
  (length fs <= 64)%nat -> (length gs <= 64)%nat -> NoDup (map fst fs) -> NoDup (map fst gs) ->
  flat_fields fs -> flat_fields gs ->
  CborValue.to_canonical (MapBuilder.build (of_fields fs)) = CborValue.to_canonical (MapBuilder.build (of_fields gs)) ->
  forall k, assoc fs k = assoc gs k.
Proof.
  intros Lf Lg Df Dg Ff Fg Heq k.
  destruct (flat_fields_within fs Lf Df Ff) as [Wf Kf], (flat_fields_within gs Lg Dg Fg) as [Wg Kg].
  apply (to_canonical_inj WIDE 3) in Heq; [|by split; split|done..].
  pose proof (get_norm_fields fs k Df) as Hf. rewrite Heq, (get_norm_fields gs k Dg) in Hf.
  assert (Hn : forall l v, flat_fields l -> assoc l k = Some v -> norm v = v).
  { intros l v Hl Hv%assoc_elem. unfold flat_fields in Hl. rewrite Forall_forall in Hl.
    apply flat_norm. by apply (Hl _ Hv). }
  destruct (assoc fs k) as [v|] eqn:E1, (assoc gs k) as [w|] eqn:E2; simpl in Hf; try done.
  rewrite (Hn fs v), (Hn gs w) in Hf by done. congruence.
Qed.

(** What the Rust types of the three contexts guarantee. *)
Definition text_ok (s : string) : Prop := Z.of_nat (length (text_bytes s)) <= u64_max /\ utf8 s.
Definition bytes_ok_ (b : list byte) : Prop := Z.of_nat (length b) <= u64_max.

Record cred_typed (c : CredentialSealContext) : Prop := {
  cred_ver : in_u8 (CredentialSealContext.proto_ver c);
  cred_variant : in_u64 (CredentialSealContext.variant_id c);
  cred_product : text_ok (CredentialSealContext.product_id c);
  cred_bytes : Forall bytes_ok_ [CredentialSealContext.suite_id c; CredentialSealContext.license_id c;
    CredentialSealContext.machine_id c; CredentialSealContext.fingerprint c; CredentialSealContext.kem_ct c;
    CredentialSealContext.offline_nonce c; CredentialSealContext.epoch_id c];
}.
Record kek_typed (c : KekWrapContext) : Prop := {
  kek_ver : in_u8 (KekWrapContext.proto_ver c);
  kek_variant : in_u64 (KekWrapContext.variant_id c);
  kek_texts : Forall text_ok [KekWrapContext.product_id c; KekWrapContext.feature_id c];
  kek_bytes : Forall bytes_ok_ [KekWrapContext.suite_id c; KekWrapContext.license_id c;
    KekWrapContext.machine_id c; KekWrapContext.epoch_id c; KekWrapContext.session_nonce c];
}.
Record asset_typed (a : SealedAsset) : Prop := {
  asset_variant : in_u64 (SealedAsset.variant_id a);
  asset_texts : Forall text_ok [SealedAsset.product_id a; SealedAsset.feature_id a; SealedAsset.asset_id a];
  asset_suite : length (SealedAsset.suite_id a) = SuiteId.LEN;
}.

(** Discharge of flatness: split the lists of the typing record and the fields. *)
Ltac flat_solve :=
  repeat match goal with H : Forall _ (_ :: _) |- _ => apply Forall_cons in H as [? H] end;
  unfold text_ok, utf8, bytes_ok_ in *;
  repeat (apply List.Forall_cons; [split; [by split|]; let v := fresh in let Hv := fresh in
    intros v Hv; cbn [snd] in Hv; injection Hv as <-; cbn [flat]; try done; try int_lia|]);
  try apply List.Forall_nil.

Definition cred_fields (c : CredentialSealContext) : list (Z * option CborValue) :=
  [(0, Some (Text (text_bytes CREDENTIAL_AAD_LABEL))); (1, Some (Uint (CredentialSealContext.proto_ver c)));
   (2, Some (Bytes (CredentialSealContext.suite_id c)));
   (3, Some (Text (text_bytes (CredentialSealContext.product_id c))));
   (4, Some (Bytes (CredentialSealContext.license_id c))); (5, Some (Bytes (CredentialSealContext.machine_id c)));
   (6, Some (Bytes (CredentialSealContext.fingerprint c))); (7, Some (Bytes (CredentialSealContext.kem_ct c)));
   (8, Some (Bytes (CredentialSealContext.offline_nonce c))); (9, Some (Bytes (CredentialSealContext.epoch_id c)));
   (10, Some (Uint (CredentialSealContext.variant_id c)))].
Definition kek_fields (c : KekWrapContext) : list (Z * option CborValue) :=
  [(0, Some (Text (text_bytes KEK_AAD_LABEL))); (1, Some (Uint (KekWrapContext.proto_ver c)));
   (2, Some (Bytes (KekWrapContext.suite_id c))); (3, Some (Text (text_bytes (KekWrapContext.product_id c))));
   (4, Some (Bytes (KekWrapContext.license_id c))); (5, Some (Bytes (KekWrapContext.machine_id c)));
   (6, Some (Bytes (KekWrapContext.epoch_id c))); (7, Some (Uint (KekWrapContext.variant_id c)));
   (8, Some (Text (text_bytes (KekWrapContext.feature_id c))));
   (9, Some (Uint (KekWrapKind.discriminant (KekWrapContext.kind c))));
   (10, Some (Bytes (KekWrapContext.session_nonce c)))].
Definition asset_fields (a : SealedAsset) : list (Z * option CborValue) :=
  [(0, Some (Text (text_bytes ASSET_AAD_LABEL))); (1, Some (Bytes (SealedAsset.suite_id a)));
   (2, Some (Text (text_bytes (SealedAsset.product_id a)))); (3, Some (Uint (SealedAsset.variant_id a)));
   (4, Some (Text (text_bytes (SealedAsset.feature_id a)))); (5, Some (Text (text_bytes (SealedAsset.asset_id a))))].

Lemma cred_flat c : cred_typed c -> flat_fields (cred_fields c).
Proof. intros [Hv Hi Ht Hb]. unfold flat_fields, cred_fields. flat_solve. Qed.
Lemma kek_flat c : kek_typed c -> flat_fields (kek_fields c).
Proof.
  intros [Hv Hi Ht Hb]. unfold flat_fields, kek_fields. flat_solve.
  destruct (KekWrapContext.kind c); by split.
Qed.
Lemma asset_flat a : asset_typed a -> flat_fields (asset_fields a).
Proof. intros [Hv Ht Hs]. unfold flat_fields, asset_fields. flat_solve. by rewrite Hs. Qed.

(** Fields read off an equality of encodings, at the literal keys [ks]. *)
Ltac read_fields_at H ks :=
  lazymatch ks with
  | [] => idtac
  | ?k :: ?ks => let E := fresh "E" in pose proof (H k) as E; cbn -[text_bytes] in E; read_fields_at H ks
  end.

Ltac aad_fields_equal Heq Fa Fb :=
  lazymatch type of Fa with flat_fields ?fs =>
  lazymatch type of Fb with flat_fields ?gs =>
    let H := fresh "H" in
    assert (H : forall k, assoc fs k = assoc gs k)
      by (apply flat_fields_inj; [cbn; lia|cbn; lia|by apply keys_NoDup|by apply keys_NoDup|exact Fa|exact Fb|exact Heq])
  end end.

Lemma cred_aad_inj a b :
  cred_typed a -> cred_typed b -> CredentialSealContext.aad a = CredentialSealContext.aad b -> a = b.
Proof.
  intros Ha%cred_flat Hb%cred_flat Heq. aad_fields_equal Heq Ha Hb.
  read_fields_at H [1; 2; 3; 4; 5; 6; 7; 8; 9; 10]. clear H Ha Hb Heq.
  simplify_eq. match goal with E : text_bytes _ = text_bytes _ |- _ => apply text_bytes_inj in E end.
  destruct a, b; cbn in *; by subst.
Qed.

Lemma kek_aad_inj a b : kek_typed a -> kek_typed b -> KekWrapContext.aad a = KekWrapContext.aad b -> a = b.
Proof.
  intros Ha%kek_flat Hb%kek_flat Heq. aad_fields_equal Heq Ha Hb.
  read_fields_at H [1; 2; 3; 4; 5; 6; 7; 8; 9; 10]. clear H Ha Hb Heq.
  simplify_eq. repeat match goal with E : text_bytes _ = text_bytes _ |- _ => apply text_bytes_inj in E end.
  destruct a as [????????[]], b as [????????[]]; cbn in *; by subst.
Qed.

Lemma asset_aad_inj a b :
  asset_typed a -> asset_typed b -> SealedAsset.aad a = SealedAsset.aad b ->
  SealedAsset.suite_id a = SealedAsset.suite_id b /\ SealedAsset.product_id a = SealedAsset.product_id b /\
  SealedAsset.variant_id a = SealedAsset.variant_id b /\ SealedAsset.feature_id a = SealedAsset.feature_id b /\
  SealedAsset.asset_id a = SealedAsset.asset_id b.
Proof.
  intros Ha%asset_flat Hb%asset_flat Heq. aad_fields_equal Heq Ha Hb.
  read_fields_at H [1; 2; 3; 4; 5]. clear H Ha Hb Heq. simplify_eq.
  repeat match goal with E : text_bytes _ = text_bytes _ |- _ => apply text_bytes_inj in E end. by split_and!.
Qed.

(** The label alone keeps the three families apart. *)
Lemma aad_labels_apart :
  (forall c k, cred_typed c -> kek_typed k -> CredentialSealContext.aad c <> KekWrapContext.aad k) /\
  (forall c a, cred_typed c -> asset_typed a -> CredentialSealContext.aad c <> SealedAsset.aad a) /\
  (forall k a, kek_typed k -> asset_typed a -> KekWrapContext.aad k <> SealedAsset.aad a).
Proof.
  split_and!; intros x y Hx Hy Heq.
  - apply cred_flat in Hx. apply kek_flat in Hy. aad_fields_equal Heq Hx Hy. by specialize (H 0).
  - apply cred_flat in Hx. apply asset_flat in Hy. aad_fields_equal Heq Hx Hy. by specialize (H 0).
  - apply kek_flat in Hx. apply asset_flat in Hy. aad_fields_equal Heq Hx Hy. by specialize (H 0).
Qed.

(** The associated data of a sealed blob pins its whole context: two credential-secret
    contexts, two key-wrap contexts or two assets with the same associated data agree in every
    bound field - device, product, epoch, variant, feature, session nonce and kind included -
    and no blob of one family shares its associated data with another family. *)
Theorem aad_binds_context :
  (forall a b, cred_typed a -> cred_typed b ->
     CredentialSealContext.aad a = CredentialSealContext.aad b -> a = b) /\
  (forall a b, kek_typed a -> kek_typed b -> KekWrapContext.aad a = KekWrapContext.aad b -> a = b) /\
  (forall a b, asset_typed a -> asset_typed b -> SealedAsset.aad a = SealedAsset.aad b ->
     SealedAsset.suite_id a = SealedAsset.suite_id b /\ SealedAsset.product_id a = SealedAsset.product_id b /\
     SealedAsset.variant_id a = SealedAsset.variant_id b /\ SealedAsset.feature_id a = SealedAsset.feature_id b /\
     SealedAsset.asset_id a = SealedAsset.asset_id b) /\
  (forall c k, cred_typed c -> kek_typed k -> CredentialSealContext.aad c <> KekWrapContext.aad k) /\
  (forall c a, cred_typed c -> asset_typed a -> CredentialSealContext.aad c <> SealedAsset.aad a) /\
  (forall k a, kek_typed k -> asset_typed a -> KekWrapContext.aad k <> SealedAsset.aad a).
Proof. split_and!; [apply cred_aad_inj|apply kek_aad_inj|apply asset_aad_inj|apply aad_labels_apart..]. Qed.

(** ** Sealed secrets open to themselves *)

Section Roundtrips.
Context `{S : CryptoSuite} {SL : SuiteLaws S}.

Lemma kek_roundtrip fk c kek rng :
  length fk = Aead.KEY_LEN -> length kek = WRAPPED_SECRET_LEN ->
  exists wrapped rng', seal_kek fk c kek rng = (Ok wrapped, rng') /\ open_kek fk c wrapped = Ok kek.
Proof.
  intros Hfk Hkek. unfold seal_kek, open_kek.
  destruct (seal_with_nonce_total fk (KekWrapContext.aad c) kek rng Hfk) as (w & rng' & Hs).
  { rewrite Hkek. done. }
  exists w, rng'. split; [done|]. apply open_with_nonce_seal in Hs as [Ho Hl].
  unfold ensure_wrapped_len. rewrite Hl, Hkek, Nat.eqb_refl. cbn [negb rbind]. rewrite Ho. cbn [rbind].
  unfold to_secret. by rewrite Hkek.
Qed.

Lemma credential_wrap_key_ok ss c :
  Forall (part_fits 4) [CredentialSealContext.suite_id c; text_bytes (CredentialSealContext.product_id c);
    CredentialSealContext.license_id c; CredentialSealContext.machine_id c] ->
  (Aead.KEY_LEN <= 64)%nat ->
  exists key, credential_wrap_key ss c = Ok key /\ length key = Aead.KEY_LEN.
Proof.
  intros Hp Hk. unfold credential_wrap_key, Kdf.expand_parts.
  rewrite (proj2 (info_of_spec _ _) (conj Hp eq_refl)). cbn [rbind].
  apply Kdf.expand_short; [apply Kdf.extract_length|done].
Qed.

Lemma credential_secret_roundtrip ss c cs rng :
  Forall (part_fits 4) [CredentialSealContext.suite_id c; text_bytes (CredentialSealContext.product_id c);
    CredentialSealContext.license_id c; CredentialSealContext.machine_id c] ->
  (Aead.KEY_LEN <= 64)%nat -> length cs = WRAPPED_SECRET_LEN ->
  exists sealed rng', seal_credential_secret ss c cs rng = (Ok sealed, rng') /\
    open_credential_secret ss c sealed = Ok cs.
Proof.
  intros Hp Hk Hcs. unfold seal_credential_secret, open_credential_secret.
  destruct (credential_wrap_key_ok ss c Hp Hk) as (key & -> & Hkey).
  destruct (seal_with_nonce_total key (CredentialSealContext.aad c) cs rng Hkey) as (w & rng' & Hs).
  { rewrite Hcs. done. }
  exists w, rng'. split; [done|]. apply open_with_nonce_seal in Hs as [Ho Hl].
  unfold ensure_wrapped_len. rewrite Hl, Hcs, Nat.eqb_refl. cbn [negb rbind]. rewrite Ho. cbn [rbind].
  unfold to_secret. by rewrite Hcs.
Qed.
End Roundtrips.

(** ** The predicted size of an asset is its size *)

Lemma cbor_uint_len_head n : cbor_uint_len n = head_len n.
Proof.
  unfold cbor_uint_len, head_len. destruct (Z.leb_spec n 23), (Z.ltb_spec n 24); try lia; done.
Qed.

Definition total_of (parts : list Z) : Z := foldr Z.add 0 parts.

Lemma foldl_checked parts : forall acc,
  0 <= acc <= usize_max -> Forall (fun p => 0 <= p) parts ->
  foldl (fun total part => t ← total; p ← part; checked 0 usize_max (t + p)) (Some acc)
    (map (checked 0 usize_max) parts) = checked 0 usize_max (acc + total_of parts).
Proof.
  induction parts as [|p parts IH]; intros acc Ha Hp; simpl.
  { rewrite Z.add_0_r. symmetry. by apply checked_Some. }
  apply Forall_cons in Hp as [Hp Hps]. assert (0 <= total_of parts) as Ht.
  { clear - Hps. induction Hps; simpl; [lia|]. lia. }
  assert (Hnone : forall l, foldl (fun total part => t ← total; p ← part; checked 0 usize_max (t + p)) None l = None)
    by (intros l; induction l; simpl; done).
  destruct (checked 0 usize_max p) as [p'|] eqn:E; cbn [mbind option_bind].
  - apply checked_Some in E as [-> E]. destruct (checked 0 usize_max (acc + p)) as [s|] eqn:Es.
    + apply checked_Some in Es as [-> Es]. rewrite IH by done. f_equal. lia.
    + apply checked_None in Es. rewrite Hnone. symmetry. apply checked_None. lia.
  - apply checked_None in E. rewrite Hnone. symmetry. apply checked_None. lia.
Qed.

Definition predicted_len (a : SealedAsset) (n : Z) : Z :=
  total_of [8; head_len (SealedAsset.schema a);
    head_len (Z.of_nat (length (SealedAsset.suite_id a))) + Z.of_nat (length (SealedAsset.suite_id a));
    head_len (str_len (SealedAsset.product_id a)) + str_len (SealedAsset.product_id a);
    head_len (SealedAsset.variant_id a);
    head_len (str_len (SealedAsset.feature_id a)) + str_len (SealedAsset.feature_id a);
    head_len (str_len (SealedAsset.asset_id a)) + str_len (SealedAsset.asset_id a);
    head_len n + n].

Lemma head_checked n : Some (head_len n) = checked 0 usize_max (head_len n).
Proof. symmetry. apply checked_Some. split; [done|]. pose proof (head_len_u64 n). unfold usize_max, u64_max. lia. Qed.

Lemma encoded_len_predicted a n :
  0 <= n -> SealedAsset.encoded_len_with_ciphertext a n = checked 0 usize_max (predicted_len a n).
Proof.
  intros Hn. unfold SealedAsset.encoded_len_with_ciphertext, predicted_len, cbor_blob_len.
  rewrite !cbor_uint_len_head, !(head_checked (SealedAsset.schema a)), !(head_checked (SealedAsset.variant_id a)).
  change (Some (1 + 7)) with (checked 0 usize_max 8).
  apply (foldl_checked [8; _; _; _; _; _; _; _] 0); [done|].
  repeat (apply List.Forall_cons; [|]); try apply List.Forall_nil; unfold str_len;
    repeat match goal with |- context [head_len ?x] => pose proof (head_len_u64 x);
      generalize dependent (head_len x); intros end; lia.
Qed.

Lemma encode_size a :
  Z.of_nat (length (SealedAsset.encode a)) =
  predicted_len a (Z.of_nat (length (SealedAsset.ciphertext a))).
Proof.
  unfold SealedAsset.encode. change (Z.of_nat (length (CborValue.to_canonical ?v))) with (size_of v).
  unfold SealedAsset.to_value. message_size. unfold predicted_len, total_of. cbn [foldr].
  change (head_len 0) with 1. change (head_len 1) with 1. change (head_len 2) with 1. change (head_len 3) with 1.
  change (head_len 4) with 1. change (head_len 5) with 1. change (head_len 6) with 1.
  change (head_len (Z.of_nat 7)) with 1. lia.
Qed.

(** The bound is on the encoding itself. *)
Lemma too_large_exact a :
  SealedAsset.too_large a (Z.of_nat (length (SealedAsset.ciphertext a))) =
  (MAX_SEALED_ASSET_BYTES <? Z.of_nat (length (SealedAsset.encode a))).
Proof.
  unfold SealedAsset.too_large. rewrite encoded_len_predicted, <- encode_size by lia.
  destruct (checked _ _ _) as [l|] eqn:E.
  - apply checked_Some in E as [-> _]. rewrite Z.gtb_ltb. done.
  - apply checked_None in E. symmetry. apply Z.ltb_lt. unfold usize_max, u64_max, MAX_SEALED_ASSET_BYTES in *. lia.
Qed.

Lemma too_large_ciphertext a b n :
  SealedAsset.with_ciphertext a [] = SealedAsset.with_ciphertext b [] ->
  SealedAsset.too_large a n = SealedAsset.too_large b n.
Proof. unfold SealedAsset.with_ciphertext. destruct a, b; cbn. by intros [= -> -> -> -> -> ->]. Qed.

Lemma ids_valid_inv a :
  SealedAsset.identifiers_are_valid a = true ->
  Forall (fun s => 0 < str_len s <= MAX_ASSET_ID_BYTES)
    [SealedAsset.product_id a; SealedAsset.feature_id a; SealedAsset.asset_id a].
Proof.
  unfold SealedAsset.identifiers_are_valid. intros Hv. apply Forall_forall. intros s Hin.
  rewrite forallb_forall in Hv. specialize (Hv s ltac:(by apply list_elem_of_In)). bprop.
  unfold str_len in *. lia.
Qed.

Lemma asset_within a :
  asset_typed a -> SealedAsset.schema a = SEALED_ASSET_SCHEMA_V1 -> SealedAsset.identifiers_are_valid a = true ->
  Z.of_nat (length (SealedAsset.ciphertext a)) <= MAX_SEALED_ASSET_BYTES ->
  within ASSET_LIMITS 17 (SealedAsset.to_value a).
Proof.
  intros [Hv Ht Hi] Hs Hids%ids_valid_inv Hc.
  assert (Hmax : Limits.max_string ASSET_LIMITS = 67108864) by done.
  unfold MAX_SEALED_ASSET_BYTES, MAX_ASSET_ID_BYTES in *.
  repeat match goal with H : Forall _ (_ :: _) |- _ => apply Forall_cons in H as [? H] end.
  unfold SealedAsset.to_value. within_message.
  - rewrite Hs. by split.
  - cbn [within]. rewrite Hmax, Hi. done.
  - cbn [within]. rewrite str_len_bytes, Hmax. split; [lia|]. by match goal with H : text_ok (SealedAsset.product_id a) |- _ => apply H end.
  - exact Hv.
  - cbn [within]. rewrite str_len_bytes, Hmax. split; [lia|]. by match goal with H : text_ok (SealedAsset.feature_id a) |- _ => apply H end.
  - cbn [within]. rewrite str_len_bytes, Hmax. split; [lia|]. by match goal with H : text_ok (SealedAsset.asset_id a) |- _ => apply H end.
  - cbn [within]. rewrite Hmax. lia.
Qed.

Lemma ciphertext_le_encode a :
  Z.of_nat (length (SealedAsset.ciphertext a)) <= Z.of_nat (length (SealedAsset.encode a)).
Proof. rewrite encode_size. unfold predicted_len, total_of, str_len. cbn [foldr]. head_bounds. lia. Qed.

Lemma asset_decode_encode a :
  asset_typed a -> SealedAsset.schema a = SEALED_ASSET_SCHEMA_V1 -> SealedAsset.identifiers_are_valid a = true ->
  Z.of_nat (length (SealedAsset.encode a)) <= MAX_SEALED_ASSET_BYTES ->
  SealedAsset.decode (SealedAsset.encode a) = Ok a.
Proof.
  intros Ht Hs Hv Hlen. pose proof (ciphertext_le_encode a) as Hc.
  pose proof (asset_within a Ht Hs Hv ltac:(lia)) as Hw.
  pose proof (asset_suite a Ht) as Hi.
  unfold SealedAsset.decode, SealedAsset.encode in *. rewrite bounded_ok by exact Hlen.
  assert (Hleaf : leaf_keys (SealedAsset.to_value a) = true) by (unfold SealedAsset.to_value; leaf_fields).
  rewrite decode_to_canonical by first [exact Hw|exact Hleaf|split; by split]. cbn [map_err rbind].
  assert (Hm : exists es, norm (SealedAsset.to_value a) = Map es) by (by eexists).
  destruct Hm as [es Hm]. clear Hw Hleaf. 
  assert (Hfit : Z.of_nat (length (SealedAsset.ciphertext a)) <= MAX_SEALED_ASSET_BYTES) by lia. clear Hc Hlen.
  unfold SealedAsset.to_value in *. revert Hm. abstract_fields. intros ->. cbn [as_map]. read_fields Hget.
  rewrite (proj2 (Z.eqb_eq _ _) Hs). rewrite Z.gtb_ltb, (proj2 (Z.ltb_ge _ _)) by done.
  assert (Hmk : SealedAsset.mk (SealedAsset.schema a) (SealedAsset.suite_id a) (SealedAsset.product_id a)
    (SealedAsset.variant_id a) (SealedAsset.feature_id a) (SealedAsset.asset_id a) (SealedAsset.ciphertext a) = a)
    by (by destruct a).
  rewrite Hmk, Hv. done.
Qed.

Section Assets.
Context `{S : CryptoSuite} {SL : SuiteLaws S}.

(** What [seal] tried to build, before its ciphertext. *)
Definition bare_asset (product : string) (variant : Z) (feature asset : string) : SealedAsset :=
  SealedAsset.mk SEALED_ASSET_SCHEMA_V1 SUITE_ID product variant feature asset [].

Definition sealed_len (product : string) (variant : Z) (feature asset : string) (pt : list byte) : Z :=
  predicted_len (bare_asset product variant feature asset)
    (Z.of_nat (length pt) + Z.of_nat Aead.NONCE_LEN + Z.of_nat Aead.TAG_LEN).

Lemma too_large_bare a n : 0 <= n -> SealedAsset.too_large a n = (MAX_SEALED_ASSET_BYTES <? predicted_len a n).
Proof.
  intros Hn. unfold SealedAsset.too_large. rewrite encoded_len_predicted by done.
  destruct (checked _ _ _) as [l|] eqn:E.
  - apply checked_Some in E as [-> _]. by rewrite Z.gtb_ltb.
  - apply checked_None in E. symmetry. apply Z.ltb_lt.
    assert (0 <= predicted_len a n) by (unfold predicted_len, total_of, str_len; cbn [foldr]; head_bounds; lia).
    unfold usize_max, u64_max, MAX_SEALED_ASSET_BYTES in *. lia.
Qed.

Lemma predicted_len_ge a n : 0 <= n -> n <= predicted_len a n.
Proof. intros Hn. unfold predicted_len, total_of, str_len. cbn [foldr]. head_bounds. lia. Qed.

(** Every outcome of [seal]. *)
Lemma seal_outcome product variant feature asset pt kek rng :
  length kek = Aead.KEY_LEN ->
  let a := bare_asset product variant feature asset in
  let r := SealedAsset.seal product variant feature asset pt kek rng in
  if negb (SealedAsset.identifiers_are_valid a) then r = (Err CryptoError.Invalid, rng)
  else if MAX_SEALED_ASSET_BYTES <? sealed_len product variant feature asset pt
  then r = (Err CryptoError.BadLength, rng)
  else exists c rng', r = (Ok (SealedAsset.with_ciphertext a c), rng') /\
    Aead.seal_with_nonce kek (SealedAsset.aad a) pt rng = (Ok c, rng') /\
    Z.of_nat (length (SealedAsset.encode (SealedAsset.with_ciphertext a c))) = sealed_len product variant feature asset pt.
Proof.
  intros Hk a r. unfold r, SealedAsset.seal. fold (bare_asset product variant feature asset). fold a.
  destruct (SealedAsset.identifiers_are_valid a) eqn:Hv; cbn [negb]; [|done].
  set (n := Z.of_nat (length pt) + Z.of_nat Aead.NONCE_LEN + Z.of_nat Aead.TAG_LEN).
  assert (Hn : 0 <= n) by lia. pose proof (predicted_len_ge a n Hn) as Hge.
  change (sealed_len product variant feature asset pt) with (predicted_len a n).
  destruct (checked 0 usize_max (Z.of_nat (length pt) + Z.of_nat Aead.NONCE_LEN) ≫=
    (fun m => checked 0 usize_max (m + Z.of_nat Aead.TAG_LEN))) as [m|] eqn:Em.
  - assert (m = n) as ->.
    { destruct (checked _ _ (Z.of_nat (length pt) + Z.of_nat Aead.NONCE_LEN)) as [x|] eqn:Ex; [|done].
      apply checked_Some in Ex as [-> _]. cbn in Em. apply checked_Some in Em as [-> _]. done. }
    rewrite too_large_bare by done. destruct (Z.ltb_spec MAX_SEALED_ASSET_BYTES (predicted_len a n)) as [Hb|Hb]; [done|].
    destruct (seal_with_nonce_total kek (SealedAsset.aad a) pt rng Hk) as (c & rng' & Hs).
    { unfold MAX_SEALED_ASSET_BYTES in Hb. lia. }
    rewrite Hs. pose proof Hs as [_ Hl]%open_with_nonce_seal.
    assert (Hc : Z.of_nat (length c) = n) by lia.
    assert (Hsize : Z.of_nat (length (SealedAsset.encode (SealedAsset.with_ciphertext a c))) = predicted_len a n).
    { rewrite encode_size. cbn [SealedAsset.ciphertext SealedAsset.with_ciphertext]. by rewrite Hc. }
    rewrite (too_large_ciphertext _ a) by done. rewrite Hc, too_large_bare by done.
    rewrite (proj2 (Z.ltb_ge _ _)) by done. by exists c, rng'.
  - rewrite (proj2 (Z.ltb_lt _ _)); [done|].
    assert (usize_max < n); [|unfold usize_max, u64_max, MAX_SEALED_ASSET_BYTES in *; lia].
    destruct (checked _ _ (Z.of_nat (length pt) + Z.of_nat Aead.NONCE_LEN)) as [x|] eqn:Ex.
    + apply checked_Some in Ex as [-> _]. cbn in Em. apply checked_None in Em. lia.
    + apply checked_None in Ex. lia.
Qed.

(** Sealing an asset succeeds exactly when its identifiers are valid and its encoding fits in
    64 MiB - the size is computed before anything is encrypted and is exact - and what was
    sealed survives the wire and opens, under the same key, to the plaintext. *)
Theorem sealed_assets_open product variant feature asset pt kek rng
    (Hk : length kek = Aead.KEY_LEN) (Hvar : in_u64 variant)
    (Hp : utf8 product) (Hf : utf8 feature) (Ha : utf8 asset) :
  let a := bare_asset product variant feature asset in
  let r := SealedAsset.seal product variant feature asset pt kek rng in
  if negb (SealedAsset.identifiers_are_valid a) then r = (Err CryptoError.Invalid, rng)
  else if MAX_SEALED_ASSET_BYTES <? sealed_len product variant feature asset pt
  then r = (Err CryptoError.BadLength, rng)
  else exists sealed rng', r = (Ok sealed, rng') /\
    Z.of_nat (length (SealedAsset.encode sealed)) = sealed_len product variant feature asset pt /\
    SealedAsset.decode (SealedAsset.encode sealed) = Ok sealed /\ SealedAsset.open sealed kek = Ok pt.
Proof.
  intros a r. pose proof (seal_outcome product variant feature asset pt kek rng Hk) as Ho. fold a r in Ho.
  cbv zeta in Ho. destruct (SealedAsset.identifiers_are_valid a) eqn:Hv; cbn [negb] in *; [|done].
  destruct (Z.ltb_spec MAX_SEALED_ASSET_BYTES (sealed_len product variant feature asset pt)) as [|Hb]; [done|].
  destruct Ho as (c & rng' & Hr & Hs & Hsize). exists (SealedAsset.with_ciphertext a c), rng'.
  assert (Hv' : SealedAsset.identifiers_are_valid (SealedAsset.with_ciphertext a c) = true) by exact Hv.
  split_and!; [done|done| |].
  - apply asset_decode_encode; [|done|done|lia]. apply ids_valid_inv in Hv. cbn in Hv.
    repeat match goal with H : Forall _ (_ :: _) |- _ => apply Forall_cons in H as [? H] end.
    unfold MAX_ASSET_ID_BYTES in *. split; [done| |apply suite_id_len].
    repeat (apply List.Forall_cons; [split; [rewrite str_len_bytes; unfold u64_max; cbn; lia|done]|]). apply List.Forall_nil.
  - unfold SealedAsset.open. rewrite Hv', too_large_exact, Hsize, (proj2 (Z.ltb_ge _ _)) by done.
    rewrite bool_decide_eq_true_2 by done. cbn [SealedAsset.schema SealedAsset.with_ciphertext bare_asset a].
    cbn [Z.eqb negb orb]. by apply open_with_nonce_seal in Hs as [Hs _].
Qed.
End Assets.

Lemma sealed_assets_open_witness :
  exists sealed rng',
    SealedAsset.seal (S := Demo.suite) "acme" 7 "export.pdf" "palette" [1; 2; 3] (repeat 9 32) 5 = (Ok sealed, rng') /\
    SealedAsset.decode (SealedAsset.encode sealed) = Ok sealed /\
    SealedAsset.open (S := Demo.suite) sealed (repeat 9 32) = Ok [1; 2; 3].
Proof.
  pose proof (sealed_assets_open (S := Demo.suite) (SL := Demo.suite_laws) "acme" 7 "export.pdf" "palette" [1; 2; 3] (repeat 9 32) 5
    eq_refl ltac:(split; discriminate) eq_refl eq_refl eq_refl) as H.
  destruct H as (sealed & rng' & H1 & _ & H3 & H4). exists sealed, rng'. auto.
Defined.

Definition demo_kek_context (kind : KekWrapKind) (feature : string) : KekWrapContext :=
  KekWrapContext.mk 1 [1; 0; 0; 1] "acme" (repeat 1 16) (repeat 2 16) (repeat 3 8) 7 feature kind (repeat 4 32).

Lemma demo_kek_typed kind feature : text_ok feature -> kek_typed (demo_kek_context kind feature).
Proof.
  intros Hf. split; cbn; [by split|by split| |].
  - apply List.Forall_cons; [by split|]. by apply List.Forall_cons; [|apply List.Forall_nil].
  - repeat (apply List.Forall_cons; [unfold bytes_ok_; cbn; done|]). apply List.Forall_nil.
Qed.

Lemma aad_binds_context_witness :
  KekWrapContext.aad (demo_kek_context KekWrapKind.Online "export.pdf") <>
  KekWrapContext.aad (demo_kek_context KekWrapKind.Offline "export.pdf").
Proof.
  intros Heq. pose proof aad_binds_context as (_ & H & _). apply H in Heq.
  - discriminate Heq.
  - by apply demo_kek_typed.
  - by apply demo_kek_typed.
Defined.
