(* ===== verification/Keys.v ===== *)
(** * Feature keys ([crates/copylocker-core/src/keys.rs])

    The key hierarchy: bound secret, session roots, feature keys and the wrapped asset keys
    that make a licence check productive.  Derivations go through the slots of a suite; the
    theorems are about the gates, the bytes each derivation is bound to, and the two sessions
    an asset key is wrapped under. *)

From S2P Require Import Prelude Types Errors Cbor Field Chain Requests Messages Suite Seal.

Definition SESSION_ROOT_SALT : list byte := text_bytes "copylocker/sr/v1".
Definition FEATURE_KEY_SALT : list byte := text_bytes "copylocker/fk/v1".
Definition OLK_SEED_SALT : list byte := text_bytes "copylocker/olk-seed/v1".

Module SessionKind.
Inductive SessionKind := Online | Offline.
End SessionKind.
Notation SessionKind := SessionKind.SessionKind.

Definition derivation_failed {A} (m : result A CryptoError) : result A CoreError :=
  map_err (fun _ => CoreError.DerivationFailed) m.

Module KeyMaterial.
Record KeyMaterial := mk {
  bound : list byte;
  product_id : list byte;
  license_id : LicenseId;
  machine_id : MachineId;
  offline_epoch_id : EpochId;
  variant_id : Z;
  variant_const : list byte;
  build_fingerprint : list byte;
  module_digest : list byte;
  offline_nonce : list byte;
  server_nonce : option (list byte);
  online_epoch_id : option EpochId;
}.

Definition set_online_session (m : KeyMaterial) (nonce : list byte) (epoch_id : EpochId) : KeyMaterial :=
  mk (bound m) (product_id m) (license_id m) (machine_id m) (offline_epoch_id m) (variant_id m)
    (variant_const m) (build_fingerprint m) (module_digest m) (offline_nonce m) (Some nonce) (Some epoch_id).

Definition set_server_nonce (m : KeyMaterial) (nonce : list byte) : KeyMaterial :=
  set_online_session m nonce (offline_epoch_id m).

Definition has_online_session (m : KeyMaterial) : bool :=
  match server_nonce m with Some _ => true | None => false end.

Section WithSuite.
Context `{S : CryptoSuite}.

Definition bind (credential_secret : list byte) (fingerprint : Fingerprint) (env : EnvEvidence)
    (product_id : string) (license_id : LicenseId) (machine_id : MachineId) (epoch_id : EpochId)
    (variant_id : Z) (variant_const offline_nonce : list byte) : result KeyMaterial CoreError :=
  bound <-? derivation_failed (bind_device credential_secret fingerprint env) ;;
  Ok (mk bound (text_bytes product_id) license_id machine_id epoch_id variant_id variant_const
        (EnvEvidence.build_fingerprint env) (EnvEvidence.module_digest env) offline_nonce None None).

Definition bind_olk (key_seed : list byte) (binding_fingerprint : Fingerprint) (env : EnvEvidence)
    (product_id : string) (license_id : LicenseId) (machine_id : MachineId) (epoch_id : EpochId)
    (variant_id : Z) (variant_const offline_nonce : list byte) : result KeyMaterial CoreError :=
  let variant_bytes := be_bytes 8 variant_id in
  derived <-? derivation_failed (Kdf.derive_from OLK_SEED_SALT key_seed
    [SUITE_ID; text_bytes product_id; license_id; machine_id; epoch_id; variant_bytes;
     binding_fingerprint]) ;;
  bind derived binding_fingerprint env product_id license_id machine_id epoch_id variant_id
    variant_const offline_nonce.

(** The nonce and epoch of a session. *)
Definition session_inputs (m : KeyMaterial) (kind : SessionKind)
    : result (list byte * EpochId) CoreError :=
  match kind with
  | SessionKind.Online =>
      nonce <-? ok_of_option (server_nonce m) CoreError.DerivationFailed ;;
      epoch_id <-? ok_of_option (online_epoch_id m) CoreError.DerivationFailed ;;
      Ok (nonce, epoch_id)
  | SessionKind.Offline => Ok (offline_nonce m, offline_epoch_id m)
  end.

Definition session_root (m : KeyMaterial) (kind : SessionKind) : result (list byte) CoreError :=
  r <-? session_inputs m kind ;;
  let '(nonce, epoch_id) := r in
  derivation_failed (Kdf.derive_from SESSION_ROOT_SALT (bound m)
    [nonce; epoch_id; build_fingerprint m; module_digest m]).

Definition feature_key (m : KeyMaterial) (state : LicenseState) (entitlements : Entitlements)
    (feature : string) (kind : SessionKind) : result (list byte) CoreError :=
  if negb (LicenseState.permits_key_derivation state) then Err CoreError.NotEntitled
  else if negb (Entitlements.has_feature entitlements feature) then Err CoreError.NotEntitled
  else
    root <-? session_root m kind ;;
    let variant_id := be_bytes 8 (variant_id m) in
    derivation_failed (Kdf.derive_from FEATURE_KEY_SALT root
      [product_id m; variant_id; variant_const m; text_bytes feature]).

Definition kek_context (m : KeyMaterial) (feature : string) (kind : SessionKind)
    : result KekWrapContext CoreError :=
  r <-? session_inputs m kind ;;
  let '(session_nonce, epoch_id) := r in
  let kind := match kind with
    | SessionKind.Online => KekWrapKind.Online | SessionKind.Offline => KekWrapKind.Offline end in
  if utf8_valid (product_id m) then
    Ok (KekWrapContext.mk suite_proto_ver SUITE_ID (bytes_text (product_id m)) (license_id m)
          (machine_id m) epoch_id (variant_id m) feature kind session_nonce)
  else Err CoreError.DerivationFailed.

Definition wrap_kek (m : KeyMaterial) (state : LicenseState) (entitlements : Entitlements)
    (feature : string) (kind : SessionKind) (kek : list byte) (rng : Rng)
    : result (list byte) CoreError * Rng :=
  match feature_key m state entitlements feature kind with
  | Err e => (Err e, rng)
  | Ok feature_key =>
  match kek_context m feature kind with
  | Err e => (Err e, rng)
  | Ok context =>
      let '(r, rng) := seal_kek feature_key context kek rng in (derivation_failed r, rng)
  end end.

Definition unwrap_kek (m : KeyMaterial) (state : LicenseState) (entitlements : Entitlements)
    (feature : string) (kind : SessionKind) (wrapped : list byte) : result (list byte) CoreError :=
  fk <-? feature_key m state entitlements feature kind ;;
  context <-? kek_context m feature kind ;;
  map_err (fun _ => CoreError.NotEntitled) (open_kek fk context wrapped).

Definition unwrap_kek_any (m : KeyMaterial) (state : LicenseState) (entitlements : Entitlements)
    (feature : string) (wrapped_online wrapped_offline : list byte) : result (list byte) CoreError :=
  let offline := unwrap_kek m state entitlements feature SessionKind.Offline wrapped_offline in
  if has_online_session m then
    match unwrap_kek m state entitlements feature SessionKind.Online wrapped_online with
    | Ok v => Ok v
    | Err _ => offline
    end
  else offline.
End WithSuite.
End KeyMaterial.
Notation KeyMaterial := KeyMaterial.KeyMaterial.
Import KeyMaterial.

(** What the Rust types and constructors guarantee: the product is text, both halves of an
    online session come together, and every part is shorter than 4 GiB. *)
Record material_ok (m : KeyMaterial) : Prop := {
  product_text : utf8_valid (product_id m) = true;
  parts_fit : Forall (part_fits 4) [product_id m; variant_const m; build_fingerprint m; module_digest m;
    offline_nonce m; offline_epoch_id m];
  session_whole : match server_nonce m, online_epoch_id m with
    | Some n, Some e => part_fits 4 n /\ part_fits 4 e | None, None => True | _, _ => False end;
}.

Section KeyLaws.
Context `{S : CryptoSuite} {SL : SuiteLaws S}.

Lemma bind_ok secret fp env product lid mid epoch variant vconst nonce m :
  utf8 product ->
  Forall (part_fits 4) [text_bytes product; vconst; EnvEvidence.build_fingerprint env;
    EnvEvidence.module_digest env; nonce; epoch] ->
  bind secret fp env product lid mid epoch variant vconst nonce = Ok m ->
  material_ok m /\ has_online_session m = false.
Proof.
  intros Hu Hp. unfold bind. destruct (bind_device secret fp env); [|done]. cbn. intros [= <-]. by split.
Qed.

Lemma set_online_session_ok m nonce epoch :
  material_ok m -> part_fits 4 nonce -> part_fits 4 epoch ->
  material_ok (set_online_session m nonce epoch) /\ has_online_session (set_online_session m nonce epoch) = true.
Proof. intros [H1 H2 H3] Hn He. split; [|done]. by split. Qed.

Lemma session_inputs_ok m kind :
  material_ok m ->
  match kind with
  | SessionKind.Offline => session_inputs m kind = Ok (offline_nonce m, offline_epoch_id m)
  | SessionKind.Online =>
      if has_online_session m then exists n e, server_nonce m = Some n /\ online_epoch_id m = Some e /\
        session_inputs m kind = Ok (n, e) /\ part_fits 4 n /\ part_fits 4 e
      else session_inputs m kind = Err CoreError.DerivationFailed
  end.
Proof.
  intros [_ _ Hs]. destruct kind; [|done]. unfold has_online_session, session_inputs.
  destruct (server_nonce m) as [n|], (online_epoch_id m) as [e|]; try done.
  exists n, e. by destruct Hs.
Qed.

(** A session exists: always offline, online once a ticket was recorded. *)
Definition available (m : KeyMaterial) (kind : SessionKind) : bool :=
  match kind with SessionKind.Online => has_online_session m | SessionKind.Offline => true end.

Lemma session_available m kind :
  material_ok m ->
  if available m kind then exists n e, session_inputs m kind = Ok (n, e) /\ part_fits 4 n /\ part_fits 4 e
  else session_inputs m kind = Err CoreError.DerivationFailed.
Proof.
  intros Hm. pose proof (session_inputs_ok m kind Hm) as Hs. destruct kind; simpl.
  - destruct (has_online_session m); [|done]. destruct Hs as (n & e & _ & _ & Hs). by exists n, e.
  - destruct Hm as [_ Hp _]. repeat match goal with H : Forall _ (_ :: _) |- _ => apply Forall_cons in H as [? H] end.
    by exists (offline_nonce m), (offline_epoch_id m).
Qed.

Lemma session_root_ok m kind :
  material_ok m ->
  if available m kind then exists root, session_root m kind = Ok root /\ length root = 32%nat
  else session_root m kind = Err CoreError.DerivationFailed.
Proof.
  intros Hm. pose proof (session_available m kind Hm) as Hs. unfold session_root.
  destruct (available m kind); [|by rewrite Hs]. destruct Hs as (n & e & -> & Hn & He). cbn [rbind].
  destruct Hm as [_ Hp _]. repeat match goal with H : Forall _ (_ :: _) |- _ => apply Forall_cons in H as [? H] end.
  destruct (derive_from_ok SESSION_ROOT_SALT (bound m) [n; e; build_fingerprint m; module_digest m])
    as (root & -> & Hl); [by repeat apply List.Forall_cons|]. by exists root.
Qed.

(** Every outcome of [feature_key]. *)
Lemma feature_key_outcome m state ent feature kind :
  material_ok m -> part_fits 4 (text_bytes feature) ->
  let entitled := LicenseState.permits_key_derivation state && Entitlements.has_feature ent feature in
  if negb entitled then feature_key m state ent feature kind = Err CoreError.NotEntitled
  else if negb (available m kind) then feature_key m state ent feature kind = Err CoreError.DerivationFailed
  else exists key, feature_key m state ent feature kind = Ok key /\ length key = 32%nat.
Proof.
  intros Hm Hf. unfold feature_key. pose proof (session_root_ok m kind Hm) as Hr.
  destruct (LicenseState.permits_key_derivation state); cbn [negb andb]; [|done].
  destruct (Entitlements.has_feature ent feature); cbn [negb]; [|done].
  destruct (available m kind); cbn [negb]; [|by rewrite Hr]. destruct Hr as (root & -> & _). cbn [rbind].
  destruct Hm as [_ Hp _]. repeat match goal with H : Forall _ (_ :: _) |- _ => apply Forall_cons in H as [? H] end.
  destruct (derive_from_ok FEATURE_KEY_SALT root [product_id m; be_bytes 8 (variant_id m); variant_const m;
    text_bytes feature]) as (key & -> & Hl).
  { by repeat apply List.Forall_cons. }
  by exists key.
Qed.

Lemma kek_context_ok m feature kind :
  material_ok m ->
  if available m kind then exists c, kek_context m feature kind = Ok c
  else kek_context m feature kind = Err CoreError.DerivationFailed.
Proof.
  intros Hm. pose proof (session_available m kind Hm) as Hs. unfold kek_context.
  destruct (available m kind); [|by rewrite Hs]. destruct Hs as (n & e & -> & _ & _). cbn [rbind].
  rewrite (product_text m Hm). by eexists.
Qed.

Lemma wrap_unwrap m state ent feature kind kek rng :
  material_ok m -> part_fits 4 (text_bytes feature) -> Aead.KEY_LEN = 32%nat -> length kek = WRAPPED_SECRET_LEN ->
  LicenseState.permits_key_derivation state = true -> Entitlements.has_feature ent feature = true ->
  available m kind = true ->
  exists wrapped rng', wrap_kek m state ent feature kind kek rng = (Ok wrapped, rng') /\
    unwrap_kek m state ent feature kind wrapped = Ok kek.
Proof.
  intros Hm Hf Hkey Hkek Hst Hent Hav.
  pose proof (feature_key_outcome m state ent feature kind Hm Hf) as Ho. cbv zeta in Ho.
  rewrite Hst, Hent, Hav in Ho. cbn [andb negb] in Ho. destruct Ho as (fk & Hfk & Hl).
  pose proof (kek_context_ok m feature kind Hm) as Hc. rewrite Hav in Hc. destruct Hc as [c Hc].
  unfold wrap_kek, unwrap_kek. rewrite Hfk, Hc. cbn [rbind].
  destruct (kek_roundtrip fk c kek rng) as (w & rng' & -> & Ho); [congruence|done|].
  exists w, rng'. by rewrite Ho.
Qed.

(** Offline derivations do not see the online session. *)
Lemma offline_untouched m nonce epoch state ent feature wrapped :
  unwrap_kek (set_online_session m nonce epoch) state ent feature SessionKind.Offline wrapped =
  unwrap_kek m state ent feature SessionKind.Offline wrapped.
Proof. done. Qed.

(** C19 Keys, not a boolean: on usable material a feature key comes out exactly when the state
    permits it, the entitlements carry the feature and the session exists; a refused state and
    a missing feature give the same error, so probing learns nothing; and nothing is ever
    unwrapped without a key - refusals of the gate are refusals of every unwrapping. *)
Theorem feature_keys_are_gated (m : KeyMaterial) (state : LicenseState) (ent : Entitlements)
    (feature : string) (kind : SessionKind) (Hm : material_ok m) (Hf : part_fits 4 (text_bytes feature)) :
  (is_ok (feature_key m state ent feature kind) = true <->
     LicenseState.permits_key_derivation state = true /\ Entitlements.has_feature ent feature = true /\
     available m kind = true) /\
  (feature_key m state ent feature kind = Err CoreError.NotEntitled <->
     LicenseState.permits_key_derivation state = false \/ Entitlements.has_feature ent feature = false) /\
  (forall online offline kek, unwrap_kek_any m state ent feature online offline = Ok kek ->
     LicenseState.permits_key_derivation state = true /\ Entitlements.has_feature ent feature = true).
Proof.
  pose proof (fun k => feature_key_outcome m state ent feature k Hm Hf) as Ho. cbv zeta in Ho.
  assert (Hu : forall k w kek, unwrap_kek m state ent feature k w = Ok kek ->
    LicenseState.permits_key_derivation state = true /\ Entitlements.has_feature ent feature = true).
  { intros k w kek Hw. specialize (Ho k). unfold unwrap_kek in Hw.
    destruct (LicenseState.permits_key_derivation state), (Entitlements.has_feature ent feature);
      cbn in Ho; try done; by rewrite Ho in Hw. }
  split_and!.
  - specialize (Ho kind). destruct (LicenseState.permits_key_derivation state); cbn [negb andb] in Ho;
      [|rewrite Ho; naive_solver].
    destruct (Entitlements.has_feature ent feature); cbn [negb] in Ho; [|rewrite Ho; naive_solver].
    destruct (available m kind); cbn [negb] in Ho; [|rewrite Ho; naive_solver].
    destruct Ho as (key & -> & _). done.
  - specialize (Ho kind). destruct (LicenseState.permits_key_derivation state); cbn [negb andb] in Ho;
      [|rewrite Ho; naive_solver].
    destruct (Entitlements.has_feature ent feature); cbn [negb] in Ho; [|rewrite Ho; naive_solver].
    destruct (available m kind); cbn [negb] in Ho; [|rewrite Ho; naive_solver].
    destruct Ho as (key & -> & _). naive_solver.
  - intros online offline kek. unfold unwrap_kek_any. destruct (has_online_session m); [|apply Hu].
    destruct (unwrap_kek m state ent feature SessionKind.Online online) eqn:E; [intros _; by eapply Hu|apply Hu].
Qed.

(** C20 The same asset opens online and offline: a key wrapped for the credential keeps opening
    whatever tickets arrive later, a key wrapped for the current session opens while it lasts,
    and [unwrap_kek_any] finds whichever of the two is good. *)
Theorem assets_open_online_and_offline (m : KeyMaterial) (state : LicenseState) (ent : Entitlements)
    (feature : string) (kek : list byte) (rng : Rng)
    (Hm : material_ok m) (Hf : part_fits 4 (text_bytes feature)) (Hkey : Aead.KEY_LEN = 32%nat)
    (Hkek : length kek = WRAPPED_SECRET_LEN)
    (Hst : LicenseState.permits_key_derivation state = true)
    (Hent : Entitlements.has_feature ent feature = true) :
  exists offline rng',
    wrap_kek m state ent feature SessionKind.Offline kek rng = (Ok offline, rng') /\
    (forall nonce epoch junk, part_fits 4 nonce -> part_fits 4 epoch ->
       is_ok (unwrap_kek (set_online_session m nonce epoch) state ent feature SessionKind.Online junk) = false ->
       unwrap_kek_any (set_online_session m nonce epoch) state ent feature junk offline = Ok kek) /\
    (forall nonce epoch, part_fits 4 nonce -> part_fits 4 epoch ->
       exists online rng'', wrap_kek (set_online_session m nonce epoch) state ent feature SessionKind.Online
           kek rng' = (Ok online, rng'') /\
         forall junk, unwrap_kek_any (set_online_session m nonce epoch) state ent feature online junk = Ok kek).
Proof.
  destruct (wrap_unwrap m state ent feature SessionKind.Offline kek rng Hm Hf Hkey Hkek Hst Hent eq_refl)
    as (off & rng' & Hw & Hu). exists off, rng'. split_and!; [done| |].
  - intros nonce epoch junk Hn He Hj. unfold unwrap_kek_any.
    destruct (set_online_session_ok m nonce epoch Hm Hn He) as [_ ->].
    destruct (unwrap_kek _ _ _ _ SessionKind.Online junk); [done|]. by rewrite offline_untouched.
  - intros nonce epoch Hn He. destruct (set_online_session_ok m nonce epoch Hm Hn He) as [Hm' Hav].
    destruct (wrap_unwrap _ state ent feature SessionKind.Online kek rng' Hm' Hf Hkey Hkek Hst Hent Hav)
      as (on & rng'' & Hw' & Hu'). exists on, rng''. split; [done|]. intros junk. unfold unwrap_kek_any.
    by rewrite Hav, Hu'.
Qed.

(** The derivation input of a feature key - what the KDF is asked to expand over one root. *)
Definition feature_info (m : KeyMaterial) (feature : string) : result (list byte) CryptoError :=
  Kdf.info_of [product_id m; be_bytes 8 (variant_id m); variant_const m; text_bytes feature].
Definition root_info (m : KeyMaterial) (kind : SessionKind) : result (list byte) CoreError :=
  r <-? session_inputs m kind ;;
  derivation_failed (Kdf.info_of [r.1; r.2; build_fingerprint m; module_digest m]).

Lemma info_of_inj ps qs : Forall (part_fits 4) ps -> Kdf.info_of ps = Kdf.info_of qs -> ps = qs.
Proof.
  intros Hp Heq. rewrite (proj2 (info_of_spec ps _) (conj Hp eq_refl)) in Heq. symmetry in Heq.
  apply info_of_spec in Heq as [Hq Heq]. by apply (framed_inj 4); [lia|..].
Qed.

Lemma four_inj {A} (a b c d a' b' c' d' : A) :
  [a; b; c; d] = [a'; b'; c'; d'] -> a = a' /\ b = b' /\ c = c' /\ d = d'.
Proof. intros [=]. auto. Qed.

(** Nothing in the hierarchy can be confused: feature keys derived over the same root with the
    same input are for the same product, variant, variant constant and feature, and session
    roots with the same input have the same nonce, epoch, build and module. *)
Theorem key_inputs_separate (m m' : KeyMaterial) (f f' : string) (k k' : SessionKind)
    (Hm : material_ok m) (Hm' : material_ok m') (Hf : part_fits 4 (text_bytes f))
    (Hv : in_u64 (variant_id m)) (Hv' : in_u64 (variant_id m')) :
  (feature_info m f = feature_info m' f' ->
     product_id m = product_id m' /\ variant_id m = variant_id m' /\ variant_const m = variant_const m' /\ f = f') /\
  (available m k = true -> root_info m k = root_info m' k' ->
     session_inputs m k = session_inputs m' k' /\ build_fingerprint m = build_fingerprint m' /\
     module_digest m = module_digest m').
Proof.
  pose proof (parts_fit m Hm) as Hp. repeat match goal with H : Forall _ (_ :: _) |- _ => apply Forall_cons in H as [? H] end.
  split.
  - intros Heq. apply info_of_inj in Heq; [|by repeat apply List.Forall_cons]. apply four_inj in Heq as (-> & Hvar & -> & Hfe).
    apply text_bytes_inj in Hfe. split_and!; try done.
    apply (be_bytes_inj 8); [unfold in_u64, u64_max in *; change (256 ^ Z.of_nat 8) with 18446744073709551616; lia..|].
    exact Hvar.
  - intros Hav Heq. pose proof (session_available m k Hm) as Hs. rewrite Hav in Hs.
    destruct Hs as (n & e & Hs & Hn & He). unfold root_info in Heq. rewrite Hs in *. cbn [rbind fst snd] in Heq.
    assert (Hparts : Forall (part_fits 4) [n; e; build_fingerprint m; module_digest m])
      by (by repeat apply List.Forall_cons).
    rewrite (proj2 (info_of_spec _ _) (conj Hparts eq_refl)) in Heq.
    destruct (session_inputs m' k') as [[n' e']|er]; [|done]. cbn [rbind fst snd derivation_failed map_err] in Heq.
    destruct (Kdf.info_of [n'; e'; _; _]) as [i|] eqn:E; [|done]. cbn in Heq. injection Heq as Heq.
    apply info_of_spec in E as [Hq ->].
    assert (Hl : [n; e; build_fingerprint m; module_digest m] = [n'; e'; build_fingerprint m'; module_digest m']).
    { apply (framed_inj 4); [lia|exact Hparts|done|exact Heq]. }
    apply four_inj in Hl as (-> & -> & -> & ->). done.
Qed.
End KeyLaws.

Definition demo_material : KeyMaterial :=
  mk (repeat 5 32) (text_bytes "acme") (repeat 1 16) (repeat 2 16) (repeat 3 8) 7 (repeat 4 32)
    (text_bytes "build") (repeat 6 32) (repeat 8 32) None None.
Definition demo_entitlements : Entitlements :=
  Entitlements.mk {["export.pdf"]} ∅ "pro" "Pro" 1 None None.

Lemma demo_material_ok : material_ok demo_material.
Proof.
  split; [reflexivity| |exact I].
  repeat (apply List.Forall_cons; [unfold part_fits; cbn; reflexivity|]). apply List.Forall_nil.
Qed.

Lemma feature_keys_are_gated_witness :
  is_ok (feature_key (S := Demo.suite) demo_material LicenseState.Active demo_entitlements "export.pdf"
           SessionKind.Offline) = true /\
  feature_key (S := Demo.suite) demo_material LicenseState.Revoked demo_entitlements "export.pdf"
    SessionKind.Offline = Err CoreError.NotEntitled.
Proof.
  split.
  - apply (feature_keys_are_gated (S := Demo.suite) (SL := Demo.suite_laws) demo_material LicenseState.Active
      demo_entitlements "export.pdf" SessionKind.Offline demo_material_ok); [reflexivity|auto].
  - apply (feature_keys_are_gated (S := Demo.suite) (SL := Demo.suite_laws) demo_material LicenseState.Revoked
      demo_entitlements "export.pdf" SessionKind.Offline demo_material_ok); [reflexivity|left; reflexivity].
Defined.

Lemma assets_open_online_and_offline_witness :
  exists offline rng',
    wrap_kek (S := Demo.suite) demo_material LicenseState.Grace demo_entitlements "export.pdf"
      SessionKind.Offline (repeat 9 32) 1 = (Ok offline, rng').
Proof.
  destruct (assets_open_online_and_offline (S := Demo.suite) (SL := Demo.suite_laws) demo_material
    LicenseState.Grace demo_entitlements "export.pdf" (repeat 9 32) 1 demo_material_ok
    eq_refl eq_refl eq_refl eq_refl eq_refl) as (off & rng' & H & _). by exists off, rng'.
Defined.

Lemma key_inputs_separate_witness :
  feature_info demo_material "export.pdf" <> feature_info demo_material "export.svg".
Proof.
  intros Heq. destruct (key_inputs_separate demo_material demo_material "export.pdf" "export.svg"
    SessionKind.Offline SessionKind.Offline demo_material_ok demo_material_ok eq_refl
    ltac:(split; discriminate) ltac:(split; discriminate)) as [H _].
  apply H in Heq as (_ & _ & _ & E). discriminate E.
Defined.
