(* ===== verification/Analytics.v ===== *)
(** * Analytics ([crates/copylocker-server-core/src/analytics])

    Clipping of client-reported telemetry ([clip.rs]), the fixed cubes and their keys
    ([cube.rs]), k-anonymity suppression ([kanon.rs]), HyperLogLog sketches ([hll.rs]), source
    labels ([source.rs]) and the metric catalog ([catalog.rs]).  The sketch's cardinality
    estimate is floating-point arithmetic and is not modelled; percentages are carried in
    hundredths. *)

From S2P Require Import Prelude Types Cbor.

(** ** Clipping *)
Definition SESSION_COUNT_CAP : Z := 10000.
Definition DAYS_ACTIVE_CAP : Z := 28.
Definition HISTOGRAM_BUCKET_CAP : Z := 10000.
Definition FEATURE_HITS_CAP : Z := 10000.
Definition SESSION_DURATION_BUCKETS : nat := 4.
Definition MAX_FEATURE_KEY_LEN : nat := 128.

Module TelemetryValues.
Record TelemetryValues := mk {
  consent_version : Z;
  window_start : Z;
  session_count : Z;
  session_duration_histogram : list Z;
  feature_hits : gmap string Z;
  days_active : Z;
}.
End TelemetryValues.
Notation TelemetryValues := TelemetryValues.TelemetryValues.

Module ClipEvent.
Inductive ClipEvent :=
| SessionCountClipped (original clipped : Z)
| DaysActiveClipped (original clipped : Z)
| HistogramBucketClipped (bucket : nat) (original clipped : Z)
| FeatureHitsClipped (key : string) (original clipped : Z)
| FeatureKeyDropped (key : string).
End ClipEvent.
Notation ClipEvent := ClipEvent.ClipEvent.

Record ClippedTelemetry := clipped_telemetry { values : TelemetryValues; events : list ClipEvent }.

Definition consent_allows (consent_version : Z) : bool := consent_version >? 0.

(** A counter against its cap, with the event that records it. *)
Definition clip_count (cap original : Z) (event : Z -> Z -> ClipEvent) : Z * list ClipEvent :=
  if original >? cap then (cap, [event original cap]) else (original, []).

(** The loop over the buckets, from index [i]. *)
Fixpoint clip_buckets (i : nat) (counts : list Z) : list Z * list ClipEvent :=
  match counts with
  | [] => ([], [])
  | count :: counts =>
      let '(count, e) := clip_count HISTOGRAM_BUCKET_CAP count (ClipEvent.HistogramBucketClipped i) in
      let '(counts, es) := clip_buckets (S i) counts in (count :: counts, e ++ es)
  end.

Section Clip.
Context (feature_allowlist : list string).

Definition key_allowed (key : string) : bool :=
  (String.length key <=? MAX_FEATURE_KEY_LEN)%nat && bool_decide (key ∈ feature_allowlist).

(** One key of the loop over [feature_hits]. *)
Definition clip_key (acc : gmap string Z * list ClipEvent) (key : string) : gmap string Z * list ClipEvent :=
  let '(hits, events) := acc in
  if negb (key_allowed key) then (delete key hits, events ++ [ClipEvent.FeatureKeyDropped key])
  else
    match hits !! key with
    | Some h =>
        let '(h, e) := clip_count FEATURE_HITS_CAP h (ClipEvent.FeatureHitsClipped key) in
        (<[key := h]> hits, events ++ e)
    | None => (hits, events)
    end.

Definition clip_telemetry (v : TelemetryValues) : ClippedTelemetry :=
  let '(session_count, e1) :=
    clip_count SESSION_COUNT_CAP (TelemetryValues.session_count v) ClipEvent.SessionCountClipped in
  let '(days_active, e2) :=
    clip_count DAYS_ACTIVE_CAP (TelemetryValues.days_active v) ClipEvent.DaysActiveClipped in
  let '(histogram, e3) := clip_buckets 0 (TelemetryValues.session_duration_histogram v) in
  let '(hits, events) := fold_left clip_key (bt_keys (TelemetryValues.feature_hits v))
    (TelemetryValues.feature_hits v, e1 ++ e2 ++ e3) in
  clipped_telemetry
    (TelemetryValues.mk (TelemetryValues.consent_version v) (TelemetryValues.window_start v)
       session_count histogram hits days_active) events.
End Clip.

(** ** Cubes *)
Definition CUBE_COUNT : Z := 9.
Definition MAX_DIM_VALUE_LEN : nat := 256.
Definition MAX_CUBE_KEY_LEN : nat := 1024.
Definition CUBE_DIMENSIONS : list (list string) :=
  [["product"]; ["product"; "app_version"]; ["product"; "os"; "arch"]; ["product"; "country"];
   ["product"; "activation_path"]; ["product"; "mode"]; ["product"; "release_id"];
   ["product"; "policy_id"]; ["product"; "sdk_version"]].

Module CubeKeyError.
Inductive CubeKeyError :=
| UnknownCube (c : Z)
| Malformed
| WrongDimensionCount (cube : Z) (expected got : nat)
| EmptyDimension
| DimensionTooLong
| InvalidCharacter
| KeyTooLong.
End CubeKeyError.
Notation CubeKeyError := CubeKeyError.CubeKeyError.

Definition chars (s : string) : list ascii := String.list_ascii_of_string s.
Definition of_chars (l : list ascii) : string := String.string_of_list_ascii l.
Definition BAR : ascii := "|"%char.

Definition check_dim (d : string) : result unit CubeKeyError :=
  if (String.length d =? 0)%nat then Err CubeKeyError.EmptyDimension
  else if (MAX_DIM_VALUE_LEN <? String.length d)%nat then Err CubeKeyError.DimensionTooLong
  else if bool_decide (BAR ∈ chars d) then Err CubeKeyError.InvalidCharacter
  else Ok tt.

Definition check_dims (cube : Z) (dims : list string) : result unit CubeKeyError :=
  names <-? ok_of_option (CUBE_DIMENSIONS !! Z.to_nat cube) (CubeKeyError.UnknownCube cube) ;;
  if negb (length names =? length dims)%nat
  then Err (CubeKeyError.WrongDimensionCount cube (length names) (length dims))
  else for_each check_dim dims.

(** [str::split] on a single character: always at least one piece. *)
Fixpoint split_on (c : ascii) (l : list ascii) : list (list ascii) :=
  match l with
  | [] => [[]]
  | x :: l =>
      if bool_decide (x = c) then [] :: split_on c l
      else match split_on c l with
           | [] => [[x]]
           | p :: ps => (x :: p) :: ps
           end
  end.

Fixpoint strip_prefix_chars (p s : list ascii) : option (list ascii) :=
  match p, s with
  | [], s => Some s
  | x :: p, y :: s => if bool_decide (x = y) then strip_prefix_chars p s else None
  | _ :: _, [] => None
  end.

(** [u8::from_str]: an optional plus sign, then digits whose value fits. *)
Definition digit (a : ascii) : option Z :=
  let n := Z.of_N (N_of_ascii a) in if (48 <=? n) && (n <=? 57) then Some (n - 48) else None.
Fixpoint digits_u8 (acc : Z) (l : list ascii) : option Z :=
  match l with
  | [] => Some acc
  | a :: l =>
      d ← digit a;
      let acc := acc * 10 + d in if acc >? u8_max then None else digits_u8 acc l
  end.
Definition parse_u8 (l : list ascii) : option Z :=
  match l with
  | [] => None
  | a :: rest =>
      if bool_decide (a = "+"%char) then match rest with [] => None | _ => digits_u8 0 rest end
      else digits_u8 0 l
  end.

(** Decimal digits of a [u8]. *)
Definition digit_char (d : Z) : ascii := ascii_of_N (Z.to_N (48 + d)).
Definition show_u8 (n : Z) : list ascii :=
  if n <? 10 then [digit_char n]
  else if n <? 100 then [digit_char (n / 10); digit_char (n mod 10)]
  else [digit_char (n / 100); digit_char (n / 10 mod 10); digit_char (n mod 10)].

Module CubeKey.
Record CubeKey := mk { cube : Z; dims : list string }.

Definition new (cube : Z) (dims : list string) : result CubeKey CubeKeyError :=
  check? check_dims cube dims ;; Ok (mk cube dims).

Definition dimension_names (k : CubeKey) : list string := default [] (CUBE_DIMENSIONS !! Z.to_nat (cube k)).

Definition encode_chars (k : CubeKey) : list ascii :=
  chars "cube_" ++ show_u8 (cube k) ++ concat (map (fun d => BAR :: chars d) (dims k)).
Definition encode (k : CubeKey) : string := of_chars (encode_chars k).

Definition parse (encoded : string) : result CubeKey CubeKeyError :=
  if (MAX_CUBE_KEY_LEN <? String.length encoded)%nat then Err CubeKeyError.KeyTooLong
  else
    match split_on BAR (chars encoded) with
    | [] => Err CubeKeyError.Malformed
    | head :: parts =>
        rest <-? ok_of_option (strip_prefix_chars (chars "cube_") head) CubeKeyError.Malformed ;;
        cube <-? ok_of_option (parse_u8 rest) CubeKeyError.Malformed ;;
        new cube (map of_chars parts)
    end.
End CubeKey.
Notation CubeKey := CubeKey.CubeKey.

(** ** k-anonymity *)
Definition K_ANONYMITY_MIN : Z := 5.

Module Bucket.
Record Bucket (T : Type) := mk { key : string; distinct_machines : Z; value : T }.
Arguments mk {T}. Arguments key {T}. Arguments distinct_machines {T}. Arguments value {T}.
End Bucket.
Notation Bucket := Bucket.Bucket.

Record Suppression (T : Type) := suppression { surviving : list (Bucket T); suppressed_keys : list string }.
Arguments suppression {T}. Arguments surviving {T}. Arguments suppressed_keys {T}.

Definition suppressed_count {T} (s : Suppression T) : Z := Z.of_nat (length (suppressed_keys s)).

Definition suppress_one {T} (min_distinct : Z) (acc : list (Bucket T) * list string) (b : Bucket T) :=
  let '(surviving, suppressed) := acc in
  if Bucket.distinct_machines b <? min_distinct then (surviving, suppressed ++ [Bucket.key b])
  else (surviving ++ [b], suppressed).

Definition suppress_buckets {T} (buckets : list (Bucket T)) (min_distinct : Z) : Suppression T :=
  let '(surviving, suppressed_keys) := fold_left (suppress_one min_distinct) buckets ([], []) in
  suppression surviving suppressed_keys.

(** ** Sources *)
Definition EXACT_PATH_MAX_MACHINE_ROWS : Z := 1000000.

Module Source.
Inductive Source := Exact | Hll.
End Source.
Notation Source := Source.Source.

Definition source_for (machine_rows : Z) : Source :=
  if machine_rows <? EXACT_PATH_MAX_MACHINE_ROWS then Source.Exact else Source.Hll.

(** 0.81 percent, in hundredths. *)
Definition HLL_ERROR_PCT : Z := 81.

Module QueryMeta.
Record QueryMeta := mk { source : Source; error_pct : Z; suppressed_buckets : Z }.
Definition new (source : Source) (suppressed_buckets : Z) : QueryMeta :=
  mk source (match source with Source.Exact => 0 | Source.Hll => HLL_ERROR_PCT end) suppressed_buckets.
End QueryMeta.

(** ** HyperLogLog *)
Definition HLL_PRECISION : Z := 14.
Definition HLL_REGISTERS : nat := Z.to_nat (Z.shiftl 1 HLL_PRECISION).
Definition SKETCH_VERSION : Z := 1.
Definition SKETCH_BYTES : nat := 1 + HLL_REGISTERS.

Definition wrap64 (x : Z) : Z := Z.land x u64_max.

Definition hash64 (data : list byte) : Z :=
  let h := fold_left (fun h b => wrap64 (Z.lxor h b * 1099511628211)) data 14695981039346656037 in
  let h := Z.lxor h (Z.shiftr h 30) in
  let h := wrap64 (h * 13787848793156543929) in
  let h := Z.lxor h (Z.shiftr h 27) in
  let h := wrap64 (h * 10723151780598845931) in
  Z.lxor h (Z.shiftr h 31).

(** [u64::leading_zeros]. *)
Definition leading_zeros (w : Z) : Z := if w =? 0 then 64 else 63 - Z.log2 w.

Module SketchError.
Inductive SketchError := BadLength (got : nat) | UnsupportedVersion (got : Z).
End SketchError.
Notation SketchError := SketchError.SketchError.

Module HllSketch.
Record HllSketch := mk { registers : list Z }.
Definition new : HllSketch := mk (repeat 0 HLL_REGISTERS).

Definition index_of (value : list byte) : nat := Z.to_nat (Z.shiftr (hash64 value) (64 - HLL_PRECISION)).
Definition rank_of (value : list byte) : Z :=
  let w := Z.lor (wrap64 (Z.shiftl (hash64 value) HLL_PRECISION)) (Z.shiftl 1 (HLL_PRECISION - 1)) in
  leading_zeros w + 1.

Definition add (s : HllSketch) (value : list byte) : HllSketch :=
  let idx := index_of value in
  let rank := rank_of value in
  match registers s !! idx with
  | Some reg => if rank >? reg then mk (<[idx := rank]> (registers s)) else s
  | None => s
  end.

(** [iter_mut().zip(..)]: the registers both sketches have. *)
Fixpoint merge_registers (a b : list Z) : list Z :=
  match a, b with
  | x :: a, y :: b => (if y >? x then y else x) :: merge_registers a b
  | a, _ => a
  end.
Definition merge (s other : HllSketch) : HllSketch := mk (merge_registers (registers s) (registers other)).

Definition to_bytes (s : HllSketch) : list byte := SKETCH_VERSION :: registers s.

Definition from_bytes (bytes : list byte) : result HllSketch SketchError :=
  if negb (length bytes =? SKETCH_BYTES)%nat then Err (SketchError.BadLength (length bytes))
  else
    match bytes with
    | [] => Err (SketchError.BadLength 0)
    | version :: registers =>
        if negb (version =? SKETCH_VERSION) then Err (SketchError.UnsupportedVersion version)
        else Ok (mk registers)
    end.
End HllSketch.
Notation HllSketch := HllSketch.HllSketch.

(** ** The metric catalog *)
Module MetricTier.
Inductive MetricTier := T0 | T1.
#[global] Instance MetricTier_eq_dec : EqDecision MetricTier.
Proof. solve_decision. Defined.
End MetricTier.

Module MetricDefinition.
Record MetricDefinition := mk {
  id : string; name : string; definition : string; tier : MetricTier.MetricTier; trusted : bool }.
Definition t0 (id name definition : string) : MetricDefinition := mk id name definition MetricTier.T0 true.
Definition t1 (id name definition : string) : MetricDefinition := mk id name definition MetricTier.T1 false.
End MetricDefinition.
Notation MetricDefinition := MetricDefinition.MetricDefinition.

Module Metrics.
Import MetricDefinition.
Definition METRICS : list MetricDefinition :=
  [t0 "act.new" "New activations"
     "Activations creating a new machine_id within the window; fingerprint-tolerance reuses are deliberately excluded.";
   t0 "act.reactivation" "Reactivations"
     "Previously released or revoked devices activated again within the window; counted separately from act.new.";
   t0 "act.by_path" "Activations by path"
     "Activation count grouped by path: online / offline_ar / olk / account.";
   t0 "act.failed" "Failed activations"
     "Rejected activations grouped by failure reason (seats full / invalid key / fingerprint mismatch / rate limited).";
   t0 "act.time_to_first" "Time to first activation"
     "Distribution (P50/P90) of the delay from license issuance to first activation.";
   t0 "act.transfer" "Device transfers"
     "deactivate→activate pairs within the window; unusually high values suggest sharing.";
   t0 "dev.checked_in" "Checked-in devices (window)"
     "Unique machine_ids with at least one successful validate or heartbeat in the window.";
   t0 "dev.checked_in_7d" "Checked-in devices (7 days)"
     "Unique machines checked in over a fixed 7-day window; the reliable WAU analogue.";
   t0 "dev.checked_in_28d" "Checked-in devices (28 days)"
     "Unique machines checked in over a fixed 28-day window; the reliable MAU analogue.";
   t0 "lic.active" "Active licenses"
     "Unique license_ids with at least one checked-in device in the window.";
   t0 "dev.stickiness" "Device stickiness"
     "Ratio dev.checked_in_7d / dev.checked_in_28d.";
   t0 "dev.dormant" "Dormant devices"
     "Devices in state active that have not checked in for longer than refresh_after + grace.";
   t0 "dev.state_mix" "Device state mix"
     "Server-inferred share of Active / NeedsRevalidation / Grace / Dormant devices.";
   t0 "ver.app_dist" "App version distribution"
     "Checked-in devices grouped by app_version.";
   t0 "ver.release_dist" "Release distribution"
     "Checked-in devices grouped by release_id / variant_id.";
   t0 "ver.sdk_dist" "SDK version distribution"
     "Checked-in devices grouped by sdk_version; drives SDK sunset decisions.";
   t0 "ver.adoption_curve" "Version adoption curve"
     "Cumulative daily share of devices on a new release after its publication.";
   t0 "ver.upgrade_lag" "Upgrade lag"
     "Distribution of the delay from release publication to device upgrade.";
   t0 "ver.os_arch_dist" "OS/arch distribution"
     "Checked-in devices grouped by os × arch.";
   t0 "ver.proto_suite_dist" "Protocol/suite distribution"
     "Checked-in devices grouped by proto_ver × suite_id; drives protocol and suite migration decisions.";
   t0 "seat.utilization" "Seat utilization"
     "seats_used / seats, aggregated per license and per policy.";
   t0 "seat.exhausted" "Seat exhaustion rejections"
     "Activations rejected because seats were full; a strong upsell signal.";
   t0 "lic.churn" "License churn"
     "Share of licenses that checked in last window but not this window.";
   t0 "lic.renewal" "Renewal rate"
     "Share of licenses renewed before expiry.";
   t0 "trial.conversion" "Trial conversion"
     "Rate and delay of same-fingerprint conversions from trial to paid licenses.";
   t0 "geo.dist" "Geographic distribution"
     "Checked-in devices grouped by country (cf.country); IPs are never stored.";
   t0 "mode.dist" "Mode distribution"
     "Distribution of Mode O vs Mode E.";
   t0 "health.validate_success" "Validate success rate"
     "Share of validate requests that succeed.";
   t0 "health.grace_rate" "Grace rate"
     "Share of devices inferred to be in their grace window; a spike indicates server or network trouble.";
   t0 "health.integrity_fail" "Integrity failures"
     "Integrity report failures grouped by release_id; a spike suggests a guard false positive that needs a rollback.";
   t0 "health.suspicion" "Suspicious devices"
     "Devices with suspicion_score > 80.";
   t0 "health.clock_rollback" "Clock rollback detections"
     "Devices detected with a rolled-back clock.";
   t1 "use.session_count" "Session count"
     "Client-aggregated number of sessions in the window; untrusted self-report.";
   t1 "use.session_duration" "Session duration"
     "Bucketed histogram (<5m / 5-30m / 30m-2h / >2h); exact durations are never reported.";
   t1 "use.feature_hits" "Feature hits"
     "Per-feature usage counts for feature ids declared in the vendor allow-list.";
   t1 "use.days_active" "Days active"
     "Integer 0-28: days the app was used within the window; cheap day-granularity signal."].

Definition metrics : list MetricDefinition := METRICS.
Definition metric_by_id (i : string) : option MetricDefinition :=
  find_first (fun m => bool_decide (id m = i)) METRICS.
End Metrics.

(** ** What clipping guarantees *)

Section ClipSpec.
Context (al : list string).

Definition in_bounds (v : TelemetryValues) : Prop :=
  TelemetryValues.session_count v <= SESSION_COUNT_CAP /\ TelemetryValues.days_active v <= DAYS_ACTIVE_CAP /\
  Forall (fun c => c <= HISTOGRAM_BUCKET_CAP) (TelemetryValues.session_duration_histogram v) /\
  map_Forall (fun k h => key_allowed al k = true /\ h <= FEATURE_HITS_CAP) (TelemetryValues.feature_hits v).

Lemma clip_count_spec cap n ev :
  (clip_count cap n ev).1 = Z.min n cap /\ ((clip_count cap n ev).2 = [] <-> n <= cap).
Proof. unfold clip_count. destruct (Z.gtb_spec n cap); simpl; split; try split; try lia; done. Qed.

Lemma clip_buckets_spec l : forall i,
  (clip_buckets i l).1 = map (fun c => Z.min c HISTOGRAM_BUCKET_CAP) l /\
  ((clip_buckets i l).2 = [] <-> Forall (fun c => c <= HISTOGRAM_BUCKET_CAP) l).
Proof.
  induction l as [|c l IH]; intros i; cbn [clip_buckets map]; [done|].
  pose proof (clip_count_spec HISTOGRAM_BUCKET_CAP c (ClipEvent.HistogramBucketClipped i)) as [H1 H2].
  destruct (clip_count HISTOGRAM_BUCKET_CAP c (ClipEvent.HistogramBucketClipped i)) as [c' e].
  destruct (IH (S i)) as [I1 I2]. destruct (clip_buckets (S i) l) as [l' es]. cbn [fst snd] in *. subst.
  split; [done|]. rewrite Forall_cons, <- H2, <- I2. destruct e, es; naive_solver.
Qed.

(** What the loop does to one key of the original map. *)
Definition clipped_hit (hits : gmap string Z) (k : string) : option Z :=
  if key_allowed al k then (fun h => Z.min h FEATURE_HITS_CAP) <$> hits !! k else None.
Definition key_events (hits : gmap string Z) (k : string) : list ClipEvent :=
  if negb (key_allowed al k) then [ClipEvent.FeatureKeyDropped k]
  else match hits !! k with
       | Some h => (clip_count FEATURE_HITS_CAP h (ClipEvent.FeatureHitsClipped k)).2
       | None => []
       end.

Lemma clip_key_spec hits es k :
  exists hits', clip_key al (hits, es) k = (hits', es ++ key_events hits k) /\
    hits' !! k = clipped_hit hits k /\ (forall j, j <> k -> hits' !! j = hits !! j).
Proof.
  unfold clip_key, clipped_hit, key_events. destruct (key_allowed al k); cbn [negb].
  - destruct (hits !! k) as [h|] eqn:E.
    + pose proof (clip_count_spec FEATURE_HITS_CAP h (ClipEvent.FeatureHitsClipped k)) as [Hc _].
      destruct (clip_count _ h _) as [h' e]. cbn [fst] in Hc. subst. eexists. split; [done|].
      split; [apply lookup_insert_eq|]. intros j Hj. by apply lookup_insert_ne.
    + exists hits. by rewrite app_nil_r.
  - eexists. split; [done|]. split; [apply lookup_delete_eq|]. intros j Hj. by apply lookup_delete_ne.
Qed.

Lemma clip_fold keys : forall hits es,
  NoDup keys ->
  exists hits', fold_left (clip_key al) keys (hits, es) = (hits', es ++ concat (map (key_events hits) keys)) /\
    forall j, hits' !! j = if bool_decide (j ∈ keys) then clipped_hit hits j else hits !! j.
Proof.
  induction keys as [|k keys IH]; intros hits es Hd; cbn [fold_left map concat].
  { exists hits. by rewrite app_nil_r. }
  apply NoDup_cons in Hd as [Hk Hd]. destruct (clip_key_spec hits es k) as (h1 & -> & H1 & Hne).
  destruct (IH h1 (es ++ key_events hits k) Hd) as (h2 & -> & H2). exists h2. split.
  - rewrite <- app_assoc. do 2 f_equal. f_equal. f_equal. apply map_ext_in. intros j Hj%list_elem_of_In.
    unfold key_events. rewrite Hne; [done|]. by intros ->.
  - intros j. rewrite H2. destruct (decide (j = k)) as [->|Hj].
    + rewrite bool_decide_eq_false_2, bool_decide_eq_true_2 by set_solver. done.
    + unfold clipped_hit. rewrite (Hne j Hj).
      rewrite (bool_decide_ext (j ∈ k :: keys) (j ∈ keys)) by set_solver. done.
Qed.

Lemma clipped_hits_spec v es :
  exists hits', fold_left (clip_key al) (bt_keys (TelemetryValues.feature_hits v))
      (TelemetryValues.feature_hits v, es) =
    (hits', es ++ concat (map (key_events (TelemetryValues.feature_hits v)) (bt_keys (TelemetryValues.feature_hits v)))) /\
    forall j, hits' !! j = clipped_hit (TelemetryValues.feature_hits v) j.
Proof.
  destruct (clip_fold (bt_keys (TelemetryValues.feature_hits v)) (TelemetryValues.feature_hits v) es (bt_keys_NoDup _))
    as (h & -> & Hh). exists h. split; [done|]. intros j. rewrite Hh. case_bool_decide as Hj; [done|].
  unfold clipped_hit. destruct (TelemetryValues.feature_hits v !! j) eqn:E; [|by destruct (key_allowed al j)].
  exfalso. apply Hj, elem_of_bt_keys. by rewrite E.
Qed.

Lemma no_key_events hits :
  concat (map (key_events hits) (bt_keys hits)) = [] <->
  map_Forall (fun k h => key_allowed al k = true /\ h <= FEATURE_HITS_CAP) hits.
Proof.
  assert (Hc : forall l, concat (map (key_events hits) l) = [] <-> Forall (fun k => key_events hits k = []) l).
  { intros l. induction l as [|k l IH]; cbn [map concat]; [done|]. rewrite Forall_cons, <- IH.
    destruct (key_events hits k); naive_solver. }
  rewrite Hc, Forall_forall. split.
  - intros H k h Hk. specialize (H k). rewrite elem_of_bt_keys, Hk in H. specialize (H ltac:(done)).
    unfold key_events in H. rewrite Hk in H. destruct (key_allowed al k); [|done]. cbn [negb] in H.
    by apply clip_count_spec in H.
  - intros H k [h Hk]%elem_of_bt_keys. destruct (H k h Hk) as [Ha Hh]. unfold key_events. rewrite Ha, Hk.
    cbn [negb]. by apply clip_count_spec.
Qed.

(** Untrusted telemetry cannot poison the aggregates: whatever a client reports, every stored
    value is the report capped, only allow-listed feature ids of bounded length survive, the
    record of corrections is empty exactly when nothing had to be corrected, and then the
    report is stored unchanged - so clipping twice is clipping once. *)
Theorem clipping_is_exact (v : TelemetryValues) :
  let c := clip_telemetry al v in
  in_bounds (values c) /\
  TelemetryValues.consent_version (values c) = TelemetryValues.consent_version v /\
  TelemetryValues.window_start (values c) = TelemetryValues.window_start v /\
  TelemetryValues.session_count (values c) = Z.min (TelemetryValues.session_count v) SESSION_COUNT_CAP /\
  TelemetryValues.days_active (values c) = Z.min (TelemetryValues.days_active v) DAYS_ACTIVE_CAP /\
  TelemetryValues.session_duration_histogram (values c) =
    map (fun n => Z.min n HISTOGRAM_BUCKET_CAP) (TelemetryValues.session_duration_histogram v) /\
  (forall k, TelemetryValues.feature_hits (values c) !! k = clipped_hit (TelemetryValues.feature_hits v) k) /\
  (events c = [] <-> in_bounds v) /\ (in_bounds v -> values c = v).
Proof.
  cbv zeta. unfold clip_telemetry.
  pose proof (clip_count_spec SESSION_COUNT_CAP (TelemetryValues.session_count v) ClipEvent.SessionCountClipped) as [S1 S2].
  destruct (clip_count SESSION_COUNT_CAP _ _) as [sc e1].
  pose proof (clip_count_spec DAYS_ACTIVE_CAP (TelemetryValues.days_active v) ClipEvent.DaysActiveClipped) as [D1 D2].
  destruct (clip_count DAYS_ACTIVE_CAP _ _) as [da e2].
  destruct (clip_buckets_spec (TelemetryValues.session_duration_histogram v) 0) as [B1 B2].
  destruct (clip_buckets 0 _) as [hist e3].
  destruct (clipped_hits_spec v (e1 ++ e2 ++ e3)) as (hits & -> & Hh). cbn [fst snd] in *. subst. cbn [values events].
  unfold in_bounds. cbn [TelemetryValues.session_count TelemetryValues.days_active TelemetryValues.feature_hits
    TelemetryValues.session_duration_histogram TelemetryValues.consent_version TelemetryValues.window_start].
  assert (Hid : map_Forall (fun k h => key_allowed al k = true /\ h <= FEATURE_HITS_CAP) (TelemetryValues.feature_hits v) ->
    hits = TelemetryValues.feature_hits v).
  { intros Hf. apply map_eq. intros k. rewrite Hh. unfold clipped_hit.
    destruct (TelemetryValues.feature_hits v !! k) as [h|] eqn:E; [|by destruct (key_allowed al k)].
    destruct (Hf k h E) as [-> Hle]. simpl. f_equal. lia. }
  split_and!; try done.
  - lia.
  - lia.
  - apply Forall_map, Forall_true. intros n. cbn. lia.
  - intros k h Hk. rewrite Hh in Hk. unfold clipped_hit in Hk. destruct (key_allowed al k); [|done].
    destruct (TelemetryValues.feature_hits v !! k); [|done]. cbn in Hk. injection Hk as <-. split; [done|lia].
  - rewrite <- no_key_events, <- S2, <- D2, <- B2. destruct e1, e2, e3; naive_solver.
  - intros (Hs & Hd & Hb & Hf). rewrite Hid by done. destruct v; cbn in *. f_equal; try lia.
    clear - Hb. induction Hb; simpl; [done|]. f_equal; [lia|done].
Qed.
End ClipSpec.

(** ** Sketches *)

Module Sketch.
Import HllSketch.
#[local] Opaque HLL_REGISTERS.
#[local] Arguments index_of : simpl never.
#[local] Arguments rank_of : simpl never.

Lemma registers_count : Z.of_nat HLL_REGISTERS = 16384.
Proof. reflexivity. Qed.

Lemma wrap64_range x : 0 <= wrap64 x < 2 ^ 64.
Proof. unfold wrap64. change u64_max with (Z.ones 64). rewrite Z.land_ones by lia. apply Z.mod_pos_bound. lia. Qed.

Lemma xorshift_range h n : 0 <= n -> 0 <= h < 2 ^ 64 -> 0 <= Z.lxor h (Z.shiftr h n) < 2 ^ 64.
Proof.
  intros Hn Hh. apply lxor_lt_pow2; [lia|done|]. rewrite Z.shiftr_div_pow2 by done.
  split; [apply Z.div_pos; lia|]. apply Z.div_lt_upper_bound; [lia|]. pose proof (Z.pow_pos_nonneg 2 n). nia.
Qed.

Lemma hash64_range data : 0 <= hash64 data < 2 ^ 64.
Proof. unfold hash64. apply xorshift_range; [lia|apply wrap64_range]. Qed.

Lemma index_in_range v : (index_of v < HLL_REGISTERS)%nat.
Proof.
  unfold index_of. pose proof (hash64_range v) as Hh. apply Nat2Z.inj_lt. rewrite registers_count.
  rewrite Z.shiftr_div_pow2 by done. change (64 - HLL_PRECISION) with 50.
  assert (hash64 v / 2 ^ 50 < 16384) by (apply Z.div_lt_upper_bound; [lia|]; lia).
  rewrite Z2Nat.id by (apply Z.div_pos; lia). done.
Qed.

Lemma rank_bounds v : 1 <= rank_of v <= 51.
Proof.
  unfold rank_of, leading_zeros. change (Z.shiftl 1 (HLL_PRECISION - 1)) with 8192.
  pose proof (wrap64_range (Z.shiftl (hash64 v) HLL_PRECISION)) as Hw.
  set (x := wrap64 (Z.shiftl (hash64 v) HLL_PRECISION)) in *.
  assert (Hlog : 13 <= Z.log2 (Z.lor x 8192) <= 63).
  { rewrite Z.log2_lor by lia. change (Z.log2 8192) with 13.
    assert (Z.log2 x <= 63); [|lia]. destruct (decide (x = 0)) as [->|]; [done|].
    apply Z.lt_succ_r. apply Z.log2_lt_pow2; lia. }
  destruct (Z.eqb_spec (Z.lor x 8192) 0) as [E|E].
  - rewrite E in Hlog. change (Z.log2 0) with 0 in Hlog. lia.
  - lia.
Qed.

#[local] Opaque index_of rank_of.

(** The reference: each register is the best rank of the values that fall in it. *)
Definition best (i : nat) (vs : list (list byte)) : Z :=
  foldr (fun v m => if bool_decide (index_of v = i) then Z.max (rank_of v) m else m) 0 vs.

Definition sketch (vs : list (list byte)) : HllSketch := fold_left add vs new.

Lemma best_nonneg i vs : 0 <= best i vs.
Proof. unfold best. induction vs; simpl; [lia|]. case_bool_decide; lia. Qed.

Lemma best_app i vs ws : best i (vs ++ ws) = Z.max (best i vs) (best i ws).
Proof.
  unfold best. induction vs as [|v vs IH]; simpl; [pose proof (best_nonneg i ws); unfold best in *; lia|].
  rewrite IH. case_bool_decide; lia.
Qed.

Lemma best_elem i vs ws : (forall v, v ∈ vs -> v ∈ ws) -> best i vs <= best i ws.
Proof.
  intros Hs. induction vs as [|v vs IH]; simpl; [apply best_nonneg|].
  specialize (IH ltac:(set_solver)). unfold best in *. simpl. case_bool_decide as Hi; [|done].
  assert (rank_of v <= foldr (fun v m => if bool_decide (index_of v = i) then Z.max (rank_of v) m else m) 0 ws); [|lia].
  specialize (Hs v ltac:(set_solver)). clear - Hs Hi. induction ws as [|w ws IH]; [set_solver|].
  simpl. apply elem_of_cons in Hs as [->|Hs]; [rewrite bool_decide_eq_true_2 by done; lia|].
  specialize (IH Hs). case_bool_decide; lia.
Qed.

Lemma add_lookup s v i r :
  registers s !! i = Some r -> registers (add s v) !! i = Some (if bool_decide (index_of v = i) then Z.max (rank_of v) r else r).
Proof.
  intros Hr. unfold add. case_bool_decide as Hi.
  - rewrite Hi, Hr. destruct (Z.gtb_spec (rank_of v) r); cbn [registers].
    + rewrite list_lookup_insert_eq by (by eapply lookup_lt_Some). f_equal. lia.
    + rewrite Hr. f_equal. lia.
  - destruct (registers s !! index_of v); [|done]. destruct (_ >? _); [|done]. cbn [registers].
    by rewrite list_lookup_insert_ne.
Qed.

Lemma add_length s v : length (registers (add s v)) = length (registers s).
Proof.
  unfold add. destruct (registers s !! index_of v); [|done]. destruct (_ >? _); [|done]. cbn. apply length_insert.
Qed.

Lemma lookup_repeat {A} (x : A) n i : (i < n)%nat -> repeat x n !! i = Some x.
Proof. revert i. induction n as [|n IH]; intros [|i] Hi; simpl; try lia; [done|]. apply IH. lia. Qed.

Lemma sketch_lookup vs i :
  (i < HLL_REGISTERS)%nat -> registers (sketch vs) !! i = Some (best i vs).
Proof.
  intros Hi. unfold sketch. induction vs as [|v vs IH] using rev_ind.
  - cbn. by apply lookup_repeat.
  - rewrite fold_left_app. cbn [fold_left]. rewrite (add_lookup _ _ _ _ IH), best_app. f_equal.
    change (best i [v]) with (if bool_decide (index_of v = i) then Z.max (rank_of v) 0 else 0).
    pose proof (best_nonneg i vs). case_bool_decide; [|lia]. pose proof (rank_bounds v). lia.
Qed.

Lemma sketch_length vs : length (registers (sketch vs)) = HLL_REGISTERS.
Proof.
  unfold sketch. induction vs as [|v vs IH] using rev_ind; [apply repeat_length|].
  rewrite fold_left_app. cbn [fold_left]. by rewrite add_length.
Qed.

Lemma best_bound i vs : best i vs <= 51.
Proof. unfold best. induction vs as [|v vs IH]; simpl; [lia|]. pose proof (rank_bounds v). case_bool_decide; lia. Qed.

Lemma registers_ext s t :
  length (registers s) = length (registers t) ->
  (forall i x y, registers s !! i = Some x -> registers t !! i = Some y -> x = y) -> s = t.
Proof.
  destruct s as [a], t as [b]. cbn. intros Hl He. f_equal.
  apply (list_eq_same_length a b (length b)); [done|done|]. intros i x y _. apply He.
Qed.

Lemma merge_lookup a b i x y :
  a !! i = Some x -> b !! i = Some y -> merge_registers a b !! i = Some (Z.max x y).
Proof.
  revert b i. induction a as [|u a IH]; intros [|w b] [|i]; simpl; try done.
  - intros [= ->] [= ->]. destruct (Z.gtb_spec y x); f_equal; lia.
  - apply IH.
Qed.
Lemma merge_length a b : length (merge_registers a b) = length a.
Proof. revert b. induction a as [|u a IH]; intros [|w b]; simpl; auto. Qed.

Lemma sketch_same vs ws : (forall v, v ∈ vs <-> v ∈ ws) -> sketch vs = sketch ws.
Proof.
  intros Heq. apply registers_ext; [by rewrite !sketch_length|]. intros i x y Hx Hy.
  assert (Hi : (i < HLL_REGISTERS)%nat) by (rewrite <- (sketch_length vs); by eapply lookup_lt_Some).
  rewrite sketch_lookup in Hx, Hy by done. simplify_eq.
  apply Z.le_antisymm; apply best_elem; naive_solver.
Qed.

Lemma sketch_merge vs ws : merge (sketch vs) (sketch ws) = sketch (vs ++ ws).
Proof.
  apply registers_ext; [cbn; by rewrite merge_length, !sketch_length|]. intros i x y Hx Hy.
  assert (Hi : (i < HLL_REGISTERS)%nat) by (rewrite <- (sketch_length (vs ++ ws)); by eapply lookup_lt_Some).
  rewrite sketch_lookup in Hy by done. cbn in Hx.
  rewrite (merge_lookup _ _ i _ _ (sketch_lookup vs i Hi) (sketch_lookup ws i Hi)) in Hx.
  rewrite best_app in Hy. by simplify_eq.
Qed.

(** A sketch is a function of the set of values seen: the registers are the best ranks,
    order and repetition do not matter - a re-run of a rollup cannot inflate it - and merging
    the sketches of two days is exactly the sketch of both, so windows can be assembled from
    stored days in any way.  Every sketch survives its stored form. *)
Theorem sketches_count_sets :
  (forall vs i, (i < HLL_REGISTERS)%nat -> registers (sketch vs) !! i = Some (best i vs)) /\
  (forall vs ws, (forall v, v ∈ vs <-> v ∈ ws) -> sketch vs = sketch ws) /\
  (forall vs ws, merge (sketch vs) (sketch ws) = sketch (vs ++ ws)) /\
  (forall vs, length (registers (sketch vs)) = HLL_REGISTERS /\
     Forall (fun r => 0 <= r <= 51) (registers (sketch vs)) /\ from_bytes (to_bytes (sketch vs)) = Ok (sketch vs)).
Proof.
  split_and!; [apply sketch_lookup|apply sketch_same|apply sketch_merge|].
  intros vs. split_and!; [apply sketch_length| |].
  - apply Forall_lookup. intros i r Hr.
    assert (Hi : (i < HLL_REGISTERS)%nat) by (rewrite <- (sketch_length vs); by eapply lookup_lt_Some).
    rewrite sketch_lookup in Hr by done. simplify_eq. split; [apply best_nonneg|apply best_bound].
  - unfold from_bytes, to_bytes. cbn [length]. rewrite sketch_length. unfold SKETCH_BYTES. rewrite Nat.eqb_refl.
    cbn [negb]. by destruct (sketch vs).
Qed.
End Sketch.

(** ** Cube keys *)

Lemma chars_of_chars l : chars (of_chars l) = l.
Proof. apply String.list_ascii_of_string_of_list_ascii. Qed.
Lemma of_chars_chars s : of_chars (chars s) = s.
Proof. apply String.string_of_list_ascii_of_string. Qed.
Lemma chars_length s : length (chars s) = String.length s.
Proof. induction s; simpl; [done|]. unfold chars in *. simpl. congruence. Qed.
Lemma of_chars_length l : String.length (of_chars l) = length l.
Proof. by rewrite <- chars_length, chars_of_chars. Qed.

Lemma split_on_plain c p : c ∉ p -> split_on c p = [p].
Proof.
  induction p as [|x p IH]; intros Hc; simpl; [done|].
  rewrite bool_decide_eq_false_2 by set_solver. rewrite IH by set_solver. done.
Qed.
Lemma split_on_app c p rest : c ∉ p -> split_on c (p ++ c :: rest) = p :: split_on c rest.
Proof.
  induction p as [|x p IH]; intros Hc; simpl; [by rewrite bool_decide_eq_true_2|].
  rewrite bool_decide_eq_false_2 by set_solver. rewrite IH by set_solver. done.
Qed.

Lemma split_on_joined c h ds :
  c ∉ h -> Forall (fun d => c ∉ chars d) ds ->
  split_on c (h ++ concat (map (fun d => c :: chars d) ds)) = h :: map chars ds.
Proof.
  intros Hh Hds. revert h Hh. induction Hds as [|d ds Hd Hds IH]; intros h Hh; cbn [map concat].
  - rewrite app_nil_r. by apply split_on_plain.
  - cbn [app]. rewrite split_on_app by done. f_equal. by apply IH.
Qed.

Lemma check_dims_inv cube dims :
  check_dims cube dims = Ok tt <->
  exists names, CUBE_DIMENSIONS !! Z.to_nat cube = Some names /\ length names = length dims /\
    Forall (fun d => check_dim d = Ok tt) dims.
Proof.
  unfold check_dims. destruct (CUBE_DIMENSIONS !! Z.to_nat cube) as [names|]; cbn [ok_of_option rbind]; [|naive_solver].
  destruct (Nat.eqb_spec (length names) (length dims)); cbn [negb]; [|naive_solver].
  rewrite for_each_ok, <- Forall_forall. split; [by intros H; exists names|]. by intros (n & [= <-] & _ & H).
Qed.

Lemma check_dim_inv d :
  check_dim d = Ok tt <-> (0 < String.length d <= MAX_DIM_VALUE_LEN)%nat /\ BAR ∉ chars d.
Proof.
  unfold check_dim. destruct (Nat.eqb_spec (String.length d) 0); [split; [done|lia]|].
  destruct (Nat.ltb_spec MAX_DIM_VALUE_LEN (String.length d)); [split; [done|lia]|].
  case_bool_decide; split; try done; [tauto|]. intros _. split; [lia|done].
Qed.

(** Index, arity and number of the cubes. *)
Lemma cube_names cube names :
  CUBE_DIMENSIONS !! Z.to_nat cube = Some names -> 0 <= cube ->
  cube < CUBE_COUNT /\ (1 <= length names <= 3)%nat.
Proof.
  intros Hn Hc. pose proof (lookup_lt_Some _ _ _ Hn) as Hl. change (length CUBE_DIMENSIONS) with 9%nat in Hl.
  split; [unfold CUBE_COUNT; lia|]. remember (Z.to_nat cube) as n. clear Heqn.
  do 9 (destruct n as [|n]; [injection Hn as <-; cbn; lia|]). lia.
Qed.

Lemma show_parse_u8 n : 0 <= n < CUBE_COUNT -> parse_u8 (show_u8 n) = Some n /\ BAR ∉ show_u8 n /\ length (show_u8 n) = 1%nat.
Proof.
  intros Hn. unfold CUBE_COUNT in Hn.
  assert (n = 0 \/ n = 1 \/ n = 2 \/ n = 3 \/ n = 4 \/ n = 5 \/ n = 6 \/ n = 7 \/ n = 8) as Hc by lia.
  repeat (destruct Hc as [->|Hc]); subst; (split; [reflexivity|split; [|reflexivity]]);
    apply (bool_decide_unpack (_ ∉ _)); reflexivity.
Qed.

Lemma joined_length ds :
  Forall (fun d => check_dim d = Ok tt) ds ->
  (length (concat (map (fun d => BAR :: chars d) ds)) <= 257 * length ds)%nat.
Proof.
  induction 1 as [|d ds Hd _ IH]; cbn [map concat length]; [lia|].
  apply check_dim_inv in Hd as [Hd _]. rewrite length_app. cbn [length]. rewrite chars_length.
  unfold MAX_DIM_VALUE_LEN in Hd. lia.
Qed.

(** Cube keys survive their stored form: every key the constructor accepts fits the column
    and parses back to itself, and what the parser accepts satisfies the constructor's
    invariant - nine cubes, fixed arity, no empty, oversized or separator-carrying value. *)
Theorem cube_keys_roundtrip :
  (forall cube dims k, in_u8 cube -> CubeKey.new cube dims = Ok k ->
     (String.length (CubeKey.encode k) <= MAX_CUBE_KEY_LEN)%nat /\ CubeKey.parse (CubeKey.encode k) = Ok k) /\
  (forall s k, CubeKey.parse s = Ok k -> 
     check_dims (CubeKey.cube k) (CubeKey.dims k) = Ok tt /\
     length (CubeKey.dimension_names k) = length (CubeKey.dims k)).
Proof.
  split.
  - intros cube dims k Hc. unfold CubeKey.new. destruct (check_dims cube dims) as [[]|] eqn:E; [|done].
    cbn [rbind]. intros [= <-]. pose proof E as (names & Hn & Hl & Hd)%check_dims_inv.
    destruct (cube_names cube names Hn) as [Hlt Har]; [apply Hc|].
    destruct (show_parse_u8 cube) as (Hp & Hb & Hs); [split; [apply Hc|done]|].
    assert (Hlen : (length (CubeKey.encode_chars (CubeKey.mk cube dims)) <= MAX_CUBE_KEY_LEN)%nat).
    { unfold CubeKey.encode_chars. cbn [CubeKey.cube CubeKey.dims]. rewrite !length_app, Hs.
      pose proof (joined_length dims Hd). change (length (chars "cube_")) with 5%nat. unfold MAX_CUBE_KEY_LEN. lia. }
    unfold CubeKey.encode, CubeKey.parse. rewrite of_chars_length. split; [done|].
    destruct (Nat.ltb_spec MAX_CUBE_KEY_LEN (length (CubeKey.encode_chars (CubeKey.mk cube dims)))); [lia|].
    rewrite chars_of_chars. unfold CubeKey.encode_chars. cbn [CubeKey.cube CubeKey.dims]. rewrite app_assoc.
    rewrite split_on_joined.
    + change (strip_prefix_chars (chars "cube_") (chars "cube_" ++ show_u8 cube)) with (Some (show_u8 cube)).
      cbn [ok_of_option rbind]. rewrite Hp. cbn [ok_of_option rbind]. unfold CubeKey.new.
      rewrite map_map, (map_ext _ id), map_id by (intros d; apply of_chars_chars). by rewrite E.
    + apply not_elem_of_app. split; [|done]. apply (bool_decide_unpack (_ ∉ _)). reflexivity.
    + apply (Forall_impl _ _ _ Hd). intros d Hdd. by apply check_dim_inv.
  - intros s k. unfold CubeKey.parse. destruct (_ <? _)%nat; [done|].
    destruct (split_on BAR (chars s)) as [|h ps]; [done|]. intros Hk. inv_result.
    unfold CubeKey.new in Hk. inv_result.
    match goal with u : unit |- _ => destruct u end. cbn [CubeKey.cube CubeKey.dims].
    match goal with H : check_dims _ _ = Ok tt |- _ => split; [done|]; apply check_dims_inv in H as (names & Hn & Hl & _) end.
    unfold CubeKey.dimension_names. cbn [CubeKey.cube]. rewrite Hn. done.
Qed.

(** ** Suppression and the catalog *)

Lemma suppress_fold {T} (m : Z) (bs : list (Bucket T)) : forall sv sp,
  fold_left (suppress_one m) bs (sv, sp) =
  (sv ++ List.filter (fun b => negb (Bucket.distinct_machines b <? m)) bs,
   sp ++ map Bucket.key (List.filter (fun b => Bucket.distinct_machines b <? m) bs)).
Proof.
  induction bs as [|b bs IH]; intros sv sp; simpl; [by rewrite !app_nil_r|].
  destruct (Bucket.distinct_machines b <? m); rewrite IH; simpl; by rewrite <- app_assoc.
Qed.

(** No bucket below the threshold leaves the server: the surviving series is the input, in
    order, without exactly the buckets under the floor, and every hidden bucket is accounted
    for. *)
Theorem no_small_bucket_leaves {T} (bs : list (Bucket T)) (m : Z) :
  let s := suppress_buckets bs m in
  (forall b, b ∈ surviving s <-> b ∈ bs /\ m <= Bucket.distinct_machines b) /\
  surviving s `sublist_of` bs /\
  Z.of_nat (length (surviving s)) + suppressed_count s = Z.of_nat (length bs) /\
  (forall k, k ∈ suppressed_keys s <-> exists b, b ∈ bs /\ Bucket.key b = k /\ Bucket.distinct_machines b < m).
Proof.
  cbv zeta. unfold suppress_buckets. rewrite suppress_fold. cbn [app surviving suppressed_keys].
  unfold suppressed_count. cbn [suppressed_keys]. split_and!.
  - intros b. rewrite list_elem_of_In, List.filter_In, negb_true_iff, Z.ltb_ge, <- list_elem_of_In. done.
  - induction bs as [|b bs IH]; simpl; [done|]. destruct (negb _); [by apply sublist_skip|by apply sublist_cons].
  - rewrite length_map. induction bs as [|b bs IH]; simpl; [done|].
    destruct (Bucket.distinct_machines b <? m); simpl; lia.
  - intros k. split.
    + intros (b & -> & Hb)%list_elem_of_fmap. apply list_elem_of_In, List.filter_In in Hb as [Hin Hlt].
      exists b. split_and!; [by apply list_elem_of_In|done|by apply Z.ltb_lt].
    + intros (b & Hin & <- & Hlt). apply list_elem_of_fmap. exists b. split; [done|].
      apply list_elem_of_In, List.filter_In. split; [by apply list_elem_of_In|by apply Z.ltb_lt].
Qed.

(** Metric identifiers are unique, so each entry of the catalog is the one its identifier
    finds; a metric is trusted exactly when it is server-derived. *)
Lemma metric_catalog_consistent :
  NoDup (map MetricDefinition.id Metrics.metrics) /\
  Forall (fun m => Metrics.metric_by_id (MetricDefinition.id m) = Some m /\
    (MetricDefinition.trusted m = true <-> MetricDefinition.tier m = MetricTier.T0)) Metrics.metrics.
Proof.
  split; [apply (bool_decide_unpack (NoDup _)); by vm_compute|].
  apply Forall_forall. intros m Hin.
  assert (Hchk : forallb (fun m => match Metrics.metric_by_id (MetricDefinition.id m) with
    | Some m' => bool_decide (MetricDefinition.id m' = MetricDefinition.id m) &&
                 bool_decide (MetricDefinition.name m' = MetricDefinition.name m) &&
                 bool_decide (MetricDefinition.definition m' = MetricDefinition.definition m) &&
                 bool_decide (MetricDefinition.tier m' = MetricDefinition.tier m) &&
                 Bool.eqb (MetricDefinition.trusted m') (MetricDefinition.trusted m)
    | None => false end &&
    Bool.eqb (MetricDefinition.trusted m) (bool_decide (MetricDefinition.tier m = MetricTier.T0)))
    Metrics.metrics = true) by (by vm_compute).
  rewrite forallb_forall in Hchk. apply list_elem_of_In in Hin. specialize (Hchk m Hin).
  destruct (Metrics.metric_by_id (MetricDefinition.id m)) as [m'|]; [|done]. bprop.
  repeat match goal with H : Bool.eqb _ _ = true |- _ => apply eqb_prop in H end.
  split.
  - f_equal. destruct m, m'; cbn in *. congruence.
  - rewrite H0. apply bool_decide_eq_true.
Qed.

Definition demo_telemetry : TelemetryValues :=
  TelemetryValues.mk 1 0 1000000000 [1; 2; 3; 4] {["export.pdf" := 20000; "bogus" := 1]} 99.

Lemma clipping_is_exact_witness :
  values (clip_telemetry ["export.pdf"] (values (clip_telemetry ["export.pdf"] demo_telemetry))) =
  values (clip_telemetry ["export.pdf"] demo_telemetry).
Proof.
  apply (clipping_is_exact ["export.pdf"] (values (clip_telemetry ["export.pdf"] demo_telemetry))).
  apply (clipping_is_exact ["export.pdf"] demo_telemetry).
Defined.

Lemma cube_keys_roundtrip_witness :
  CubeKey.parse (CubeKey.encode (CubeKey.mk 2 ["my-app"; "linux"; "x86_64"])) =
  Ok (CubeKey.mk 2 ["my-app"; "linux"; "x86_64"]).
Proof.
  apply (proj1 cube_keys_roundtrip 2 ["my-app"; "linux"; "x86_64"]); [split; discriminate|reflexivity].
Defined.

Lemma sketches_count_sets_witness :
  Sketch.sketch [[1]; [2]; [1]] = Sketch.sketch [[2]; [1]].
Proof. apply (proj1 (proj2 Sketch.sketches_count_sets)). set_solver. Defined.
