(* ===== verification/StoreRecord.v ===== *)
(** * The durable record ([crates/copylocker-store/src/record.rs], [error.rs])

    The errors of the credential store, the high-water marks that only move forwards, and the
    fixed plaintext layout sealed inside each replica. *)

From S2P Require Import Prelude Types Clock Cbor Field Chain Suite.

Module ErrorKind.
Inductive ErrorKind := NotFound | Other.
End ErrorKind.

Module StoreError.
Inductive StoreError :=
| InvalidAppId
| InvalidFingerprintMaterial
| DataDirectoryUnavailable
| UnsupportedPlatform
| EntropyUnavailable
| ProtectedStorage
| MissingProtectedSecret
| InvalidProtectedSecret
| InvalidRecord
| UnsupportedRecordVersion (version : Z)
| RecordTooLarge
| Integrity
| ReplicaConflict
| UnsafeFileType
| LockPoisoned
| Io (error : ErrorKind.ErrorKind).
End StoreError.
Notation StoreError := StoreError.StoreError.

Definition RECORD_MAGIC : list byte := text_bytes "CLREC001".
Definition RECORD_VERSION : Z := 1.
Definition RECORD_HEADER_LEN : nat := 58.
Definition MAX_RECORD_LEN : Z := 16 * 1024 * 1024.

Module MonotonicState.
Record MonotonicState := mk {
  last_seen_max : Z; last_server_time : Z; rollback_events : Z;
  max_seen_security_floor : Z; max_seen_revocation_epoch : Z }.

#[global] Instance MonotonicState_eq_dec : EqDecision MonotonicState.
Proof. solve_decision. Defined.

(** The derived [Default]. *)
Definition default_ : MonotonicState := mk 0 0 0 0 0.

Definition merge (s other : MonotonicState) : MonotonicState :=
  mk (Z.max (last_seen_max s) (last_seen_max other))
     (Z.max (last_server_time s) (last_server_time other))
     (Z.max (rollback_events s) (rollback_events other))
     (Z.max (max_seen_security_floor s) (max_seen_security_floor other))
     (Z.max (max_seen_revocation_epoch s) (max_seen_revocation_epoch other)).

Definition is_well_formed (s : MonotonicState) : bool := last_seen_max s >=? last_server_time s.
End MonotonicState.
Notation MonotonicState := MonotonicState.MonotonicState.

(** Integers at their width, big endian. *)
Definition u_be (n : nat) (v : Z) : list byte := be_bytes n v.
Definition i64_be (v : Z) : list byte := be_bytes 8 (v mod 2 ^ 64).
Definition u_from_be (n : nat) (b : list byte) : Z := of_be_bytes b mod 256 ^ Z.of_nat n.
Definition i64_from_be (b : list byte) : Z :=
  let u := u_from_be 8 b in if u >? i64_max then u - 2 ^ 64 else u.

Module Cursor.
(** The bytes not yet taken stand for the slice and its position. *)
Definition take (n : nat) (rest : list byte) : result (list byte * list byte) StoreError :=
  if (n <=? length rest)%nat then Ok (list.take n rest, drop n rest) else Err StoreError.InvalidRecord.
End Cursor.

Module StoreRecord.
Record StoreRecord := mk { generation : Z; monotonic : MonotonicState; payload : list byte }.

Definition new (payload : list byte) (monotonic : MonotonicState) : StoreRecord := mk 0 monotonic payload.

(** The bytes [encode] appends, in order. *)
Definition layout (r : StoreRecord) : list byte :=
  let m := monotonic r in
  RECORD_MAGIC ++ u_be 2 RECORD_VERSION ++ u_be 8 (generation r) ++
  i64_be (MonotonicState.last_seen_max m) ++ i64_be (MonotonicState.last_server_time m) ++
  u_be 4 (MonotonicState.rollback_events m) ++ u_be 8 (MonotonicState.max_seen_security_floor m) ++
  u_be 8 (MonotonicState.max_seen_revocation_epoch m) ++
  u_be 4 (Z.of_nat (length (payload r))) ++ payload r.

Definition encode (r : StoreRecord) : result (list byte) StoreError :=
  guard? MonotonicState.is_well_formed (monotonic r) else StoreError.InvalidRecord ;;
  guard? Z.of_nat (length (payload r)) <=? u32_max else StoreError.RecordTooLarge ;;
  let total_len := Z.of_nat RECORD_HEADER_LEN + Z.of_nat (length (payload r)) in
  guard? negb (total_len >? MAX_RECORD_LEN) else StoreError.RecordTooLarge ;;
  Ok (layout r).

Definition decode (bytes : list byte) : result StoreRecord StoreError :=
  if Z.of_nat (length bytes) >? MAX_RECORD_LEN then Err StoreError.RecordTooLarge
  else if (length bytes <? RECORD_HEADER_LEN)%nat then Err StoreError.InvalidRecord
  else
    '(magic, c) <-? Cursor.take 8 bytes ;;
    guard? bool_decide (magic = RECORD_MAGIC) else StoreError.InvalidRecord ;;
    '(version, c) <-? Cursor.take 2 c ;;
    let version := u_from_be 2 version in
    guard? version =? RECORD_VERSION else StoreError.UnsupportedRecordVersion version ;;
    '(generation, c) <-? Cursor.take 8 c ;;
    '(seen, c) <-? Cursor.take 8 c ;;
    '(server, c) <-? Cursor.take 8 c ;;
    '(rollbacks, c) <-? Cursor.take 4 c ;;
    '(floor, c) <-? Cursor.take 8 c ;;
    '(revocation, c) <-? Cursor.take 8 c ;;
    let monotonic := MonotonicState.mk (i64_from_be seen) (i64_from_be server)
                       (u_from_be 4 rollbacks) (u_from_be 8 floor) (u_from_be 8 revocation) in
    guard? MonotonicState.is_well_formed monotonic else StoreError.InvalidRecord ;;
    '(payload_len, c) <-? Cursor.take 4 c ;;
    guard? Z.of_nat (length c) =? u_from_be 4 payload_len else StoreError.InvalidRecord ;;
    Ok (mk (u_from_be 8 generation) monotonic c).

Definition copy_with_generation (r : StoreRecord) (generation : Z) (m : MonotonicState) : StoreRecord :=
  mk generation m (payload r).
Definition set_monotonic (r : StoreRecord) (m : MonotonicState) : StoreRecord :=
  mk (generation r) m (payload r).
Definition same_payload (r other : StoreRecord) : bool := bool_decide (payload r = payload other).
End StoreRecord.
Notation StoreRecord := StoreRecord.StoreRecord.

(** ** Marks form a join semilattice *)
Module Marks.
Import MonotonicState.

Definition le (a b : MonotonicState) : Prop :=
  last_seen_max a <= last_seen_max b /\ last_server_time a <= last_server_time b /\
  rollback_events a <= rollback_events b /\
  max_seen_security_floor a <= max_seen_security_floor b /\
  max_seen_revocation_epoch a <= max_seen_revocation_epoch b.

#[global] Instance le_preorder : PreOrder le.
Proof. split; [intros a|intros a b c]; unfold le; lia. Qed.

Lemma merge_l a b : le a (merge a b).
Proof. unfold le, merge; cbn; lia. Qed.
Lemma merge_r a b : le b (merge a b).
Proof. unfold le, merge; cbn; lia. Qed.
Lemma merge_least a b c : le a c -> le b c -> le (merge a b) c.
Proof. unfold le, merge; cbn; lia. Qed.
Lemma le_antisym a b : le a b -> le b a -> a = b.
Proof. destruct a, b; unfold le; cbn; intros; f_equal; lia. Qed.
Lemma merge_same a : merge a a = a.
Proof. apply le_antisym; [by apply merge_least|apply merge_l]. Qed.

Lemma marks_merge_wf a b : is_well_formed a = true -> is_well_formed b = true -> is_well_formed (merge a b) = true.
Proof. unfold is_well_formed, merge. cbn. lia. Qed.

(** Field ranges at the widths of the source. *)
Definition typed (m : MonotonicState) : Prop :=
  in_i64 (last_seen_max m) /\ in_i64 (last_server_time m) /\ in_u32 (rollback_events m) /\
  in_u64 (max_seen_security_floor m) /\ in_u64 (max_seen_revocation_epoch m).

Lemma merge_typed a b : typed a -> typed b -> typed (merge a b).
Proof. unfold typed, merge, in_i64, in_u32, in_u64. cbn. lia. Qed.
End Marks.

(** ** The layout is exact *)
Definition record_typed (r : StoreRecord) : Prop :=
  in_u64 (StoreRecord.generation r) /\ Marks.typed (StoreRecord.monotonic r).

Lemma u_from_be_range n b : 0 <= u_from_be n b < 256 ^ Z.of_nat n.
Proof. unfold u_from_be. apply Z.mod_pos_bound. lia. Qed.

Lemma u_from_be_be n v : 0 <= v < 256 ^ Z.of_nat n -> u_from_be n (u_be n v) = v.
Proof. intros Hv. unfold u_from_be, u_be. by rewrite of_be_bytes_be_bytes, Z.mod_small by done. Qed.

Lemma u_be_from_be n b : is_bytes b -> length b = n -> u_be n (u_from_be n b) = b.
Proof.
  intros Hb <-. unfold u_from_be, u_be. rewrite Z.mod_small by (by apply of_be_bytes_range).
  by apply be_bytes_of_be_bytes.
Qed.

Lemma i64_from_be_range b : in_i64 (i64_from_be b).
Proof.
  pose proof (u_from_be_range 8 b) as Hr. unfold i64_from_be. change (256 ^ Z.of_nat 8) with 18446744073709551616 in Hr.
  change (2 ^ 64) with 18446744073709551616. destruct (Z.gtb_spec (u_from_be 8 b) i64_max); int_lia.
Qed.

Lemma i64_from_be_be v : in_i64 v -> i64_from_be (i64_be v) = v.
Proof.
  intros Hv. unfold i64_from_be, i64_be. change (be_bytes 8 ?x) with (u_be 8 x).
  assert (Hm : 0 <= v mod 2 ^ 64 < 256 ^ Z.of_nat 8) by (apply Z.mod_pos_bound; lia).
  rewrite u_from_be_be by done. change (2 ^ 64) with 18446744073709551616 in *.
  change (256 ^ Z.of_nat 8) with 18446744073709551616 in *. unfold in_i64, i64_min, i64_max in *.
  destruct (Z.ltb_spec v 0).
  - rewrite <- (Z_mod_plus_full v 1), Z.mod_small by lia. destruct (Z.gtb_spec (v + 1 * 18446744073709551616) 9223372036854775807); lia.
  - rewrite Z.mod_small by lia. destruct (Z.gtb_spec v 9223372036854775807); lia.
Qed.

Lemma i64_be_from_be b : is_bytes b -> length b = 8%nat -> i64_be (i64_from_be b) = b.
Proof.
  intros Hb Hl. rewrite <- (u_be_from_be 8 b Hb Hl) at 2. unfold i64_be, i64_from_be, u_be.
  pose proof (u_from_be_range 8 b) as Hr. change (256 ^ Z.of_nat 8) with (2 ^ 64) in Hr. f_equal.
  destruct (_ >? _); [|by rewrite Z.mod_small].
  replace (u_from_be 8 b - 2 ^ 64) with (u_from_be 8 b + (-1) * 2 ^ 64) by lia.
  by rewrite Z_mod_plus_full, Z.mod_small.
Qed.

Lemma cursor_take_app n a b : length a = n -> Cursor.take n (a ++ b) = Ok (a, b).
Proof.
  intros <-. unfold Cursor.take. destruct (Nat.leb_spec (length a) (length (a ++ b))); [|rewrite length_app in *; lia].
  by rewrite take_app_length, drop_app_length.
Qed.

Lemma cursor_take_inv n b x c : Cursor.take n b = Ok (x, c) -> b = x ++ c /\ length x = n.
Proof.
  unfold Cursor.take. destruct (Nat.leb_spec n (length b)); [|done]. intros [= <- <-].
  split; [by rewrite take_drop|]. rewrite length_take. lia.
Qed.

Lemma u_be_length n v : length (u_be n v) = n.
Proof. apply be_bytes_length. Qed.
Lemma i64_be_length v : length (i64_be v) = 8%nat.
Proof. apply be_bytes_length. Qed.

Lemma magic_length : length RECORD_MAGIC = 8%nat.
Proof. reflexivity. Qed.

Lemma layout_length r :
  length (StoreRecord.layout r) = (RECORD_HEADER_LEN + length (StoreRecord.payload r))%nat.
Proof.
  unfold StoreRecord.layout. rewrite !length_app, magic_length, !u_be_length, !i64_be_length.
  unfold RECORD_HEADER_LEN. lia.
Qed.

Definition record_fits (r : StoreRecord) : Prop :=
  MonotonicState.is_well_formed (StoreRecord.monotonic r) = true /\
  Z.of_nat RECORD_HEADER_LEN + Z.of_nat (length (StoreRecord.payload r)) <= MAX_RECORD_LEN.

Lemma encode_record_ok r b :
  StoreRecord.encode r = Ok b <-> record_fits r /\ b = StoreRecord.layout r.
Proof.
  unfold StoreRecord.encode, record_fits.
  assert (MAX_RECORD_LEN < u32_max) by done.
  destruct (MonotonicState.is_well_formed _); [|naive_solver].
  destruct (Z.leb_spec (Z.of_nat (length (StoreRecord.payload r))) u32_max); [|split; [done|lia]].
  destruct (Z.gtb_spec (Z.of_nat RECORD_HEADER_LEN + Z.of_nat (length (StoreRecord.payload r))) MAX_RECORD_LEN); cbn [negb].
  - split; [done|lia].
  - split; [by intros [= <-]|by intros [_ ->]].
Qed.

(** One step of the decoder over the next field of the layout. *)
Ltac cursor_step :=
  rewrite cursor_take_app by (apply magic_length || apply u_be_length || apply i64_be_length); cbn [rbind].

Lemma decode_layout r :
  record_typed r -> record_fits r -> StoreRecord.decode (StoreRecord.layout r) = Ok r.
Proof.
  intros [Hg (H1 & H2 & H3 & H4 & H5)] [Hwf Hmax]. assert (MAX_RECORD_LEN < u32_max) by done.
  unfold StoreRecord.decode. rewrite layout_length.
  destruct (Z.gtb_spec (Z.of_nat (RECORD_HEADER_LEN + length (StoreRecord.payload r))) MAX_RECORD_LEN); [lia|].
  destruct (Nat.ltb_spec (RECORD_HEADER_LEN + length (StoreRecord.payload r)) RECORD_HEADER_LEN); [lia|].
  unfold StoreRecord.layout. cursor_step. rewrite bool_decide_true by done. cursor_step.
  rewrite (u_from_be_be 2) by (unfold RECORD_VERSION; lia). rewrite Z.eqb_refl. do 6 cursor_step.
  unfold in_u64, in_u32, u64_max, u32_max in *.
  rewrite !i64_from_be_be by done. rewrite !u_from_be_be by lia.
  replace (MonotonicState.mk _ _ _ _ _) with (StoreRecord.monotonic r) by (by destruct r as [? []]). rewrite Hwf.
  cursor_step. rewrite u_from_be_be by lia. rewrite Z.eqb_refl. by destruct r.
Qed.

(** Decoding inverts exactly one layout. *)
Lemma decode_inv b r :
  StoreRecord.decode b = Ok r -> record_typed r /\ record_fits r /\ (is_bytes b -> b = StoreRecord.layout r).
Proof.
  unfold StoreRecord.decode. destruct (Z.gtb_spec (Z.of_nat (length b)) MAX_RECORD_LEN) as [|Hmax]; [done|].
  destruct (_ <? _)%nat; [done|]. intros Hd.
  repeat match goal with
  | H : (' _ <-? Cursor.take ?n ?c ;; _) = Ok _ |- _ =>
      let x := fresh "x" in let c' := fresh "c" in let E := fresh "E" in
      apply rbind_ok in H as ([x c'] & E & H); apply cursor_take_inv in E as [? E]
  | H : (if ?b then _ else Err _) = Ok _ |- _ => destruct b eqn:?; [|done]
  end.
  injection Hd as <-. bprop. subst. split_and!.
  - split; [|split_and!]; cbn; try apply i64_from_be_range;
      match goal with |- context [u_from_be ?n ?x] => pose proof (u_from_be_range n x) end; int_lia.
  - split; [done|]. cbn [StoreRecord.payload]. rewrite !length_app in Hmax. unfold RECORD_HEADER_LEN. lia.
  - intros Hb. repeat (apply Forall_app in Hb as [? Hb]). unfold StoreRecord.layout.
    cbn [StoreRecord.generation StoreRecord.monotonic StoreRecord.payload MonotonicState.last_seen_max
      MonotonicState.last_server_time MonotonicState.rollback_events
      MonotonicState.max_seen_security_floor MonotonicState.max_seen_revocation_epoch].
    rewrite !i64_be_from_be by done.
    match goal with H : u_from_be 2 _ = RECORD_VERSION |- _ => rewrite <- H end.
    match goal with H : Z.of_nat (length _) = u_from_be 4 _ |- _ => rewrite H end.
    by rewrite !u_be_from_be by done.
Qed.

(** The record layout is exact: a record that encodes decodes to itself, a byte string decodes
    only if it is the encoding of the record it decodes to, and therefore no proper prefix of
    an encoding decodes. *)
Theorem records_exact :
  (forall r b, record_typed r -> StoreRecord.encode r = Ok b -> StoreRecord.decode b = Ok r) /\
  (forall b r, is_bytes b -> StoreRecord.decode b = Ok r -> StoreRecord.encode r = Ok b) /\
  (forall r b n, record_typed r -> is_bytes b -> StoreRecord.encode r = Ok b -> (n < length b)%nat ->
    is_ok (StoreRecord.decode (take n b)) = false).
Proof.
  split_and!.
  - intros r b Ht [Hf ->]%encode_record_ok. by apply decode_layout.
  - intros b r Hb (_ & Hf & Hl)%decode_inv. apply encode_record_ok. auto.
  - intros r b n Ht Hb [Hf ->]%encode_record_ok Hn.
    destruct (StoreRecord.decode (take n (StoreRecord.layout r))) as [r'|] eqn:E; [exfalso|done].
    apply decode_inv in E as (_ & _ & Hl). specialize (Hl (Forall_take _ _ _ Hb)).
    assert (Hlen := layout_length r). assert (Hpre : take 58 (StoreRecord.layout r') = take 58 (StoreRecord.layout r) \/ (n < 58)%nat).
    { destruct (decide (n < 58)%nat); [by right|left]. rewrite <- Hl, take_take. f_equal. lia. }
    apply (f_equal length) in Hl as Hl'. rewrite layout_length, length_take in Hl'. unfold RECORD_HEADER_LEN in *.
    destruct Hpre as [Hpre|]; [|lia].
    assert (Hf' : forall x, (exists pre, take 58 (StoreRecord.layout x) = pre ++ u_be 4 (Z.of_nat (length (StoreRecord.payload x))) /\ length pre = 54%nat)).
    { intros x. unfold StoreRecord.layout. rewrite !app_assoc. rewrite take_app_length'.
      - eexists. split; [reflexivity|]. rewrite !length_app, magic_length, !u_be_length, !i64_be_length. done.
      - rewrite !length_app, magic_length, !u_be_length, !i64_be_length. done. }
    destruct (Hf' r) as (p1 & E1 & L1), (Hf' r') as (p2 & E2 & L2). rewrite E1, E2 in Hpre.
    apply app_inj_1 in Hpre as [_ Hp]; [|congruence]. destruct Hf as [_ Hf]. unfold MAX_RECORD_LEN, RECORD_HEADER_LEN in *.
    apply be_bytes_inj in Hp; lia.
Qed.
