(* ===== verification/Host.v ===== *)
(** * Host storage ([crates/copylocker-store/src/file.rs], [protected.rs])

    What the credential store needs of its host: two protected slots, one file, entropy.
    [Host] is that interface, [HostLaws] its contract (an atomic replacement leaves the old or
    the new value, whatever fails), and [Files] the private-file implementation over a file
    system in which every call may fail, with the proof that it meets the contract. *)

From S2P Require Import Prelude Types Clock Cbor Field Chain Suite StoreRecord.

(** ** Programs that change a world and may fail *)
Definition IO (W A : Type) : Type := W -> result A StoreError * W.

Module IO.
Definition ret {W A} (x : A) : IO W A := fun w => (Ok x, w).
Definition fail {W A} (e : StoreError) : IO W A := fun w => (Err e, w).
Definition bind {W A B} (m : IO W A) (k : A -> IO W B) : IO W B :=
  fun w => match m w with (Ok x, w) => k x w | (Err e, w) => (Err e, w) end.
Definition lift {W A} (r : result A StoreError) : IO W A := fun w => (r, w).
(** The outcome as a value: [let _ = m] and results kept for later. *)
Definition attempt {W A} (m : IO W A) : IO W (result A StoreError) :=
  fun w => let '(r, w) := m w in (Ok r, w).

(** What holds of the outcome and the world after a program. *)
Definition wp {W A} (m : IO W A) (Q : result A StoreError -> W -> Prop) (w : W) : Prop :=
  Q (m w).1 (m w).2.

Section Rules.
Context {W : Type}.

Lemma wp_ret {A} (x : A) Q (w : W) : Q (Ok x) w -> wp (ret x) Q w.
Proof. done. Qed.
Lemma wp_fail {A} e (Q : result A StoreError -> W -> Prop) w : Q (Err e) w -> wp (fail e) Q w.
Proof. done. Qed.
Lemma wp_lift {A} r (Q : result A StoreError -> W -> Prop) w : Q r w -> wp (lift r) Q w.
Proof. done. Qed.
Lemma wp_mono {A} (m : IO W A) (P Q : result A StoreError -> W -> Prop) w :
  wp m P w -> (forall r w', P r w' -> Q r w') -> wp m Q w.
Proof. unfold wp. auto. Qed.
Lemma wp_bind {A B} (m : IO W A) (k : A -> IO W B) Q w :
  wp m (fun r w' => match r with Ok x => wp (k x) Q w' | Err e => Q (Err e) w' end) w -> wp (bind m k) Q w.
Proof. unfold wp, bind. by destruct (m w) as [[x|e] w']. Qed.
Lemma wp_attempt {A} (m : IO W A) Q w :
  wp m (fun r w' => Q (Ok r) w') w -> wp (attempt m) Q w.
Proof. unfold wp, attempt. by destruct (m w). Qed.
End Rules.
End IO.

Notation "x <-! m ;; k" := (IO.bind m (fun x => k))
  (at level 100, m at next level, right associativity) : rust_scope.
Notation "'do!' m ;; k" := (IO.bind m (fun _ => k))
  (at level 100, m at next level, right associativity) : rust_scope.

(** ** The interface *)
Module ProtectedSlot.
Inductive ProtectedSlot := RootSecret | Replica.
#[global] Instance ProtectedSlot_eq_dec : EqDecision ProtectedSlot.
Proof. solve_decision. Defined.
End ProtectedSlot.
Notation ProtectedSlot := ProtectedSlot.ProtectedSlot.

Definition MAX_SEALED_LEN : Z := MAX_RECORD_LEN + 128.

Class Host := {
  World : Type;
  (** The trait [ProtectedStorage]. *)
  load : ProtectedSlot -> IO World (option (list byte));
  store : ProtectedSlot -> list byte -> IO World unit;
  delete : ProtectedSlot -> IO World unit;
  (** [file.rs] at the configured path. *)
  read_file : IO World (option (list byte));
  write_file : list byte -> IO World unit;
  remove_file : IO World unit;
  getrandom : nat -> IO World (list byte);
}.

(** The three durable values. *)
Inductive Cell := Slot (s : ProtectedSlot) | File.
#[global] Instance Cell_eq_dec : EqDecision Cell.
Proof. solve_decision. Defined.

Section Cells.
Context `{H : Host}.
Definition cell_read (c : Cell) : IO World (option (list byte)) :=
  match c with Slot s => load s | File => read_file end.
Definition cell_write (c : Cell) (b : list byte) : IO World unit :=
  match c with Slot s => store s b | File => write_file b end.
Definition cell_remove (c : Cell) : IO World unit :=
  match c with Slot s => delete s | File => remove_file end.
End Cells.

(** What the store relies on.  [reads_work] and [writes_work] describe worlds in which the
    host does not fail; nothing is assumed of a failing host beyond atomicity. *)
Class HostLaws (H : Host) := {
  view : World -> Cell -> option (list byte);
  reads_work : World -> Prop;
  writes_work : World -> Prop;
  keeps_working (w w' : World) : Prop :=
    (reads_work w -> reads_work w') /\ (writes_work w -> writes_work w');
  read_law : forall c w, IO.wp (cell_read c) (fun r w' =>
    (forall c', view w' c' = view w c') /\ (forall v, r = Ok v -> v = view w c) /\
    (reads_work w -> is_ok r = true) /\ keeps_working w w') w;
  write_law : forall c b w, IO.wp (cell_write c b) (fun r w' =>
    (forall c', c' <> c -> view w' c' = view w c') /\
    (view w' c = view w c \/ view w' c = Some b) /\ (r = Ok tt -> view w' c = Some b) /\
    (writes_work w -> Z.of_nat (length b) <= MAX_SEALED_LEN -> r = Ok tt) /\ keeps_working w w') w;
  remove_law : forall c w, IO.wp (cell_remove c) (fun r w' =>
    (forall c', c' <> c -> view w' c' = view w c') /\ (r = Ok tt -> view w' c = None) /\
    (writes_work w -> r = Ok tt) /\ keeps_working w w') w;
  random_law : forall n w, IO.wp (getrandom n) (fun r w' =>
    (forall c', view w' c' = view w c') /\ (forall b, r = Ok b -> length b = n) /\
    (writes_work w -> is_ok r = true) /\ keeps_working w w') w;
}.

(** ** Files *)
Definition Path : Type := list string.
(** [Path::parent] on components. *)
Definition parent (p : Path) : option Path := match p with [] => None | _ => Some (removelast p) end.

Module Node.
Inductive Node := Regular (content : list byte) | Directory | Symlink | Special.
End Node.
Notation Node := Node.Node.

Inductive Phase := Reading | Writing.

Section Fs.
Context `{R : CryptoRng}.

(** The file system, the calls that are going to fail, and the entropy source. *)
Record Fs := mk_fs { nodes : gmap Path Node; read_faults : list bool; write_faults : list bool; rng : Rng }.

Definition set_node (p : Path) (n : option Node) (fs : Fs) : Fs :=
  mk_fs (partial_alter (fun _ => n) p (nodes fs)) (read_faults fs) (write_faults fs) (rng fs).

(** One system call. *)
Definition os_call_or (e : StoreError) (ph : Phase) : IO Fs unit := fun fs =>
  match ph, read_faults fs, write_faults fs with
  | Reading, f :: fl, wf =>
      (if f then Err e else Ok tt, mk_fs (nodes fs) fl wf (rng fs))
  | Writing, rf, f :: fl =>
      (if f then Err e else Ok tt, mk_fs (nodes fs) rf fl (rng fs))
  | _, _, _ => (Ok tt, fs)
  end.
Definition os_call (ph : Phase) : IO Fs unit := os_call_or (StoreError.Io ErrorKind.Other) ph.

(** [fs::symlink_metadata]; an absent file is [NotFound]. *)
Definition symlink_metadata (ph : Phase) (p : Path) : IO Fs (option Node) :=
  do! os_call ph ;; fun fs => (Ok (nodes fs !! p), fs).

Definition getrandom_fill (n : nat) : IO Fs (list byte) :=
  do! os_call_or StoreError.EntropyUnavailable Writing ;;
  fun fs => let '(b, r) := fill_bytes n (rng fs) in
            (Ok b, mk_fs (nodes fs) (read_faults fs) (write_faults fs) r).

Definition too_long (b : list byte) : bool := Z.of_nat (length b) >? MAX_SEALED_LEN.

(** Opening the file and reading its metadata again, as [read_optional] and [secure_remove] do. *)
Definition open_checked (ph : Phase) (p : Path) : IO Fs (list byte) :=
  do! os_call ph ;;
  n <-! symlink_metadata ph p ;;
  match n with
  | Some (Node.Regular b) => if too_long b then IO.fail StoreError.RecordTooLarge else IO.ret b
  | Some _ => IO.fail StoreError.UnsafeFileType
  | None => IO.fail (StoreError.Io ErrorKind.NotFound)
  end.

Definition read_optional (p : Path) : IO Fs (option (list byte)) :=
  n <-! symlink_metadata Reading p ;;
  match n with
  | None => IO.ret None
  | Some (Node.Regular b) =>
      if too_long b then IO.fail StoreError.RecordTooLarge
      else
        b <-! open_checked Reading p ;;
        do! os_call Reading ;;
        if too_long b then IO.fail StoreError.RecordTooLarge else IO.ret (Some b)
  | Some _ => IO.fail StoreError.UnsafeFileType
  end.

Definition create_dir_all (p : Path) : IO Fs unit :=
  do! os_call Writing ;;
  fun fs => match nodes fs !! p with
            | None => (Ok tt, set_node p (Some Node.Directory) fs)
            | Some Node.Directory | Some Node.Symlink => (Ok tt, fs)
            | Some _ => (Err (StoreError.Io ErrorKind.Other), fs)
            end.

Definition ensure_private_dir (p : Path) : IO Fs unit :=
  do! create_dir_all p ;;
  n <-! symlink_metadata Writing p ;;
  match n with
  | Some Node.Directory => os_call Writing
  | Some _ => IO.fail StoreError.UnsafeFileType
  | None => IO.fail (StoreError.Io ErrorKind.NotFound)
  end.

Definition reject_unsafe_existing (p : Path) : IO Fs unit :=
  n <-! symlink_metadata Writing p ;;
  match n with
  | None | Some (Node.Regular _) => IO.ret tt
  | Some _ => IO.fail StoreError.UnsafeFileType
  end.

(** Opening the directory and syncing it. *)
Definition sync_parent : IO Fs unit := do! os_call Writing ;; os_call Writing.

(** Create, restrict, write, flush and sync the temporary file. *)
Definition write_temporary : IO Fs unit :=
  do! os_call Writing ;; do! os_call Writing ;; do! os_call Writing ;; do! os_call Writing ;; os_call Writing.

(** [NamedTempFile::persist]: a rename over the target. *)
Definition persist (p : Path) (b : list byte) : IO Fs unit :=
  do! os_call Writing ;; fun fs => (Ok tt, set_node p (Some (Node.Regular b)) fs).

Definition write_atomic (p : Path) (b : list byte) : IO Fs unit :=
  if too_long b then IO.fail StoreError.RecordTooLarge
  else
    match parent p with
    | None => IO.fail StoreError.DataDirectoryUnavailable
    | Some dir =>
        do! ensure_private_dir dir ;;
        do! reject_unsafe_existing p ;;
        do! write_temporary ;;
        do! persist p b ;;
        do! os_call Writing ;;
        sync_parent
    end.

Definition OVERWRITE_LEN : nat := 4096.

(** The overwriting loop of [secure_remove] from position [pos], a chunk per round; [rounds]
    is the number of bytes left, which every round lowers. *)
Fixpoint overwrite (rounds : nat) (p : Path) (pos : nat) (content : list byte) : IO Fs unit :=
  match rounds with
  | O => IO.ret tt
  | S rounds =>
      let remaining := (length content - pos)%nat in
      if (remaining =? 0)%nat then IO.ret tt
      else
        noise <-! getrandom_fill OVERWRITE_LEN ;;
        do! os_call Writing ;;
        let count := Nat.min remaining OVERWRITE_LEN in
        let content := take pos content ++ take count noise ++ drop (pos + count) content in
        do! (fun fs => (Ok tt, set_node p (Some (Node.Regular content)) fs)) ;;
        overwrite rounds p (pos + count) content
  end.

(** Seek, overwrite, flush and sync, truncate and sync. *)
Definition scrub (p : Path) (b : list byte) : IO Fs unit :=
  do! os_call Writing ;;
  do! overwrite (length b) p 0 b ;;
  do! os_call Writing ;;
  do! os_call Writing ;;
  do! os_call Writing ;;
  do! (fun fs => (Ok tt, set_node p (Some (Node.Regular [])) fs)) ;;
  os_call Writing.

(** Remove the name and sync its directory. *)
Definition unlink (p : Path) : IO Fs unit :=
  do! os_call Writing ;;
  do! (fun fs => (Ok tt, set_node p None fs)) ;;
  match parent p with Some _ => sync_parent | None => IO.ret tt end.

Definition secure_remove (p : Path) : IO Fs unit :=
  n <-! symlink_metadata Writing p ;;
  match n with
  | None => IO.ret tt
  | Some (Node.Regular b) =>
      if too_long b then IO.fail StoreError.RecordTooLarge
      else b <-! open_checked Writing p ;; do! scrub p b ;; unlink p
  | Some _ => IO.fail StoreError.UnsafeFileType
  end.
End Fs.

Module FileProtectedStorage.
Record FileProtectedStorage := mk { root_secret_path : Path; replica_path : Path }.
Definition path (s : FileProtectedStorage) (slot : ProtectedSlot) : Path :=
  match slot with
  | ProtectedSlot.RootSecret => root_secret_path s
  | ProtectedSlot.Replica => replica_path s
  end.
End FileProtectedStorage.

(** The host made of files only: the trait's implementation and the store's own file. *)
Definition FileHost `{R : CryptoRng} (s : FileProtectedStorage.FileProtectedStorage) (file_path : Path) : Host := {|
  World := Fs;
  load := fun slot => read_optional (FileProtectedStorage.path s slot);
  store := fun slot => write_atomic (FileProtectedStorage.path s slot);
  delete := fun slot => secure_remove (FileProtectedStorage.path s slot);
  read_file := read_optional file_path;
  write_file := write_atomic file_path;
  remove_file := secure_remove file_path;
  getrandom := getrandom_fill |}.

(** ** The private files meet the contract *)
Section FilesSpec.
Context `{R : CryptoRng} {RL : RngLaws R}.

Definition no_faults (ph : Phase) (fs : Fs) : Prop :=
  match ph with Reading => read_faults fs = [] | Writing => write_faults fs = [] end.

(** Nothing but the fault lists and the entropy source moved. *)
Definition calm (fs fs' : Fs) : Prop := forall ph, no_faults ph fs -> no_faults ph fs'.
Definition quiet (fs fs' : Fs) : Prop := nodes fs' = nodes fs /\ calm fs fs'.

#[local] Instance calm_preorder : PreOrder calm.
Proof. split; [by intros fs ph|intros a b c H1 H2 ph Ha; auto]. Qed.
#[local] Instance quiet_preorder : PreOrder quiet.
Proof. split; [done|]. intros a b c [H1 H2] [H3 H4]. split; [congruence|by trans b]. Qed.

(** A program made of system calls only. *)
Definition calls_only {A} (ph : Phase) (m : IO Fs A) : Prop :=
  forall fs, IO.wp m (fun r fs' => quiet fs fs' /\ (no_faults ph fs -> is_ok r = true)) fs.

Lemma os_call_spec e ph : calls_only ph (os_call_or e ph).
Proof.
  intros [n rf wf g]. unfold IO.wp, os_call_or, quiet, calm. cbn.
  destruct ph; [destruct rf as [|[] rf]|destruct wf as [|[] wf]]; cbn; repeat split; try done;
    by intros []; cbn; intros.
Qed.

Lemma calls_bind {A B} ph (m : IO Fs A) (k : A -> IO Fs B) :
  calls_only ph m -> (forall x, calls_only ph (k x)) -> calls_only ph (IO.bind m k).
Proof.
  intros Hm Hk fs. apply IO.wp_bind. eapply IO.wp_mono; [apply Hm|].
  intros [x|e] fs1 [Hq Hok]; [|split; [done|]; intros H; by specialize (Hok H)].
  eapply IO.wp_mono; [apply Hk|]. intros r fs2 [Hq' Hok']. split; [by trans fs1|].
  intros Hn. apply Hok'. by apply Hq.
Qed.

Lemma sync_parent_spec : calls_only Writing sync_parent.
Proof. apply calls_bind; intros; apply os_call_spec. Qed.
Lemma write_temporary_spec : calls_only Writing write_temporary.
Proof. do 4 (apply calls_bind; [apply os_call_spec|intros _]). apply os_call_spec. Qed.

(** The value read is the node at the path. *)
Lemma metadata_spec ph p fs :
  IO.wp (symlink_metadata ph p) (fun r fs' => quiet fs fs' /\ (no_faults ph fs -> is_ok r = true) /\
    (forall n, r = Ok n -> n = nodes fs !! p)) fs.
Proof.
  apply IO.wp_bind. eapply IO.wp_mono; [apply os_call_spec|]. intros [[]|e] fs1 [Hq Hok].
  - split_and!; [done|done|]. intros n [= <-]. cbn. by destruct Hq as [-> _].
  - split_and!; [done|done|by intros].
Qed.

Lemma random_spec n fs :
  IO.wp (getrandom_fill n) (fun r fs' => quiet fs fs' /\ (no_faults Writing fs -> is_ok r = true) /\
    (forall b, r = Ok b -> length b = n)) fs.
Proof.
  apply IO.wp_bind. eapply IO.wp_mono; [apply os_call_spec|]. intros [[]|e] fs1 [Hq Hok].
  - unfold IO.wp. cbn. pose proof (fill_length n (rng fs1)) as Hl. destruct (fill_bytes n (rng fs1)) as [b r]. cbn in *.
    split_and!; [|done|by intros ? [= <-]]. destruct Hq as [Hn Hc]. split; [done|].
    intros ph Hp. specialize (Hc ph Hp). by destruct ph.
  - split_and!; [done|done|by intros].
Qed.

(** A regular file of acceptable size, or nothing. *)
Definition safe_file (o : option Node) : Prop :=
  match o with None => True | Some (Node.Regular b) => too_long b = false | Some _ => False end.
Definition content (o : option Node) : option (list byte) :=
  match o with Some (Node.Regular b) => Some b | _ => None end.

Lemma open_checked_spec ph p fs :
  IO.wp (open_checked ph p) (fun r fs' => quiet fs fs' /\
    (no_faults ph fs -> safe_file (nodes fs !! p) -> is_Some (nodes fs !! p) -> is_ok r = true) /\
    (forall b, r = Ok b -> nodes fs !! p = Some (Node.Regular b))) fs.
Proof.
  apply IO.wp_bind. eapply IO.wp_mono; [apply os_call_spec|]. intros [[]|e] fs1 [Hq Hok];
    [|split_and!; [done|auto|by intros]].
  apply IO.wp_bind. eapply IO.wp_mono; [apply metadata_spec|]. intros [n|e] fs2 (Hq2 & Hok2 & Hn).
  - specialize (Hn n eq_refl). assert (Hq' : quiet fs fs2) by (by trans fs1).
    destruct Hq as [Hnodes Hc]. rewrite Hnodes in Hn. subst n.
    destruct (nodes fs !! p) as [[b| | |]|] eqn:E; try (split_and!; [done|by cbn; intros|by intros]).
    destruct (too_long b) eqn:Et; (split_and!; [done| |]); cbn; [congruence|by intros|by auto|by intros ? [= <-]].
  - split_and!; [by trans fs1| |by intros]. intros Hn'. specialize (Hok2 ltac:(by apply Hq)). done.
Qed.

Lemma read_optional_spec p fs :
  IO.wp (read_optional p) (fun r fs' => quiet fs fs' /\
    (no_faults Reading fs -> safe_file (nodes fs !! p) -> is_ok r = true) /\
    (forall v, r = Ok v -> v = content (nodes fs !! p))) fs.
Proof.
  apply IO.wp_bind. eapply IO.wp_mono; [apply metadata_spec|]. intros [n|e] fs1 (Hq & Hok & Hn);
    [|split_and!; [done|auto|by intros]].
  specialize (Hn n eq_refl). subst n. destruct (nodes fs !! p) as [[b| | |]|] eqn:E;
    try (split_and!; [done|by cbn; intros|by intros ? [=] || by intros ? [= <-]]).
  destruct (too_long b) eqn:Et; [split_and!; [done|cbn; congruence|by intros]|].
  apply IO.wp_bind. eapply IO.wp_mono; [apply open_checked_spec|].
  destruct Hq as [Hnodes Hc]. rewrite Hnodes, E. intros [b'|e] fs2 (Hq2 & Hok2 & Hb).
  - specialize (Hb b' eq_refl). injection Hb as <-. assert (Hq' : quiet fs fs2).
    { trans fs1; [done|done]. }
    apply IO.wp_bind. eapply IO.wp_mono; [apply os_call_spec|]. intros [[]|e] fs3 [Hq3 Hok3].
    + rewrite Et. split_and!; [by trans fs2|done|by intros ? [= <-]].
    + split_and!; [by trans fs2| |by intros]. intros Hf. specialize (Hok3 ltac:(by apply Hq')). done.
  - split_and!; [by trans fs1| |by intros]. intros Hf Hs.
    specialize (Hok2 ltac:(by apply Hc)). cbn in Hok2. by apply Hok2.
Qed.

(** [calls_only] programs inside a larger one: run them, keep the world's nodes. *)
Ltac run_calls H :=
  apply IO.wp_bind; eapply IO.wp_mono; [apply H|]; intros [[]|?e] ?fs [?Hq ?Hok].

(** What [write_atomic] may do to the nodes: at its directory and at its target. *)
Definition replaced (p d : Path) (b : list byte) (fs fs' : Fs) : Prop :=
  (forall q, q <> p -> q <> d -> nodes fs' !! q = nodes fs !! q) /\
  (nodes fs' !! p = nodes fs !! p \/ nodes fs' !! p = Some (Node.Regular b)) /\
  (nodes fs' !! d = nodes fs !! d \/ nodes fs !! d = None /\ nodes fs' !! d = Some Node.Directory) /\
  calm fs fs'.

Definition usable_dir (o : option Node) : Prop := o = None \/ o = Some Node.Directory.

Lemma set_node_lookup p n fs q :
  nodes (set_node p n fs) !! q = if decide (q = p) then n else nodes fs !! q.
Proof.
  cbn. destruct (decide (q = p)) as [->|]; [by rewrite lookup_partial_alter_eq|by rewrite lookup_partial_alter_ne].
Qed.
Lemma set_node_calm p n fs : calm fs (set_node p n fs).
Proof. by intros []. Qed.

Lemma quiet_replaced p d b fs fs' : quiet fs fs' -> replaced p d b fs fs'.
Proof. intros [Hn Hc]. unfold replaced. rewrite Hn. split_and!; auto. Qed.

Lemma replaced_quiet p d b fs fs1 fs2 : replaced p d b fs fs1 -> quiet fs1 fs2 -> replaced p d b fs fs2.
Proof.
  intros (H1 & H2 & H3 & H4) [Hn Hc]. unfold replaced. rewrite Hn. split_and!; [done..|]. by trans fs1.
Qed.

Lemma ensure_dir_spec p d b fs :
  p <> d ->
  IO.wp (ensure_private_dir d) (fun r fs' => replaced p d b fs fs' /\ nodes fs' !! p = nodes fs !! p /\
    (no_faults Writing fs -> usable_dir (nodes fs !! d) -> is_ok r = true)) fs.
Proof.
  intros Hpd. apply IO.wp_bind. unfold create_dir_all.
  apply IO.wp_bind. eapply IO.wp_mono; [apply os_call_spec|]. intros [[]|e] fs1 [Hq Hok]; cbn iota;
    [|split_and!; [by apply quiet_replaced|by destruct Hq as [-> _]|auto]].
  unfold IO.wp at 1. cbn [fst snd].
  assert (Hstep : forall fs2 o, replaced p d b fs fs2 -> nodes fs2 !! p = nodes fs !! p ->
    nodes fs2 !! d = Some o -> (o = Node.Directory \/ ~ usable_dir (nodes fs !! d)) ->
    IO.wp (n <-! symlink_metadata Writing d ;;
      match n with
      | Some Node.Directory => os_call Writing
      | Some _ => IO.fail StoreError.UnsafeFileType
      | None => IO.fail (StoreError.Io ErrorKind.NotFound)
      end) (fun r fs' => replaced p d b fs fs' /\ nodes fs' !! p = nodes fs !! p /\
      (no_faults Writing fs -> usable_dir (nodes fs !! d) -> is_ok r = true)) fs2).
  { intros fs2 o Hr Hp Hd Ho. apply IO.wp_bind. eapply IO.wp_mono; [apply metadata_spec|].
    intros [n|e] fs3 (Hq3 & Hok3 & Hn3).
    - specialize (Hn3 n eq_refl). rewrite Hd in Hn3. subst n.
      assert (Hr3 : replaced p d b fs fs3) by (by eapply replaced_quiet).
      assert (Hp3 : nodes fs3 !! p = nodes fs !! p) by (destruct Hq3 as [-> _]; done).
      destruct o; try (split_and!; [done|done|intros _ Hu; by destruct Ho]).
      eapply IO.wp_mono; [apply os_call_spec|]. intros r fs4 [Hq4 Hok4].
      split_and!; [by eapply replaced_quiet|by destruct Hq4 as [-> _]|].
      intros Hf _. apply Hok4. by apply Hr3.
    - split_and!; [by eapply replaced_quiet|by destruct Hq3 as [-> _]|].
      intros Hf _. apply Hok3. by apply Hr. }
  pose proof (quiet_replaced p d b _ _ Hq) as Hr1. destruct Hq as [Hn1 Hc1].
  destruct (nodes fs1 !! d) as [o|] eqn:Ed.
  - rewrite Hn1 in Ed. assert (Ho : o = Node.Directory \/ ~ usable_dir (nodes fs !! d)).
    { destruct o; [right|by left|right..]; rewrite Ed; by intros []. }
    destruct o; cbn [fst snd]; try (eapply Hstep; [done|by rewrite Hn1|by rewrite Hn1|done]);
      (split_and!; [done|by rewrite Hn1|intros _ Hu; by destruct Ho]).
  - cbn [fst snd]. apply (Hstep _ Node.Directory); [|by rewrite set_node_lookup, decide_False, Hn1 by done|
      by rewrite set_node_lookup, decide_True by done|by left].
    unfold replaced. rewrite Hn1 in Ed. split_and!.
    + intros q Hqp Hqd. by rewrite set_node_lookup, decide_False, Hn1 by done.
    + left. by rewrite set_node_lookup, decide_False, Hn1 by done.
    + right. by rewrite set_node_lookup, decide_True by done.
    + trans fs1; [done|apply set_node_calm].
Qed.

Lemma set_target_replaced p d b fs fs1 :
  p <> d -> replaced p d b fs fs1 -> replaced p d b fs (set_node p (Some (Node.Regular b)) fs1).
Proof.
  intros Hpd (A1 & A2 & A3 & A4). unfold replaced. split_and!.
  - intros q Hqp Hqd. rewrite set_node_lookup, decide_False by done. by apply A1.
  - right. by rewrite set_node_lookup, decide_True.
  - by rewrite set_node_lookup, decide_False by done.
  - trans fs1; [done|apply set_node_calm].
Qed.

(** From the temporary file to the synced directory. *)
Lemma replace_tail_spec p d b fs fs1 :
  p <> d -> replaced p d b fs fs1 ->
  IO.wp (do! write_temporary ;; do! persist p b ;; do! os_call Writing ;; sync_parent)
    (fun r fs' => replaced p d b fs fs' /\ (r = Ok tt -> nodes fs' !! p = Some (Node.Regular b)) /\
       (no_faults Writing fs -> r = Ok tt)) fs1.
Proof.
  intros Hpd Hr1. run_calls write_temporary_spec; pose proof (replaced_quiet _ _ _ _ _ _ Hr1 Hq) as Hr2;
    [|split_and!; [done|done|intros Hf; by specialize (Hok ltac:(by apply Hr1))]].
  apply IO.wp_bind. unfold persist. run_calls os_call_spec; pose proof (replaced_quiet _ _ _ _ _ _ Hr2 Hq0) as Hr3;
    [|split_and!; [done|done|intros Hf; by specialize (Hok0 ltac:(by apply Hr2))]].
  unfold IO.wp at 1. cbn [fst snd].
  assert (Htail : calls_only Writing (do! os_call Writing ;; sync_parent)).
  { apply calls_bind; [apply os_call_spec|intros _; apply sync_parent_spec]. }
  eapply IO.wp_mono; [apply Htail|]. intros r fs5 [Hq5 Hok5].
  apply (set_target_replaced _ _ _ _ _ Hpd) in Hr3. split_and!; [by eapply replaced_quiet| |].
  - intros _. destruct Hq5 as [-> _]. by rewrite set_node_lookup, decide_True.
  - intros Hf. specialize (Hok5 ltac:(by apply Hr3)). by destruct r as [[]|].
Qed.

(** Either the old or the new content, whatever fails; the new one on success. *)
Lemma write_atomic_spec p d b fs :
  parent p = Some d -> p <> d ->
  IO.wp (write_atomic p b) (fun r fs' => replaced p d b fs fs' /\
    (nodes fs' !! p = nodes fs !! p \/ too_long b = false) /\
    (r = Ok tt -> nodes fs' !! p = Some (Node.Regular b)) /\
    (no_faults Writing fs -> safe_file (nodes fs !! p) -> usable_dir (nodes fs !! d) ->
     too_long b = false -> r = Ok tt)) fs.
Proof.
  intros Hd Hpd. unfold write_atomic. rewrite Hd. destruct (too_long b) eqn:Et.
  { split_and!; [by apply quiet_replaced|by left|done|done]. }
  apply IO.wp_bind. eapply IO.wp_mono; [by apply (ensure_dir_spec p d b)|].
  intros [[]|e] fs1 (Hr1 & Hp1 & Hok1); [|split_and!; [done|by left|done|intros Hf _ Hu; by specialize (Hok1 Hf Hu)]].
  apply IO.wp_bind. unfold reject_unsafe_existing. apply IO.wp_bind.
  eapply IO.wp_mono; [apply metadata_spec|]. intros [n|e] fs2 (Hq2 & Hok2 & Hn2).
  2:{ split_and!; [by eapply replaced_quiet|by right|done|]. intros Hf. specialize (Hok2 ltac:(by apply Hr1)). done. }
  specialize (Hn2 n eq_refl). rewrite Hp1 in Hn2. subst n.
  assert (Hr2 : replaced p d b fs fs2) by (by eapply replaced_quiet).
  destruct (nodes fs !! p) as [[c| | |]|] eqn:Ep; unfold IO.wp at 1, IO.ret, IO.fail; cbn [fst snd];
    try (split_and!; [done|by right|done|by intros _ []]).
  all: eapply IO.wp_mono; [by apply (replace_tail_spec p d b fs)|];
    intros r fs3 (A1 & A2 & A3); split_and!; [done|by right|done|auto].
Qed.

(** Programs that change one path only, and keep it a small regular file or nothing. *)
Definition touched (p : Path) (fs fs' : Fs) : Prop :=
  (forall q, q <> p -> nodes fs' !! q = nodes fs !! q) /\
  (safe_file (nodes fs !! p) -> safe_file (nodes fs' !! p)) /\ calm fs fs'.
#[local] Instance touched_preorder p : PreOrder (touched p).
Proof.
  split; [done|]. intros a b c (A1 & A2 & A3) (B1 & B2 & B3). split_and!; [|auto|by trans b].
  intros q Hq. by rewrite B1, A1.
Qed.
Lemma quiet_touched p fs fs' : quiet fs fs' -> touched p fs fs'.
Proof. intros [Hn Hc]. unfold touched. by rewrite Hn. Qed.

Definition touches {A} (p : Path) (m : IO Fs A) : Prop :=
  forall fs, IO.wp m (fun r fs' => touched p fs fs' /\ (no_faults Writing fs -> is_ok r = true)) fs.

Lemma calls_touch {A} p (m : IO Fs A) : calls_only Writing m -> touches p m.
Proof. intros Hm fs. eapply IO.wp_mono; [apply Hm|]. intros r fs' [Hq Hok]. split; [by apply quiet_touched|done]. Qed.

Lemma touches_bind {A B} p (m : IO Fs A) (k : A -> IO Fs B) :
  touches p m -> (forall x, touches p (k x)) -> touches p (IO.bind m k).
Proof.
  intros Hm Hk fs. apply IO.wp_bind. eapply IO.wp_mono; [apply Hm|].
  intros [x|e] fs1 [Hq Hok]; [|done].
  eapply IO.wp_mono; [apply Hk|]. intros r fs2 [Hq' Hok']. split; [by trans fs1|].
  intros Hn. apply Hok'. by apply Hq.
Qed.

Lemma touches_set p n : safe_file n -> touches p (fun fs => (Ok tt, set_node p n fs)).
Proof.
  intros Hn fs. unfold IO.wp. cbn [fst snd]. split; [|done]. split_and!.
  - intros q Hq. by rewrite set_node_lookup, decide_False.
  - intros _. by rewrite set_node_lookup, decide_True.
  - apply set_node_calm.
Qed.

Lemma too_long_length b b' : length b = length b' -> too_long b = too_long b'.
Proof. unfold too_long. by intros ->. Qed.

(** The loop ends with the whole file overwritten in place. *)
Lemma overwrite_touches p rounds : forall pos c,
  (pos <= length c)%nat -> too_long c = false -> touches p (overwrite rounds p pos c).
Proof.
  induction rounds as [|n IH]; intros pos c Hpos Hc; cbn [overwrite]; [by intros fs|].
  destruct (Nat.eqb_spec (length c - pos) 0); [by intros fs|].
  intros fs. apply IO.wp_bind. eapply IO.wp_mono; [apply random_spec|].
  intros [noise|e] fs1 (Hq & Hok & Hl); [|split; [by apply quiet_touched|done]].
  specialize (Hl noise eq_refl).
  set (count := Nat.min (length c - pos) OVERWRITE_LEN).
  set (c' := take pos c ++ take count noise ++ drop (pos + count) c).
  assert (Hlen : length c' = length c).
  { unfold c'. rewrite !length_app, !length_take, length_drop, Hl. unfold count. lia. }
  eapply IO.wp_mono.
  - eapply (touches_bind p); [apply calls_touch, os_call_spec|intros _].
    apply touches_bind; [apply (touches_set p (Some (Node.Regular c')))|intros _; apply (IH (pos + count)%nat c')].
    + cbn. by rewrite (too_long_length c' c).
    + rewrite Hlen. unfold count. lia.
    + by rewrite (too_long_length c' c).
  - intros r fs2 [Ht Hok2]. split; [trans fs1; [by apply quiet_touched|done]|].
    intros Hf. apply Hok2. by apply Hq.
Qed.

Lemma unlink_spec p fs :
  IO.wp (unlink p) (fun r fs' => touched p fs fs' /\ (no_faults Writing fs -> is_ok r = true) /\
       (r = Ok tt -> nodes fs' !! p = None)) fs.
Proof.
  run_calls os_call_spec; [|split_and!; [by apply quiet_touched|done|done]].
  apply IO.wp_bind. unfold IO.wp at 1. cbn [fst snd].
  assert (Hs : touched p fs0 (set_node p None fs0)) by (by apply (touches_set p None)).
  assert (Hsync : calls_only Writing (match parent p with Some _ => sync_parent | None => IO.ret tt end)).
  { destruct (parent p); [apply sync_parent_spec|by intros ?]. }
  eapply IO.wp_mono; [apply Hsync|]. intros r fs2 [Hq2 Hok2]. split_and!.
  - trans fs0; [by apply quiet_touched|]. trans (set_node p None fs0); [done|by apply quiet_touched].
  - intros Hf. apply Hok2. apply Hs. by apply Hq.
  - intros _. destruct Hq2 as [-> _]. by rewrite set_node_lookup, decide_True.
Qed.

Lemma scrub_touches p b : too_long b = false -> touches p (scrub p b).
Proof.
  intros Hb. unfold scrub. repeat (apply touches_bind; [|intros _]);
    try (apply calls_touch, os_call_spec); [apply overwrite_touches; [lia|done]|by apply touches_set].
Qed.

Lemma secure_remove_spec p fs :
  IO.wp (secure_remove p) (fun r fs' => touched p fs fs' /\
    (no_faults Writing fs -> safe_file (nodes fs !! p) -> r = Ok tt) /\
    (r = Ok tt -> nodes fs' !! p = None)) fs.
Proof.
  unfold secure_remove. apply IO.wp_bind. eapply IO.wp_mono; [apply metadata_spec|].
  intros [n|e] fs1 (Hq & Hok & Hn); [|split_and!; [by apply quiet_touched|intros Hf; by specialize (Hok Hf)|done]].
  specialize (Hn n eq_refl). subst n. pose proof (quiet_touched p _ _ Hq) as Ht1. destruct Hq as [Hn1 Hc1].
  destruct (nodes fs !! p) as [[b| | |]|] eqn:E; try (by split_and!).
  2:{ split_and!; [done|done|]. intros _. unfold IO.ret. cbn. by rewrite Hn1. }
  destruct (too_long b) eqn:Et; [split_and!; [done|cbn; congruence|done]|].
  apply IO.wp_bind. eapply IO.wp_mono; [apply open_checked_spec|]. rewrite Hn1, E.
  intros [b'|e] fs2 (Hq2 & Hok2 & Hb);
    [|split_and!; [trans fs1; [done|by apply quiet_touched]| |done];
      intros Hf Hs; exfalso; specialize (Hok2 (Hc1 Writing Hf) Hs ltac:(by eexists)); done].
  specialize (Hb b' eq_refl). injection Hb as <-.
  assert (Ht2 : touched p fs fs2) by (trans fs1; [done|by apply quiet_touched]).
  apply IO.wp_bind. eapply IO.wp_mono; [by apply (scrub_touches p)|].
  intros [[]|e] fs3 [Ht3 Hok3].
  - eapply IO.wp_mono; [apply unlink_spec|]. intros r fs4 (Ht4 & Hok4 & Hnone).
    split_and!; [trans fs2; [done|]; by trans fs3| |done].
    intros Hf _. specialize (Hok4 ltac:(apply Ht3; by apply Ht2)). by destruct r as [[]|].
  - split_and!; [by trans fs2| |done]. intros Hf _. by specialize (Hok3 ltac:(by apply Ht2)).
Qed.
End FilesSpec.

Section FileHostSpec.
Context `{R : CryptoRng} {RL : RngLaws R}.
Variables (s : FileProtectedStorage.FileProtectedStorage) (file_path : Path).

Definition cell_path (c : Cell) : Path :=
  match c with Slot slot => FileProtectedStorage.path s slot | File => file_path end.

(** Three files, each in a directory that is none of them. *)
Definition paths_ok : Prop :=
  (forall c c', cell_path c = cell_path c' -> c = c') /\
  (forall c, exists d, parent (cell_path c) = Some d /\ forall c', d <> cell_path c').

Definition file_reads_work (fs : Fs) : Prop :=
  no_faults Reading fs /\ forall c, safe_file (nodes fs !! cell_path c).
Definition file_writes_work (fs : Fs) : Prop :=
  no_faults Writing fs /\ (forall c, safe_file (nodes fs !! cell_path c)) /\
  (forall c d, parent (cell_path c) = Some d -> usable_dir (nodes fs !! d)).

Lemma too_long_limit b : too_long b = false <-> Z.of_nat (length b) <= MAX_SEALED_LEN.
Proof. unfold too_long. destruct (Z.gtb_spec (Z.of_nat (length b)) MAX_SEALED_LEN); split; done || lia. Qed.

Definition file_keeps_working (fs fs' : Fs) : Prop :=
  (file_reads_work fs -> file_reads_work fs') /\ (file_writes_work fs -> file_writes_work fs').

Lemma quiet_keeps_working fs fs' : quiet fs fs' -> file_keeps_working fs fs'.
Proof.
  intros [Hn Hc]. unfold file_keeps_working, file_reads_work, file_writes_work. rewrite Hn.
  split; intros [Hf Hr]; (split; [by apply (Hc Reading) || by apply (Hc Writing)|done]).
Qed.

Lemma touched_keeps_working (Hp : paths_ok) c fs fs' : touched (cell_path c) fs fs' -> file_keeps_working fs fs'.
Proof.
  intros (Ho & Hs & Hc).
  assert (Hsafe : (forall c, safe_file (nodes fs !! cell_path c)) -> forall c, safe_file (nodes fs' !! cell_path c)).
  { intros H c'. destruct (decide (cell_path c' = cell_path c)) as [->|]; [auto|by rewrite Ho]. }
  split; [intros [Hf Hr]; split; [by apply (Hc Reading)|auto]|].
  intros (Hf & Hr & Hd). split_and!; [by apply (Hc Writing)|auto|].
  intros c' d Hd'. destruct (proj2 Hp c') as (d' & Hd'' & Hne). rewrite Ho; [eauto|].
  rewrite Hd' in Hd''. injection Hd'' as ->. apply Hne.
Qed.

Lemma replaced_keeps_working (Hp : paths_ok) c d b fs fs' :
  parent (cell_path c) = Some d -> replaced (cell_path c) d b fs fs' ->
  (nodes fs' !! cell_path c = nodes fs !! cell_path c \/ too_long b = false) -> file_keeps_working fs fs'.
Proof.
  intros Hd (Ho & Ht & Hdir & Hc) Hb.
  assert (Hdc : forall c' d', parent (cell_path c') = Some d' -> forall c'', d' <> cell_path c'').
  { intros c' d' Hd'. destruct (proj2 Hp c') as (d2 & E & Hne). congruence. }
  assert (Hsafe : (forall c, safe_file (nodes fs !! cell_path c)) -> forall c, safe_file (nodes fs' !! cell_path c)).
  { intros H c'. destruct (decide (cell_path c' = cell_path c)) as [->|Hne].
    - destruct Hb as [->|Hb]; [done|]. by destruct Ht as [->| ->].
    - rewrite Ho; [done|done|]. intros E. by apply (Hdc c d Hd c'). }
  split; [intros [Hf Hr]; split; [by apply (Hc Reading)|auto]|].
  intros (Hf & Hr & Hu). split_and!; [by apply (Hc Writing)|auto|].
  intros c' d' Hd'. destruct (decide (d' = d)) as [->|Hne].
  - destruct Hdir as [->|[_ ->]]; [eauto|by right].
  - rewrite Ho; [eauto| |done]. by apply (Hdc c').
Qed.

Definition FileHost_laws (Hp : paths_ok) : HostLaws (FileHost s file_path).
Proof.
  refine (@Build_HostLaws (FileHost s file_path)
    (fun (fs : @Fs R) c => content (nodes fs !! cell_path c)) file_reads_work file_writes_work _ _ _ _).
  - intros c fs. assert (Hc : @cell_read (FileHost s file_path) c = read_optional (cell_path c)) by (by destruct c).
    rewrite Hc. eapply IO.wp_mono; [apply read_optional_spec|]. intros r fs' (Hq & Hok & Hv). split_and!.
    + intros c'. cbn. by destruct Hq as [-> _].
    + done.
    + intros [Hf Hs]. auto.
    + by apply (quiet_keeps_working _ _ Hq).
    + by apply (quiet_keeps_working _ _ Hq).
  - intros c b fs. assert (Hc : @cell_write (FileHost s file_path) c b = write_atomic (cell_path c) b) by (by destruct c).
    rewrite Hc. destruct (proj2 Hp c) as (d & Hd & Hne).
    eapply IO.wp_mono; [by apply (write_atomic_spec (cell_path c) d)|].
    intros r fs' (Hr & Hb & Hnew & Hok). split_and!.
    + intros c' Hc'. cbn. destruct Hr as (Ho & _). rewrite Ho; [done| |by intros E; apply (Hne c')].
      intros E. by apply (proj1 Hp) in E.
    + cbn. destruct Hr as (_ & [->| ->] & _); auto.
    + intros Hr'. cbn. by rewrite (Hnew Hr').
    + intros (Hf & Hs & Hu) Hl. apply Hok; [done|done|eauto|by apply too_long_limit].
    + by apply (replaced_keeps_working Hp c d b fs fs' Hd Hr Hb).
    + by apply (replaced_keeps_working Hp c d b fs fs' Hd Hr Hb).
  - intros c fs. assert (Hc : @cell_remove (FileHost s file_path) c = secure_remove (cell_path c)) by (by destruct c).
    rewrite Hc. eapply IO.wp_mono; [apply secure_remove_spec|]. intros r fs' (Ht & Hok & Hnone). split_and!.
    + intros c' Hc'. cbn. destruct Ht as [Ho _]. rewrite Ho; [done|]. intros E. by apply (proj1 Hp) in E.
    + intros Hr. cbn. by rewrite (Hnone Hr).
    + intros (Hf & Hs & _). auto.
    + by apply (touched_keeps_working Hp c fs fs' Ht).
    + by apply (touched_keeps_working Hp c fs fs' Ht).
  - intros n fs. eapply IO.wp_mono; [apply random_spec|]. intros r fs' (Hq & Hok & Hl). split_and!.
    + intros c'. cbn. by destruct Hq as [-> _].
    + done.
    + intros [Hf _]. auto.
    + by apply (quiet_keeps_working _ _ Hq).
    + by apply (quiet_keeps_working _ _ Hq).
Defined.
End FileHostSpec.
