(* ===== verification/Store.v ===== *)
(** * The credential store ([crates/copylocker-store/src/lib.rs])

    Two sealed replicas of one record, a root secret that never leaves the protected storage,
    and the merge of both replicas' high-water marks on every load.  The theorems quantify over
    every host that meets [HostLaws], failures included. *)

From S2P Require Import Prelude Types Clock Errors Cbor Field Chain Suite StdSuite StoreRecord Host.

Definition ROOT_SECRET_LEN : nat := 32.
Definition OUTER_MAGIC : list byte := text_bytes "CLSTR001".
Definition OUTER_VERSION : Z := 1.
Definition OUTER_HEADER_LEN : nat := 11.
Definition MAX_FINGERPRINT_MATERIAL_LEN : Z := 64 * 1024.

Module PlatformTag.
Inductive PlatformTag := Macos | Windows | Linux.
#[global] Instance PlatformTag_eq_dec : EqDecision PlatformTag.
Proof. solve_decision. Defined.
(** [#[repr(u8)]]. *)
Definition discriminant (p : PlatformTag) : Z := match p with Macos => 1 | Windows => 2 | Linux => 3 end.
Definition label (p : PlatformTag) : list byte :=
  match p with Macos => text_bytes "macos" | Windows => text_bytes "windows" | Linux => text_bytes "linux" end.
End PlatformTag.
Notation PlatformTag := PlatformTag.PlatformTag.

(** [is_ascii_alphanumeric], or one of [. - _]. *)
Definition app_id_char (a : ascii) : bool :=
  let n := N_of_ascii a in
  ((48 <=? n) && (n <=? 57) || (65 <=? n) && (n <=? 90) || (97 <=? n) && (n <=? 122) ||
   (n =? 46) || (n =? 45) || (n =? 95))%N.

Definition validate_app_id (app_id : string) : result unit StoreError :=
  if (String.length app_id =? 0)%nat || (128 <? String.length app_id)%nat ||
     bool_decide (app_id = "."%string) || bool_decide (app_id = ".."%string) ||
     negb (forallb app_id_char (String.list_ascii_of_string app_id))
  then Err StoreError.InvalidAppId else Ok tt.

(** A path taken from the environment. *)
Record EnvPath := env_path { is_absolute : bool; components : Path }.

(** The Linux branch. *)
Definition default_data_root (xdg_data_home home : option EnvPath) : result Path StoreError :=
  let from_home := match home with
                   | Some h => Ok (components h ++ [".local"; "share"]%string)
                   | None => Err StoreError.DataDirectoryUnavailable
                   end in
  match xdg_data_home with
  | Some p => if is_absolute p then Ok (components p) else from_home
  | None => from_home
  end.

Module StoreConfig.
Record StoreConfig := mk { app_id : string; file_path : Path; platform : PlatformTag }.

Definition new (xdg_data_home home : option EnvPath) (current : result PlatformTag StoreError) (app_id : string)
    : result StoreConfig StoreError :=
  check? validate_app_id app_id ;;
  root <-? default_data_root xdg_data_home home ;;
  platform <-? current ;;
  Ok (mk app_id (root ++ [app_id; "cl.bin"]%string) platform).

Definition with_file_path (c : StoreConfig) (path : Path) : StoreConfig := mk (app_id c) path (platform c).
Definition directory (c : StoreConfig) : result Path StoreError :=
  ok_of_option (parent (file_path c)) StoreError.DataDirectoryUnavailable.
End StoreConfig.
Notation StoreConfig := StoreConfig.StoreConfig.

Module ReplicaSource.
Inductive ReplicaSource := Protected | File.
End ReplicaSource.

Record ValidReplica := valid_replica {
  source : ReplicaSource.ReplicaSource; sealed : list byte; record : StoreRecord }.

(** The three accumulators of [classify_replica]. *)
Record Classified := classified {
  valid : list ValidReplica; invalid : bool; first_error : option StoreError }.

(** [max_by_key]: the last of the greatest. *)
Fixpoint max_index (i : nat) (best : option (nat * Z)) (l : list ValidReplica) : option nat :=
  match l with
  | [] => fst <$> best
  | v :: l =>
      let g := StoreRecord.generation (record v) in
      let best := match best with
                  | Some (_, b) => if g >=? b then Some (i, g) else best
                  | None => Some (i, g)
                  end in
      max_index (S i) best l
  end.

(** [Vec::swap_remove]: the removed element and the rest. *)
Definition swap_remove {A} (l : list A) (i : nat) : option (A * list A) :=
  x ← l !! i;
  last ← last l;
  Some (x, if (i =? length l - 1)%nat then take i l else <[i := last]> (take (length l - 1) l)).

(** What [resolve_replicas] decides before it repairs: the merged winner, whether its marks
    moved, and whether the two replicas were already identical. *)
Record Selected := selected { winner : ValidReplica; state_changed : bool; replicas_identical : bool }.

Definition same_payloads (l : list ValidReplica) : bool :=
  match l with
  | [] => true
  | first :: rest => forallb (fun v => StoreRecord.same_payload (record v) (record first)) rest
  end.

Definition merge_all (l : list ValidReplica) : option MonotonicState :=
  match l with
  | [] => None
  | v :: l => Some (fold_left (fun m v => MonotonicState.merge m (StoreRecord.monotonic (record v))) l
                      (StoreRecord.monotonic (record v)))
  end.

Definition select (c : Classified) : result (option Selected) StoreError :=
  match valid c with
  | [] =>
      if invalid c then Err StoreError.Integrity
      else match first_error c with Some e => Err e | None => Ok None end
  | _ :: _ =>
      winner_index <-? ok_of_option (max_index 0 None (valid c)) StoreError.Integrity ;;
      win <-? ok_of_option (valid c !! winner_index) StoreError.Integrity ;;
      let winner_generation := StoreRecord.generation (record win) in
      let same_generation :=
        List.filter (fun v => StoreRecord.generation (record v) =? winner_generation) (valid c) in
      guard? same_payloads same_generation else StoreError.ReplicaConflict ;;
      merged <-? ok_of_option (merge_all (valid c)) StoreError.Integrity ;;
      '(win, others) <-? ok_of_option (swap_remove (valid c) winner_index) StoreError.Integrity ;;
      let state_changed := negb (bool_decide (StoreRecord.monotonic (record win) = merged)) in
      let identical :=
        negb (invalid c) && bool_decide (first_error c = None) && (length others =? 1)%nat &&
        match others with other :: _ => bool_decide (sealed other = sealed win) | [] => false end in
      Ok (Some (selected (valid_replica (source win) (sealed win)
                            (StoreRecord.set_monotonic (record win) merged)) state_changed identical))
  end.

Module SecureStore.
Record SecureStore := mk { config : StoreConfig; fingerprint_material : list byte }.

Definition with_backend (config : StoreConfig) (fingerprint_material : list byte) : result SecureStore StoreError :=
  if (length fingerprint_material =? 0)%nat ||
     (Z.of_nat (length fingerprint_material) >? MAX_FINGERPRINT_MATERIAL_LEN)
  then Err StoreError.InvalidFingerprintMaterial
  else check? StoreConfig.directory config ;; Ok (mk config fingerprint_material).

Section Operations.
Context `{Prim : Primitives} `{H : Host} (self : SecureStore).

Definition app_id_bytes : list byte := text_bytes (StoreConfig.app_id (config self)).
Definition platform : PlatformTag := StoreConfig.platform (config self).

Definition derive_key (root : list byte) : result (list byte) StoreError :=
  map_err (fun _ => StoreError.Integrity)
    (Kdf.derive_from (text_bytes "copylocker/store/extract/v1") (root ++ fingerprint_material self)
       [text_bytes "cl-store/v1"; app_id_bytes; PlatformTag.label platform]).

Definition aad : result (list byte) StoreError :=
  guard? Z.of_nat (length app_id_bytes) <=? u32_max else StoreError.InvalidAppId ;;
  Ok (text_bytes "copylocker/store/aad/v1" ++ u_be 2 OUTER_VERSION ++ [PlatformTag.discriminant platform] ++
      u_be 4 (Z.of_nat (length app_id_bytes)) ++ app_id_bytes).

(** The bytes before the nonce. *)
Definition outer_header : list byte :=
  OUTER_MAGIC ++ u_be 2 OUTER_VERSION ++ [PlatformTag.discriminant platform].

Definition seal_record (root : list byte) (record : StoreRecord) : IO World (list byte) :=
  plaintext <-! IO.lift (StoreRecord.encode record) ;;
  key <-! IO.lift (derive_key root) ;;
  aad <-! IO.lift aad ;;
  if negb (Aead.NONCE_LEN =? 24)%nat then IO.fail StoreError.Integrity
  else
    nonce <-! getrandom 24 ;;
    ciphertext <-! IO.lift (map_err (fun _ => StoreError.Integrity) (Aead.seal key nonce aad plaintext)) ;;
    let total_len := Z.of_nat OUTER_HEADER_LEN + Z.of_nat (length nonce) + Z.of_nat (length ciphertext) in
    if total_len >? MAX_SEALED_LEN then IO.fail StoreError.RecordTooLarge
    else IO.ret (outer_header ++ nonce ++ ciphertext).

Definition open_record (root sealed : list byte) : result StoreRecord StoreError :=
  let minimum := (OUTER_HEADER_LEN + Aead.NONCE_LEN + Aead.TAG_LEN)%nat in
  if (length sealed <? minimum)%nat || (Z.of_nat (length sealed) >? MAX_SEALED_LEN)
  then Err StoreError.Integrity
  else if negb (bool_decide (take 8 sealed = OUTER_MAGIC)) then Err StoreError.Integrity
  else if negb (u_from_be 2 (take 2 (drop 8 sealed)) =? OUTER_VERSION) ||
          negb (bool_decide (sealed !! 10%nat = Some (PlatformTag.discriminant platform)))
  then Err StoreError.Integrity
  else
    let nonce := take Aead.NONCE_LEN (drop OUTER_HEADER_LEN sealed) in
    let ciphertext := drop (OUTER_HEADER_LEN + Aead.NONCE_LEN) sealed in
    key <-? derive_key root ;;
    aad <-? aad ;;
    plaintext <-? map_err (fun _ => StoreError.Integrity) (Aead.open key nonce aad ciphertext) ;;
    map_err (fun _ => StoreError.Integrity) (StoreRecord.decode plaintext).

Definition classify_replica (source : ReplicaSource.ReplicaSource)
    (read : result (option (list byte)) StoreError) (root : list byte) (c : Classified) : Classified :=
  match read with
  | Ok (Some sealed) =>
      match open_record root sealed with
      | Ok record => classified (valid c ++ [valid_replica source sealed record]) (invalid c) (first_error c)
      | Err _ => classified (valid c) true (first_error c)
      end
  | Ok None => c
  | Err error =>
      match first_error c with
      | None => classified (valid c) (invalid c) (Some error)
      | Some _ => c
      end
  end.

Definition resolve_replicas (root : list byte) (repair : bool) : IO World (option StoreRecord) :=
  protected <-! IO.attempt (load ProtectedSlot.Replica) ;;
  file <-! IO.attempt read_file ;;
  let c := classify_replica ReplicaSource.Protected protected root (classified [] false None) in
  let c := classify_replica ReplicaSource.File file root c in
  sel <-! IO.lift (select c) ;;
  match sel with
  | None => IO.ret None
  | Some s =>
      if repair && (state_changed s || negb (replicas_identical s)) then
        sealed <-! (if state_changed s then seal_record root (record (winner s)) else IO.ret (sealed (winner s))) ;;
        do! IO.attempt (store ProtectedSlot.Replica sealed) ;;
        do! IO.attempt (write_file sealed) ;;
        IO.ret (Some (record (winner s)))
      else IO.ret (Some (record (winner s)))
  end.

Definition load_root : IO World (option (list byte)) :=
  r <-! load ProtectedSlot.RootSecret ;;
  match r with
  | None => IO.ret None
  | Some root =>
      if negb (length root =? ROOT_SECRET_LEN)%nat then IO.fail StoreError.InvalidProtectedSecret
      else IO.ret (Some root)
  end.

Definition load_record : IO World (option StoreRecord) :=
  r <-! load_root ;;
  match r with
  | None =>
      protected <-! load ProtectedSlot.Replica ;;
      file <-! read_file ;;
      match protected, file with
      | None, None => IO.ret None
      | _, _ => IO.fail StoreError.MissingProtectedSecret
      end
  | Some root => resolve_replicas root true
  end.

(** A replica exists in one of the two places; the second is read only if the first is empty. *)
Definition any_replica : IO World bool :=
  protected <-! load ProtectedSlot.Replica ;;
  match protected with
  | Some _ => IO.ret true
  | None => file <-! read_file ;; IO.ret (match file with Some _ => true | None => false end)
  end.

Definition root_for_save : IO World (list byte) :=
  r <-! load_root ;;
  match r with
  | Some root => IO.ret root
  | None =>
      existing <-! any_replica ;;
      if (existing : bool) then IO.fail StoreError.MissingProtectedSecret
      else
        generated <-! getrandom ROOT_SECRET_LEN ;;
        do! store ProtectedSlot.RootSecret generated ;;
        root <-! load_root ;;
        IO.lift (ok_of_option root StoreError.MissingProtectedSecret)
  end.

(** The generation and the marks of the record about to be written. *)
Definition next_of (r : StoreRecord) (existing : option StoreRecord) : result (Z * MonotonicState) StoreError :=
  match existing with
  | Some old =>
      let monotonic := MonotonicState.merge (StoreRecord.monotonic r) (StoreRecord.monotonic old) in
      g <-? ok_of_option (checked 0 u64_max (StoreRecord.generation old + 1)) StoreError.InvalidRecord ;;
      Ok (g, monotonic)
  | None => Ok (1, StoreRecord.monotonic r)
  end.

Definition save_record (r : StoreRecord) : IO World unit :=
  do! IO.lift (StoreRecord.encode r) ;;
  root <-! root_for_save ;;
  existing <-! resolve_replicas root false ;;
  next <-! IO.lift (next_of r existing) ;;
  let durable := StoreRecord.copy_with_generation r next.1 next.2 in
  sealed <-! seal_record root durable ;;
  do! store ProtectedSlot.Replica sealed ;;
  write_file sealed.

(** The trait [KeyStore]. *)
Definition load_ : IO World (option (list byte)) :=
  r <-! load_record ;;
  match r with
  | None => IO.ret None
  | Some record => b <-! IO.lift (StoreRecord.encode record) ;; IO.ret (Some b)
  end.
Definition save (blob : list byte) : IO World unit :=
  record <-! IO.lift (StoreRecord.decode blob) ;; save_record record.

(** [a.and(b)]. *)
Definition and_ (a b : result unit StoreError) : result unit StoreError :=
  match a with Ok _ => b | Err e => Err e end.
Definition wipe : IO World unit :=
  protected_replica <-! IO.attempt (delete ProtectedSlot.Replica) ;;
  file <-! IO.attempt remove_file ;;
  root <-! IO.attempt (delete ProtectedSlot.RootSecret) ;;
  IO.lift (and_ (and_ protected_replica file) root).
End Operations.
End SecureStore.
Notation SecureStore := SecureStore.SecureStore.

(** ** Choosing the winner *)
Definition gen (v : ValidReplica) : Z := StoreRecord.generation (record v).
Definition marks (v : ValidReplica) : MonotonicState := StoreRecord.monotonic (record v).

Lemma max_index_spec l : forall i best j, max_index i best l = Some j ->
  (exists g, best = Some (j, g) /\ forall u, u ∈ l -> gen u < g) \/
  (exists k v, j = (i + k)%nat /\ l !! k = Some v /\ (forall u, u ∈ l -> gen u <= gen v) /\
     forall b g, best = Some (b, g) -> g <= gen v).
Proof.
  induction l as [|v l IH]; intros i best j; cbn [max_index].
  { destruct best as [[b g]|]; [|done]. intros [= <-]. left. exists g. split; [done|]. by intros u ?%elem_of_nil. }
  set (best' := match best with Some (_, b) => if _ >=? b then _ else best | None => _ end). intros Hj.
  assert (Hb : best' = Some (i, gen v) /\ (forall b g, best = Some (b, g) -> g <= gen v) \/
    best' = best /\ exists b g, best = Some (b, g) /\ gen v < g).
  { unfold best', gen. destruct best as [[b g]|]; [|left; split; [done|by intros]].
    destruct (Z.geb_spec (StoreRecord.generation (record v)) g).
    - left. split; [done|]. by intros b' g' [= <- <-].
    - right. split; [done|]. by eexists _, _. }
  destruct (IH _ _ _ Hj) as [(g & Hg & Hlt)|(k & u & -> & Hk & Hmax & Hbest)].
  - destruct Hb as [[Hb Hle]|[Hb (b & g' & Hg' & Hlt')]].
    + rewrite Hb in Hg. injection Hg as <- <-. right. exists 0%nat, v.
      split_and!; [lia|done| |done]. intros u [->|Hu]%elem_of_cons; [done|]. by apply Z.lt_le_incl, Hlt.
    + left. exists g. split; [congruence|]. intros u [->|Hu]%elem_of_cons; [|by apply Hlt]. congruence.
  - right. exists (S k), u. split_and!; [lia|done| |].
    + intros u' [->|Hu]%elem_of_cons; [|auto]. destruct Hb as [[Hb _]|[Hb (b & g & Hg & Hlt)]].
      * eapply Hbest. apply Hb.
      * specialize (Hbest b g). rewrite Hb in Hbest. specialize (Hbest Hg). lia.
    + intros b g Hg. destruct Hb as [[Hb Hle]|[Hb _]]; [|apply (Hbest b); congruence].
      specialize (Hle _ _ Hg). specialize (Hbest _ _ Hb). lia.
Qed.

Lemma max_index_total l i best : best <> None \/ l <> [] -> is_Some (max_index i best l).
Proof.
  revert i best. induction l as [|v l IH]; intros i best Hb; cbn [max_index].
  - destruct best; [by eexists|]. by destruct Hb.
  - apply IH. left. destruct best as [[]|]; [destruct (_ >=? _)|]; done.
Qed.

Lemma merge_fold l : forall m,
  let out := fold_left (fun m v => MonotonicState.merge m (StoreRecord.monotonic (record v))) l m in
  Marks.le m out /\ (forall v, v ∈ l -> Marks.le (marks v) out) /\
  (forall top, Marks.le m top -> (forall v, v ∈ l -> Marks.le (marks v) top) -> Marks.le out top).
Proof.
  induction l as [|v l IH]; intros m; cbn [fold_left]; cbv zeta.
  { split_and!; [done|by intros v ?%elem_of_nil|done]. }
  destruct (IH (MonotonicState.merge m (StoreRecord.monotonic (record v)))) as (H1 & H2 & H3). split_and!.
  - etrans; [apply Marks.merge_l|done].
  - intros u [->|Hu]%elem_of_cons; [|auto]. etrans; [apply Marks.merge_r|done].
  - intros top Hm Hall. apply H3; [apply Marks.merge_least; [done|apply Hall; by left]|].
    intros u Hu. apply Hall. by right.
Qed.

(** The merged marks are the least marks above every replica's. *)
Lemma merge_all_spec l m : merge_all l = Some m ->
  (forall v, v ∈ l -> Marks.le (marks v) m) /\
  (forall top, (forall v, v ∈ l -> Marks.le (marks v) top) -> Marks.le m top).
Proof.
  destruct l as [|v l]; cbn [merge_all]; [done|]. intros [= <-].
  destruct (merge_fold l (StoreRecord.monotonic (record v))) as (H1 & H2 & H3). split.
  - intros u [->|Hu]%elem_of_cons; auto.
  - intros top Hall. apply H3; [apply (Hall v); by left|]. intros u Hu. apply Hall. by right.
Qed.

Lemma merge_all_preserves (P : MonotonicState -> Prop) l m :
  (forall a b, P a -> P b -> P (MonotonicState.merge a b)) -> (forall v, v ∈ l -> P (marks v)) ->
  merge_all l = Some m -> P m.
Proof.
  intros Hm Hall. destruct l as [|v l]; cbn [merge_all]; [done|]. intros [= <-].
  assert (Hv : P (StoreRecord.monotonic (record v))) by (apply (Hall v); by left).
  assert (Hl : forall u, u ∈ l -> P (marks u)) by (intros u Hu; apply Hall; by right). clear Hall.
  revert Hv. generalize (StoreRecord.monotonic (record v)). induction l as [|u l IH]; intros m Hv; cbn [fold_left]; [done|].
  apply IH; [intros u' Hu'; apply Hl; by right|]. apply Hm; [done|apply (Hl u); by left].
Qed.

Lemma same_payloads_spec l u v :
  same_payloads l = true -> u ∈ l -> v ∈ l -> StoreRecord.payload (record u) = StoreRecord.payload (record v).
Proof.
  destruct l as [|f l]; [by intros _ ?%elem_of_nil|]. cbn [same_payloads]. rewrite forallb_forall. intros Hall.
  assert (Hf : forall x, x ∈ f :: l -> StoreRecord.payload (record x) = StoreRecord.payload (record f)).
  { intros x [->|Hx]%elem_of_cons; [done|]. apply list_elem_of_In in Hx. specialize (Hall x Hx).
    unfold StoreRecord.same_payload in Hall. by bprop. }
  intros Hu Hv. by rewrite (Hf u Hu), (Hf v Hv).
Qed.

Lemma select_some c s : select c = Ok (Some s) ->
  exists v m, v ∈ valid c /\ merge_all (valid c) = Some m /\
    winner s = valid_replica (source v) (sealed v) (StoreRecord.set_monotonic (record v) m) /\
    (forall u, u ∈ valid c -> gen u <= gen v) /\
    (forall u, u ∈ valid c -> gen u = gen v -> StoreRecord.payload (record u) = StoreRecord.payload (record v)) /\
    (state_changed s = false -> marks v = m).
Proof.
  unfold select. destruct (valid c) as [|v0 vs] eqn:Ev; [by destruct (invalid c), (first_error c)|].
  destruct (max_index 0 None (v0 :: vs)) as [j|] eqn:Ej; cbn [ok_of_option rbind]; [|done].
  destruct (max_index_spec _ _ _ _ Ej) as [(g & [=] & _)|(k & v & -> & Hk & Hmax & _)].
  change (0 + k)%nat with k. rewrite Hk. cbn [ok_of_option rbind].
  destruct (same_payloads _) eqn:Es; [|done].
  destruct (merge_all (v0 :: vs)) as [m|] eqn:Em; cbn [ok_of_option rbind]; [|done].
  unfold swap_remove. rewrite Hk. cbn [mbind option_bind].
  destruct (last (v0 :: vs)) as [lst|]; cbn [mbind option_bind ok_of_option rbind]; [|done].
  intros [= <-]. exists v, m. cbn [winner state_changed]. split_and!; [|done|done|done| |].
  - by eapply list_elem_of_lookup_2.
  - intros u Hu Hg. assert (Hin : forall x, x ∈ v0 :: vs -> gen x = gen v ->
      x ∈ List.filter (fun x => StoreRecord.generation (record x) =? StoreRecord.generation (record v)) (v0 :: vs)).
    { intros x Hx Hxg. apply list_elem_of_In, filter_In. split; [by apply list_elem_of_In|]. by apply Z.eqb_eq. }
    apply (same_payloads_spec _ u v Es); apply Hin; try done. by eapply list_elem_of_lookup_2.
  - intros Hc. by bprop.
Qed.

Lemma select_none c : select c = Ok None -> valid c = [] /\ invalid c = false /\ first_error c = None.
Proof.
  unfold select. destruct (valid c) as [|v0 vs]; [destruct (invalid c), (first_error c); by intros|].
  destruct (ok_of_option (max_index 0 None (v0 :: vs)) _) as [j|]; cbn [rbind]; [|done].
  destruct (ok_of_option _ _) as [v|]; cbn [rbind]; [|done]. destruct (same_payloads _); [|done].
  destruct (ok_of_option _ _) as [m|]; cbn [rbind]; [|done].
  by destruct (ok_of_option _ _) as [[w o]|]; cbn [rbind].
Qed.

(** Two readable copies of one record select it and need no repair. *)
Lemma select_identical s1 s2 b r :
  select (classified [valid_replica s1 b r; valid_replica s2 b r] false None) =
  Ok (Some (selected (valid_replica s2 b r) false true)).
Proof.
  unfold select. cbn [valid max_index gen record]. rewrite Z.geb_leb, Z.leb_refl. cbn.
  rewrite Z.eqb_refl. cbn. unfold StoreRecord.same_payload. rewrite bool_decide_true by done. cbn.
  rewrite Marks.merge_same, !bool_decide_true by done. cbn. by destruct r.
Qed.

(** ** Sealing *)
Section Sealing.
Context `{Prim : Primitives} {PL : PrimitiveLaws Prim} `{H : Host} {HL : HostLaws H} (self : SecureStore).
Import SecureStore.

Lemma outer_header_length : length (outer_header self) = OUTER_HEADER_LEN.
Proof. unfold outer_header. rewrite !length_app, u_be_length. reflexivity. Qed.

(** [map_err] does not turn a failure into a success. *)
Lemma map_err_ok {A E F} (f : E -> F) (r : result A E) x : map_err f r = Ok x <-> r = Ok x.
Proof. destruct r; cbn; split; congruence. Qed.

Lemma sealed_opens root r key aad_ nonce ct :
  record_typed r -> record_fits r -> derive_key self root = Ok key -> aad self = Ok aad_ ->
  length nonce = 24%nat -> Aead.seal key nonce aad_ (StoreRecord.layout r) = Ok ct ->
  Z.of_nat OUTER_HEADER_LEN + Z.of_nat (length nonce) + Z.of_nat (length ct) <= MAX_SEALED_LEN ->
  open_record self root (outer_header self ++ nonce ++ ct) = Ok r.
Proof.
  intros Ht Hf Hk Ha Hn Hs Hmax. pose proof (Aead.seal_length _ _ _ _ _ Hs) as Hlen.
  change Aead.TAG_LEN with 16%nat in Hlen.
  assert (Hh := outer_header_length). unfold OUTER_HEADER_LEN in *.
  unfold open_record. change Aead.NONCE_LEN with 24%nat. change Aead.TAG_LEN with 16%nat.
  rewrite !length_app, Hh, Hn. unfold OUTER_HEADER_LEN.
  destruct (Nat.ltb_spec (11 + (24 + length ct)) (11 + 24 + 16)); [lia|].
  destruct (Z.gtb_spec (Z.of_nat (11 + (24 + length ct))) MAX_SEALED_LEN); [lia|]. cbn [orb].
  assert (Hm : take 8 (outer_header self ++ nonce ++ ct) = OUTER_MAGIC).
  { unfold outer_header. rewrite <- app_assoc. by apply take_app_length'. }
  assert (Hv : take 2 (drop 8 (outer_header self ++ nonce ++ ct)) = u_be 2 OUTER_VERSION).
  { unfold outer_header. rewrite <- !app_assoc, drop_app_length' by done. by apply take_app_length'. }
  assert (Hp : (outer_header self ++ nonce ++ ct) !! 10%nat = Some (PlatformTag.discriminant (platform self))).
  { rewrite lookup_app_l by (rewrite Hh; lia). reflexivity. }
  rewrite Hm, Hv, Hp, !bool_decide_true by done. rewrite u_from_be_be by done. cbn [negb orb Z.eqb OUTER_VERSION Pos.eqb].
  assert (Hnon : take 24 (drop 11 (outer_header self ++ nonce ++ ct)) = nonce).
  { rewrite drop_app_length' by done. by apply take_app_length'. }
  assert (Hct : drop (11 + 24) (outer_header self ++ nonce ++ ct) = ct).
  { rewrite app_assoc. apply drop_app_length'. rewrite length_app, Hh, Hn. done. }
  rewrite Hnon, Hct, Hk, Ha. cbn [rbind].
  rewrite (Aead.open_seal _ _ _ _ _ Hs). cbn [map_err rbind]. by rewrite decode_layout.
Qed.

(** The key and the associated data exist for every store with a valid application id. *)
Definition store_ok : Prop := validate_app_id (StoreConfig.app_id (config self)) = Ok tt.

Lemma app_id_short : store_ok -> (length (app_id_bytes self) <= 128)%nat.
Proof.
  unfold store_ok, validate_app_id, app_id_bytes. set (a := StoreConfig.app_id _).
  assert (Hl : length (text_bytes a) = String.length a).
  { unfold text_bytes. rewrite length_map. clear. induction a; cbn; auto. }
  rewrite Hl. destruct (Nat.ltb_spec 128 (String.length a)); [|lia]. by rewrite orb_true_r.
Qed.

Lemma key_exists root : store_ok -> exists k, derive_key self root = Ok k /\ length k = 32%nat.
Proof.
  intros Ho%app_id_short. unfold derive_key.
  destruct (derive_from_ok (text_bytes "copylocker/store/extract/v1") (root ++ fingerprint_material self)
    [text_bytes "cl-store/v1"; app_id_bytes self; PlatformTag.label (platform self)]) as (k & -> & Hl).
  - rewrite !Forall_cons, Forall_nil. unfold part_fits. change (256 ^ Z.of_nat 4) with 4294967296.
    split_and!; [done|lia|by destruct (platform self)|done].
  - by exists k.
Qed.

Lemma aad_exists : store_ok -> exists a, aad self = Ok a.
Proof.
  intros Ho%app_id_short. unfold aad. destruct (Z.leb_spec (Z.of_nat (length (app_id_bytes self))) u32_max); [by eexists|].
  int_lia.
Qed.

Lemma seal_record_spec root r w :
  IO.wp (seal_record self root r) (fun o w' =>
    (forall c, view w' c = view w c) /\ keeps_working w w' /\
    (forall b, o = Ok b -> record_typed r -> open_record self root b = Ok r /\ record_fits r /\
       Z.of_nat (length b) <= MAX_SEALED_LEN) /\
    (writes_work w -> store_ok -> record_fits r -> is_ok o = true)) w.
Proof.
  unfold seal_record. apply IO.wp_bind, IO.wp_lift.
  destruct (StoreRecord.encode r) as [pt|e] eqn:Ee.
  2:{ split_and!; [done|by split|by intros|]. intros _ _ Hf.
      assert (Hx : StoreRecord.encode r = Ok (StoreRecord.layout r)) by (by apply encode_record_ok). congruence. }
  apply encode_record_ok in Ee as [Hf ->]. apply IO.wp_bind, IO.wp_lift.
  destruct (derive_key self root) as [key|e] eqn:Ek.
  2:{ split_and!; [done|by split|by intros|]. intros _ Ho _. destruct (key_exists root Ho) as (k & Hk & _). congruence. }
  apply IO.wp_bind, IO.wp_lift. destruct (aad self) as [a|e] eqn:Ea.
  2:{ split_and!; [done|by split|by intros|]. intros _ Ho _. destruct (aad_exists Ho) as [k Hk]. congruence. }
  change Aead.NONCE_LEN with 24%nat. cbn [Nat.eqb negb]. apply IO.wp_bind.
  eapply IO.wp_mono; [apply random_law|]. intros [nonce|e] w' (Hv & Hl & Hok & Hkw);
    [|split_and!; [done|done|by intros|auto]].
  specialize (Hl nonce eq_refl). apply IO.wp_bind, IO.wp_lift.
  destruct (Aead.seal key nonce a (StoreRecord.layout r)) as [ct|e] eqn:Es; cbn [map_err].
  2:{ split_and!; [done|done|by intros|]. intros _ Ho _. destruct (key_exists root Ho) as (k & Hk & Hkl).
      rewrite Ek in Hk. injection Hk as ->. destruct (Aead.seal_total k nonce a (StoreRecord.layout r)) as [c Hc];
        [done|done| |congruence]. rewrite layout_length. destruct Hf as [_ Hf]. unfold MAX_RECORD_LEN in Hf. lia. }
  destruct (Z.gtb_spec (Z.of_nat OUTER_HEADER_LEN + Z.of_nat (length nonce) + Z.of_nat (length ct)) MAX_SEALED_LEN) as [Hb|Hb].
  - split_and!; [done|done|by intros|]. intros _ _ _. exfalso.
    rewrite (Aead.seal_length _ _ _ _ _ Es), layout_length in Hb. change Aead.TAG_LEN with 16%nat in Hb.
    destruct Hf as [_ Hf]. unfold MAX_SEALED_LEN, MAX_RECORD_LEN, OUTER_HEADER_LEN in *. lia.
  - split_and!; [done|done| |done]. intros b Hb' Ht. apply Ok_inj in Hb' as <-. split_and!; [by eapply sealed_opens|done|].
    rewrite !length_app, outer_header_length. lia.
Qed.
End Sealing.

(** ** Resolving the replicas *)
Section Resolution.
Context `{Prim : Primitives} {PL : PrimitiveLaws Prim} `{H : Host} {HL : HostLaws H} (self : SecureStore).
Import SecureStore.

Definition opened_at (root : list byte) (w : World) (src : ReplicaSource.ReplicaSource) (c : Cell) : list ValidReplica :=
  match view w c with
  | Some b => match open_record self root b with Ok r => [valid_replica src b r] | Err _ => [] end
  | None => []
  end.
(** The replicas of a world that open under a root secret. *)
Definition replicas (root : list byte) (w : World) : list ValidReplica :=
  opened_at root w ReplicaSource.Protected (Slot ProtectedSlot.Replica) ++ opened_at root w ReplicaSource.File File.

Definition snapshot (root : list byte) (w : World) : Classified :=
  classify_replica self ReplicaSource.File (Ok (view w File)) root
    (classify_replica self ReplicaSource.Protected (Ok (view w (Slot ProtectedSlot.Replica))) root
       (classified [] false None)).

Lemma snapshot_valid root w : valid (snapshot root w) = replicas root w.
Proof.
  unfold snapshot, replicas, opened_at, classify_replica.
  destruct (view w (Slot ProtectedSlot.Replica)) as [a|]; [destruct (open_record self root a)|];
    (destruct (view w File) as [b|]; [destruct (open_record self root b)|]); reflexivity.
Qed.

Lemma snapshot_empty root w : select (snapshot root w) = Ok None <->
  view w (Slot ProtectedSlot.Replica) = None /\ view w File = None.
Proof.
  split.
  - intros (Hv & Hi & _)%select_none. revert Hv Hi. unfold snapshot, classify_replica.
    destruct (view w (Slot ProtectedSlot.Replica)) as [a|]; [destruct (open_record self root a)|];
      (destruct (view w File) as [b|]; [destruct (open_record self root b)|]); done.
  - unfold snapshot. by intros [-> ->].
Qed.

Lemma replica_decoded root w v : v ∈ replicas root w ->
  record_typed (record v) /\ record_fits (record v) /\ open_record self root (sealed v) = Ok (record v).
Proof.
  assert (Hc : forall src c, v ∈ opened_at root w src c ->
    record_typed (record v) /\ record_fits (record v) /\ open_record self root (sealed v) = Ok (record v)).
  { intros src c. unfold opened_at. destruct (view w c) as [b|]; [|by intros ?%elem_of_nil].
    destruct (open_record self root b) as [r|] eqn:E; [|by intros ?%elem_of_nil].
    intros ->%list_elem_of_singleton. cbn [record sealed]. split_and!; [..|done].
    all: unfold open_record in E; repeat (match type of E with (if ?b then _ else _) = _ => destruct b end; [done|]).
    all: destruct (derive_key self root); cbn [rbind] in E; [|done]; destruct (aad self); cbn [rbind] in E; [|done].
    all: destruct (map_err _ (Aead.open _ _ _ _)); cbn [rbind] in E; [|done].
    all: by apply map_err_ok, decode_inv in E as (Ht & Hf & _). }
  unfold replicas. rewrite elem_of_app. intros [Hv|Hv]; by eapply Hc.
Qed.

Definition marks_le (a b : option MonotonicState) : Prop :=
  match a, b with Some m, Some m' => Marks.le m m' | Some _, None => False | None, _ => True end.
Lemma marks_le_refl a : marks_le a a.
Proof. by destruct a. Qed.

(** Replacing either replica by a seal of dominating marks cannot lower the merged marks. *)
Lemma written_marks root w w' b r m :
  open_record self root b = Ok r -> Marks.le m (StoreRecord.monotonic r) ->
  merge_all (replicas root w) = Some m ->
  (forall c, c = Slot ProtectedSlot.Replica \/ c = File -> view w' c = view w c \/ view w' c = Some b) ->
  marks_le (Some m) (merge_all (replicas root w')).
Proof.
  intros Ho Hle Hm Hv.
  assert (Hin : forall v, v ∈ replicas root w' -> record v = r -> marks_le (Some m) (merge_all (replicas root w'))).
  { intros v Hin Hr. destruct (merge_all (replicas root w')) as [m'|] eqn:E.
    - cbn. etrans; [apply Hle|]. rewrite <- Hr. by apply (merge_all_spec _ _ E).
    - destruct (replicas root w'); [by apply elem_of_nil in Hin|done]. }
  destruct (Hv (Slot ProtectedSlot.Replica) ltac:(by left)) as [Hp|Hp].
  - destruct (Hv File ltac:(by right)) as [Hf|Hf].
    + assert (Heq : replicas root w' = replicas root w) by (unfold replicas, opened_at; by rewrite Hp, Hf).
      rewrite Heq, Hm. done.
    + apply (Hin (valid_replica ReplicaSource.File b r)); [|done]. unfold replicas. apply elem_of_app. right.
      unfold opened_at. rewrite Hf, Ho. apply list_elem_of_here.
  - apply (Hin (valid_replica ReplicaSource.Protected b r)); [|done]. unfold replicas. apply elem_of_app. left.
    unfold opened_at. rewrite Hp, Ho. apply list_elem_of_here.
Qed.

(** What two writes of one value do to the three cells, whatever fails. *)
Definition both_written (w w' : World) (b : list byte) : Prop :=
  view w' (Slot ProtectedSlot.RootSecret) = view w (Slot ProtectedSlot.RootSecret) /\
  (forall c, c = Slot ProtectedSlot.Replica \/ c = File -> view w' c = view w c \/ view w' c = Some b) /\
  keeps_working w w'.

Lemma keeps_trans (w1 w2 w3 : World) : keeps_working w1 w2 -> keeps_working w2 w3 -> keeps_working w1 w3.
Proof. intros [A B] [C D]. split; auto. Qed.

Lemma store_then_file b w :
  IO.wp (store ProtectedSlot.Replica b) (fun o1 w1 => both_written w w1 b /\
    (o1 = Ok tt -> view w1 (Slot ProtectedSlot.Replica) = Some b) /\
    (writes_work w -> Z.of_nat (length b) <= MAX_SEALED_LEN -> o1 = Ok tt) /\
    IO.wp (write_file b) (fun o2 w2 => both_written w w2 b /\
      (o2 = Ok tt -> view w2 File = Some b /\ view w2 (Slot ProtectedSlot.Replica) = view w1 (Slot ProtectedSlot.Replica)) /\
      (writes_work w -> Z.of_nat (length b) <= MAX_SEALED_LEN -> o2 = Ok tt)) w1) w.
Proof.
  eapply IO.wp_mono; [apply (write_law (Slot ProtectedSlot.Replica))|].
  intros o1 w1 (Ho1 & Hc1 & Hn1 & Hk1 & Hw1). split_and!; [split_and!|done|done|].
  - by apply Ho1.
  - intros c [->| ->]; [done|]. left. by apply Ho1.
  - done.
  - eapply IO.wp_mono; [apply (write_law File)|]. intros o2 w2 (Ho2 & Hc2 & Hn2 & Hk2 & Hw2).
    split_and!; [split_and!| |].
    + rewrite Ho2 by done. by apply Ho1.
    + intros c [->| ->]; [by rewrite Ho2|]. destruct Hc2 as [->|]; [left; by apply Ho1|by right].
    + by eapply keeps_trans.
    + intros E. split; [by apply Hn2|by apply Ho2].
    + intros Hw Hl. apply Hk2; [by apply Hw1|done].
Qed.

(** A read in a world where reads work. *)
Lemma read_works c w : reads_work w ->
  IO.wp (cell_read c) (fun o w' => o = Ok (view w c) /\ (forall c, view w' c = view w c) /\ keeps_working w w') w.
Proof.
  intros Hr. eapply IO.wp_mono; [apply read_law|]. intros o w' (Hv & Ho & Hok & Hk). specialize (Hok Hr).
  destruct o as [v|]; [|done]. split_and!; [by rewrite (Ho v)|done|done].
Qed.

Lemma resolve_spec root repair w : reads_work w ->
  IO.wp (resolve_replicas self root repair) (fun o w' =>
    keeps_working w w' /\ view w' (Slot ProtectedSlot.RootSecret) = view w (Slot ProtectedSlot.RootSecret) /\
    (repair = false -> forall c, view w' c = view w c) /\
    marks_le (merge_all (replicas root w)) (merge_all (replicas root w')) /\
    match select (snapshot root w) with
    | Err e => o = Err e
    | Ok None => o = Ok None
    | Ok (Some s) =>
        (o = Ok (Some (record (winner s))) \/ repair = true /\ state_changed s = true /\ is_ok o = false) /\
        (writes_work w -> store_ok self -> o = Ok (Some (record (winner s)))) /\
        (state_changed s = false -> replicas_identical s = true -> forall c, view w' c = view w c)
    end) w.
Proof.
  intros Hr. unfold resolve_replicas. apply IO.wp_bind, IO.wp_attempt.
  eapply IO.wp_mono; [by apply (read_works (Slot ProtectedSlot.Replica))|]. intros o1 w1 (-> & Hv1 & Hk1).
  apply IO.wp_bind, IO.wp_attempt. eapply IO.wp_mono; [apply (read_works File); by apply Hk1|].
  intros o2 w2 (-> & Hv2 & Hk2). rewrite Hv1.
  assert (Hv : forall c, view w2 c = view w c) by (intros c; by rewrite Hv2, Hv1).
  assert (Hk : keeps_working w w2) by (by eapply keeps_trans).
  assert (Hrep : replicas root w2 = replicas root w) by (unfold replicas, opened_at; by rewrite !Hv).
  apply IO.wp_bind, IO.wp_lift. fold (snapshot root w).
  destruct (select (snapshot root w)) as [[s|]|e] eqn:Es.
  2: apply IO.wp_ret.
  2-3: split_and!; [done|by rewrite Hv|done|rewrite Hrep; apply marks_le_refl|done].
  destruct (repair && (state_changed s || negb (replicas_identical s))) eqn:Erep.
  2:{ apply IO.wp_ret. split_and!; [done|by rewrite Hv|done|rewrite Hrep; apply marks_le_refl|by left|done|done]. }
  apply andb_true_iff in Erep as [-> Erep].
  assert (Hrepair : state_changed s = false -> replicas_identical s = true -> False) by (intros E1 E2; by rewrite E1, E2 in Erep).
  destruct (select_some _ _ Es) as (v & m & Hvin & Hm & Hw & _ & _ & Hsame). rewrite snapshot_valid in Hvin, Hm.
  destruct (replica_decoded _ _ _ Hvin) as ([Hg Ht] & [Hwf Hlen] & Hopen).
  assert (Hwin : record_typed (record (winner s)) /\ record_fits (record (winner s))).
  { rewrite Hw. cbn [record]. unfold record_typed, record_fits, StoreRecord.set_monotonic. cbn. split_and!; [done| | |done].
    - apply (merge_all_preserves Marks.typed _ _ Marks.merge_typed) in Hm; [done|]. intros u Hu. by apply (replica_decoded _ _ _ Hu).
    - apply (merge_all_preserves (fun m => MonotonicState.is_well_formed m = true) _ _ Marks.marks_merge_wf) in Hm; [done|].
      intros u Hu. by apply (replica_decoded _ _ _ Hu). }
  assert (Hwm : StoreRecord.monotonic (record (winner s)) = m) by (by rewrite Hw).
  assert (Hcont : forall b w3, open_record self root b = Ok (record (winner s)) -> (forall c, view w3 c = view w c) ->
    keeps_working w w3 ->
    IO.wp (do! IO.attempt (store ProtectedSlot.Replica b) ;; do! IO.attempt (write_file b) ;; IO.ret (Some (record (winner s))))
      (fun o w' => keeps_working w w' /\ view w' (Slot ProtectedSlot.RootSecret) = view w (Slot ProtectedSlot.RootSecret) /\
        (true = false -> forall c, view w' c = view w c) /\
        marks_le (merge_all (replicas root w)) (merge_all (replicas root w')) /\ o = Ok (Some (record (winner s)))) w3).
  { intros b w3 Hb Hv3 Hk3. apply IO.wp_bind, IO.wp_attempt. eapply IO.wp_mono; [apply store_then_file|].
    intros o3 w4 (_ & _ & _ & Hfile). apply IO.wp_bind, IO.wp_attempt. eapply IO.wp_mono; [apply Hfile|].
    intros o4 w5 ((Hroot & Hcells & Hk5) & _ & _). apply IO.wp_ret. split_and!; [by eapply keeps_trans|by rewrite Hroot|done| |done].
    rewrite Hm. apply (written_marks root w w5 b (record (winner s)) m); [done|by rewrite Hwm|done|].
    intros c Hc. rewrite <- Hv3. auto. }
  apply IO.wp_bind. destruct (state_changed s) eqn:Ech.
  - eapply IO.wp_mono; [apply seal_record_spec|]. intros [b|e] w3 (Hv3 & Hk3 & Hb & Hok).
    + destruct (Hb b eq_refl) as (Hop & _ & _); [apply Hwin|].
      eapply IO.wp_mono; [apply (Hcont b w3 Hop); [intros c; by rewrite Hv3|by eapply keeps_trans]|].
      intros o w' (A & B & C & D & ->). split_and!; [done|done|done|done|by left|done|intros; by exfalso; auto].
    + split_and!; [by eapply keeps_trans|by rewrite Hv3|done| |right; by split_and!| |done].
      * assert (Hrep3 : replicas root w3 = replicas root w) by (unfold replicas, opened_at; by rewrite !Hv3, !Hv).
        rewrite Hrep3. apply marks_le_refl.
      * intros Hww Hso. exfalso. specialize (Hok ltac:(by apply Hk) Hso ltac:(apply Hwin)). done.
  - apply IO.wp_ret. specialize (Hsame eq_refl).
    eapply IO.wp_mono; [apply (Hcont (sealed (winner s)) w2); [|done|done]|].
    + rewrite Hw. cbn [sealed record]. rewrite Hopen. f_equal. unfold StoreRecord.set_monotonic, marks in *. rewrite <- Hsame.
      by destruct (record v).
    + intros o w' (A & B & C & D & ->). split_and!; [done|done|done|done|by left|done|intros; by exfalso; auto].
Qed.
End Resolution.

(** ** Programs that leave a cell alone *)
Section Spares.
Context `{Prim : Primitives} `{H : Host} {HL : HostLaws H} (self : SecureStore).
Import SecureStore.

Definition spares {A} (c : Cell) (m : IO World A) : Prop :=
  forall w, IO.wp m (fun _ w' => view w' c = view w c) w.

Lemma spares_pure {A} c (r : result A StoreError) : spares c (IO.lift r).
Proof. by intros w. Qed.
Lemma spares_bind {A B} c (m : IO World A) (k : A -> IO World B) :
  spares c m -> (forall x, spares c (k x)) -> spares c (IO.bind m k).
Proof.
  intros Hm Hk w. apply IO.wp_bind. eapply IO.wp_mono; [apply Hm|]. intros [x|e] w' Hw; [|done].
  eapply IO.wp_mono; [apply Hk|]. intros _ w'' ->. done.
Qed.
Lemma spares_attempt {A} c (m : IO World A) : spares c m -> spares c (IO.attempt m).
Proof. intros Hm w. apply IO.wp_attempt, Hm. Qed.
Lemma spares_read c c' : spares c (cell_read c').
Proof. intros w. eapply IO.wp_mono; [apply read_law|]. naive_solver. Qed.
Lemma spares_write c c' b : c <> c' -> spares c (cell_write c' b).
Proof. intros Hc w. eapply IO.wp_mono; [apply write_law|]. naive_solver. Qed.
Lemma spares_random c n : spares c (getrandom n).
Proof. intros w. eapply IO.wp_mono; [apply random_law|]. naive_solver. Qed.

Lemma resolve_spares_root root repair : spares (Slot ProtectedSlot.RootSecret) (resolve_replicas self root repair).
Proof.
  unfold resolve_replicas.
  apply spares_bind; [apply spares_attempt, (spares_read _ (Slot ProtectedSlot.Replica))|intros p].
  apply spares_bind; [apply spares_attempt, (spares_read _ File)|intros f].
  apply spares_bind; [apply spares_pure|intros [s|]; [|by intros w]].
  destruct (_ && _); [|by intros w].
  apply spares_bind.
  - destruct (state_changed s); [|by intros w]. unfold seal_record.
    do 3 (apply spares_bind; [apply spares_pure|intros ?]). destruct (negb _); [by intros w|].
    apply spares_bind; [apply spares_random|intros n]. apply spares_bind; [apply spares_pure|intros c].
    by destruct (_ >? _); intros w.
  - intros b. apply spares_bind; [by apply spares_attempt, (spares_write _ (Slot ProtectedSlot.Replica))|intros _].
    apply spares_bind; [by apply spares_attempt, (spares_write _ File)|by intros _ w].
Qed.

Lemma seal_spares c root r : spares c (seal_record self root r).
Proof.
  unfold seal_record. do 3 (apply spares_bind; [apply spares_pure|intros ?]). destruct (negb _); [by intros w|].
  apply spares_bind; [apply spares_random|intros n]. apply spares_bind; [apply spares_pure|intros ct].
  by destruct (_ >? _); intros w.
Qed.

Lemma load_root_spec w :
  IO.wp load_root (fun o w' => (forall c, view w' c = view w c) /\ keeps_working w w' /\
    (forall v, o = Ok v -> v = view w (Slot ProtectedSlot.RootSecret) /\ forall b, v = Some b -> length b = ROOT_SECRET_LEN) /\
    (reads_work w -> o = match view w (Slot ProtectedSlot.RootSecret) with
      | Some b => if (length b =? ROOT_SECRET_LEN)%nat then Ok (Some b) else Err StoreError.InvalidProtectedSecret
      | None => Ok None end)) w.
Proof.
  unfold load_root. apply IO.wp_bind. eapply IO.wp_mono; [apply (read_law (Slot ProtectedSlot.RootSecret))|].
  intros [v|e] w' (Hv & Ho & Hok & Hk).
  - specialize (Ho v eq_refl) as ->. destruct (view w (Slot ProtectedSlot.RootSecret)) as [b|].
    + destruct (Nat.eqb_spec (length b) ROOT_SECRET_LEN) as [Hl|]; cbn [negb];
        (split_and!; [done|done| |done]); [|by intros].
      intros v [= <-]. split; [done|]. by intros b' [= <-].
    + split_and!; [done|done| |done]. intros v [= <-]. by split.
  - split_and!; [done|done|by intros|]. intros Hr. by specialize (Hok Hr).
Qed.

(** The root secret changes only when no replica exists. *)
Definition root_kept (w w' : World) : Prop :=
  view w' (Slot ProtectedSlot.RootSecret) = view w (Slot ProtectedSlot.RootSecret) \/
  view w (Slot ProtectedSlot.RootSecret) = None /\ view w (Slot ProtectedSlot.Replica) = None /\ view w File = None.

Lemma any_replica_spec w :
  IO.wp any_replica (fun o w' => (forall c, view w' c = view w c) /\ keeps_working w w' /\
    (o = Ok false -> view w (Slot ProtectedSlot.Replica) = None /\ view w File = None) /\
    (reads_work w -> view w (Slot ProtectedSlot.Replica) = None -> view w File = None -> o = Ok false)) w.
Proof.
  unfold any_replica. apply IO.wp_bind. eapply IO.wp_mono; [apply (read_law (Slot ProtectedSlot.Replica))|].
  intros [v|e] w' (Hv & Ho & Hok & Hk); [|split_and!; [done|done|done|intros Hr; by specialize (Hok Hr)]].
  specialize (Ho v eq_refl) as ->. destruct (view w (Slot ProtectedSlot.Replica)) as [b|]; [by split_and!|].
  apply IO.wp_bind. eapply IO.wp_mono; [apply (read_law File)|]. intros [v|e] w2 (Hv2 & Ho2 & Hok2 & Hk2).
  - specialize (Ho2 v eq_refl) as ->. rewrite Hv. apply IO.wp_ret.
    split_and!; [intros c; by rewrite Hv2|split; intros; by apply Hk2, Hk| |by intros _ _ ->].
    by destruct (view w File).
  - split_and!; [intros c; by rewrite Hv2|split; intros; by apply Hk2, Hk|done|].
    intros Hr. specialize (Hok2 ltac:(by apply Hk)). done.
Qed.

Lemma root_for_save_spec w :
  IO.wp root_for_save (fun o w' => keeps_working w w' /\ root_kept w w' /\
    (forall c, c <> Slot ProtectedSlot.RootSecret -> view w' c = view w c) /\
    (forall root, o = Ok root -> view w' (Slot ProtectedSlot.RootSecret) = Some root /\ length root = ROOT_SECRET_LEN) /\
    (reads_work w -> writes_work w ->
     match view w (Slot ProtectedSlot.RootSecret) with
     | Some b => length b = ROOT_SECRET_LEN
     | None => view w (Slot ProtectedSlot.Replica) = None /\ view w File = None
     end -> is_ok o = true)) w.
Proof.
  unfold root_for_save. apply IO.wp_bind. eapply IO.wp_mono; [apply load_root_spec|].
  intros [[root|]|e] w1 (Hv & Hk & Ho & Hr).
  - destruct (Ho _ eq_refl) as [Hroot Hl]. apply IO.wp_ret. split_and!; [done|left; apply Hv|by intros c _|..|done].
    intros r [= <-]. rewrite Hv. auto.
  - destruct (Ho _ eq_refl) as [Hroot _]. apply IO.wp_bind. eapply IO.wp_mono; [apply any_replica_spec|].
    assert (Htr : forall w2, keeps_working w1 w2 -> keeps_working w w2) by (intros w2; by apply keeps_trans).
    intros [[]|e] w2 (Hv2 & Hk2 & Hno & Hyes).
    + split_and!; [by apply Htr|left; by rewrite Hv2, Hv|intros c _; by rewrite Hv2, Hv|done|].
      intros Hrw _ Hc. rewrite <- Hroot in Hc. destruct Hc as [Hp Hf].
      specialize (Hyes ltac:(by apply Hk) ltac:(by rewrite Hv) ltac:(by rewrite Hv)). done.
    + destruct (Hno eq_refl) as [Hp Hf]. rewrite Hv in Hp, Hf.
      apply IO.wp_bind. eapply IO.wp_mono; [apply random_law|]. intros [g|e] w3 (Hv3 & Hl3 & Hok3 & Hk3).
      2:{ split_and!; [apply Htr; by eapply keeps_trans|left; by rewrite Hv3, Hv2, Hv|intros c _; by rewrite Hv3, Hv2, Hv|done|].
          intros _ Hw _. apply Hok3. by apply Hk2, Hk. }
      specialize (Hl3 g eq_refl). apply IO.wp_bind.
      eapply IO.wp_mono; [apply (write_law (Slot ProtectedSlot.RootSecret))|]. intros [[]|e] w4 (Ho4 & Hc4 & Hn4 & Hok4 & Hk4).
      2:{ split_and!; [apply Htr; eapply keeps_trans; [|done]; by eapply keeps_trans|right; by rewrite <- Hroot|
            intros c Hc; by rewrite Ho4, Hv3, Hv2, Hv|done|].
          intros _ Hw _. specialize (Hok4 ltac:(by apply Hk3, Hk2, Hk)). rewrite Hl3 in Hok4.
          specialize (Hok4 ltac:(done)). done. }
      apply IO.wp_bind. eapply IO.wp_mono; [apply load_root_spec|]. intros o5 w5 (Hv5 & Hk5 & Ho5 & Hr5).
      assert (Hk05 : keeps_working w w5).
      { apply Htr. eapply keeps_trans; [apply Hk2|]. eapply keeps_trans; [apply Hk3|]. by eapply keeps_trans. }
      assert (Hrest : forall c, c <> Slot ProtectedSlot.RootSecret -> view w5 c = view w c).
      { intros c Hc. by rewrite Hv5, Ho4, Hv3, Hv2, Hv. }
      destruct o5 as [o5|e].
      * destruct (Ho5 _ eq_refl) as [Hv' Hl5]. rewrite (Hn4 eq_refl) in Hv'. subst o5. apply IO.wp_lift. cbn [ok_of_option].
        split_and!; [done|right; by rewrite <- Hroot|done| |done]. intros r [= <-]. rewrite Hv5. split; [by apply Hn4|done].
      * split_and!; [done|right; by rewrite <- Hroot|done|done|]. intros Hrw Hw _.
        specialize (Hr5 ltac:(by apply Hk4, Hk3, Hk2, Hk)). rewrite (Hn4 eq_refl), Hl3 in Hr5. done.
    + split_and!; [by apply Htr|left; by rewrite Hv2, Hv|intros c _; by rewrite Hv2, Hv|done|].
      intros Hrw _ Hc. rewrite <- Hroot in Hc. destruct Hc as [Hp Hf].
      specialize (Hyes ltac:(by apply Hk) ltac:(by rewrite Hv) ltac:(by rewrite Hv)). done.
  - split_and!; [done|left; apply Hv|by intros c _|done|]. intros Hrw _ Hc. specialize (Hr Hrw).
    destruct (view w (Slot ProtectedSlot.RootSecret)) as [b|]; [|done]. rewrite Hc in Hr. done.
Qed.
End Spares.

(** ** The store as a whole *)
Section StoreTheorems.
Context `{Prim : Primitives} {PL : PrimitiveLaws Prim} `{H : Host} {HL : HostLaws H} (self : SecureStore).
Import SecureStore.

Definition root_of (w : World) : option (list byte) :=
  match view w (Slot ProtectedSlot.RootSecret) with
  | Some b => if (length b =? ROOT_SECRET_LEN)%nat then Some b else None
  | None => None
  end.

(** The marks the durable state holds: the merge over the replicas that open. *)
Definition high_water (w : World) : option MonotonicState :=
  match root_of w with Some root => merge_all (replicas self root w) | None => None end.

(** The record the durable state stands for. *)
Definition current (w : World) : option StoreRecord :=
  match root_of w with
  | Some root => match select (snapshot self root w) with Ok (Some s) => Some (record (winner s)) | _ => None end
  | None => None
  end.

(** What a save writes over it. *)
Definition successor (r : StoreRecord) (old : option StoreRecord) : StoreRecord :=
  match old with
  | Some old => StoreRecord.copy_with_generation r (StoreRecord.generation old + 1)
                  (MonotonicState.merge (StoreRecord.monotonic r) (StoreRecord.monotonic old))
  | None => StoreRecord.copy_with_generation r 1 (StoreRecord.monotonic r)
  end.

Lemma same_views w w' : (forall c, view w' c = view w c) ->
  root_of w' = root_of w /\ (forall root, replicas self root w' = replicas self root w) /\
  (forall root, snapshot self root w' = snapshot self root w) /\ high_water w' = high_water w.
Proof.
  intros Hv. unfold high_water, root_of, replicas, opened_at, snapshot. by rewrite !Hv.
Qed.

Lemma current_high_water w r : current w = Some r ->
  high_water w = Some (StoreRecord.monotonic r) /\ record_typed r /\ record_fits r.
Proof.
  unfold current, high_water. destruct (root_of w) as [root|]; [|done].
  destruct (select (snapshot self root w)) as [[s|]|] eqn:Es; [|done..]. intros [= <-].
  destruct (select_some _ _ Es) as (v & m & Hv & Hm & -> & _). rewrite snapshot_valid in Hv, Hm.
  destruct (replica_decoded _ _ _ _ Hv) as ([Hg Ht] & [Hwf Hl] & _). cbn. split; [done|]. split; (split; cbn; [|]); [done| | |done].
  - apply (merge_all_preserves Marks.typed _ _ Marks.merge_typed) in Hm; [done|]. intros u Hu. by apply (replica_decoded _ _ _ _ Hu).
  - apply (merge_all_preserves (fun m => MonotonicState.is_well_formed m = true) _ _ Marks.marks_merge_wf) in Hm; [done|].
    intros u Hu. by apply (replica_decoded _ _ _ _ Hu).
Qed.

Lemma root_kept_marks w w' :
  root_kept w w' -> (forall c, c <> Slot ProtectedSlot.RootSecret -> view w' c = view w c) ->
  marks_le (high_water w) (high_water w').
Proof.
  intros Hk Ho. destruct Hk as [Hsame|(Hnone & Hp & Hf)].
  - assert (Hv : forall c, view w' c = view w c) by (intros c; destruct (decide (c = Slot ProtectedSlot.RootSecret)) as [->|]; auto).
    destruct (same_views w w' Hv) as (_ & _ & _ & ->). apply marks_le_refl.
  - unfold high_water at 1, root_of. by rewrite Hnone.
Qed.

(** Taking the root for a save changes neither the record nor the marks. *)
Lemma root_for_save_state w w' root :
  root_kept w w' -> (forall c, c <> Slot ProtectedSlot.RootSecret -> view w' c = view w c) ->
  view w' (Slot ProtectedSlot.RootSecret) = Some root -> length root = ROOT_SECRET_LEN ->
  root_of w' = Some root /\ marks_le (high_water w) (high_water w') /\ snapshot self root w' = snapshot self root w /\
  (root_of w = Some root \/ root_of w = None /\ select (snapshot self root w) = Ok None).
Proof.
  intros Hk Ho Hr Hl. assert (Hroot : root_of w' = Some root) by (unfold root_of; by rewrite Hr, Hl).
  assert (Hsn : snapshot self root w' = snapshot self root w) by (unfold snapshot; by rewrite !Ho).
  split_and!; [done|by apply root_kept_marks|done|]. destruct Hk as [Hsame|(Hnone & Hp & Hf)].
  - left. unfold root_of in *. by rewrite <- Hsame.
  - right. split; [unfold root_of; by rewrite Hnone|by apply snapshot_empty].
Qed.

Lemma successor_typed r w : record_typed r -> record_fits r ->
  (forall old, current w = Some old -> StoreRecord.generation old < u64_max) ->
  record_typed (successor r (current w)) /\ record_fits (successor r (current w)).
Proof.
  intros [Hg Ht] [Hw Hl] Hold. destruct (current w) as [old|] eqn:Ec; cbn; [|split; [split; [done|done]|done]].
  destruct (current_high_water w old Ec) as (_ & [Hg' Ht'] & [Hw' _]). specialize (Hold _ eq_refl).
  split; (split; cbn; [|done || by apply Marks.merge_typed]); [int_lia|by apply Marks.marks_merge_wf].
Qed.

Lemma next_of_spec r w :
  (next_of r (current w) = Ok (StoreRecord.generation (successor r (current w)), StoreRecord.monotonic (successor r (current w))) /\
   forall old, current w = Some old -> StoreRecord.generation old < u64_max) \/
  (exists e old, next_of r (current w) = Err e /\ current w = Some old /\ ~ StoreRecord.generation old < u64_max).
Proof.
  unfold next_of. destruct (current w) as [old|] eqn:Ec; [|left; by split].
  destruct (current_high_water w old Ec) as (_ & [[Hg _] _] & _). cbn. unfold checked.
  destruct (Z.leb_spec 0 (StoreRecord.generation old + 1)); [|lia].
  destruct (Z.leb_spec (StoreRecord.generation old + 1) u64_max); cbn.
  - left. split; [done|]. intros o [= <-]. lia.
  - right. eexists _, old. split_and!; [done|done|lia].
Qed.

(** Sealing the successor and writing it to both places. *)
Lemma write_out_spec r root w w0 :
  root_of w0 = Some root -> (forall c, c <> Slot ProtectedSlot.RootSecret -> view w0 c = view w c) ->
  (root_of w = Some root /\ (forall e, select (snapshot self root w) <> Err e) \/ root_of w = None) ->
  marks_le (high_water w) (high_water w0) -> record_typed (successor r (current w)) ->
  IO.wp (b <-! seal_record self root (successor r (current w)) ;; do! store ProtectedSlot.Replica b ;; write_file b)
    (fun o w' => keeps_working w0 w' /\ marks_le (high_water w) (high_water w') /\
    (o = Ok tt -> exists b, root_of w' = Some root /\ view w' (Slot ProtectedSlot.Replica) = Some b /\
       view w' File = Some b /\ open_record self root b = Ok (successor r (current w))) /\
    (writes_work w0 -> store_ok self -> record_fits (successor r (current w)) -> o = Ok tt)) w0.
Proof.
  intros Hro0 Hoth Hcase Hm0 Hst. apply IO.wp_bind. eapply IO.wp_mono; [apply seal_record_spec|].
  intros [b|e] w3 (Hv3 & Hk3 & Hb & Hok3); destruct (same_views w0 w3 Hv3) as (Hro3 & Hrep3 & _ & Hhw3).
  2:{ split_and!; [done|by rewrite Hhw3|done|]. intros Hw Hso Hf. specialize (Hok3 Hw Hso Hf). done. }
  destruct (Hb b eq_refl Hst) as (Hopen & _ & Hlen).
  assert (Hfinal : forall w', both_written w3 w' b -> marks_le (high_water w) (high_water w')).
  { intros w' (Hroot' & Hcells & _). destruct (high_water w) as [m|] eqn:Em; [|done].
    unfold high_water in Em. destruct Hcase as [[Hro Hsel]|Hro]; rewrite Hro in Em; [|done].
    assert (Hro' : root_of w' = Some root) by (unfold root_of in *; rewrite Hroot', Hv3; done).
    unfold high_water. rewrite Hro'. apply (written_marks self root w3 w' b (successor r (current w)) m Hopen); [| |done].
    - destruct (current w) as [old|] eqn:Ec.
      + destruct (current_high_water w old Ec) as (Hh & _). unfold high_water in Hh. rewrite Hro, Em in Hh. injection Hh as ->.
        apply Marks.merge_r.
      + exfalso. unfold current in Ec. rewrite Hro in Ec. destruct (select (snapshot self root w)) as [[s|]|e] eqn:Es; [done| |by apply (Hsel e)].
        apply snapshot_empty in Es as [Hp Hf]. unfold replicas, opened_at in Em. by rewrite Hp, Hf in Em.
    - rewrite Hrep3. rewrite <- Em. unfold replicas, opened_at. by rewrite !Hoth. }
  apply IO.wp_bind. eapply IO.wp_mono; [apply store_then_file|]. intros [[]|e] w4 (Hbw & Hnew & Hok4 & Hfile).
  2:{ split_and!; [eapply keeps_trans; [done|apply Hbw]|by apply Hfinal|done|]. intros Hw _ _. apply Hok4; [by apply Hk3|done]. }
  eapply IO.wp_mono; [apply Hfile|]. intros o5 w5 (Hbw5 & Hnew5 & Hok5).
  split_and!; [eapply keeps_trans; [done|apply Hbw5]|by apply Hfinal| |].
  - intros ->. destruct (Hnew5 eq_refl) as [Hf5 Hp5]. exists b. split_and!; [|by rewrite Hp5; apply Hnew|done|done].
    unfold root_of in *. destruct Hbw5 as [-> _]. by rewrite Hv3.
  - intros Hw _ _. apply Hok5; [by apply Hk3|done].
Qed.

(** The durable state can be saved over: a root secret under which the replicas resolve, or
    nothing at all. *)
Definition healthy (w : World) : Prop :=
  match view w (Slot ProtectedSlot.RootSecret) with
  | Some root => length root = ROOT_SECRET_LEN /\ is_ok (select (snapshot self root w)) = true
  | None => view w (Slot ProtectedSlot.Replica) = None /\ view w File = None
  end.

Lemma save_record_spec r w : reads_work w -> record_typed r ->
  IO.wp (save_record self r) (fun o w' => keeps_working w w' /\ marks_le (high_water w) (high_water w') /\
    (o = Ok tt -> exists root b, root_of w' = Some root /\ view w' (Slot ProtectedSlot.Replica) = Some b /\
       view w' File = Some b /\ open_record self root b = Ok (successor r (current w))) /\
    (writes_work w -> store_ok self -> record_fits r -> healthy w ->
     (forall old, current w = Some old -> StoreRecord.generation old < u64_max) -> o = Ok tt)) w.
Proof.
  intros Hrw Ht. unfold save_record. apply IO.wp_bind, IO.wp_lift.
  destruct (StoreRecord.encode r) as [pt|e] eqn:Ee.
  2:{ split_and!; [by split|apply marks_le_refl|done|]. intros _ _ Hf _ _.
      assert (Hx : StoreRecord.encode r = Ok (StoreRecord.layout r)) by (by apply encode_record_ok). congruence. }
  apply encode_record_ok in Ee as [Hfit _]. apply IO.wp_bind. eapply IO.wp_mono; [apply root_for_save_spec|].
  intros [root|e] w1 (Hk1 & Hkept & Hoth & Hroot & Hok1).
  2:{ split_and!; [done|by apply root_kept_marks|done|].
      intros Hw _ _ Hc _. exfalso. assert (Hx : is_ok (Err (A := list byte) e) = true); [|done]. apply Hok1; [done|done|].
      unfold healthy in Hc. destruct (view w (Slot ProtectedSlot.RootSecret)); [apply Hc|done]. }
  destruct (Hroot root eq_refl) as [Hr1 Hl1].
  destruct (root_for_save_state w w1 root Hkept Hoth Hr1 Hl1) as (Hro1 & Hm1 & Hsn1 & Hcase).
  apply IO.wp_bind. eapply IO.wp_mono; [apply (resolve_spec self root false); by apply Hk1|].
  intros o2 w2 (Hk2 & _ & Hv2 & _ & Hsel). specialize (Hv2 eq_refl). rewrite Hsn1 in Hsel.
  assert (Hk02 : keeps_working w w2) by (by eapply keeps_trans).
  destruct (same_views w1 w2 Hv2) as (Hro2 & _ & _ & Hhw2).
  assert (Hm2 : marks_le (high_water w) (high_water w2)) by (by rewrite Hhw2).
  assert (Hres : (exists e, o2 = Err e /\ is_ok (select (snapshot self root w)) = false) \/
    o2 = Ok (current w) /\ forall e, select (snapshot self root w) <> Err e).
  { unfold current. destruct Hcase as [->|[-> Hx]]; [|rewrite Hx in Hsel |- *; by right].
    destruct (select (snapshot self root w)) as [[s|]|e]; [right|by right|left; by exists e].
    by destruct Hsel as [[->|(Hx & _)] _]. }
  destruct Hres as [(e & -> & Hs)|[-> Hs]].
  { split_and!; [done|done|done|]. intros Hw _ _ Hc _. exfalso.
    destruct Hcase as [Hro|[_ Hx]]; [|by rewrite Hx in Hs]. unfold root_of, healthy in *.
    destruct (view w (Slot ProtectedSlot.RootSecret)) as [b|]; [|done]. destruct (_ =? _)%nat; [|done]. injection Hro as ->.
    destruct Hc as [_ Hc]. by rewrite Hc in Hs. }
  apply IO.wp_bind, IO.wp_lift. destruct (next_of_spec r w) as [[-> Hgen]|(e & old & -> & Hc & Hn)].
  2:{ split_and!; [done|done|done|]. intros _ _ _ _ Hg. destruct Hn. by apply Hg. }
  destruct (successor_typed r w Ht Hfit Hgen) as [Hst Hsf].
  assert (Hdur : StoreRecord.copy_with_generation r (StoreRecord.generation (successor r (current w)))
    (StoreRecord.monotonic (successor r (current w))) = successor r (current w)) by (by destruct (current w)).
  cbn [fst snd]. rewrite Hdur. eapply IO.wp_mono.
  - apply (write_out_spec r root w w2); [congruence|intros c Hc; rewrite Hv2; by apply Hoth| |done|done].
    destruct Hcase as [?|[? _]]; [left; by split|by right].
  - intros o w' (A & B & C & D). split_and!; [by eapply keeps_trans|done| |].
    + intros E. destruct (C E) as (b & Hx). by exists root, b.
    + intros Hw Hso _ _ _. apply D; [by apply Hk02|done|done].
Qed.

Lemma load_record_spec w : reads_work w ->
  IO.wp (load_record self) (fun o w' => keeps_working w w' /\ marks_le (high_water w) (high_water w') /\
    (forall r, o = Ok (Some r) -> current w = Some r) /\
    match root_of w with
    | None => True
    | Some root => match select (snapshot self root w) with
      | Ok (Some s) => state_changed s = false -> replicas_identical s = true ->
                       o = Ok (Some (record (winner s))) /\ forall c, view w' c = view w c
      | _ => True end
    end) w.
Proof.
  intros Hrw. unfold load_record. apply IO.wp_bind. eapply IO.wp_mono; [apply load_root_spec|].
  intros o1 w1 (Hv1 & Hk1 & _ & Ho1). specialize (Ho1 Hrw). unfold current, high_water, root_of.
  destruct (same_views w w1 Hv1) as (_ & Hrep1 & Hsn1 & Hhw1).
  destruct (view w (Slot ProtectedSlot.RootSecret)) as [root|] eqn:Er.
  - destruct (Nat.eqb_spec (length root) ROOT_SECRET_LEN) as [Hl|]; subst o1.
    2:{ by split_and!. }
    eapply IO.wp_mono; [apply (resolve_spec self root true); by apply Hk1|]. rewrite Hsn1, Hrep1.
    intros o2 w2 (Hk2 & Hroot2 & _ & Hm2 & Hsel). split_and!; [by eapply keeps_trans| | |].
    + rewrite Hroot2, Hv1, Er, Hl, Nat.eqb_refl. done.
    + intros r ->. destruct (select (snapshot self root w)) as [[s|]|]; [|done..].
      destruct Hsel as [[Hx|(_ & _ & Hx)] _]; by simplify_eq.
    + destruct (select (snapshot self root w)) as [[s|]|] eqn:Es; [|done..]. intros Hc Hi.
      destruct Hsel as [[->|(_ & Hx & _)] [_ Hsame]]; [|congruence]. split; [done|]. intros c. by rewrite Hsame.
  - subst o1. apply IO.wp_bind.
    eapply IO.wp_mono; [apply (read_works (Slot ProtectedSlot.Replica)); by apply Hk1|]. intros o2 w2 (-> & Hv2 & Hk2).
    apply IO.wp_bind. eapply IO.wp_mono; [apply (read_works File); by apply Hk2, Hk1|]. intros o3 w3 (-> & Hv3 & Hk3).
    assert (Hk : keeps_working w w3) by (eapply keeps_trans; [|done]; by eapply keeps_trans).
    by destruct (view w1 (Slot ProtectedSlot.Replica)), (view w2 File); split_and!.
Qed.

(** Loads and saves in any order, whatever their outcome. *)
Inductive Op := Load | Save (r : StoreRecord).
Definition run_op (w : World) (op : Op) : World :=
  match op with Load => (load_record self w).2 | Save r => (save_record self r w).2 end.
Definition op_typed (op : Op) : Prop := match op with Load => True | Save r => record_typed r end.

Lemma marks_le_trans a b c : marks_le a b -> marks_le b c -> marks_le a c.
Proof. destruct a, b, c; cbn; try done. intros; by etrans. Qed.

Lemma run_op_spec w op : reads_work w -> op_typed op ->
  reads_work (run_op w op) /\ marks_le (high_water w) (high_water (run_op w op)).
Proof.
  intros Hr Ht. destruct op as [|r]; cbn [run_op].
  - destruct (load_record_spec w Hr) as (Hk & Hm & _). split; [by apply Hk|done].
  - destruct (save_record_spec r w Hr Ht) as (Hk & Hm & _). split; [by apply Hk|done].
Qed.
End StoreTheorems.


(** A load takes the newest replica with everything either replica has seen: restoring an old
    copy of one replica, or corrupting it, can neither hide the other's marks nor bring back an
    older payload, and two payloads of one generation are refused rather than chosen between. *)
Theorem load_takes_newest `{Prim : Primitives} {PL : PrimitiveLaws Prim} `{Hh : Host} {HL : HostLaws Hh}
    (self : SecureStore) (w : World) (r : StoreRecord) :
  reads_work w -> (SecureStore.load_record self w).1 = Ok (Some r) ->
  exists root v, root_of w = Some root /\ v ∈ replicas self root w /\
    StoreRecord.generation r = gen v /\ StoreRecord.payload r = StoreRecord.payload (record v) /\
    forall u, u ∈ replicas self root w ->
      Marks.le (marks u) (StoreRecord.monotonic r) /\ gen u <= StoreRecord.generation r /\
      (gen u = StoreRecord.generation r -> StoreRecord.payload (record u) = StoreRecord.payload r).
Proof.
  intros Hr Hl. destruct (load_record_spec self w Hr) as (_ & _ & Hc & _). specialize (Hc r Hl). unfold current in Hc.
  destruct (root_of w) as [root|] eqn:Er; [|done].
  destruct (select (snapshot self root w)) as [[s|]|] eqn:Es; [|done..]. injection Hc as <-.
  destruct (select_some _ _ Es) as (v & m & Hv & Hm & Hw & Hmax & Hpay & _). rewrite snapshot_valid in *.
  exists root, v. rewrite Hw. cbn. split_and!; [done..|]. intros u Hu.
  split_and!; [by apply (merge_all_spec _ _ Hm)|by apply Hmax|]. by intros; apply Hpay.
Qed.


(** C24 A key is never generated over ciphertext: whatever the host does, reading failures
    included, neither a load nor a save changes the root secret while either replica exists. *)
Theorem root_never_replaced `{Prim : Primitives} `{Hh : Host} {HL : HostLaws Hh}
    (self : SecureStore) (w : World) (op : Op) :
  view w (Slot ProtectedSlot.Replica) <> None \/ view w File <> None ->
  view (run_op self w op) (Slot ProtectedSlot.RootSecret) = view w (Slot ProtectedSlot.RootSecret).
Proof.
  intros Hrep. destruct op as [|r]; cbn [run_op].
  - assert (Hl : spares (Slot ProtectedSlot.RootSecret) (SecureStore.load_record self)).
    { apply spares_bind; [|intros [root|]; [apply resolve_spares_root|]].
      - intros w'. eapply IO.wp_mono; [apply load_root_spec|]. naive_solver.
      - apply spares_bind; [apply (spares_read _ (Slot ProtectedSlot.Replica))|intros p].
        apply spares_bind; [apply (spares_read _ File)|intros f]. by destruct p, f; intros w'. }
    apply (Hl w).
  - apply (IO.wp_bind (IO.lift (StoreRecord.encode r)) _ (fun _ w' => view w' _ = view w _)), IO.wp_lift.
    destruct (StoreRecord.encode r); [|done]. apply IO.wp_bind. eapply IO.wp_mono; [apply root_for_save_spec|].
    intros o w1 (_ & Hkept & _). assert (Hroot : view w1 (Slot ProtectedSlot.RootSecret) = view w (Slot ProtectedSlot.RootSecret)).
    { destruct Hkept as [->|(_ & Hp & Hf)]; [done|]. rewrite Hp, Hf in Hrep. by destruct Hrep. }
    destruct o as [root|e]; [|done]. rewrite <- Hroot.
    assert (Hrest : spares (Slot ProtectedSlot.RootSecret) (existing <-! SecureStore.resolve_replicas self root false ;;
      next <-! IO.lift (SecureStore.next_of r existing) ;;
      b <-! SecureStore.seal_record self root (StoreRecord.copy_with_generation r next.1 next.2) ;;
      do! store ProtectedSlot.Replica b ;; write_file b)).
    { apply spares_bind; [apply resolve_spares_root|intros ex]. apply spares_bind; [apply spares_pure|intros n].
      apply spares_bind; [apply seal_spares|intros b].
      apply spares_bind; [by apply (spares_write _ (Slot ProtectedSlot.Replica))|intros _]. by apply (spares_write _ File). }
    apply Hrest.
Qed.

(** A wipe that reports success leaves nothing: both replicas and the root secret are gone, and
    the store loads as if never activated.  Every deletion is attempted whatever the others
    answer, and on a host that works they all succeed. *)
Theorem wipe_erases `{Prim : Primitives} `{Hh : Host} {HL : HostLaws Hh} (self : SecureStore) (w : World) :
  reads_work w ->
  let '(o, w') := SecureStore.wipe w in
  (o = Ok tt -> (forall c, view w' c = None) /\ (SecureStore.load_record self w').1 = Ok None) /\
  (writes_work w -> o = Ok tt).
Proof.
  intros Hr. assert (Hw : IO.wp SecureStore.wipe (fun o w' => keeps_working w w' /\
    (o = Ok tt -> forall c, view w' c = None) /\ (writes_work w -> o = Ok tt)) w).
  { unfold SecureStore.wipe. apply IO.wp_bind, IO.wp_attempt.
    eapply IO.wp_mono; [apply (remove_law (Slot ProtectedSlot.Replica))|]. intros o1 w1 (Ho1 & Hn1 & Hw1 & Hk1).
    apply IO.wp_bind, IO.wp_attempt. eapply IO.wp_mono; [apply (remove_law File)|]. intros o2 w2 (Ho2 & Hn2 & Hw2 & Hk2).
    apply IO.wp_bind, IO.wp_attempt. eapply IO.wp_mono; [apply (remove_law (Slot ProtectedSlot.RootSecret))|].
    intros o3 w3 (Ho3 & Hn3 & Hw3 & Hk3). apply IO.wp_lift. split_and!.
    - split; intros Hx; by apply Hk3, Hk2, Hk1.
    - destruct o1 as [[]|], o2 as [[]|], o3 as [[]|]; try done. intros _ [[]|].
      + by apply Hn3.
      + rewrite Ho3, Ho2 by done. by apply Hn1.
      + rewrite Ho3 by done. by apply Hn2.
    - intros Hx. assert (Hx1 : writes_work w1) by (by apply Hk1). assert (Hx2 : writes_work w2) by (by apply Hk2).
      by rewrite (Hw1 Hx), (Hw2 Hx1), (Hw3 Hx2). }
  unfold IO.wp in Hw. destruct (SecureStore.wipe w) as [o w']. cbn [fst snd] in Hw. destruct Hw as (Hk & Hn & Hl).
  split; [|done]. intros Ho. specialize (Hn Ho). split; [done|].
  apply (IO.wp_bind SecureStore.load_root _ (fun o _ => o = Ok None)). eapply IO.wp_mono; [apply load_root_spec|].
  intros o1 w1 (Hv1 & Hk1 & _ & Ho1). rewrite Ho1, Hn by (by apply Hk). apply IO.wp_bind.
  eapply IO.wp_mono; [apply (read_works (Slot ProtectedSlot.Replica)); by apply Hk1, Hk|]. intros o2 w2 (-> & Hv2 & Hk2).
  apply IO.wp_bind. eapply IO.wp_mono; [apply (read_works File); by apply Hk2, Hk1, Hk|]. intros o3 w3 (-> & _).
  by rewrite Hv2, !Hv1, !Hn.
Qed.

(** ** A store in three files, to run the definitions on *)
Module DemoStore.
Definition files : FileProtectedStorage.FileProtectedStorage :=
  FileProtectedStorage.mk ["d"; "root"]%string ["d"; "replica"]%string.
Definition path : Path := ["a"; "cl.bin"]%string.
Definition host : Host := FileHost (R := Demo.rng) files path.
Lemma demo_paths : paths_ok files path.
Proof.
  split.
  - intros [[]|] [[]|]; done.
  - intros [[]|]; eexists; (split; [reflexivity|]); intros [[]|]; done.
Qed.
Definition laws : HostLaws host := FileHost_laws (RL := Demo.rng_laws) files path demo_paths.
Definition store : SecureStore :=
  SecureStore.mk (StoreConfig.mk "acme.app" path PlatformTag.Linux) [9; 9].
(** A world with no file and the given faults ahead. *)
Definition fresh (rf wf : list bool) : Fs (R := Demo.rng) := mk_fs (R := Demo.rng) ∅ rf wf 3.
Definition with_faults (rf wf : list bool) (fs : Fs (R := Demo.rng)) : Fs (R := Demo.rng) :=
  mk_fs (R := Demo.rng) (nodes fs) rf wf (rng fs).
Definition save (r : StoreRecord) : IO (Fs (R := Demo.rng)) unit :=
  SecureStore.save_record (Prim := DemoPrim.prims) (H := host) store r.
Definition load : IO (Fs (R := Demo.rng)) (option StoreRecord) :=
  SecureStore.load_record (Prim := DemoPrim.prims) (H := host) store.
Definition rec (n : Z) : StoreRecord := StoreRecord.new [n] (MonotonicState.mk (10 * n) (10 * n) 0 n n).

Lemma rec_typed : record_typed (rec 1).
Proof. unfold record_typed, Marks.typed, in_u64, in_i64, in_u32. cbn. int_lia. Qed.
Lemma fresh_reads : file_reads_work (R := Demo.rng) files path (fresh [] []).
Proof. by split. Qed.
Lemma fresh_writes : file_writes_work (R := Demo.rng) files path (fresh [] []).
Proof. split_and!; [done|done|]. intros c d _. by left. Qed.

(** A save whose second write never happened: the protected replica is one generation ahead. *)
Definition interrupted : Fs (R := Demo.rng) :=
  let saved := (save (rec 1) (fresh [] [])).2 in
  (save (rec 2) (with_faults [] (repeat false 14 ++ [true]) saved)).2.
(** A load that cannot read the protected replica this once. *)
Definition after_repair : Fs (R := Demo.rng) :=
  with_faults [] [] (load (with_faults (repeat false 4 ++ [true]) [] interrupted)).2.
End DemoStore.

(** The exception to the rule above, when a read fails: a load that cannot read the protected
    replica this once repairs it from the older file replica, after which the newer payload and
    the newer marks are gone for good. *)
Theorem blind_repair_lowers_marks :
  let m := fun fs => high_water (Prim := DemoPrim.prims) (HL := DemoStore.laws) DemoStore.store fs in
  m DemoStore.interrupted = Some (MonotonicState.mk 20 20 0 2 2) /\
  m DemoStore.after_repair = Some (MonotonicState.mk 10 10 0 1 1) /\
  (DemoStore.load DemoStore.after_repair).1 =
    Ok (Some (StoreRecord.mk 1 (MonotonicState.mk 10 10 0 1 1) [1])).
Proof. vm_compute. split_and!; reflexivity. Qed.


Lemma load_takes_newest_witness :
  exists root v, v ∈ replicas (Prim := DemoPrim.prims) (HL := DemoStore.laws) DemoStore.store root DemoStore.after_repair /\
    StoreRecord.payload (record v) = [1].
Proof.
  destruct (load_takes_newest (PL := DemoPrim.prim_laws) (HL := DemoStore.laws) DemoStore.store DemoStore.after_repair
    (StoreRecord.mk 1 (MonotonicState.mk 10 10 0 1 1) [1])) as (root & v & _ & Hv & _ & Hp & _).
  - split; [reflexivity|]. intros [[]|]; vm_compute; reflexivity.
  - vm_compute. reflexivity.
  - exists root, v. split; [exact Hv|]. by rewrite <- Hp.
Defined.


Lemma root_never_replaced_witness :
  view (HostLaws := DemoStore.laws) (run_op (Prim := DemoPrim.prims) (H := DemoStore.host) DemoStore.store
    (DemoStore.with_faults [true] [true] DemoStore.interrupted) Load) (Slot ProtectedSlot.RootSecret) =
  view (HostLaws := DemoStore.laws) (DemoStore.with_faults [true] [true] DemoStore.interrupted) (Slot ProtectedSlot.RootSecret).
Proof.
  apply (root_never_replaced (Prim := DemoPrim.prims) (HL := DemoStore.laws)). left. vm_compute. discriminate.
Defined.

Lemma wipe_erases_witness :
  (SecureStore.load_record (Prim := DemoPrim.prims) (H := DemoStore.host) DemoStore.store
    (SecureStore.wipe (H := DemoStore.host) (DemoStore.fresh [] [])).2).1 = Ok None.
Proof.
  pose proof (wipe_erases (Prim := DemoPrim.prims) (HL := DemoStore.laws) DemoStore.store
    (DemoStore.fresh [] []) DemoStore.fresh_reads) as Hw.
  destruct (SecureStore.wipe (H := DemoStore.host) (DemoStore.fresh [] [])) as [o w']. destruct Hw as [Hl Hs].
  apply Hl, Hs, DemoStore.fresh_writes.
Defined.

(** ** Separation *)

(** Application ids are single path components. *)
Lemma app_ids_are_components a : validate_app_id a = Ok tt ->
  a <> "."%string /\ a <> ".."%string /\ a <> EmptyString /\
  forall c, c ∈ String.list_ascii_of_string a -> c <> "/"%char /\ c <> "\"%char /\ c <> "000"%char.
Proof.
  unfold validate_app_id. intros Hv.
  destruct (Nat.eqb_spec (String.length a) 0) as [|Hl]; [done|]. destruct (_ <? _)%nat; [done|].
  destruct (bool_decide (a = "."%string)) eqn:E1; [done|]. destruct (bool_decide (a = ".."%string)) eqn:E2; [done|].
  destruct (forallb app_id_char _) eqn:E3; [|done]. bprop. split_and!; [done|done|by intros ->|].
  intros c Hc. rewrite forallb_forall in E3. specialize (E3 c (proj1 (list_elem_of_In _ _) Hc)).
  split_and!; intros ->; vm_compute in E3; discriminate.
Qed.

(** Two stores share associated data only if they are the same application on the same
    platform, and key material only if root secret and device fingerprint agree. *)
Lemma store_contexts_separate s t a r r' :
  SecureStore.aad s = Ok a -> SecureStore.aad t = Ok a ->
  length r = ROOT_SECRET_LEN -> length r' = ROOT_SECRET_LEN ->
  r ++ SecureStore.fingerprint_material s = r' ++ SecureStore.fingerprint_material t ->
  StoreConfig.app_id (SecureStore.config s) = StoreConfig.app_id (SecureStore.config t) /\
  StoreConfig.platform (SecureStore.config s) = StoreConfig.platform (SecureStore.config t) /\
  r = r' /\ SecureStore.fingerprint_material s = SecureStore.fingerprint_material t.
Proof.
  unfold SecureStore.aad. intros Hs Ht Hr Hr' Hk.
  destruct (Z.leb_spec (Z.of_nat (length (SecureStore.app_id_bytes s))) u32_max); [|done].
  destruct (Z.leb_spec (Z.of_nat (length (SecureStore.app_id_bytes t))) u32_max); [|done].
  apply Ok_inj in Hs, Ht. subst a. apply app_inj_1 in Ht as [_ Ht]; [|done]. apply app_inj_1 in Ht as [_ Ht]; [|done].
  apply app_inj_1 in Ht as [Hp Ht]; [|done]. apply app_inj_1 in Ht as [_ Ht]; [|by rewrite !u_be_length].
  apply app_inj_1 in Hk as [-> ->]; [|congruence]. unfold SecureStore.app_id_bytes, SecureStore.platform in *.
  apply text_bytes_inj in Ht. split_and!; [done| |done|done]. injection Hp.
  by destruct (StoreConfig.platform (SecureStore.config s)), (StoreConfig.platform (SecureStore.config t)).
Qed.
