(* ===== verification/Snapshot.v ===== *)
(** * The client's persisted snapshot ([crates/copylocker-client/src/snapshot.rs])

    The payload the client keeps in its store record: the two device keys, the credential, the
    epoch certificates, the last ticket, a pending nonce and the revoked epochs. *)

From S2P Require Import Prelude Types Clock Errors Cbor Field Artifacts Chain Requests Messages Armor StoreRecord.
Import CborValue.

Definition SNAPSHOT_SCHEMA : Z := 1.
Definition MAX_SECRET_KEY_BYTES : Z := 64 * 1024.
Definition MAX_ARTIFACT_BYTES : Z := 1024 * 1024.
Definition SNAPSHOT_LIMITS : Limits := Limits.mk MAX_CBOR_DEPTH 4096 MAX_RECORD_LEN.
Definition MAX_REVOKED_EPOCHS : Z := 65536.

Module SnapshotError.
Inductive SnapshotError := Codec (e : CodecError) | Malformed | UnsupportedSchema | TooLarge.
End SnapshotError.
Notation SnapshotError := SnapshotError.SnapshotError.

Definition validate_secret (value : list byte) : result unit SnapshotError :=
  if (length value =? 0)%nat || (Z.of_nat (length value) >? MAX_SECRET_KEY_BYTES)
  then Err SnapshotError.Malformed else Ok tt.

Definition validate_optional_artifact (value : option (list byte)) : result unit SnapshotError :=
  match value with
  | Some bytes =>
      if (length bytes =? 0)%nat || (Z.of_nat (length bytes) >? MAX_ARTIFACT_BYTES)
      then Err SnapshotError.TooLarge else Ok tt
  | None => Ok tt
  end.

Definition certificate_bad (bytes : list byte) : bool :=
  (length bytes =? 0)%nat || (Z.of_nat (length bytes) >? MAX_EPOCH_CERTIFICATE_BYTES).

Definition validate_certificates (values : list (list byte)) : result unit SnapshotError :=
  if (Z.of_nat (length values) >? MAX_KEYSET_CERTIFICATES) || existsb certificate_bad values
  then Err SnapshotError.TooLarge else Ok tt.

Definition required (value : CborValue) (key : Z) : result CborValue SnapshotError :=
  match as_map value with
  | None => Err SnapshotError.Malformed
  | Some _ => ok_of_option (CborValue.get value key) SnapshotError.Malformed
  end.

Definition required_bytes (value : CborValue) (key : Z) : result (list byte) SnapshotError :=
  v <-? required value key ;; ok_of_option (as_bytes v) SnapshotError.Malformed.

Definition optional_bytes (value : CborValue) (key : Z) : result (option (list byte)) SnapshotError :=
  match CborValue.get value key with
  | None => Ok None
  | Some item => b <-? ok_of_option (as_bytes item) SnapshotError.Malformed ;; Ok (Some b)
  end.

Definition decode_certificate (item : CborValue) : result (list byte) SnapshotError :=
  bytes <-? ok_of_option (as_bytes item) SnapshotError.Malformed ;;
  if certificate_bad bytes then Err SnapshotError.TooLarge else Ok bytes.

Definition decode_certificates (value : CborValue) : result (list (list byte)) SnapshotError :=
  v <-? required value 4 ;;
  values <-? ok_of_option (as_array v) SnapshotError.Malformed ;;
  if Z.of_nat (length values) >? MAX_KEYSET_CERTIFICATES then Err SnapshotError.TooLarge
  else traverse decode_certificate values.

(** [try_into::<[u8; N]>]. *)
Definition fixed_bytes (n : nat) (b : list byte) : result (list byte) SnapshotError :=
  if (length b =? n)%nat then Ok b else Err SnapshotError.Malformed.

Definition push_epoch (epochs : list EpochId) (item : CborValue) : result (list EpochId) SnapshotError :=
  b <-? ok_of_option (as_bytes item) SnapshotError.Malformed ;;
  epoch <-? fixed_bytes 8 b ;;
  Ok (if bool_decide (epoch ∈ epochs) then epochs else epochs ++ [epoch]).

Definition decode_revoked_epochs (value : CborValue) : result (list EpochId) SnapshotError :=
  match CborValue.get value 7 with
  | None => Ok []
  | Some values =>
      values <-? ok_of_option (as_array values) SnapshotError.Malformed ;;
      if Z.of_nat (length values) >? MAX_REVOKED_EPOCHS then Err SnapshotError.TooLarge
      else try_fold push_epoch [] values
  end.

Module ClientSnapshot.
Record ClientSnapshot := mk {
  kem_secret_key : list byte;
  signing_secret_key : list byte;
  credential_envelope : option (list byte);
  epoch_certificates : list (list byte);
  validation_ticket : option (list byte);
  pending_activation_nonce : option (list byte);
  revoked_epochs : list EpochId;
}.

Definition new (kem_secret_key signing_secret_key : list byte) : ClientSnapshot :=
  mk kem_secret_key signing_secret_key None [] None None [].

Definition to_value (s : ClientSnapshot) : CborValue :=
  let b := MapBuilder.new in
  let b := MapBuilder.put b 0 (Uint SNAPSHOT_SCHEMA) in
  let b := MapBuilder.put b 1 (Bytes (kem_secret_key s)) in
  let b := MapBuilder.put b 2 (Bytes (signing_secret_key s)) in
  let b := MapBuilder.put_opt b 3 (option_map Bytes (credential_envelope s)) in
  let b := MapBuilder.put b 4 (Array (map Bytes (epoch_certificates s))) in
  let b := MapBuilder.put_opt b 5 (option_map Bytes (validation_ticket s)) in
  let b := MapBuilder.put_opt b 6 (option_map Bytes (pending_activation_nonce s)) in
  let b := MapBuilder.put b 7 (Array (map Bytes (revoked_epochs s))) in
  MapBuilder.build b.

Definition encode (s : ClientSnapshot) : result (list byte) SnapshotError :=
  check? validate_secret (kem_secret_key s) ;;
  check? validate_secret (signing_secret_key s) ;;
  check? validate_optional_artifact (credential_envelope s) ;;
  check? validate_optional_artifact (validation_ticket s) ;;
  check? validate_certificates (epoch_certificates s) ;;
  let encoded := CborValue.to_canonical (to_value s) in
  if Z.of_nat (length encoded) >? MAX_RECORD_LEN then Err SnapshotError.TooLarge else Ok encoded.

Definition decode (bytes : list byte) : result ClientSnapshot SnapshotError :=
  if Z.of_nat (length bytes) >? MAX_RECORD_LEN then Err SnapshotError.TooLarge
  else
    value <-? map_err SnapshotError.Codec (Parser.decode_canonical bytes SNAPSHOT_LIMITS) ;;
    v <-? required value 0 ;;
    schema <-? ok_of_option (as_uint v) SnapshotError.Malformed ;;
    if negb (schema =? SNAPSHOT_SCHEMA) then Err SnapshotError.UnsupportedSchema
    else
      kem_secret_key <-? required_bytes value 1 ;;
      signing_secret_key <-? required_bytes value 2 ;;
      check? validate_secret kem_secret_key ;;
      check? validate_secret signing_secret_key ;;
      credential_envelope <-? optional_bytes value 3 ;;
      validation_ticket <-? optional_bytes value 5 ;;
      check? validate_optional_artifact credential_envelope ;;
      check? validate_optional_artifact validation_ticket ;;
      epoch_certificates <-? decode_certificates value ;;
      nonce <-? optional_bytes value 6 ;;
      pending_activation_nonce <-? match nonce with
        | None => Ok None
        | Some b => n <-? fixed_bytes 32 b ;; Ok (Some n)
        end ;;
      revoked_epochs <-? decode_revoked_epochs value ;;
      Ok (mk kem_secret_key signing_secret_key credential_envelope epoch_certificates
             validation_ticket pending_activation_nonce revoked_epochs).

Definition set_credential_envelope (s : ClientSnapshot) (v : option (list byte)) : ClientSnapshot :=
  mk (kem_secret_key s) (signing_secret_key s) v (epoch_certificates s) (validation_ticket s)
     (pending_activation_nonce s) (revoked_epochs s).
Definition set_epoch_certificates (s : ClientSnapshot) (v : list (list byte)) : ClientSnapshot :=
  mk (kem_secret_key s) (signing_secret_key s) (credential_envelope s) v (validation_ticket s)
     (pending_activation_nonce s) (revoked_epochs s).
Definition set_validation_ticket (s : ClientSnapshot) (v : option (list byte)) : ClientSnapshot :=
  mk (kem_secret_key s) (signing_secret_key s) (credential_envelope s) (epoch_certificates s) v
     (pending_activation_nonce s) (revoked_epochs s).
Definition set_pending_activation_nonce (s : ClientSnapshot) (v : option (list byte)) : ClientSnapshot :=
  mk (kem_secret_key s) (signing_secret_key s) (credential_envelope s) (epoch_certificates s)
     (validation_ticket s) v (revoked_epochs s).
Definition set_revoked_epochs (s : ClientSnapshot) (v : list EpochId) : ClientSnapshot :=
  mk (kem_secret_key s) (signing_secret_key s) (credential_envelope s) (epoch_certificates s)
     (validation_ticket s) (pending_activation_nonce s) v.
End ClientSnapshot.
Notation ClientSnapshot := ClientSnapshot.ClientSnapshot.

(** ** Round trip *)

(** The widths of the nonce and of the epoch ids, and the revoked list as [decode] builds it. *)
Definition snapshot_typed (s : ClientSnapshot) : Prop :=
  match ClientSnapshot.pending_activation_nonce s with Some n => length n = 32%nat | None => True end /\
  Forall (fun e => length e = 8%nat) (ClientSnapshot.revoked_epochs s) /\
  NoDup (ClientSnapshot.revoked_epochs s).

Lemma validate_secret_ok v : validate_secret v = Ok tt -> 0 < Z.of_nat (length v) <= MAX_SECRET_KEY_BYTES.
Proof.
  unfold validate_secret. destruct (Nat.eqb_spec (length v) 0); [done|].
  destruct (Z.gtb_spec (Z.of_nat (length v)) MAX_SECRET_KEY_BYTES); [done|]. lia.
Qed.
Lemma validate_artifact_ok v b : validate_optional_artifact v = Ok tt -> v = Some b ->
  0 < Z.of_nat (length b) <= MAX_ARTIFACT_BYTES.
Proof.
  intros H ->. revert H. cbn. destruct (Nat.eqb_spec (length b) 0); [done|].
  destruct (Z.gtb_spec (Z.of_nat (length b)) MAX_ARTIFACT_BYTES); [done|]. lia.
Qed.
Lemma certificate_good b : certificate_bad b = false -> Z.of_nat (length b) <= MAX_EPOCH_CERTIFICATE_BYTES.
Proof.
  unfold certificate_bad. destruct (Z.gtb_spec (Z.of_nat (length b)) MAX_EPOCH_CERTIFICATE_BYTES); [|lia].
  by rewrite orb_true_r.
Qed.
Lemma validate_certificates_ok cs : validate_certificates cs = Ok tt ->
  Z.of_nat (length cs) <= MAX_KEYSET_CERTIFICATES /\ Forall (fun c => certificate_bad c = false) cs.
Proof.
  unfold validate_certificates. destruct (Z.gtb_spec (Z.of_nat (length cs)) MAX_KEYSET_CERTIFICATES); [done|]. cbn [orb].
  destruct (existsb certificate_bad cs) eqn:E; [done|]. intros _. split; [lia|]. apply Forall_forall. intros c Hc.
  destruct (certificate_bad c) eqn:Ec; [|done]. assert (Hx : existsb certificate_bad cs = true); [|congruence].
  apply existsb_exists. exists c. split; [by apply list_elem_of_In|done].
Qed.

Lemma push_epochs_ok es : forall acc,
  Forall (fun e => length e = 8%nat) es -> NoDup (acc ++ es) ->
  try_fold push_epoch acc (map norm (map Bytes es)) = Ok (acc ++ es).
Proof.
  induction es as [|e es IH]; intros acc Hl Hn; cbn; [by rewrite app_nil_r|].
  apply Forall_cons in Hl as [He Hl]. unfold push_epoch at 1. cbn. unfold fixed_bytes. rewrite He. cbn.
  assert (Hx : e ∉ acc). { intros Hin. apply NoDup_app in Hn as (_ & Hd & _). apply (Hd e Hin). by left. }
  rewrite bool_decide_false by done. rewrite IH, <- app_assoc by (done || by rewrite <- app_assoc). done.
Qed.

Lemma certificates_decode cs : Forall (fun c => certificate_bad c = false) cs ->
  traverse decode_certificate (map norm (map Bytes cs)) = Ok cs.
Proof.
  intros Hcs. rewrite map_map, (traverse_map _ _ id); [by rewrite map_id|]. intros c Hc.
  rewrite Forall_forall in Hcs. unfold decode_certificate. cbn. by rewrite Hcs.
Qed.

Lemma snapshot_leaf s : leaf_keys (ClientSnapshot.to_value s) = true.
Proof. unfold ClientSnapshot.to_value. leaf_fields. Qed.

(** Every field that [encode] admits is within the decoder's limits, if the revoked list is. *)
Lemma snapshot_within s b :
  snapshot_typed s -> ClientSnapshot.encode s = Ok b ->
  Z.of_nat (length (ClientSnapshot.revoked_epochs s)) <= Limits.max_items SNAPSHOT_LIMITS ->
  within SNAPSHOT_LIMITS 17 (ClientSnapshot.to_value s).
Proof.
  intros (Hn & He & _) Henc Hrev. unfold ClientSnapshot.encode in Henc.
  repeat match type of Henc with rbind ?m _ = Ok _ => let u := fresh in destruct m as [u|] eqn:?; [destruct u|done]; cbn [rbind] in Henc end.
  repeat match goal with
  | H : validate_secret _ = Ok tt |- _ => apply validate_secret_ok in H
  | H : validate_certificates _ = Ok tt |- _ => apply validate_certificates_ok in H as [? ?]
  end.
  assert (Hmax : Limits.max_string SNAPSHOT_LIMITS = 16777216) by done.
  unfold MAX_SECRET_KEY_BYTES, MAX_ARTIFACT_BYTES, MAX_KEYSET_CERTIFICATES in *.
  unfold ClientSnapshot.to_value. as_fields. apply within_fields; [done|by apply keys_NoDup|].
  repeat apply List.Forall_cons; try apply List.Forall_nil; (split; [by split|]); intros w Hw; cbn [snd] in Hw.
  - injection Hw as <-. by split.
  - injection Hw as <-. apply bytes_within. rewrite Hmax. lia.
  - injection Hw as <-. apply bytes_within. rewrite Hmax. lia.
  - destruct (ClientSnapshot.credential_envelope s) as [c|] eqn:Ec; [|done]. injection Hw as <-.
    apply bytes_within. rewrite Hmax. match goal with H : validate_optional_artifact (Some c) = _ |- _ =>
      apply (validate_artifact_ok _ c) in H; [unfold MAX_ARTIFACT_BYTES in H; lia|done] end.
  - injection Hw as <-. apply array_within; [cbn; lia|]. intros c Hc. apply bytes_within. rewrite Hmax.
    match goal with H : Forall _ _ |- _ => rewrite Forall_forall in H; specialize (H c Hc); apply certificate_good in H;
      unfold MAX_EPOCH_CERTIFICATE_BYTES in H; lia end.
  - destruct (ClientSnapshot.validation_ticket s) as [c|] eqn:Ec; [|done]. injection Hw as <-.
    apply bytes_within. rewrite Hmax. match goal with H : validate_optional_artifact (Some c) = _ |- _ =>
      apply (validate_artifact_ok _ c) in H; [unfold MAX_ARTIFACT_BYTES in H; lia|done] end.
  - destruct (ClientSnapshot.pending_activation_nonce s) as [n|]; [|done]. injection Hw as <-.
    apply bytes_within. rewrite Hmax, Hn. lia.
  - injection Hw as <-. apply array_within; [done|]. intros e Hin. rewrite Forall_forall in He.
    apply bytes_within. rewrite Hmax, (He e Hin). lia.
Qed.

(** The device's state survives a restart: a snapshot that encodes, with at most as many
    revoked epochs as the decoder's item limit, decodes to itself. *)
Theorem snapshot_roundtrip (s : ClientSnapshot) (b : list byte) :
  snapshot_typed s -> ClientSnapshot.encode s = Ok b ->
  Z.of_nat (length (ClientSnapshot.revoked_epochs s)) <= Limits.max_items SNAPSHOT_LIMITS ->
  ClientSnapshot.decode b = Ok s.
Proof.
  intros Ht Henc Hrev. pose proof (snapshot_within s b Ht Henc Hrev) as Hw. pose proof (snapshot_leaf s) as Hleaf.
  destruct Ht as (Hn & He & Hnd). unfold ClientSnapshot.encode in Henc.
  destruct (validate_secret (ClientSnapshot.kem_secret_key s)) as [[]|] eqn:E1; cbn [rbind] in Henc; [|done].
  destruct (validate_secret (ClientSnapshot.signing_secret_key s)) as [[]|] eqn:E2; cbn [rbind] in Henc; [|done].
  destruct (validate_optional_artifact (ClientSnapshot.credential_envelope s)) as [[]|] eqn:E3; cbn [rbind] in Henc; [|done].
  destruct (validate_optional_artifact (ClientSnapshot.validation_ticket s)) as [[]|] eqn:E4; cbn [rbind] in Henc; [|done].
  destruct (validate_certificates (ClientSnapshot.epoch_certificates s)) as [[]|] eqn:E5; cbn [rbind] in Henc; [|done].
  apply validate_certificates_ok in E5 as [Hc Hcs].
  destruct (Z.of_nat (length (to_canonical (ClientSnapshot.to_value s))) >? MAX_RECORD_LEN) eqn:El; [done|].
  assert (Hb : b = to_canonical (ClientSnapshot.to_value s)) by congruence. rewrite Hb. clear Henc Hb.
  unfold ClientSnapshot.decode. rewrite El.
  rewrite decode_to_canonical by first [exact Hw|exact Hleaf|split; by split]. cbn [map_err rbind].
  assert (Hm : exists es, norm (ClientSnapshot.to_value s) = Map es) by (by eexists).
  destruct Hm as [es Hm]. unfold ClientSnapshot.to_value in *. clear Hw Hleaf El. revert Hm.
  abstract_fields. intros ->. unfold required_bytes, optional_bytes, decode_certificates, decode_revoked_epochs, required.
  cbn [as_map]. rewrite !Hget. cbn -[norm Z.of_nat validate_secret validate_optional_artifact MAX_KEYSET_CERTIFICATES MAX_REVOKED_EPOCHS fixed_bytes].
  cbn [norm as_bytes as_array as_uint ok_of_option rbind negb SNAPSHOT_SCHEMA Z.eqb Pos.eqb].
  rewrite E1, E2. cbn [rbind].
  assert (Hnon : match (ClientSnapshot.pending_activation_nonce s) with Some b => x <-? fixed_bytes 32 b ;; Ok (Some x) | None => Ok None end = Ok (ClientSnapshot.pending_activation_nonce s)).
  { destruct (ClientSnapshot.pending_activation_nonce s); [|done]. unfold fixed_bytes. by rewrite Hn. }
  destruct s as [k g c cs t n r]. cbn -[fixed_bytes validate_optional_artifact certificate_bad] in *. revert Hnon.
  destruct c as [c|], t as [t|], n as [n|]; cbn -[fixed_bytes validate_optional_artifact]; intros Hnon; rewrite ?E3, ?E4; cbn [rbind];
    rewrite !length_map; destruct (Z.gtb_spec (Z.of_nat (length cs)) MAX_KEYSET_CERTIFICATES); try lia;
    rewrite (certificates_decode cs Hcs); cbn [rbind]; rewrite ?Hnon; cbn [rbind];
    destruct (Z.gtb_spec (Z.of_nat (length r)) MAX_REVOKED_EPOCHS); unfold MAX_REVOKED_EPOCHS in *; try lia;
    rewrite (push_epochs_ok r []) by done; done.
Qed.

Lemma push_epoch_inv acc item out :
  push_epoch acc item = Ok out -> Forall (fun e => length e = 8%nat) acc -> NoDup acc ->
  Forall (fun e => length e = 8%nat) out /\ NoDup out.
Proof.
  unfold push_epoch. destruct (as_bytes item) as [b|]; cbn; [|done]. unfold fixed_bytes.
  destruct (Nat.eqb_spec (length b) 8); cbn; [|done]. intros [= <-] Ha Hn.
  destruct (bool_decide (b ∈ acc)) eqn:E; [done|]. bprop. split; [apply Forall_app; split; [done|by repeat constructor]|].
  apply NoDup_app. split_and!; [done| |apply NoDup_singleton].
  intros x Hx ->%list_elem_of_singleton. done.
Qed.

Lemma decode_revoked_typed v es : decode_revoked_epochs v = Ok es ->
  Forall (fun e => length e = 8%nat) es /\ NoDup es.
Proof.
  unfold decode_revoked_epochs. destruct (get v 7) as [w|]; [|intros [= <-]; by split; constructor].
  destruct (as_array w) as [vs|]; cbn; [|done]. destruct (_ >? _); [done|]. intros Hf.
  eapply (try_fold_inv (fun es => Forall (fun e => length e = 8%nat) es /\ NoDup es)); [|by split; constructor|exact Hf].
  intros acc item out _ [Ha Hn] Ho. by eapply push_epoch_inv.
Qed.

Lemma traverse_certificates vs : forall cs, traverse decode_certificate vs = Ok cs ->
  length cs = length vs /\ existsb certificate_bad cs = false.
Proof.
  induction vs as [|v vs IH]; intros cs; cbn; [by intros [= <-]|].
  destruct (decode_certificate v) as [c|] eqn:Ec; cbn; [|done].
  destruct (traverse decode_certificate vs) as [cs'|]; cbn; [|done]. intros [= <-]. destruct (IH cs' eq_refl) as [Hl He].
  cbn. rewrite Hl, He, orb_false_r. split; [done|]. unfold decode_certificate in Ec.
  destruct (as_bytes v) as [b|]; cbn in Ec; [|done]. destruct (certificate_bad b) eqn:E; [done|]. by injection Ec as <-.
Qed.

Lemma decode_certificates_valid v cs : decode_certificates v = Ok cs -> validate_certificates cs = Ok tt.
Proof.
  unfold decode_certificates. destruct (required v 4) as [w|]; cbn; [|done].
  destruct (as_array w) as [vs|]; cbn; [|done]. destruct (_ >? _) eqn:El; [done|].
  intros [Hl He]%traverse_certificates. unfold validate_certificates. by rewrite Hl, El, He.
Qed.

(** C25 Whatever bytes the store hands back, a snapshot that decodes has keys and artifacts within
    their bounds, a nonce and epoch ids of their widths, and no epoch listed twice. *)
Theorem snapshot_decode_typed (b : list byte) (s : ClientSnapshot) :
  ClientSnapshot.decode b = Ok s ->
  snapshot_typed s /\
  0 < Z.of_nat (length (ClientSnapshot.kem_secret_key s)) <= MAX_SECRET_KEY_BYTES /\
  0 < Z.of_nat (length (ClientSnapshot.signing_secret_key s)) <= MAX_SECRET_KEY_BYTES /\
  validate_optional_artifact (ClientSnapshot.credential_envelope s) = Ok tt /\
  validate_optional_artifact (ClientSnapshot.validation_ticket s) = Ok tt /\
  validate_certificates (ClientSnapshot.epoch_certificates s) = Ok tt.
Proof.
  unfold ClientSnapshot.decode. destruct (_ >? _); [done|].
  intros (v & _ & (r0 & _ & (schema & _ & Hd)%rbind_ok)%rbind_ok)%rbind_ok. destruct (negb _); [done|].
  apply rbind_ok in Hd as (k & _ & (g & _ & ([] & Hk & ([] & Hg & (c & _ & (t & _ & ([] & Hc & ([] & Ht & Hd)%rbind_ok)
    %rbind_ok)%rbind_ok)%rbind_ok)%rbind_ok)%rbind_ok)%rbind_ok).
  apply rbind_ok in Hd as (cs & Hcs & (n & _ & (pn & Hn & (es & Hes & [= <-])%rbind_ok)%rbind_ok)%rbind_ok). cbn.
  apply decode_revoked_typed in Hes as [He Hnd]. apply decode_certificates_valid in Hcs.
  apply validate_secret_ok in Hk, Hg. split_and!; try done; try lia. split_and!; [|done..]. cbn.
  destruct n as [b'|]; [|by injection Hn as <-]. apply rbind_ok in Hn as (x & Hx & [= <-]). revert Hx. unfold fixed_bytes.
  destruct (Nat.eqb_spec (length b') 32); [|done]. by intros [= <-].
Qed.

(** Nothing bounds the revoked list when it is written: the four thousand and ninety-seventh
    revoked epoch makes a snapshot that is saved and can never be read again. *)
Definition crowded : ClientSnapshot :=
  ClientSnapshot.set_revoked_epochs (ClientSnapshot.new [1] [2])
    (map (fun i => be_bytes 8 (Z.of_nat i)) (seq 0 4097)).
Theorem revoked_epochs_outgrow_snapshot :
  exists b e, ClientSnapshot.encode crowded = Ok b /\ ClientSnapshot.decode b = Err e /\
    Z.of_nat (length (ClientSnapshot.revoked_epochs crowded)) <= MAX_REVOKED_EPOCHS.
Proof.
  assert (Hx : match ClientSnapshot.encode crowded with
    | Ok b => negb (is_ok (ClientSnapshot.decode b)) | Err _ => false end = true) by (vm_compute; reflexivity).
  destruct (ClientSnapshot.encode crowded) as [b|]; [|done].
  destruct (ClientSnapshot.decode b) as [|e] eqn:E; [done|]. exists b, e. split_and!; [done|done|vm_compute; discriminate].
Qed.

Definition demo_snapshot : ClientSnapshot :=
  ClientSnapshot.mk [17] [34] (Some [1; 2; 3]) [[4; 5]] (Some [6; 7]) (Some (repeat 8 32)) [repeat 9 8].
Lemma snapshot_roundtrip_witness :
  exists b, ClientSnapshot.encode demo_snapshot = Ok b /\ ClientSnapshot.decode b = Ok demo_snapshot.
Proof.
  destruct (ClientSnapshot.encode demo_snapshot) as [b|] eqn:E; [|vm_compute in E; discriminate].
  exists b. split; [done|]. apply (snapshot_roundtrip demo_snapshot b); [|exact E|vm_compute; discriminate].
  split_and!; [reflexivity|by repeat constructor|]. apply NoDup_singleton.
Defined.
Lemma snapshot_decode_typed_witness :
  exists b s, ClientSnapshot.decode b = Ok s /\ snapshot_typed s.
Proof.
  destruct (ClientSnapshot.encode demo_snapshot) as [b|] eqn:E; [|vm_compute in E; discriminate].
  destruct (ClientSnapshot.decode b) as [s|] eqn:Ed; [|vm_compute in E; injection E as <-; vm_compute in Ed; discriminate].
  exists b, s. split; [done|]. apply (snapshot_decode_typed b s Ed).
Defined.
