(* ===== verification/Scheduler.v ===== *)
(** * Client configuration and validation scheduling
      ([crates/copylocker-client/src/config.rs], [scheduler.rs])

    A [Duration] is its nanoseconds, at most [u64::MAX] seconds and 999999999 nanoseconds; the
    times of the scheduler are seconds in [i64]. *)

From S2P Require Import Prelude Types Clock Errors StateMachine Cbor Field Chain Requests Suite.

(** ** Durations *)
Module Duration.
Definition Duration : Type := Z.
Definition NANOS_PER_SEC : Z := 1000000000.
Definition NANOS_PER_MILLI : Z := 1000000.
Definition MAX : Duration := u64_max * NANOS_PER_SEC + 999999999.
Definition ZERO : Duration := 0.
Definition from_secs (s : Z) : Duration := s * NANOS_PER_SEC.
Definition from_millis (m : Z) : Duration := m * NANOS_PER_MILLI.
Definition as_secs (d : Duration) : Z := d / NANOS_PER_SEC.
Definition as_millis (d : Duration) : Z := d / NANOS_PER_MILLI.
Definition is_zero (d : Duration) : bool := d =? 0.
Definition saturating_mul (d : Duration) (n : Z) : Duration := Z.min (d * n) MAX.
Definition valid (d : Duration) : Prop := 0 <= d <= MAX.
End Duration.
Notation Duration := Duration.Duration.

(** ** Configuration *)
Definition MAX_IDENTIFIER_LEN : nat := 128.
Definition MAX_PIN_BYTES : Z := 64 * 1024.
Definition MAX_FINGERPRINT_SALT_BYTES : Z := 64 * 1024.
Definition MAX_NETWORK_RECOVERY_POLL : Duration := Duration.from_secs 60.

Module SchedulerConfig.
Record SchedulerConfig := mk { base_retry : Duration; max_retry : Duration; poll_interval : Duration }.
Definition default_ : SchedulerConfig :=
  mk (Duration.from_secs 30) (Duration.from_secs (6 * 60 * 60)) (Duration.from_secs 30).
End SchedulerConfig.
Notation SchedulerConfig := SchedulerConfig.SchedulerConfig.

Module ConfigError.
Inductive ConfigError :=
| InvalidServerUrl | InvalidIdentifier | InvalidRootKey | InvalidFingerprintSalt
| PrivacyAcknowledgementRequired | InvalidTiming | InvalidClientInfo | InvalidEndpoint.
End ConfigError.
Notation ConfigError := ConfigError.ConfigError.

(** What the [url] crate reports of a parsed URL, and its [join]. *)
Class UrlParser := {
  Url : Type;
  url_scheme : Url -> string;
  url_cannot_be_a_base : Url -> bool;
  url_username : Url -> string;
  url_password : Url -> option string;
  url_query : Url -> option string;
  url_fragment : Url -> option string;
  url_path : Url -> string;
  url_host_str : Url -> option string;
  (** [host.parse::<IpAddr>().is_ok_and(|a| a.is_loopback())]. *)
  ip_is_loopback : string -> bool;
  url_join : Url -> string -> option Url;
  url_parse : string -> option Url;
  url_to_string : Url -> string;
}.

Section Config.
Context `{U : UrlParser}.

(** [eq_ignore_ascii_case]. *)
Definition ascii_lower (a : ascii) : ascii :=
  let n := N_of_ascii a in if ((65 <=? n) && (n <=? 90))%N then ascii_of_N (n + 32) else a.
Definition eq_ignore_ascii_case (a b : string) : bool :=
  bool_decide (map ascii_lower (String.list_ascii_of_string a) = map ascii_lower (String.list_ascii_of_string b)).

Definition is_loopback (url : Url) : bool :=
  match url_host_str url with
  | Some host => eq_ignore_ascii_case host "localhost" || ip_is_loopback host
  | None => false
  end.

Definition is_none {A} (o : option A) : bool := match o with None => true | Some _ => false end.

Definition validate_server_url (url : Url) (allow_insecure_localhost : bool) : result unit ConfigError :=
  let scheme_allowed :=
    bool_decide (url_scheme url = "https"%string) ||
    (bool_decide (url_scheme url = "http"%string) && allow_insecure_localhost && is_loopback url) in
  if negb scheme_allowed || url_cannot_be_a_base url || negb (String.length (url_username url) =? 0)%nat ||
     negb (is_none (url_password url)) || negb (is_none (url_query url)) || negb (is_none (url_fragment url)) ||
     negb (bool_decide (url_path url = "/"%string))
  then Err ConfigError.InvalidServerUrl else Ok tt.

Definition identifier_char (a : ascii) : bool :=
  let n := N_of_ascii a in
  ((48 <=? n) && (n <=? 57) || (65 <=? n) && (n <=? 90) || (97 <=? n) && (n <=? 122) ||
   (n =? 45) || (n =? 95) || (n =? 46))%N.
Definition validate_identifier (value : string) : result unit ConfigError :=
  if (String.length value =? 0)%nat || (MAX_IDENTIFIER_LEN <? String.length value)%nat ||
     negb (forallb identifier_char (String.list_ascii_of_string value))
  then Err ConfigError.InvalidIdentifier else Ok tt.

Definition bad_info_string (s : string) : bool :=
  (String.length s =? 0)%nat || (1024 <? String.length s)%nat ||
  bool_decide (Ascii.zero ∈ String.list_ascii_of_string s).

Definition validate_client_info (info : ClientInfo) (evidence : EnvEvidence) : result unit ConfigError :=
  let strings := [ClientInfo.app_version info; ClientInfo.sdk_version info; ClientInfo.os info;
                  ClientInfo.arch info; ClientInfo.build_fingerprint info; ClientInfo.release_id info] in
  if existsb bad_info_string strings || (length (ClientInfo.supported_suites info) =? 0)%nat ||
     negb (bool_decide (ClientInfo.variant_id info ∈ ClientInfo.supported_variants info)) ||
     negb (bool_decide (EnvEvidence.build_fingerprint evidence = text_bytes (ClientInfo.build_fingerprint info)))
  then Err ConfigError.InvalidClientInfo else Ok tt.

Record Config := mk_config {
  server_url : Url;
  app_id : string;
  product_id : string;
  client_info : ClientInfo;
  current_root_key : list byte;
  next_root_key : option (list byte);
  fingerprint_salt : list byte;
  variant_const : list byte;
  evidence : EnvEvidence;
  report_device_attributes : bool;
  privacy_ack : bool;
  allow_unbound_olk : bool;
  allow_insecure_localhost : bool;
  request_timeout : Duration;
  scheduler : SchedulerConfig;
  core : CoreConfig;
}.

Definition bad_key (limit : Z) (k : list byte) : bool :=
  (length k =? 0)%nat || (Z.of_nat (length k) >? limit).

Definition bad_timing (c : Config) : bool :=
  Duration.is_zero (request_timeout c) || Duration.is_zero (SchedulerConfig.base_retry (scheduler c)) ||
  (SchedulerConfig.max_retry (scheduler c) <? SchedulerConfig.base_retry (scheduler c)) ||
  Duration.is_zero (SchedulerConfig.poll_interval (scheduler c)) ||
  (SchedulerConfig.poll_interval (scheduler c) >? MAX_NETWORK_RECOVERY_POLL) ||
  (CoreConfig.min_validation_interval_secs (core c) <? 0).

Definition validate (c : Config) : result unit ConfigError :=
  check? validate_server_url (server_url c) (allow_insecure_localhost c) ;;
  check? validate_identifier (app_id c) ;;
  check? validate_identifier (product_id c) ;;
  if bad_key MAX_PIN_BYTES (current_root_key c) then Err ConfigError.InvalidRootKey
  else if match next_root_key c with Some k => bad_key MAX_PIN_BYTES k | None => false end
  then Err ConfigError.InvalidRootKey
  else if bad_key MAX_FINGERPRINT_SALT_BYTES (fingerprint_salt c) then Err ConfigError.InvalidFingerprintSalt
  else if report_device_attributes c && negb (privacy_ack c) then Err ConfigError.PrivacyAcknowledgementRequired
  else if bad_timing c then Err ConfigError.InvalidTiming
  else validate_client_info (client_info c) (evidence c).

Definition new_with_localhost_http (url app_id product_id : string) (client_info : ClientInfo)
    (current_root_key fingerprint_salt variant_const : list byte) (evidence : EnvEvidence)
    (allow_insecure_localhost : bool) : result Config ConfigError :=
  server_url <-? ok_of_option (url_parse url) ConfigError.InvalidServerUrl ;;
  let config := mk_config server_url app_id product_id client_info current_root_key None fingerprint_salt
    variant_const evidence false false false allow_insecure_localhost (Duration.from_secs 30)
    SchedulerConfig.default_ CoreConfig.default in
  check? validate config ;; Ok config.
Definition new (url app_id product_id : string) (client_info : ClientInfo)
    (current_root_key fingerprint_salt variant_const : list byte) (evidence : EnvEvidence) : result Config ConfigError :=
  new_with_localhost_http url app_id product_id client_info current_root_key fingerprint_salt variant_const evidence false.

(** The builders: each replaces its field and validates the whole again. *)
Definition validated (config : Config) : result Config ConfigError :=
  check? validate config ;; Ok config.

Definition with_next_root_key (c : Config) (key : list byte) : result Config ConfigError :=
  validated (mk_config (server_url c) (app_id c) (product_id c) (client_info c) (current_root_key c) (Some key)
    (fingerprint_salt c) (variant_const c) (evidence c) (report_device_attributes c) (privacy_ack c)
    (allow_unbound_olk c) (allow_insecure_localhost c) (request_timeout c) (scheduler c) (core c)).
Definition with_device_attribute_reporting (c : Config) (enabled ack : bool) : result Config ConfigError :=
  validated (mk_config (server_url c) (app_id c) (product_id c) (client_info c) (current_root_key c)
    (next_root_key c) (fingerprint_salt c) (variant_const c) (evidence c) enabled ack
    (allow_unbound_olk c) (allow_insecure_localhost c) (request_timeout c) (scheduler c) (core c)).
Definition with_unbound_olk (c : Config) (enabled : bool) : result Config ConfigError :=
  validated (mk_config (server_url c) (app_id c) (product_id c) (client_info c) (current_root_key c)
    (next_root_key c) (fingerprint_salt c) (variant_const c) (evidence c) (report_device_attributes c) (privacy_ack c)
    enabled (allow_insecure_localhost c) (request_timeout c) (scheduler c) (core c)).
Definition with_insecure_localhost (c : Config) (enabled : bool) : result Config ConfigError :=
  validated (mk_config (server_url c) (app_id c) (product_id c) (client_info c) (current_root_key c)
    (next_root_key c) (fingerprint_salt c) (variant_const c) (evidence c) (report_device_attributes c) (privacy_ack c)
    (allow_unbound_olk c) enabled (request_timeout c) (scheduler c) (core c)).
Definition with_request_timeout (c : Config) (timeout : Duration) : result Config ConfigError :=
  validated (mk_config (server_url c) (app_id c) (product_id c) (client_info c) (current_root_key c)
    (next_root_key c) (fingerprint_salt c) (variant_const c) (evidence c) (report_device_attributes c) (privacy_ack c)
    (allow_unbound_olk c) (allow_insecure_localhost c) timeout (scheduler c) (core c)).
Definition with_scheduler (c : Config) (s : SchedulerConfig) : result Config ConfigError :=
  validated (mk_config (server_url c) (app_id c) (product_id c) (client_info c) (current_root_key c)
    (next_root_key c) (fingerprint_salt c) (variant_const c) (evidence c) (report_device_attributes c) (privacy_ack c)
    (allow_unbound_olk c) (allow_insecure_localhost c) (request_timeout c) s (core c)).
Definition with_core_config (c : Config) (k : CoreConfig) : result Config ConfigError :=
  validated (mk_config (server_url c) (app_id c) (product_id c) (client_info c) (current_root_key c)
    (next_root_key c) (fingerprint_salt c) (variant_const c) (evidence c) (report_device_attributes c) (privacy_ack c)
    (allow_unbound_olk c) (allow_insecure_localhost c) (request_timeout c) (scheduler c) k).

(** [str::contains] of a two-character pattern. *)
Fixpoint contains_dotdot (l : list ascii) : bool :=
  match l with
  | "."%char :: (("."%char :: _) as rest) => true
  | _ :: rest => contains_dotdot rest
  | [] => false
  end.

Definition endpoint (c : Config) (path : string) : result Url ConfigError :=
  let chars := String.list_ascii_of_string path in
  if negb (String.prefix "v1/" path) || bool_decide ("\"%char ∈ chars) || contains_dotdot chars
  then Err ConfigError.InvalidEndpoint
  else ok_of_option (url_join (server_url c) path) ConfigError.InvalidEndpoint.
End Config.

(** ** The scheduler *)
Definition JITTER_BASE : Z := 8500.
Definition JITTER_SPAN : Z := 3001.
Definition JITTER_SCALE : Z := 10000.
Definition u128_max : Z := 2 ^ 128 - 1.

Definition jitter (base : Duration) (sample : Z) : Duration :=
  let factor := JITTER_BASE + sample mod JITTER_SPAN in
  let millis := Z.min (Duration.as_millis base * factor) u128_max / JITTER_SCALE in
  let millis := try_into_or u64_max millis u64_max in
  Duration.from_millis millis.

Module SchedulerState.
Record SchedulerState := mk {
  next_attempt_at : option Z; last_attempt_at : option Z; consecutive_failures : Z; startup_pending : bool }.

Definition new (has_credential : bool) : SchedulerState := mk None None 0 has_credential.

Definition disable (s : SchedulerState) : SchedulerState := mk None (last_attempt_at s) 0 false.
Definition mark_attempt (s : SchedulerState) (now : Z) : SchedulerState :=
  mk (next_attempt_at s) (Some now) (consecutive_failures s) (startup_pending s).

Definition hint_due (s : SchedulerState) (now : Z) (online_hint : bool) (minimum_interval_secs : Z) : bool :=
  online_hint && match last_attempt_at s with
                 | Some last => sat_sub_i64 now last >=? minimum_interval_secs
                 | None => true
                 end.
Definition timer_due (s : SchedulerState) (now : Z) : bool :=
  match next_attempt_at s with Some next => now >=? next | None => false end.

Definition should_attempt (s : SchedulerState) (now : Z) (has_credential online_hint core_requested : bool)
    (minimum_interval_secs : Z) : bool * SchedulerState :=
  if negb has_credential then (false, disable s)
  else if startup_pending s || core_requested || hint_due s now online_hint minimum_interval_secs || timer_due s now
  then (true, mark_attempt (mk (next_attempt_at s) (last_attempt_at s) (consecutive_failures s) false) now)
  else (false, s).

Definition record_success (s : SchedulerState) (now interval_start nominal_deadline sample : Z) : SchedulerState :=
  let interval_secs := Z.max (sat_sub_i64 nominal_deadline interval_start) 1 in
  let jittered := jitter (Duration.from_secs interval_secs) sample in
  let jittered_secs := try_into_or i64_max (Duration.as_secs jittered) i64_max in
  mk (Some (Z.max (sat_add_i64 interval_start jittered_secs) (sat_add_i64 now 1))) (last_attempt_at s) 0 false.

(** The delay [record_failure] adds to the current time. *)
Definition backoff (failures : Z) (config : SchedulerConfig) (retry_after : option Duration) : Duration :=
  let exponent := Z.min (Z.max 0 (failures - 1)) 6 in
  let multiplier := Z.shiftl 1 exponent in
  let exponential := Duration.saturating_mul (SchedulerConfig.base_retry config) multiplier in
  let requested := default Duration.ZERO retry_after in
  Z.min (Z.max exponential requested) (SchedulerConfig.max_retry config).

Definition record_failure (s : SchedulerState) (now : Z) (config : SchedulerConfig)
    (retry_after : option Duration) (sample : Z) : SchedulerState :=
  let failures := Z.min (consecutive_failures s + 1) u8_max in
  let delay := jitter (backoff failures config retry_after) sample in
  let delay_secs := try_into_or i64_max (Z.max (Duration.as_secs delay) 1) i64_max in
  mk (Some (sat_add_i64 now delay_secs)) (last_attempt_at s) failures (startup_pending s).

Definition next_delay (s : SchedulerState) (now : Z) (poll_interval : Duration) : Duration :=
  if startup_pending s || match next_attempt_at s with Some next => next <=? now | None => false end
  then Duration.ZERO
  else
    let until_attempt := match next_attempt_at s with
      | Some next => Duration.from_secs (let d := sat_sub_i64 next now in if d <? 0 then u64_max else d)
      | None => poll_interval
      end in
    Z.min poll_interval until_attempt.
End SchedulerState.
Notation SchedulerState := SchedulerState.SchedulerState.


(** ** What a configuration guarantees *)
Section ConfigFacts.
Context `{U : UrlParser}.

(** A configuration the constructor and the builders produce. *)
Inductive Built : Config -> Prop :=
| built_new url app product info root salt variant ev local c :
    new_with_localhost_http url app product info root salt variant ev local = Ok c -> Built c
| built_next_root c key c' : Built c -> with_next_root_key c key = Ok c' -> Built c'
| built_reporting c enabled ack c' : Built c -> with_device_attribute_reporting c enabled ack = Ok c' -> Built c'
| built_unbound c enabled c' : Built c -> with_unbound_olk c enabled = Ok c' -> Built c'
| built_localhost c enabled c' : Built c -> with_insecure_localhost c enabled = Ok c' -> Built c'
| built_timeout c timeout c' : Built c -> with_request_timeout c timeout = Ok c' -> Built c'
| built_scheduler c s c' : Built c -> with_scheduler c s = Ok c' -> Built c'
| built_core c k c' : Built c -> with_core_config c k = Ok c' -> Built c'.

(** The origin requests go to: [https], or [http] to this machine where the host asked for it; a
    bare origin, with no credentials, query, fragment or path. *)
Definition safe_origin (c : Config) : Prop :=
  (url_scheme (server_url c) = "https"%string \/
   url_scheme (server_url c) = "http"%string /\ allow_insecure_localhost c = true /\ is_loopback (server_url c) = true) /\
  String.length (url_username (server_url c)) = 0%nat /\ url_password (server_url c) = None /\
  url_query (server_url c) = None /\ url_fragment (server_url c) = None /\ url_path (server_url c) = "/"%string.

(** The timings the scheduler is proved for. *)
Definition sound_timing (s : SchedulerConfig) : Prop :=
  SchedulerConfig.base_retry s <> 0 /\ SchedulerConfig.base_retry s <= SchedulerConfig.max_retry s /\
  SchedulerConfig.poll_interval s <> 0 /\ SchedulerConfig.poll_interval s <= MAX_NETWORK_RECOVERY_POLL.

Lemma validated_spec c c' : validated c = Ok c' -> c' = c /\ validate c = Ok tt.
Proof. unfold validated. destruct (validate c) as [[]|] eqn:E; [|done]. by intros [= <-]. Qed.

Lemma built_valid c : Built c -> validate c = Ok tt.
Proof.
  destruct 1 as [????????? c H|c ? c' _ H|c ?? c' _ H|c ? c' _ H|c ? c' _ H|c ? c' _ H|c ? c' _ H|c ? c' _ H].
  { unfold new_with_localhost_http in H. destruct (url_parse _); [|done]. cbn [ok_of_option rbind] in H.
    by apply validated_spec in H as [-> ?]. }
  all: by apply validated_spec in H as [-> ?].
Qed.

Lemma is_none_spec {A} (o : option A) : is_none o = true <-> o = None.
Proof. by destruct o. Qed.

Lemma server_url_spec url local :
  validate_server_url url local = Ok tt <->
  (url_scheme url = "https"%string \/ url_scheme url = "http"%string /\ local = true /\ is_loopback url = true) /\
  url_cannot_be_a_base url = false /\
  String.length (url_username url) = 0%nat /\ url_password url = None /\
  url_query url = None /\ url_fragment url = None /\ url_path url = "/"%string.
Proof.
  unfold validate_server_url. rewrite <- !is_none_spec.
  destruct (Nat.eqb_spec (String.length (url_username url)) 0);
  repeat case_bool_decide; destruct local, (is_loopback url), (url_cannot_be_a_base url), (is_none (url_password url)),
    (is_none (url_query url)), (is_none (url_fragment url)); cbn; naive_solver.
Qed.

Lemma validate_split c :
  validate c = Ok tt ->
  validate_server_url (server_url c) (allow_insecure_localhost c) = Ok tt /\
  validate_identifier (app_id c) = Ok tt /\ validate_identifier (product_id c) = Ok tt /\
  bad_key MAX_PIN_BYTES (current_root_key c) = false /\
  (forall k, next_root_key c = Some k -> bad_key MAX_PIN_BYTES k = false) /\
  bad_key MAX_FINGERPRINT_SALT_BYTES (fingerprint_salt c) = false /\
  (report_device_attributes c = true -> privacy_ack c = true) /\
  bad_timing c = false /\ validate_client_info (client_info c) (evidence c) = Ok tt.
Proof.
  unfold validate. destruct (validate_server_url _ _) as [[]|] eqn:E1; [|done].
  destruct (validate_identifier (app_id c)) as [[]|] eqn:E2; [|done].
  destruct (validate_identifier (product_id c)) as [[]|] eqn:E3; [|done]. cbn [rbind].
  destruct (bad_key MAX_PIN_BYTES (current_root_key c)) eqn:E4; [done|].
  destruct (next_root_key c) as [k|] eqn:E5; [destruct (bad_key MAX_PIN_BYTES k) eqn:E6; [done|]|];
  destruct (bad_key MAX_FINGERPRINT_SALT_BYTES _) eqn:E7; try done;
  destruct (report_device_attributes c), (privacy_ack c), (bad_timing c); try done; intros H;
  repeat split; try done; intros ? [= <-]; done.
Qed.

Lemma timing_spec c : bad_timing c = false -> sound_timing (scheduler c) /\ request_timeout c <> 0.
Proof.
  unfold bad_timing, sound_timing, Duration.is_zero. rewrite !orb_false_iff, Z.gtb_ltb, !Z.eqb_neq, !Z.ltb_ge. lia.
Qed.

(** However the host builds its configuration, requests go to a bare [https] origin, or to
    plain [http] on this machine when the host opted in; raw device attributes are reported only
    after the privacy acknowledgement, the pinned Root keys are present and bounded, and the
    scheduler's timings are positive with a poll of at most a minute. *)
Theorem built_config_safe c :
  Built c ->
  safe_origin c /\ sound_timing (scheduler c) /\ request_timeout c <> 0 /\
  (report_device_attributes c = true -> privacy_ack c = true) /\
  (forall k, current_root_key c = k \/ next_root_key c = Some k -> 0 < Z.of_nat (length k) <= MAX_PIN_BYTES).
Proof.
  intros (Hu & _ & _ & Hk & Hn & _ & Hr & Ht & _)%built_valid%validate_split.
  apply server_url_spec in Hu as (? & _ & ?). apply timing_spec in Ht as [? ?].
  split; [done|]. repeat (split; [done|]).
  enough (forall k, bad_key MAX_PIN_BYTES k = false -> 0 < Z.of_nat (length k) <= MAX_PIN_BYTES) by naive_solver.
  intros k. unfold bad_key. rewrite orb_false_iff, Nat.eqb_neq, Z.gtb_ltb, Z.ltb_ge. lia.
Qed.
End ConfigFacts.

(** A parser of two origins, and a configuration built with it. *)
Module DemoConfig.
Definition parser : UrlParser := {|
  Url := string * string;
  url_scheme := fst; url_cannot_be_a_base _ := false; url_username _ := EmptyString; url_password _ := None;
  url_query _ := None; url_fragment _ := None; url_path _ := "/"%string; url_host_str u := Some u.2;
  ip_is_loopback h := bool_decide (h = "127.0.0.1"%string);
  url_join u p := Some (u.1, (u.2 ++ "/" ++ p)%string);
  url_to_string u := (u.1 ++ "://" ++ u.2 ++ "/")%string;
  url_parse s :=
    if bool_decide (s = "https://license.example/"%string) then Some ("https", "license.example")%string
    else if bool_decide (s = "http://127.0.0.1:8787/"%string) then Some ("http", "127.0.0.1")%string
    else None |}.
#[local] Existing Instance parser.

Definition info : ClientInfo := ClientInfo.mk "1.0.0" "0.1.0" "linux" "x86_64" "fp" "rel-1" 1 [[1; 0; 0; 1]] [1].
Definition env : EnvEvidence := EnvEvidence.mk (replicate 32 0) (text_bytes "fp") [].
Definition build (url : string) (local : bool) : result Config ConfigError :=
  new_with_localhost_http url "com.example.app" "example-product" info (replicate 32 1) (replicate 32 2)
    (replicate 32 4) env local.

Example http_is_an_opt_in :
  build "http://127.0.0.1:8787/" false = Err ConfigError.InvalidServerUrl /\
  is_ok (build "http://127.0.0.1:8787/" true) = true.
Proof. by vm_compute. Qed.

Lemma built_config_safe_witness :
  match build "https://license.example/" false with
  | Ok c => safe_origin c
  | Err _ => False
  end.
Proof.
  destruct (build "https://license.example/" false) as [c|e] eqn:E; [|by vm_compute in E].
  exact (proj1 (built_config_safe c (built_new _ _ _ _ _ _ _ _ _ _ E))).
Defined.
End DemoConfig.

(** ** Jitter, back-off and the attempt times *)
Module Schedule.
Import SchedulerState.

Lemma as_millis_from m : Duration.as_millis (Duration.from_millis m) = m.
Proof. unfold Duration.as_millis, Duration.from_millis. by rewrite Z.div_mul. Qed.

Lemma as_secs_from_millis m : Duration.as_secs (Duration.from_millis m) = m / 1000.
Proof.
  unfold Duration.as_secs, Duration.from_millis, Duration.NANOS_PER_SEC, Duration.NANOS_PER_MILLI.
  replace 1000000000 with (1000 * 1000000) by lia. by rewrite Z.div_mul_cancel_r.
Qed.

Lemma as_millis_range d : Duration.valid d -> 0 <= Duration.as_millis d <= u64_max * 1000 + 999.
Proof.
  unfold Duration.valid, Duration.MAX, Duration.as_millis, Duration.NANOS_PER_SEC, Duration.NANOS_PER_MILLI, u64_max.
  intros H. split; [apply Z.div_pos; lia|]. apply Z.lt_succ_r, Z.div_lt_upper_bound; lia.
Qed.

(** The factor of a draw, in ten-thousandths. *)
Lemma factor_range sample : 0 <= sample -> JITTER_BASE <= JITTER_BASE + sample mod JITTER_SPAN <= 11500.
Proof. unfold JITTER_BASE, JITTER_SPAN. pose proof (Z.mod_pos_bound sample 3001). lia. Qed.

Lemma jitter_millis base sample :
  Duration.valid base -> 0 <= sample ->
  Duration.as_millis (jitter base sample) =
  Z.min u64_max (Duration.as_millis base * (JITTER_BASE + sample mod JITTER_SPAN) / JITTER_SCALE).
Proof.
  intros Hb%as_millis_range Hs. pose proof (factor_range _ Hs) as Hf. unfold jitter. rewrite as_millis_from.
  set (f := _ + _ mod _) in *. set (m := Duration.as_millis base) in *.
  rewrite Z.min_l; [|unfold u128_max, u64_max, JITTER_BASE in *; nia].
  assert (0 <= m * f / JITTER_SCALE) by (apply Z.div_pos; unfold JITTER_SCALE, JITTER_BASE in *; nia).
  unfold try_into_or. destruct (Z.leb_spec (m * f / JITTER_SCALE) u64_max); rewrite (proj2 (Z.leb_le 0 _)) by done; cbn; lia.
Qed.

(** Jitter keeps a delay within 85 to 115 per cent of its base, to the millisecond, until the
    [u64] of milliseconds saturates. *)
Theorem jitter_within_range base sample :
  Duration.valid base -> 0 <= sample ->
  Z.min u64_max (Duration.as_millis base * 85 / 100) <= Duration.as_millis (jitter base sample) <=
  Duration.as_millis base * 115 / 100.
Proof.
  intros Hb Hs. rewrite jitter_millis by done. pose proof (factor_range _ Hs) as Hf.
  apply as_millis_range in Hb. set (m := Duration.as_millis base) in *. set (f := _ + _ mod _) in *.
  replace (m * 85 / 100) with (m * 8500 / 10000)
    by (replace (m * 8500) with (m * 85 * 100) by lia; replace 10000 with (100 * 100) by lia; by rewrite Z.div_mul_cancel_r).
  replace (m * 115 / 100) with (m * 11500 / 10000)
    by (replace (m * 11500) with (m * 115 * 100) by lia; replace 10000 with (100 * 100) by lia; by rewrite Z.div_mul_cancel_r).
  unfold JITTER_SCALE, JITTER_BASE in *.
  assert (m * 8500 / 10000 <= m * f / 10000 <= m * 11500 / 10000)
    by (split; apply Z.div_le_mono; nia).
  lia.
Qed.

(** The configurations and requests of a running client. *)
Definition config_ok (config : SchedulerConfig) : Prop :=
  0 < SchedulerConfig.base_retry config <= SchedulerConfig.max_retry config /\
  SchedulerConfig.max_retry config <= Duration.MAX.
Definition request_ok (retry_after : option Duration) : Prop :=
  forall d, retry_after = Some d -> Duration.valid d.

Lemma backoff_range failures config retry_after :
  config_ok config -> request_ok retry_after ->
  SchedulerConfig.base_retry config <= backoff failures config retry_after <= SchedulerConfig.max_retry config.
Proof.
  intros [Hb Hm] Hr. unfold backoff, Duration.saturating_mul. set (e := Z.min _ 6).
  assert (0 <= e) by (unfold e; lia).
  assert (1 <= Z.shiftl 1 e) by (rewrite Z.shiftl_1_l; pose proof (Z.pow_pos_nonneg 2 e); lia).
  assert (SchedulerConfig.base_retry config <= SchedulerConfig.base_retry config * Z.shiftl 1 e) by nia.
  unfold Duration.ZERO. lia.
Qed.

Lemma backoff_grows failures config retry_after :
  config_ok config -> 1 <= failures ->
  backoff failures config retry_after <= backoff (failures + 1) config retry_after.
Proof.
  intros [Hb Hm] Hf. unfold backoff, Duration.saturating_mul.
  assert (Z.shiftl 1 (Z.min (Z.max 0 (failures - 1)) 6) <= Z.shiftl 1 (Z.min (Z.max 0 (failures + 1 - 1)) 6)) as Hs.
  { rewrite !Z.shiftl_1_l. apply Z.pow_le_mono_r; lia. }
  revert Hs. generalize (Z.shiftl 1 (Z.min (Z.max 0 (failures - 1)) 6)) as a,
    (Z.shiftl 1 (Z.min (Z.max 0 (failures + 1 - 1)) 6)) as b. intros a b Hs.
  assert (SchedulerConfig.base_retry config * a <= SchedulerConfig.base_retry config * b) by nia. lia.
Qed.

(** The seconds a failure waits: at least one, at most 115 per cent of the longest delay. *)
Definition longest_wait (config : SchedulerConfig) : Z :=
  Z.max 1 (Duration.as_millis (SchedulerConfig.max_retry config) * 115 / 100 / 1000).

Lemma jitter_secs base sample :
  Duration.valid base -> 0 <= sample ->
  0 <= Duration.as_secs (jitter base sample) <= Duration.as_millis base * 115 / 100 / 1000.
Proof.
  intros Hb Hs. pose proof (jitter_within_range base sample Hb Hs) as Hj.
  pose proof (as_millis_range _ Hb) as Hm.
  assert (Duration.as_secs (jitter base sample) = Duration.as_millis (jitter base sample) / 1000) as ->.
  { unfold jitter. by rewrite as_secs_from_millis, as_millis_from. }
  assert (0 <= Duration.as_millis base * 85 / 100) by (apply Z.div_pos; lia).
  split; [apply Z.div_pos; unfold u64_max in *; lia|apply Z.div_le_mono; lia].
Qed.

Lemma failure_wait s now config retry_after sample :
  config_ok config -> request_ok retry_after -> 0 <= sample -> in_i64 now -> now < i64_max ->
  exists next, next_attempt_at (record_failure s now config retry_after sample) = Some next /\
    now < next <= now + longest_wait config /\ in_i64 next.
Proof.
  intros Hc Hr Hs Hi Hn. unfold record_failure. cbn [next_attempt_at].
  set (f := Z.min _ u8_max). pose proof (backoff_range f config retry_after Hc Hr) as Hb.
  set (b := backoff f config retry_after) in *. destruct Hc as [Hc Hm].
  pose proof (jitter_secs b sample ltac:(split; lia) Hs) as Hj. set (j := Duration.as_secs _) in *.
  assert (j <= Duration.as_millis (SchedulerConfig.max_retry config) * 115 / 100 / 1000) as Hw.
  { etrans; [apply Hj|]. apply Z.div_le_mono; [lia|]. apply Z.div_le_mono; [lia|].
    apply Z.mul_le_mono_nonneg_r; [lia|]. by apply Z.div_le_mono; [|lia]. }
  unfold longest_wait, try_into_or. set (w := _ / 1000) in *. eexists. split; [done|].
  destruct (Z.leb_spec 0 (Z.max j 1)), (Z.leb_spec (Z.max j 1) i64_max); cbn; int_lia.
Qed.

(** A failed validation is always retried: the next attempt lies in the future and no later
    than 115 per cent of the longest delay (or one second) from now, whatever the server asked;
    without hints the scheduler attempts exactly from that second on, and the sleep it computes
    never runs past it nor past the poll interval. *)
Theorem failure_is_retried s now config retry_after sample :
  config_ok config -> request_ok retry_after -> 0 <= sample -> in_i64 now -> now < i64_max ->
  let s' := record_failure s now config retry_after sample in
  startup_pending s = false ->
  exists next, now < next <= now + longest_wait config /\
    (forall later minimum, (should_attempt s' later true false false minimum).1 = (next <=? later)) /\
    (forall later poll, in_i64 later -> 0 <= poll -> 0 <= later ->
       let d := next_delay s' later poll in
       d <= poll /\ (d = 0 \/ later * Duration.NANOS_PER_SEC + d <= next * Duration.NANOS_PER_SEC)).
Proof.
  intros Hc Hr Hs Hi Hn s' Hp.
  destruct (failure_wait s now config retry_after sample Hc Hr Hs Hi Hn) as (next & Hx & Hb & Hx').
  exists next. split; [done|]. split.
  - intros later minimum. unfold should_attempt, s', hint_due, timer_due. rewrite Hx. cbn [negb andb orb].
    rewrite Z.geb_leb. cbn [startup_pending record_failure]. rewrite Hp. by destruct (next <=? later).
  - intros later poll Hl Hq Hz. unfold next_delay, s'. rewrite Hx. cbn [startup_pending record_failure]. rewrite Hp.
    cbn [orb]. destruct (Z.leb_spec next later); [unfold Duration.ZERO; lia|].
    cbn zeta. unfold Duration.from_secs, Duration.NANOS_PER_SEC. rewrite sat_sub_i64_exact by (int_lia).
    destruct (Z.ltb_spec (next - later) 0); lia.
Qed.

Lemma success_wait s now start deadline sample :
  in_i64 now -> in_i64 start -> in_i64 deadline -> 0 <= sample -> now < i64_max ->
  exists next, next_attempt_at (record_success s now start deadline sample) = Some next /\ now < next /\
    next <= Z.max (now + 1) (start + Z.max 1 (deadline - start) * 115 / 100).
Proof.
  intros Hn Hs Hd Hm Hx. unfold record_success. cbn [next_attempt_at].
  set (i := Z.max _ 1). assert (1 <= i <= Z.max 1 (deadline - start) /\ i <= i64_max) as [Hi Hi'] by (unfold i; int_lia).
  assert (Duration.valid (Duration.from_secs i)) as Hv.
  { unfold Duration.valid, Duration.from_secs, Duration.MAX, Duration.NANOS_PER_SEC. int_lia. }
  pose proof (jitter_secs _ sample Hv Hm) as Hj. set (j := Duration.as_secs _) in *.
  assert (Duration.as_millis (Duration.from_secs i) = i * 1000) as Ee.
  { unfold Duration.as_millis, Duration.from_secs, Duration.NANOS_PER_SEC, Duration.NANOS_PER_MILLI.
    replace (i * 1000000000) with (i * 1000 * 1000000) by lia. by rewrite Z.div_mul. }
  rewrite Ee in Hj.
  assert (i * 1000 * 115 / 100 / 1000 <= Z.max 1 (deadline - start) * 115 / 100) as Hb.
  { rewrite Z.div_div by lia. replace (i * 1000 * 115) with (i * 115 * 1000) by lia.
    rewrite Z.div_mul_cancel_r by lia. apply Z.div_le_mono; lia. }
  eexists. split; [done|]. unfold try_into_or. set (b := _ / 100) in *.
  destruct (Z.leb_spec 0 j), (Z.leb_spec j i64_max); cbn; int_lia.
Qed.

(** A hint alone attempts no sooner than the minimum interval after the attempt before it. *)
Lemma hints_are_rate_limited s now minimum last s' :
  startup_pending s = false -> timer_due s now = false -> last_attempt_at s = Some last ->
  in_i64 (now - last) ->
  should_attempt s now true true false minimum = (true, s') ->
  minimum <= now - last /\ last_attempt_at s' = Some now.
Proof.
  intros Hp Ht Hl Hi. unfold should_attempt, hint_due. rewrite Hp, Ht, Hl, sat_sub_i64_exact, Z.geb_leb by done. cbn.
  destruct (Z.leb_spec minimum (now - last)); cbn; [|done]. by intros [= <-].
Qed.

Definition demo_config : SchedulerConfig := SchedulerConfig.default_.

Lemma failure_is_retried_witness :
  exists next, 1000 < next <= 1000 + longest_wait demo_config /\
    (forall later minimum,
       (should_attempt (record_failure (new false) 1000 demo_config None 0) later true false false minimum).1 =
       (next <=? later)) /\
    (forall later poll, in_i64 later -> 0 <= poll -> 0 <= later ->
       let d := next_delay (record_failure (new false) 1000 demo_config None 0) later poll in
       d <= poll /\ (d = 0 \/ later * Duration.NANOS_PER_SEC + d <= next * Duration.NANOS_PER_SEC)).
Proof.
  apply (failure_is_retried (new false) 1000 demo_config None 0);
    [repeat split; vm_compute; first [reflexivity|discriminate]|done|lia|split; vm_compute; discriminate|reflexivity|reflexivity].
Defined.
End Schedule.
