(* ===== verification/ClientWire.v ===== *)
(** * The client's errors, its wire mapping and the opening of credentials

    The error families of the client facade ([crates/copylocker-client/src/error.rs]) and their
    codes at the host boundary ([host.rs]); requests and responses of the transport
    ([transport.rs]) and how a response becomes a value or an error; the pure functions of
    [client.rs]: the requests it builds and signs, and the checks a machine credential and an
    offline licence pass before they are installed.  The key encapsulation slot of the suite
    ([crates/copylocker-suite/src/kem.rs]) is a class argument. *)

From S2P Require Import Prelude Types Clock Errors StateMachine Ticket Device Cbor Field Artifacts Chain.
From S2P Require Import Requests Messages Armor Suite StdSuite Seal Keys StoreRecord Snapshot Scheduler.

(** ** Key encapsulation *)
Class KeyEncapsulation := {
  DecapKey : Type;
  EncapKey : Type;
  keygen : forall (R : CryptoRng), Rng -> DecapKey * EncapKey * Rng;
  encap_key : DecapKey -> EncapKey;
  decap : DecapKey -> list byte -> result (list byte) CryptoError;
  encode_ek : EncapKey -> list byte;
  encode_dk : DecapKey -> list byte;
  decode_dk : list byte -> result DecapKey CryptoError;
}.

(** ** Errors *)
Module ActivationRejection.
Inductive ActivationRejection :=
| InvalidCredential | SeatExhausted | AccountAuthenticationRequired | UnsupportedProtocol
| ReleaseNotRegistered | VersionOutOfScope | ReleaseCompromised | Other (code : Z).

Definition from_code (code : Z) : ActivationRejection :=
  if code =? 1000 then InvalidCredential
  else if code =? 1001 then SeatExhausted
  else if code =? 1003 then AccountAuthenticationRequired
  else if code =? 1004 then UnsupportedProtocol
  else if code =? 1007 then ReleaseNotRegistered
  else if code =? 1008 then VersionOutOfScope
  else if code =? 1009 then ReleaseCompromised
  else Other code.
End ActivationRejection.
Notation ActivationRejection := ActivationRejection.ActivationRejection.

Module LocalError.
Inductive LocalError :=
| Store (e : StoreError) | EntropyUnavailable | SnapshotCorrupt | StateUnavailable
| TransportInitialization | RuntimeUnavailable.
End LocalError.
Notation LocalError := LocalError.LocalError.

Module ActivateError.
Inductive ActivateError :=
| Rejected (r : ActivationRejection) | Transient (e : TransientError) | Fatal (e : FatalError)
| Local (e : LocalError) | AlreadyActivated.
End ActivateError.
Notation ActivateError := ActivateError.ActivateError.

Module ValidationError.
Inductive ValidationError :=
| NotActivated | AlreadyInFlight | ReactivationRequired | VersionOutOfScope
| Transient (e : TransientError) | Fatal (e : FatalError) | Local (e : LocalError).
End ValidationError.
Notation ValidationError := ValidationError.ValidationError.

Module DeactivateError.
Inductive DeactivateError :=
| NotActivated | Transient (e : TransientError) | Fatal (e : FatalError) | Local (e : LocalError).
End DeactivateError.
Notation DeactivateError := DeactivateError.DeactivateError.

Module OfflineError.
Inductive OfflineError :=
| AlreadyActivated | NoPendingRequest | UnboundOlkDisabled | UnsupportedCredential
| Fatal (e : FatalError) | Local (e : LocalError).
End OfflineError.
Notation OfflineError := OfflineError.OfflineError.

Module FingerprintError.
Inductive FingerprintError := UnsupportedPlatform.
End FingerprintError.
Notation FingerprintError := FingerprintError.FingerprintError.

Module ClientInitError.
Inductive ClientInitError :=
| Config (e : ConfigError) | Fingerprint (e : FingerprintError) | Local (e : LocalError)
| Fatal (e : FatalError) | Transient (e : TransientError) | UnboundOlkDisabled.
End ClientInitError.
Notation ClientInitError := ClientInitError.ClientInitError.

(** ** Codes at the host boundary *)
Module HostErrorCode.
Definition UNKNOWN_FATAL : Z := 3999.
Definition INVALID_ARGUMENT : Z := 4010.

Definition of_rejection (r : ActivationRejection) : Z :=
  match r with
  | ActivationRejection.InvalidCredential => 1000
  | ActivationRejection.SeatExhausted => 1001
  | ActivationRejection.AccountAuthenticationRequired => 1003
  | ActivationRejection.UnsupportedProtocol => 1004
  | ActivationRejection.ReleaseNotRegistered => 1007
  | ActivationRejection.VersionOutOfScope => 1008
  | ActivationRejection.ReleaseCompromised => 1009
  | ActivationRejection.Other code => try_into_or u32_max code 1099
  end.
Definition of_activate (e : ActivateError) : Z :=
  match e with
  | ActivateError.Rejected r => of_rejection r
  | ActivateError.Transient _ => 2000
  | ActivateError.Fatal _ => 3000
  | ActivateError.Local _ => 4000
  | ActivateError.AlreadyActivated => 4001
  end.
Definition of_deactivate (e : DeactivateError) : Z :=
  match e with
  | DeactivateError.NotActivated => 4002
  | DeactivateError.Transient _ => 2000
  | DeactivateError.Fatal _ => 3000
  | DeactivateError.Local _ => 4000
  end.
Definition of_offline (e : OfflineError) : Z :=
  match e with
  | OfflineError.AlreadyActivated => 4001
  | OfflineError.NoPendingRequest => 4003
  | OfflineError.UnboundOlkDisabled => 4004
  | OfflineError.UnsupportedCredential => 4005
  | OfflineError.Fatal _ => 3000
  | OfflineError.Local _ => 4000
  end.
Definition of_core (e : CoreError) : Z :=
  match e with
  | CoreError.NoCredential => 4002
  | CoreError.NotEntitled => 4100
  | CoreError.DerivationFailed => 3100
  | CoreError.AssetCorrupt => 4101
  | CoreError.Fatal _ => 3000
  end.
Definition of_init (e : ClientInitError) : Z :=
  match e with
  | ClientInitError.Config _ => INVALID_ARGUMENT
  | ClientInitError.Fingerprint _ | ClientInitError.Local _ => 4000
  | ClientInitError.Transient _ => 2000
  | ClientInitError.Fatal _ => 3000
  | ClientInitError.UnboundOlkDisabled => 4004
  end.
Definition of_validation (e : ValidationError) : Z :=
  match e with
  | ValidationError.NotActivated => 4002
  | ValidationError.AlreadyInFlight => 4020
  | ValidationError.ReactivationRequired => 1010
  | ValidationError.VersionOutOfScope => 1008
  | ValidationError.Transient _ => 2000
  | ValidationError.Fatal _ => 3000
  | ValidationError.Local _ => 4000
  end.
End HostErrorCode.

(** ** Transport *)
Module HttpMethod.
Inductive HttpMethod := Get | Post.
End HttpMethod.
Notation HttpMethod := HttpMethod.HttpMethod.

Record TransportRequest := transport_request {
  method : HttpMethod;
  url : string;
  headers : list (string * string);
  request_body : list byte;
  timeout : Duration;
  max_response_bytes : Z;
}.

Module TransportResponse.
Record TransportResponse := mk {
  status : Z;
  content_type : option string;
  protocol_version : option string;
  retry_after : option Z;
  body : list byte;
}.
End TransportResponse.
Notation TransportResponse := TransportResponse.TransportResponse.
Import TransportResponse(status, content_type, protocol_version, body).

Module TransportError.
Inductive TransportError := Offline | Timeout | Failure | ResponseTooLarge | InvalidRequest.
End TransportError.
Notation TransportError := TransportError.TransportError.

(** ** What a response means *)
Definition ARTIFACT_RESPONSE_LIMIT : Z := 1024 * 1024.
Definition ERROR_RESPONSE_LIMIT : Z := MAX_BODY_BYTES.
Definition FEATURE_CHALLENGE_SALT : list byte := text_bytes "copylocker/challenge/v1".

(** [str::trim]: the UTF-8 forms of the [White_Space] characters, removed at both ends. *)
Definition WHITE_SPACE : list (list byte) :=
  [[9]; [10]; [11]; [12]; [13]; [32]; [194; 133]; [194; 160]; [225; 154; 128]; [226; 128; 128]; [226; 128; 129];
   [226; 128; 130]; [226; 128; 131]; [226; 128; 132]; [226; 128; 133]; [226; 128; 134]; [226; 128; 135];
   [226; 128; 136]; [226; 128; 137]; [226; 128; 138]; [226; 128; 168]; [226; 128; 169]; [226; 128; 175];
   [226; 129; 159]; [227; 128; 128]].
Fixpoint strip_any (forms : list (list byte)) (fuel : nat) (s : list byte) : list byte :=
  match fuel with
  | O => s
  | S fuel =>
      match find_first (fun w => bool_decide (take (length w) s = w)) forms with
      | Some w => strip_any forms fuel (drop (length w) s)
      | None => s
      end
  end.
Definition trim (s : list byte) : list byte :=
  let s := strip_any WHITE_SPACE (length s) s in
  rev (strip_any (map (@rev byte) WHITE_SPACE) (length s) (rev s)).

(** [value.split(';').next()]: everything before the first separator. *)
Fixpoint before (sep : byte) (s : list byte) : list byte :=
  match s with
  | [] => []
  | b :: s => if b =? sep then [] else b :: before sep s
  end.
Definition to_lower (b : byte) : byte := if (65 <=? b) && (b <=? 90) then b + 32 else b.
Definition same_ignoring_case (a b : list byte) : bool := bool_decide (map to_lower a = map to_lower b).

Definition require_success_headers (response : TransportResponse) : result unit FatalError :=
  let content_type_ok := match content_type response with
    | Some value => same_ignoring_case (trim (before 59 (text_bytes value))) (text_bytes "application/cbor")
    | None => false
    end in
  if negb content_type_ok || negb (bool_decide (protocol_version response = Some "1"%string))
  then Err FatalError.CredentialCorrupt else Ok tt.

Definition transient_status (response : TransportResponse) : option TransientError :=
  if status response =? 429 then
    let body_retry := match ProtocolErrorResponse.decode (body response) with
      | Ok error => ProtocolErrorResponse.retry_after error
      | Err _ => None
      end in
    let retry := match TransportResponse.retry_after response with Some r => Some r | None => body_retry end in
    Some (TransientError.RateLimited (default 60 retry))
  else if (500 <=? status response) && (status response <? 600)
  then Some (TransientError.ServerError (status response))
  else None.

Definition is_success (response : TransportResponse) : bool :=
  (200 <=? status response) && (status response <? 300).

Module ActivateResponseError.
Inductive ActivateResponseError :=
| Transient (e : TransientError) | Rejected (r : ActivationRejection) | Fatal (e : FatalError).
End ActivateResponseError.
Notation ActivateResponseError := ActivateResponseError.ActivateResponseError.

Definition activation_response (response : TransportResponse) : result (list byte) ActivateResponseError :=
  match transient_status response with
  | Some error => Err (ActivateResponseError.Transient error)
  | None =>
      check? map_err ActivateResponseError.Fatal (require_success_headers response) ;;
      if negb (is_success response) then
        error <-? map_err (fun _ => ActivateResponseError.Fatal FatalError.CredentialCorrupt)
          (ProtocolErrorResponse.decode (body response)) ;;
        Err (ActivateResponseError.Rejected (ActivationRejection.from_code (ProtocolErrorResponse.code error)))
      else Ok (body response)
  end.

Module ValidationResponseError.
Inductive ValidationResponseError := Transient (e : TransientError) | Fatal (e : FatalError).
End ValidationResponseError.
Notation ValidationResponseError := ValidationResponseError.ValidationResponseError.

Definition validation_response (response : TransportResponse) : result (list byte) ValidationResponseError :=
  match transient_status response with
  | Some error => Err (ValidationResponseError.Transient error)
  | None =>
      check? map_err ValidationResponseError.Fatal (require_success_headers response) ;;
      if negb (is_success response) then Err (ValidationResponseError.Fatal FatalError.CredentialCorrupt)
      else Ok (body response)
  end.

(** The checks [fetch_keyset] and [sync_revocations] make of a response. *)
Definition success_body (response : TransportResponse) : result (list byte) ValidationError :=
  match transient_status response with
  | Some error => Err (ValidationError.Transient error)
  | None =>
      check? map_err ValidationError.Fatal (require_success_headers response) ;;
      if negb (is_success response) then Err (ValidationError.Fatal FatalError.CredentialCorrupt)
      else Ok (body response)
  end.

(** The checks of [deactivate]'s answer. *)
Definition deactivation_ack (response : TransportResponse) : result unit FatalError :=
  check? require_success_headers response ;;
  if negb (is_success response) then Err FatalError.CredentialCorrupt
  else
    ack <-? map_err FatalError.from_proto (AckResponse.decode (body response)) ;;
    if AckResponse.ok ack then Ok tt else Err FatalError.CredentialCorrupt.

Definition map_transport_activate (error : TransportError) : ActivateError :=
  match error with
  | TransportError.Offline => ActivateError.Transient TransientError.Offline
  | TransportError.Timeout => ActivateError.Transient TransientError.Timeout
  | TransportError.Failure => ActivateError.Transient TransientError.TransportFailure
  | TransportError.ResponseTooLarge | TransportError.InvalidRequest =>
      ActivateError.Fatal FatalError.CredentialCorrupt
  end.
Definition map_transport_validation (error : TransportError) : ValidationError :=
  match error with
  | TransportError.Offline => ValidationError.Transient TransientError.Offline
  | TransportError.Timeout => ValidationError.Transient TransientError.Timeout
  | TransportError.Failure => ValidationError.Transient TransientError.TransportFailure
  | TransportError.ResponseTooLarge | TransportError.InvalidRequest =>
      ValidationError.Fatal FatalError.CredentialCorrupt
  end.
Definition map_transport_deactivate (error : TransportError) : DeactivateError :=
  match error with
  | TransportError.Offline => DeactivateError.Transient TransientError.Offline
  | TransportError.Timeout => DeactivateError.Transient TransientError.Timeout
  | TransportError.Failure => DeactivateError.Transient TransientError.TransportFailure
  | TransportError.ResponseTooLarge | TransportError.InvalidRequest =>
      DeactivateError.Fatal FatalError.CredentialCorrupt
  end.

Definition protocol_headers (idempotency_key : option string) : list (string * string) :=
  [("Accept", "application/cbor"); ("X-CL-Proto", "1"); ("Content-Type", "application/cbor")]%string ++
  match idempotency_key with Some key => [("Idempotency-Key"%string, key)] | None => [] end.

(** [write!("{byte:02x}")] of each byte. *)
Definition hex_digit (n : Z) : ascii := ascii_of_N (Z.to_N (if n <? 10 then 48 + n else 87 + n)).
Definition hex (bytes : list byte) : string :=
  String.string_of_list_ascii (flat_map (fun b => [hex_digit (b / 16); hex_digit (b mod 16)]) bytes).

(** ** Opening credentials and building requests *)
Module OpenOlkError.
Inductive OpenOlkError := Fatal (e : FatalError) | UnboundDisabled.
End OpenOlkError.
Notation OpenOlkError := OpenOlkError.OpenOlkError.

Section Client.
Context `{Prim : Primitives} `{CS : CryptoSuite} `{SS : SignatureScheme} `{HS : HashScheme}
  `{K : KeyEncapsulation} `{U : UrlParser}.

Notation VerifiedChain := (VerifiedChain.VerifiedChain (S := SS)).
Notation fatal := TrustAnchors.fatal.

Definition corrupt_on_err {A E} (m : result A E) : result A FatalError :=
  map_err (fun _ => FatalError.CredentialCorrupt) m.

Definition validate_device_keys (snapshot : ClientSnapshot) : result unit FatalError :=
  check? corrupt_on_err (decode_dk (ClientSnapshot.kem_secret_key snapshot)) ;;
  check? corrupt_on_err (FastSig.decode_sk (ClientSnapshot.signing_secret_key snapshot)) ;;
  Ok tt.

(** The guard of [open_offline_license]. *)
Definition olk_bad (config : Config) (envelope : Envelope) (license : OfflineLicenseKey)
    (now known_security_floor known_revocation_epoch : Z) : bool :=
  negb (OfflineLicenseKey.proto_ver license =? PROTO_VER) ||
  negb (bool_decide (OfflineLicenseKey.suite_id license = SUITE_ID)) ||
  negb (bool_decide (OfflineLicenseKey.product_id license = product_id config)) ||
  negb (Envelope.proto_ver envelope =? PROTO_VER) ||
  negb (bool_decide (Envelope.suite_id envelope = SUITE_ID)) ||
  negb (bool_decide (Envelope.epoch_ref envelope = Some (OfflineLicenseKey.epoch_id license))) ||
  negb (bool_decide (OfflineLicenseKey.build_fingerprint license = ClientInfo.build_fingerprint (client_info config))) ||
  negb (OfflineLicenseKey.variant_id license =? ClientInfo.variant_id (client_info config)) ||
  (OfflineLicenseKey.max_seats license =? 0) ||
  (OfflineLicenseKey.security_floor license <? known_security_floor) ||
  (OfflineLicenseKey.revocation_epoch license <? known_revocation_epoch) ||
  (OfflineLicenseKey.issued_at license >? now) ||
  (negb (OfflineLicenseKey.not_after license =? 0) &&
   ((OfflineLicenseKey.not_after license <=? OfflineLicenseKey.issued_at license) ||
    (now >=? OfflineLicenseKey.not_after license))) ||
  existsb (fun feature => negb (Entitlements.has_feature (OfflineLicenseKey.entitlements license) feature))
    (map fst (map_to_list (OfflineLicenseKey.wrapped_keks license))).

Definition olk_error (license : OfflineLicenseKey) (known_security_floor known_revocation_epoch : Z) : FatalError :=
  if OfflineLicenseKey.security_floor license <? known_security_floor then FatalError.SecurityFloorRegression
  else if OfflineLicenseKey.revocation_epoch license <? known_revocation_epoch then FatalError.RevocationRollback
  else FatalError.CredentialCorrupt.

Definition open_offline_license (envelope : Envelope) (chain : VerifiedChain) (config : Config)
    (current_fingerprint : Fingerprint) (now known_security_floor known_revocation_epoch : Z)
    : result (OfflineLicenseKey * KeyMaterial) OpenOlkError :=
  preview <-? map_err OpenOlkError.Fatal (fatal (Envelope.peek_unverified OfflineLicenseKey envelope)) ;;
  license <-? map_err OpenOlkError.Fatal (fatal
    (VerifiedChain.verify_artifact OfflineLicenseKey chain envelope (product_id config)
       (OfflineLicenseKey.issued_at preview))) ;;
  if olk_bad config envelope license now known_security_floor known_revocation_epoch
  then Err (OpenOlkError.Fatal (olk_error license known_security_floor known_revocation_epoch))
  else
    binding <-? match OfflineLicenseKey.bound_fingerprint license with
      | Some bound =>
          if negb (bool_decide (bound = current_fingerprint)) then Err (OpenOlkError.Fatal FatalError.MachineMismatch)
          else Ok (olk_binding_fingerprint (Some bound))
      | None =>
          if negb (allow_unbound_olk config) then Err OpenOlkError.UnboundDisabled
          else Ok (olk_binding_fingerprint None)
      end ;;
    material <-? map_err OpenOlkError.Fatal (corrupt_on_err
      (KeyMaterial.bind_olk (OfflineLicenseKey.key_seed license) binding (evidence config)
        (OfflineLicenseKey.product_id license) (OfflineLicenseKey.license_id license)
        (OfflineLicenseKey.machine_id license) (OfflineLicenseKey.epoch_id license)
        (OfflineLicenseKey.variant_id license) (variant_const config) (OfflineLicenseKey.offline_nonce license))) ;;
    Ok (license, material).

Definition olk_deadlines (license : OfflineLicenseKey) : Deadlines :=
  let stop := if OfflineLicenseKey.not_after license =? 0 then i64_max else OfflineLicenseKey.not_after license in
  Deadlines.mk stop stop (OfflineLicenseKey.not_after license).

(** The guard of [open_machine_credential]. *)
Definition credential_bad (config : Config) (current_fingerprint : Fingerprint) (envelope : Envelope)
    (credential : MachineCredential) (now known_security_floor known_revocation_epoch : Z) : bool :=
  negb (MachineCredential.proto_ver credential =? PROTO_VER) ||
  negb (bool_decide (MachineCredential.suite_id credential = SUITE_ID)) ||
  negb (bool_decide (MachineCredential.product_id credential = product_id config)) ||
  negb (bool_decide (Envelope.epoch_ref envelope = Some (MachineCredential.epoch_id credential))) ||
  negb (bool_decide (MachineCredential.fingerprint credential = current_fingerprint)) ||
  negb (bool_decide (MachineCredential.build_fingerprint credential =
    Some (ClientInfo.build_fingerprint (client_info config)))) ||
  negb (MachineCredential.variant_id credential =? ClientInfo.variant_id (client_info config)) ||
  (MachineCredential.security_floor credential <? known_security_floor) ||
  (MachineCredential.revocation_epoch credential <? known_revocation_epoch) ||
  (MachineCredential.issued_at credential >? now) ||
  (MachineCredential.refresh_after credential <=? MachineCredential.issued_at credential) ||
  (negb (MachineCredential.not_after credential =? 0) && (MachineCredential.not_after credential <=? now)).

Definition credential_error (current_fingerprint : Fingerprint) (credential : MachineCredential)
    (known_security_floor known_revocation_epoch : Z) : FatalError :=
  if MachineCredential.security_floor credential <? known_security_floor then FatalError.SecurityFloorRegression
  else if MachineCredential.revocation_epoch credential <? known_revocation_epoch then FatalError.RevocationRollback
  else if negb (bool_decide (MachineCredential.fingerprint credential = current_fingerprint))
  then FatalError.MachineMismatch
  else FatalError.CredentialCorrupt.

Definition seal_context (credential : MachineCredential) : CredentialSealContext :=
  CredentialSealContext.mk (MachineCredential.proto_ver credential) (MachineCredential.suite_id credential)
    (MachineCredential.product_id credential) (MachineCredential.license_id credential)
    (MachineCredential.machine_id credential) (MachineCredential.fingerprint credential)
    (MachineCredential.kem_ct credential) (MachineCredential.offline_nonce credential)
    (MachineCredential.epoch_id credential) (MachineCredential.variant_id credential).

Definition open_machine_credential (encoded : list byte) (chain : VerifiedChain) (snapshot : ClientSnapshot)
    (config : Config) (current_fingerprint : Fingerprint) (now known_security_floor known_revocation_epoch : Z)
    : result (MachineCredential * KeyMaterial) FatalError :=
  envelope <-? fatal (Envelope.decode encoded) ;;
  if negb (Envelope.proto_ver envelope =? PROTO_VER) || negb (bool_decide (Envelope.suite_id envelope = SUITE_ID))
  then Err FatalError.CredentialCorrupt
  else
    credential <-? fatal (VerifiedChain.verify_artifact MachineCredential chain envelope (product_id config) now) ;;
    if credential_bad config current_fingerprint envelope credential now known_security_floor known_revocation_epoch
    then Err (credential_error current_fingerprint credential known_security_floor known_revocation_epoch)
    else
      decapsulation_key <-? corrupt_on_err (decode_dk (ClientSnapshot.kem_secret_key snapshot)) ;;
      kem_shared <-? corrupt_on_err (decap decapsulation_key (MachineCredential.kem_ct credential)) ;;
      credential_secret <-? corrupt_on_err
        (open_credential_secret kem_shared (seal_context credential) (MachineCredential.sealed_cs credential)) ;;
      material <-? corrupt_on_err
        (KeyMaterial.bind credential_secret (MachineCredential.fingerprint credential) (evidence config)
          (MachineCredential.product_id credential) (MachineCredential.license_id credential)
          (MachineCredential.machine_id credential) (MachineCredential.epoch_id credential)
          (MachineCredential.variant_id credential) (variant_const config)
          (MachineCredential.offline_nonce credential)) ;;
      Ok (credential, material).

(** The deadlines of a freshly opened credential. *)
Definition credential_deadlines (credential : MachineCredential) : Deadlines :=
  Deadlines.mk (MachineCredential.refresh_after credential) (MachineCredential.grace_deadline credential)
    (MachineCredential.not_after credential).

Definition deadlines_from_ticket (credential : MachineCredential) (ticket : ValidationTicket) : Deadlines :=
  let grace_deadline := sat_add_i64 (ValidationTicket.next_refresh_after ticket)
    (MachineCredential.grace_seconds credential) in
  Deadlines.mk (ValidationTicket.next_refresh_after ticket)
    (if ValidationTicket.not_after ticket =? 0 then grace_deadline
     else Z.min grace_deadline (ValidationTicket.not_after ticket))
    (ValidationTicket.not_after ticket).

Definition build_activation_request (config : Config) (fingerprint : Fingerprint) (attributes : DeviceAttrs)
    (snapshot : ClientSnapshot) (credential : Credential) (nonce : list byte) (now : Z)
    : result (list byte) FatalError :=
  kem_secret <-? corrupt_on_err (decode_dk (ClientSnapshot.kem_secret_key snapshot)) ;;
  signature_secret <-? corrupt_on_err (FastSig.decode_sk (ClientSnapshot.signing_secret_key snapshot)) ;;
  let request := ActivationRequest.mk PROTO_VER SUITE_ID (product_id config) credential fingerprint
    (if report_device_attributes config then Some attributes else None)
    (encode_ek (encap_key kem_secret)) (ed_vk_bytes (ed_verifying_key signature_secret)) nonce now
    (client_info config) None [] in
  proof <-? corrupt_on_err (FastSig.sign signature_secret
    (DomainCtx.new ArtifactKind.ActivationRequest SUITE_ID (product_id config))
    (ActivationRequest.proof_input request)) ;;
  let encoded := CborValue.to_canonical (ActivationRequest.to_value (ActivationRequest.set_proof proof request)) in
  if Z.of_nat (length encoded) >? MAX_BODY_BYTES then Err FatalError.CredentialCorrupt else Ok encoded.

Definition build_validate_request (config : Config) (fingerprint : Fingerprint) (snapshot : ClientSnapshot)
    (credential : MachineCredential) (nonce : list byte) (known_revocation_epoch known_security_floor now : Z)
    : result (list byte) FatalError :=
  signature_secret <-? corrupt_on_err (FastSig.decode_sk (ClientSnapshot.signing_secret_key snapshot)) ;;
  let request := ValidateRequest.mk PROTO_VER SUITE_ID (MachineCredential.license_id credential)
    (MachineCredential.machine_id credential) fingerprint nonce now known_revocation_epoch (client_info config)
    [] None known_security_floor None in
  proof <-? corrupt_on_err (FastSig.sign signature_secret
    (DomainCtx.new ArtifactKind.ValidateRequest SUITE_ID (product_id config)) (ValidateRequest.proof_input request)) ;;
  Ok (CborValue.to_canonical (ValidateRequest.to_value (ValidateRequest.set_proof proof request))).

Definition build_deactivate_request (product_id : string) (snapshot : ClientSnapshot)
    (credential : MachineCredential) (nonce : list byte) (now : Z) : result (list byte) FatalError :=
  signature_secret <-? corrupt_on_err (FastSig.decode_sk (ClientSnapshot.signing_secret_key snapshot)) ;;
  let request := DeactivateRequest.mk PROTO_VER SUITE_ID (MachineCredential.license_id credential)
    (MachineCredential.machine_id credential) nonce now [] in
  proof <-? corrupt_on_err (FastSig.sign signature_secret
    (DomainCtx.new ArtifactKind.DeactivateRequest SUITE_ID product_id) (DeactivateRequest.proof_input request)) ;;
  Ok (CborValue.to_canonical (DeactivateRequest.to_value (DeactivateRequest.set_proof proof request))).
End Client.
