(* ===== verification/Client.v ===== *)
(** * The client ([crates/copylocker-client/src/client.rs], [platform.rs])

    The facade an application holds: one mutable runtime behind a lock, the persisted snapshot
    and its key store, a validation scheduler, and the protocol's calls.

    Every method is a program over atomic actions: one lock region, one call of the platform, or
    one operation on an atomic flag.  Between two actions of a program other programs may act;
    [run] executes a program alone, and the interleavings are in [ClientRuns].  An action is a
    function of the shared state; [None] is the abort of the process, which an overflow check
    causes and after which no lock is observed.  The scheduler's notifications only wake the
    background task, which may act at any time here. *)

From stdpp Require Import pretty.
From S2P Require Import Prelude Types Clock Errors StateMachine Ticket Device Cbor Field Artifacts Chain.
From S2P Require Import Requests Messages Armor Suite StdSuite Seal Keys StoreRecord Host Snapshot.
From S2P Require Import Scheduler ClientWire.

(** ** Actions: state, errors and the abort *)
Definition M (S E A : Type) : Type := S -> option (result A E * S).

Module M.
Definition ret {S E A} (x : A) : M S E A := fun s => Some (Ok x, s).
Definition fail {S E A} (e : E) : M S E A := fun s => Some (Err e, s).
Definition abort {S E A} : M S E A := fun _ => None.
Definition lift {S E A} (r : result A E) : M S E A := fun s => Some (r, s).
Definition bind {S E A B} (m : M S E A) (k : A -> M S E B) : M S E B := fun s =>
  match m s with
  | Some (Ok x, s) => k x s
  | Some (Err e, s) => Some (Err e, s)
  | None => None
  end.
Definition map_err {S E F A} (f : E -> F) (m : M S E A) : M S F A := fun s =>
  match m s with Some (r, s) => Some (map_err f r, s) | None => None end.
(** The result as a value. *)
Definition attempt {S E F A} (m : M S E A) : M S F (result A E) := fun s =>
  match m s with Some (r, s) => Some (Ok r, s) | None => None end.
Definition get {S E} : M S E S := fun s => Some (Ok s, s).
Definition modify {S E} (f : S -> S) : M S E unit := fun s => Some (Ok tt, f s).
End M.

Declare Scope client_scope.
Delimit Scope client_scope with client.
Notation "'let!' x ':=' m 'in' k" := (M.bind m (fun x => k))
  (at level 200, x pattern, m at level 200, k at level 200) : client_scope.
Notation "'seq!' m ;; k" := (M.bind m (fun _ => k))
  (at level 100, m at next level, right associativity) : client_scope.
#[local] Open Scope client_scope.

(** ** The platform ([platform.rs], the traits [Transport] and [KeyStore]) *)
Class Platform := {
  PW : Type;
  unix_seconds : PW -> Z * PW;
  random_fill : nat -> PW -> option (list byte) * PW;
  send : TransportRequest -> PW -> result TransportResponse TransportError * PW;
  store_load : IO PW (option (list byte));
  store_save : list byte -> IO PW unit;
  store_wipe : IO PW unit;
  tokio_runtime : PW -> bool;
}.

Section PlatformCalls.
Context `{P : Platform}.

Definition now_ {E} : M PW E Z := fun w => let '(t, w) := unix_seconds w in Some (Ok t, w).
Definition random_array (n : nat) : M PW LocalError (list byte) := fun w =>
  let '(r, w) := random_fill n w in Some (ok_of_option r LocalError.EntropyUnavailable, w).
Definition store {A} (m : IO PW A) : M PW LocalError A := fun w =>
  let '(r, w) := m w in Some (map_err LocalError.Store r, w).
Definition random_idempotency_key : M PW LocalError string :=
  let! bytes := random_array 16 in M.ret (hex bytes).

(** [CryptoRngAdapter]: a failed draw fills with zeroes and is remembered. *)
Definition adapter : CryptoRng := {|
  Rng := PW * bool;
  fill_bytes n r :=
    match random_fill n r.1 with
    | (Some b, w) => (b, (w, r.2))
    | (None, w) => (repeat 0 n, (w, true))
    end |}.

Definition generate_snapshot `{K : KeyEncapsulation} `{Prim : Primitives} : M PW LocalError ClientSnapshot := fun w =>
  let '(kem_secret, _, rng) := keygen adapter (w, false) in
  let '(signing_secret, _, rng) := FastSig.generate (H := adapter) rng in
  if rng.2 then Some (Err LocalError.EntropyUnavailable, rng.1)
  else Some (Ok (ClientSnapshot.new (encode_dk kem_secret) (FastSig.encode_sk signing_secret)), rng.1).
End PlatformCalls.

(** ** The shared state *)
Module StateChange.
Record StateChange := mk { state : LicenseState; reason : option StateReason }.
End StateChange.
Notation StateChange := StateChange.StateChange.

(** [Entitlements::default()]. *)
Definition no_entitlements : Entitlements := Entitlements.mk ∅ ∅ EmptyString EmptyString 0 None None.

Module Runtime.
Record Runtime `{SS : SignatureScheme} := mk {
  state : StateMachine;
  snapshot : option ClientSnapshot;
  credential : option MachineCredential;
  olk : option OfflineLicenseKey;
  material : option KeyMaterial;
  entitlements : Entitlements;
  offline_wrapped_keks : gmap string (list byte);
  online_wrapped_keks : gmap string (list byte);
  chain : option (VerifiedChain.VerifiedChain (S := SS));
  max_security_floor : Z;
  max_revocation_epoch : Z;
}.

Section Setters.
Context `{SS : SignatureScheme}.
Implicit Type r : Runtime.
Definition set_state r v := mk _ v (snapshot r) (credential r) (olk r) (material r) (entitlements r)
  (offline_wrapped_keks r) (online_wrapped_keks r) (chain r) (max_security_floor r) (max_revocation_epoch r).
Definition set_snapshot r v := mk _ (state r) v (credential r) (olk r) (material r) (entitlements r)
  (offline_wrapped_keks r) (online_wrapped_keks r) (chain r) (max_security_floor r) (max_revocation_epoch r).
Definition set_material r v := mk _ (state r) (snapshot r) (credential r) (olk r) v (entitlements r)
  (offline_wrapped_keks r) (online_wrapped_keks r) (chain r) (max_security_floor r) (max_revocation_epoch r).
Definition set_entitlements r v := mk _ (state r) (snapshot r) (credential r) (olk r) (material r) v
  (offline_wrapped_keks r) (online_wrapped_keks r) (chain r) (max_security_floor r) (max_revocation_epoch r).
Definition set_online_keks r v := mk _ (state r) (snapshot r) (credential r) (olk r) (material r) (entitlements r)
  (offline_wrapped_keks r) v (chain r) (max_security_floor r) (max_revocation_epoch r).
Definition set_chain r v := mk _ (state r) (snapshot r) (credential r) (olk r) (material r) (entitlements r)
  (offline_wrapped_keks r) (online_wrapped_keks r) v (max_security_floor r) (max_revocation_epoch r).
Definition set_floors r floor epoch := mk _ (state r) (snapshot r) (credential r) (olk r) (material r)
  (entitlements r) (offline_wrapped_keks r) (online_wrapped_keks r) (chain r) floor epoch.

(** The assignments that install a credential: what is held, the entitlements it carries, its
    wrapped keys, and no online session's keys. *)
Definition install r c o m e keks := mk _ (state r) (snapshot r) c o m e keks ∅ (chain r)
  (max_security_floor r) (max_revocation_epoch r).

(** The assignments the three wiping paths share. *)
Definition wiped r v := mk _ v None None None None no_entitlements ∅ ∅ None (max_security_floor r)
  (max_revocation_epoch r).
End Setters.
End Runtime.
Notation Runtime := Runtime.Runtime.

(** What never changes after construction. *)
Record Inner `{SS : SignatureScheme} `{U : UrlParser} := inner {
  config : Config;
  fingerprint : Fingerprint;
  attributes : DeviceAttrs;
  anchors : TrustAnchors.TrustAnchors (S := SS);
}.

Record Client `{SS : SignatureScheme} `{P : Platform} := client {
  runtime : Runtime;
  validation_in_flight : bool;
  validation_requested : bool;
  online_hint : bool;
  scheduler_state : SchedulerState;
  state_changes : StateChange;
  world : PW;
}.

Section Operations.
Context `{Prim : Primitives} `{CS : CryptoSuite} `{SS : SignatureScheme} `{HS : HashScheme}
  `{K : KeyEncapsulation} `{U : UrlParser} `{P : Platform} (self : Inner).
Import Runtime.

Notation cfg := (config self).
Notation product := (product_id (config self)).

(** Liftings of the parts of the shared state. *)
Definition platform {E A} (m : M PW E A) : M Client E A := fun c =>
  match m (world c) with
  | Some (r, w) => Some (r, client _ _ (runtime c) (validation_in_flight c) (validation_requested c) (online_hint c)
                              (scheduler_state c) (state_changes c) w)
  | None => None
  end.
Definition get_runtime {E} : M Client E Runtime := fun c => Some (Ok (runtime c), c).
Definition put_runtime {E} (r : Runtime) : M Client E unit :=
  M.modify (fun c => client _ _ r (validation_in_flight c) (validation_requested c) (online_hint c)
                       (scheduler_state c) (state_changes c) (world c)).
Definition modify_scheduler {E} (f : SchedulerState -> SchedulerState) : M Client E unit :=
  M.modify (fun c => client _ _ (runtime c) (validation_in_flight c) (validation_requested c) (online_hint c)
                       (f (scheduler_state c)) (state_changes c) (world c)).
Definition put_state_change {E} (s : StateChange) : M Client E unit :=
  M.modify (fun c => client _ _ (runtime c) (validation_in_flight c) (validation_requested c) (online_hint c)
                       (scheduler_state c) s (world c)).
Definition now {E} : M Client E Z := platform now_.

(** [runtime.state.handle(event, now)]. *)
Definition handle {E} (event : Event) (t : Z) : M Client E (list Effect) :=
  let! r := get_runtime in
  let (m, effects) := StateMachine.handle (state r) event t in
  seq! put_runtime (set_state r m) ;; M.ret effects.

Definition emit_effect (s : StateChange) (e : Effect) : StateChange :=
  match e with
  | Effect.StateChanged state reason => StateChange.mk state (Some reason)
  | _ => s
  end.
Definition emit_effects {E} (effects : list Effect) : M Client E unit := fun c =>
  put_state_change (fold_left emit_effect effects (state_changes c)) c.

Definition sends_validation (e : Effect) : bool := match e with Effect.SendValidation => true | _ => false end.

Definition disable_scheduler {E} : M Client E unit := modify_scheduler SchedulerState.disable.

Definition persist_locked : M Client LocalError unit :=
  let! r := get_runtime in
  let! snapshot := M.lift (ok_of_option (snapshot r) LocalError.StateUnavailable) in
  let! payload := M.lift (map_err (fun _ => LocalError.SnapshotCorrupt) (ClientSnapshot.encode snapshot)) in
  let clock := StateMachine.clock (state r) in
  let record := StoreRecord.new payload
    (MonotonicState.mk (ClockState.last_seen_max clock) (ClockState.last_server_time clock)
       (ClockState.rollback_events clock) (max_security_floor r) (max_revocation_epoch r)) in
  let! encoded := M.lift (map_err LocalError.Store (StoreRecord.encode record)) in
  platform (store (store_save encoded)).

(** The state machine's event and the wiping of everything held. *)
Definition wipe_runtime {E} (event : Event) : M Client E (list Effect) :=
  let! t := now in
  let! effects := handle event t in
  let! r := get_runtime in
  seq! put_runtime (wiped r (state r)) ;; M.ret effects.

Definition fail_closed_locked {E} (error : FatalError) : M Client E unit :=
  let! effects := wipe_runtime (Event.VerificationFailed error) in
  let! _ := M.attempt (platform (store store_wipe)) in
  seq! disable_scheduler ;; emit_effects effects.

Definition fail_closed {E} (error : FatalError) : M Client E unit := fail_closed_locked error.

Definition revoke_locked (reason : KillReason) : M Client LocalError unit :=
  let! effects := wipe_runtime (Event.KillOrderVerified reason) in
  let! wipe_result := M.attempt (platform (store store_wipe)) in
  seq! disable_scheduler ;;
  seq! emit_effects effects ;;
  M.lift wipe_result.

Definition user_deactivate_locked : M Client LocalError unit :=
  let! effects := wipe_runtime Event.UserDeactivate in
  let! wipe_result := M.attempt (platform (store store_wipe)) in
  seq! emit_effects effects ;;
  M.lift wipe_result.

(** A failure of a verification inside a lock region: close, and report it. *)
Definition close_and_fail {E A} (error : FatalError) (as_ : FatalError -> E) : M Client E A :=
  seq! fail_closed_locked error ;; M.fail (as_ error).

(** ** The scheduler's bookkeeping *)
Definition scheduler_random_sample {E} : M Client E Z :=
  let! r := M.attempt (platform (random_array 8)) in
  M.ret (match r with Ok b => of_be_bytes (rev b) | Err _ => 1500 end).
Definition mark_scheduler_attempt {E} (t : Z) : M Client E unit :=
  modify_scheduler (fun s => SchedulerState.mark_attempt s t).
Definition record_scheduler_success {E} (t start deadline : Z) : M Client E unit :=
  let! sample := scheduler_random_sample in
  modify_scheduler (fun s => SchedulerState.record_success s t start deadline sample).
Definition record_scheduler_failure {E} (error : TransientError) : M Client E unit :=
  let retry_after := match error with
    | TransientError.RateLimited r => Some (Duration.from_secs r)
    | _ => None
    end in
  let! t := now in
  let! sample := scheduler_random_sample in
  modify_scheduler (fun s => SchedulerState.record_failure s t (scheduler cfg) retry_after sample).

(** ** Construction: restoring the persisted state *)
Definition load_state (t : Z) : M PW ClientInitError (StateMachine * ClientSnapshot * MonotonicState) :=
  let! loaded := M.map_err ClientInitError.Local (store store_load) in
  match loaded with
  | Some bytes =>
      let! record := M.lift (map_err (fun e => ClientInitError.Local (LocalError.Store e)) (StoreRecord.decode bytes)) in
      let monotonic := StoreRecord.monotonic record in
      let! snapshot := M.lift (map_err (fun _ => ClientInitError.Local LocalError.SnapshotCorrupt)
        (ClientSnapshot.decode (StoreRecord.payload record))) in
      let! _ := M.lift (map_err ClientInitError.Fatal (validate_device_keys snapshot)) in
      let! clock := M.lift (ok_of_option
        (ClockState.from_persisted (MonotonicState.last_seen_max monotonic) (MonotonicState.last_server_time monotonic)
           (MonotonicState.rollback_events monotonic)) (ClientInitError.Local LocalError.SnapshotCorrupt)) in
      M.ret (StateMachine.set_clock (StateMachine.new (core cfg) (MonotonicState.last_seen_max monotonic)) clock,
             snapshot, monotonic)
  | None =>
      let! snapshot := M.map_err ClientInitError.Local generate_snapshot in
      M.ret (StateMachine.new (core cfg) t, snapshot, MonotonicState.mk t t 0 0 0)
  end.

(** [let _ = state.handle(event, now)]. *)
Definition handled (m : StateMachine) (event : Event) (t : Z) : StateMachine := (StateMachine.handle m event t).1.

Definition stored_keyset (snapshot : ClientSnapshot) (epoch : Z) : Keyset :=
  Keyset.mk PROTO_VER (ClientSnapshot.epoch_certificates snapshot) epoch.

Definition verify_keyset (keyset : Keyset) (t epoch : Z) (revoked : list EpochId) :=
  TrustAnchors.verify_keyset SUITE_ID (anchors self) keyset product t epoch revoked.

Definition restore_olk (m : StateMachine) (snapshot : ClientSnapshot) (envelope : Envelope) (floor epoch t : Z)
    : result Runtime ClientInitError :=
  if is_none (ClientSnapshot.validation_ticket snapshot) then
    preview <-? map_err ClientInitError.Fatal
      (TrustAnchors.fatal (Envelope.peek_unverified OfflineLicenseKey envelope)) ;;
    chain <-? map_err ClientInitError.Fatal
      (verify_keyset (stored_keyset snapshot epoch) (OfflineLicenseKey.issued_at preview) epoch
         (ClientSnapshot.revoked_epochs snapshot)) ;;
    '(opened, keys) <-? map_err (fun e => match e with
        | OpenOlkError.Fatal e => ClientInitError.Fatal e
        | OpenOlkError.UnboundDisabled => ClientInitError.UnboundOlkDisabled
        end)
      (open_offline_license envelope chain cfg (fingerprint self)
         (ClockState.effective_now (StateMachine.clock m) t) floor epoch) ;;
    let m := StateMachine.set_deadlines m (olk_deadlines opened) in
    let m := handled m Event.CredentialLoaded t in
    let m := handled m Event.Tick t in
    Ok (mk _ m (Some snapshot) None (Some opened) (Some keys) (OfflineLicenseKey.entitlements opened)
          (OfflineLicenseKey.wrapped_keks opened) ∅ (Some chain)
          (Z.max floor (OfflineLicenseKey.security_floor opened))
          (Z.max epoch (OfflineLicenseKey.revocation_epoch opened)))
  else Err (ClientInitError.Fatal FatalError.CredentialCorrupt).

(** The checks of a persisted ticket; the machine returns with the server's time observed. *)
Definition restore_ticket (m : StateMachine) (ticket_bytes : list byte)
    (chain : VerifiedChain.VerifiedChain (S := SS)) (opened : MachineCredential)
    (floor epoch t : Z) : option (result (StateMachine * ValidationTicket) ClientInitError) :=
  match map_err ClientInitError.Fatal (TrustAnchors.fatal (Envelope.decode ticket_bytes)) with
  | Err e => Some (Err e)
  | Ok envelope =>
  match map_err ClientInitError.Fatal (TrustAnchors.fatal
    (VerifiedChain.verify_artifact_fast FastSig.FastSig ValidationTicket chain envelope product
       (ClockState.effective_now (StateMachine.clock m) t))) with
  | Err e => Some (Err e)
  | Ok ticket =>
  match Envelope.epoch_ref envelope with
  | None => Some (Err (ClientInitError.Fatal FatalError.ChainInvalid))
  | Some verified_epoch =>
  match check_ticket ticket (TicketChecks.mk (ClientInfo.supported_suites (client_info cfg)) verified_epoch
      (ValidationTicket.nonce_c_echo ticket) (MachineCredential.machine_id opened) epoch floor)
      (StateMachine.clock m) t with
  | None => None
  | Some (_, Err e) => Some (Err (ClientInitError.Fatal e))
  | Some (clock, Ok _) => Some (Ok (StateMachine.set_clock m clock, ticket))
  end end end end.

Definition restore_machine (m : StateMachine) (snapshot : ClientSnapshot) (encoded : list byte) (floor epoch t : Z)
    : option (result Runtime ClientInitError) :=
  match map_err ClientInitError.Fatal (
    chain <-? verify_keyset (stored_keyset snapshot epoch) (ClockState.effective_now (StateMachine.clock m) t) epoch
      (ClientSnapshot.revoked_epochs snapshot) ;;
    r <-? open_machine_credential encoded chain snapshot cfg (fingerprint self)
      (ClockState.effective_now (StateMachine.clock m) t) floor epoch ;;
    Ok (chain, r)) with
  | Err e => Some (Err e)
  | Ok (chain, (opened, keys)) =>
      let floor := Z.max floor (MachineCredential.security_floor opened) in
      let epoch := Z.max epoch (MachineCredential.revocation_epoch opened) in
      let entitlements := MachineCredential.entitlements opened in
      let start (m : StateMachine) (d : Deadlines) : StateMachine :=
        handled (handled (StateMachine.set_deadlines m d) Event.CredentialLoaded t) Event.Tick t in
      match ClientSnapshot.validation_ticket snapshot with
      | None =>
          Some (Ok (mk _ (start m (credential_deadlines opened)) (Some snapshot) (Some opened) None (Some keys)
            entitlements (MachineCredential.wrapped_keks opened) ∅ (Some chain) floor epoch))
      | Some ticket_bytes =>
          match restore_ticket m ticket_bytes chain opened floor epoch t with
          | None => None
          | Some (Err e) => Some (Err e)
          | Some (Ok (m, ticket)) =>
              let m := start m (deadlines_from_ticket opened ticket) in
              let verdict := ValidationTicket.verdict ticket in
              let m := match verdict with
                | Verdict.NeedsReactivation | Verdict.VersionOutOfScope => handled m (Event.TicketDenied verdict) t
                | Verdict.Accepted => m
                end in
              let '(keys, online) := match verdict with
                | Verdict.Accepted =>
                    (KeyMaterial.set_online_session keys (ValidationTicket.server_nonce ticket)
                       (ValidationTicket.epoch_id ticket), default ∅ (ValidationTicket.wrapped_keks ticket))
                | _ => (keys, ∅)
                end in
              Some (Ok (mk _ m (Some snapshot) (Some opened) None (Some keys)
                (default entitlements (ValidationTicket.entitlements ticket)) (MachineCredential.wrapped_keks opened)
                online (Some chain) (Z.max floor (ValidationTicket.security_floor ticket))
                (Z.max epoch (ValidationTicket.revocation_epoch ticket))))
          end
      end
  end.

Definition restore_runtime (m : StateMachine) (snapshot : ClientSnapshot) (monotonic : MonotonicState) (t : Z)
    : M PW ClientInitError Runtime :=
  let floor := MonotonicState.max_seen_security_floor monotonic in
  let epoch := MonotonicState.max_seen_revocation_epoch monotonic in
  match ClientSnapshot.credential_envelope snapshot with
  | None => M.ret (mk _ m (Some snapshot) None None None no_entitlements ∅ ∅ None floor epoch)
  | Some encoded =>
      let! envelope := M.lift (map_err ClientInitError.Fatal (TrustAnchors.fatal (Envelope.decode encoded))) in
      match Envelope.kind envelope with
      | ArtifactKind.OfflineLicenseKey => M.lift (restore_olk m snapshot envelope floor epoch t)
      | ArtifactKind.MachineCred =>
          match restore_machine m snapshot encoded floor epoch t with
          | Some r => M.lift r
          | None => M.abort
          end
      | _ => M.fail (ClientInitError.Fatal FatalError.CredentialCorrupt)
      end
  end.

(** [start_scheduler]: the background task needs a runtime to live in. *)
Definition start_scheduler : M PW LocalError unit := fun w =>
  Some (if tokio_runtime w then Ok tt else Err LocalError.RuntimeUnavailable, w).

(** [construct] after the configuration checks. *)
Definition restore : M PW ClientInitError Client :=
  let! t := now_ in
  let! (m, snapshot, monotonic) := load_state t in
  let! r := restore_runtime m snapshot monotonic t in
  seq! M.map_err ClientInitError.Local start_scheduler ;;
  fun w => Some (Ok (client _ _ r false false false
    (SchedulerState.new (negb (is_none (credential r))))
    (StateChange.mk (StateMachine.state (state r)) None) w), w).

(** ** Lock regions *)

Definition activated (r : Runtime) : bool := negb (is_none (credential r)) || negb (is_none (olk r)).

(** The last region of [ensure_device_keys]. *)
Definition put_device_keys {E} (generated : ClientSnapshot) : M Client E unit :=
  let! r := get_runtime in
  match snapshot r with
  | None => put_runtime (set_snapshot r (Some generated))
  | Some _ => M.ret tt
  end.

(** The region of [build_offline_request]. *)
Definition offline_request_region (key : string) (nonce : list byte) (t : Z) : M Client OfflineError (list byte) :=
  let! r := get_runtime in
  if activated r then M.fail OfflineError.AlreadyActivated
  else
    let! s := M.lift (ok_of_option (snapshot r) (OfflineError.Local LocalError.StateUnavailable)) in
    let! request := M.lift (map_err OfflineError.Fatal
      (build_activation_request cfg (fingerprint self) (attributes self) s (Credential.LicenseKey key) nonce t)) in
    seq! put_runtime (set_snapshot r (Some (ClientSnapshot.set_pending_activation_nonce s (Some nonce)))) ;;
    seq! M.map_err OfflineError.Local persist_locked ;;
    M.ret request.

(** The verification closure of [import_offline_response]. *)
Definition verify_offline_response (r : Runtime) (envelope : Envelope) (unverified : ActivationResponse)
    (pending_nonce : list byte) (effective_now : Z) :=
  s <-? ok_of_option (snapshot r) FatalError.CredentialCorrupt ;;
  chain <-? verify_keyset (Keyset.mk PROTO_VER (ActivationResponse.chain unverified) (max_revocation_epoch r))
    effective_now (max_revocation_epoch r) (ClientSnapshot.revoked_epochs s) ;;
  response <-? TrustAnchors.fatal
    (VerifiedChain.verify_artifact ActivationResponse chain envelope product effective_now) ;;
  if negb (ActivationResponse.proto_ver response =? PROTO_VER) ||
     negb (bool_decide (ActivationResponse.suite_id response = SUITE_ID)) ||
     negb (bool_decide (ActivationResponse.nonce_c_echo response = pending_nonce)) ||
     (ActivationResponse.valid_until response <=? ActivationResponse.server_time response) ||
     (effective_now >=? ActivationResponse.valid_until response)
  then Err (if negb (bool_decide (ActivationResponse.nonce_c_echo response = pending_nonce))
            then FatalError.NonceMismatch else FatalError.CredentialCorrupt)
  else
    '(credential, material) <-? open_machine_credential (ActivationResponse.credential response) chain s cfg
      (fingerprint self) (Z.max effective_now (ActivationResponse.server_time response)) (max_security_floor r)
      (max_revocation_epoch r) ;;
    Ok (response, credential, material, chain).

(** What the three installing paths write into the snapshot. *)
Definition snapshot_installed (s : ClientSnapshot) (envelope : list byte) (certificates : list (list byte))
    : ClientSnapshot :=
  ClientSnapshot.set_pending_activation_nonce
    (ClientSnapshot.set_validation_ticket
      (ClientSnapshot.set_epoch_certificates
        (ClientSnapshot.set_credential_envelope s (Some envelope)) certificates) None) None.

Definition observe_server_time (m : StateMachine) (t : Z) : StateMachine :=
  StateMachine.set_clock m (ClockState.observe_server_time (StateMachine.clock m) t).

(** The region of [import_offline_response]: the refresh interval to schedule. *)
Definition offline_response_region (envelope : Envelope) (unverified : ActivationResponse) (t : Z)
    : M Client OfflineError (Z * Z) :=
  let! r := get_runtime in
  if activated r then M.fail OfflineError.AlreadyActivated
  else
    let! s := M.lift (ok_of_option (snapshot r) OfflineError.NoPendingRequest) in
    let! pending_nonce := M.lift (ok_of_option (ClientSnapshot.pending_activation_nonce s)
      OfflineError.NoPendingRequest) in
    let effective_now := ClockState.effective_now (StateMachine.clock (state r)) t in
    match verify_offline_response r envelope unverified pending_nonce effective_now with
    | Err error => close_and_fail error OfflineError.Fatal
    | Ok (response, credential, material, chain) =>
        let r := set_snapshot r (Some (snapshot_installed s (ActivationResponse.credential response)
          (ActivationResponse.chain response))) in
        let r := set_floors r (Z.max (max_security_floor r) (MachineCredential.security_floor credential))
          (Z.max (max_revocation_epoch r) (MachineCredential.revocation_epoch credential)) in
        let m := StateMachine.set_deadlines (observe_server_time (state r) (ActivationResponse.server_time response))
          (credential_deadlines credential) in
        let (m, effects) := StateMachine.handle m Event.ActivationVerified t in
        let r := install (set_state r m) (Some credential) None (Some material)
          (MachineCredential.entitlements credential) (MachineCredential.wrapped_keks credential) in
        let r := set_chain r (Some chain) in
        seq! put_runtime r ;;
        seq! M.map_err OfflineError.Local persist_locked ;;
        seq! emit_effects effects ;;
        M.ret (ActivationResponse.server_time response, Deadlines.refresh_after (StateMachine.deadlines m))
    end.

(** The region of [import_olk]. *)
Definition olk_region (bundle : OfflineLicenseBundle) (envelope : Envelope) (preview : OfflineLicenseKey) (t : Z)
    : M Client OfflineError unit :=
  let! r := get_runtime in
  if activated r then M.fail OfflineError.AlreadyActivated
  else
    let keyset := Keyset.mk PROTO_VER (OfflineLicenseBundle.epoch_certificates bundle) (max_revocation_epoch r) in
    match
      s <-? ok_of_option (snapshot r) (OpenOlkError.Fatal FatalError.CredentialCorrupt) ;;
      chain <-? map_err OpenOlkError.Fatal (verify_keyset keyset (OfflineLicenseKey.issued_at preview)
        (max_revocation_epoch r) (ClientSnapshot.revoked_epochs s)) ;;
      '(license, material) <-? open_offline_license envelope chain cfg (fingerprint self)
        (ClockState.effective_now (StateMachine.clock (state r)) t) (max_security_floor r) (max_revocation_epoch r) ;;
      Ok (s, license, material, chain)
    with
    | Err OpenOlkError.UnboundDisabled => M.fail OfflineError.UnboundOlkDisabled
    | Err (OpenOlkError.Fatal error) => close_and_fail error OfflineError.Fatal
    | Ok (s, license, material, chain) =>
        let r := set_snapshot r (Some (snapshot_installed s (OfflineLicenseBundle.license_envelope bundle)
          (OfflineLicenseBundle.epoch_certificates bundle))) in
        let r := set_floors r (Z.max (max_security_floor r) (OfflineLicenseKey.security_floor license))
          (Z.max (max_revocation_epoch r) (OfflineLicenseKey.revocation_epoch license)) in
        let m := StateMachine.set_deadlines (observe_server_time (state r) (OfflineLicenseKey.issued_at license))
          (olk_deadlines license) in
        let (m, effects) := StateMachine.handle m Event.ActivationVerified t in
        let r := install (set_state r m) None (Some license) (Some material)
          (OfflineLicenseKey.entitlements license) (OfflineLicenseKey.wrapped_keks license) in
        seq! put_runtime (set_chain r (Some chain)) ;;
        seq! M.map_err OfflineError.Local persist_locked ;;
        emit_effects effects
    end.

(** The first region of [activate_credential]. *)
Definition activation_request_region (credential : Credential) (nonce : list byte)
    : M Client ActivateError (list byte * string) :=
  let! r := get_runtime in
  if activated r then M.fail ActivateError.AlreadyActivated
  else
    let! s := M.lift (ok_of_option (snapshot r) (ActivateError.Local LocalError.StateUnavailable)) in
    let! t := now in
    match build_activation_request cfg (fingerprint self) (attributes self) s credential nonce t with
    | Err error => close_and_fail error ActivateError.Fatal
    | Ok request =>
        let! idempotency_key := M.map_err ActivateError.Local (platform random_idempotency_key) in
        M.ret (request, idempotency_key)
    end.

(** The last region of [activate_credential]. *)
Definition activation_region (credential_bytes : list byte) (revocation_target t : Z) : M Client ActivateError (Z * Z) :=
  let! r := get_runtime in
  let effective_now := ClockState.effective_now (StateMachine.clock (state r)) t in
  let! s := M.lift (ok_of_option (snapshot r) (ActivateError.Local LocalError.StateUnavailable)) in
  match chain r with
  | None => close_and_fail FatalError.ChainInvalid ActivateError.Fatal
  | Some chain =>
  match open_machine_credential credential_bytes chain s cfg (fingerprint self) effective_now (max_security_floor r)
    (max_revocation_epoch r) with
  | Err error => close_and_fail error ActivateError.Fatal
  | Ok (opened, material) =>
      let r := set_snapshot r (Some (ClientSnapshot.set_pending_activation_nonce
        (ClientSnapshot.set_validation_ticket
          (ClientSnapshot.set_credential_envelope s (Some credential_bytes)) None) None)) in
      let r := set_floors r (Z.max (max_security_floor r) (MachineCredential.security_floor opened))
        (Z.max (Z.max (max_revocation_epoch r) (MachineCredential.revocation_epoch opened)) revocation_target) in
      let m := StateMachine.set_deadlines (state r) (credential_deadlines opened) in
      let (m, effects) := StateMachine.handle m Event.ActivationVerified t in
      let r := install (set_state r m) (Some opened) None (Some material)
        (MachineCredential.entitlements opened) (MachineCredential.wrapped_keks opened) in
      seq! put_runtime r ;;
      seq! M.map_err ActivateError.Local persist_locked ;;
      seq! emit_effects effects ;;
      M.ret (MachineCredential.issued_at opened, Deadlines.refresh_after (StateMachine.deadlines m))
  end end.

(** The first region of [validate]. *)
Definition validate_request_region (nonce : list byte) : M Client ValidationError (list byte) :=
  let! r := get_runtime in
  let! t := now in
  seq! put_runtime (set_state r (StateMachine.note_validation_attempt (state r) t)) ;;
  let! credential := M.lift (ok_of_option (credential r) ValidationError.NotActivated) in
  let! s := M.lift (ok_of_option (snapshot r) ValidationError.NotActivated) in
  M.lift (map_err ValidationError.Fatal
    (build_validate_request cfg (fingerprint self) s credential nonce (max_revocation_epoch r)
       (max_security_floor r) t)).

Definition needs_epoch_refresh (envelope : Envelope) : M Client ValidationError bool :=
  let! epoch := M.lift (ok_of_option (Envelope.epoch_ref envelope) (ValidationError.Fatal FatalError.ChainInvalid)) in
  let! r := get_runtime in
  M.ret (match chain r with
         | None => true
         | Some chain => is_none (VerifiedChain.epoch chain epoch)
         end).

Definition install_keyset (keyset : Keyset) : M Client ValidationError unit :=
  let! t := now in
  let! r := get_runtime in
  let! s := M.lift (ok_of_option (snapshot r) ValidationError.NotActivated) in
  let! chain := M.lift (map_err ValidationError.Fatal
    (verify_keyset keyset (ClockState.effective_now (StateMachine.clock (state r)) t) (max_revocation_epoch r)
       (ClientSnapshot.revoked_epochs s))) in
  put_runtime (set_chain (set_snapshot r
    (Some (ClientSnapshot.set_epoch_certificates s (Keyset.epoch_certificates keyset)))) (Some chain)).

Definition apply_transient_failure (error : TransientError) : M Client ValidationError unit :=
  let! t := now in
  let! effects := handle (Event.NetworkFailed error) t in
  seq! M.map_err ValidationError.Local persist_locked ;;
  emit_effects effects.

(** The checks of a revocation batch. *)
Definition batch_bad (batch : RevocationBatch) (envelope : Envelope) (cursor target : Z) : bool :=
  negb (RevocationBatch.proto_ver batch =? PROTO_VER) ||
  negb (bool_decide (RevocationBatch.suite_id batch = SUITE_ID)) ||
  negb (RevocationBatch.from_epoch batch =? cursor) ||
  (RevocationBatch.to_epoch batch <? RevocationBatch.from_epoch batch) ||
  (RevocationBatch.to_epoch batch >? target) ||
  match Envelope.epoch_ref envelope with
  | Some signer => bool_decide (signer ∈ RevocationBatch.revoked_epoch_ids batch)
  | None => false
  end.

(** The licence, the machine and the signing epoch of what is held. *)
Definition credential_ids (r : Runtime) : option (LicenseId * MachineId * EpochId) :=
  match credential r with
  | Some c => Some (MachineCredential.license_id c, MachineCredential.machine_id c, MachineCredential.epoch_id c)
  | None => option_map (fun l => (OfflineLicenseKey.license_id l, OfflineLicenseKey.machine_id l,
                                  OfflineLicenseKey.epoch_id l)) (olk r)
  end.
Definition revocation_reason (r : Runtime) (batch : RevocationBatch) : option KillReason :=
  match credential_ids r with
  | None => None
  | Some (license_id, machine_id, epoch_id) =>
      if bool_decide (license_id ∈ RevocationBatch.revoked_license_ids batch) then Some KillReason.RevokedLicense
      else if bool_decide (machine_id ∈ RevocationBatch.revoked_machine_ids batch)
      then Some KillReason.RevokedActivation
      else if bool_decide (epoch_id ∈ RevocationBatch.revoked_epoch_ids batch) then Some KillReason.EpochRevoked
      else None
  end.

(** One verified page of [sync_revocations]; another program may have advanced the epoch since
    the page was requested, and the loop then starts over. *)
Definition sync_region (envelope : Envelope) (target current cursor : Z) : M Client ValidationError unit :=
  let! t := now in
  let! r := get_runtime in
  if negb (max_revocation_epoch r =? current) then M.ret tt
  else
    let effective_now := ClockState.effective_now (StateMachine.clock (state r)) t in
    let! chain := M.lift (ok_of_option (chain r) (ValidationError.Fatal FatalError.ChainInvalid)) in
    let! batch := M.lift (map_err ValidationError.Fatal (TrustAnchors.fatal
      (VerifiedChain.verify_artifact RevocationBatch chain envelope product effective_now))) in
    if batch_bad batch envelope cursor target then M.fail (ValidationError.Fatal FatalError.CredentialCorrupt)
    else
      let! s := M.lift (ok_of_option (snapshot r) ValidationError.NotActivated) in
      let revoked := fold_left RevocationState.push_new (RevocationBatch.revoked_epoch_ids batch)
        (ClientSnapshot.revoked_epochs s) in
      let (chain, advanced) := VerifiedChain.advance_revocation chain (RevocationBatch.to_epoch batch)
        (RevocationBatch.revoked_epoch_ids batch) in
      seq! put_runtime (set_chain r (Some chain)) ;;
      seq! M.lift (map_err ValidationError.Fatal (TrustAnchors.fatal advanced)) ;;
      let r' := set_floors (set_chain r (Some chain)) (max_security_floor r) (RevocationBatch.to_epoch batch) in
      seq! put_runtime (set_snapshot r' (Some (ClientSnapshot.set_revoked_epochs s revoked))) ;;
      match revocation_reason r batch with
      | Some reason =>
          seq! M.map_err ValidationError.Local (revoke_locked reason) ;;
          M.fail (ValidationError.Fatal (FatalError.Revoked reason))
      | None => M.map_err ValidationError.Local persist_locked
      end.

Definition ticket_checks (r : Runtime) (verified_epoch : EpochId) (nonce : list byte) (machine_id : MachineId)
    : TicketChecks :=
  TicketChecks.mk (ClientInfo.supported_suites (client_info cfg)) verified_epoch nonce machine_id
    (max_revocation_epoch r) (max_security_floor r).

Definition verify_fast (A : Type) `{Artifact A} (r : Runtime) (envelope : Envelope) (t : Z) : result A FatalError :=
  chain <-? ok_of_option (chain r) FatalError.ChainInvalid ;;
  TrustAnchors.fatal (VerifiedChain.verify_artifact_fast FastSig.FastSig A chain envelope product
    (ClockState.effective_now (StateMachine.clock (state r)) t)).

(** The preview region: the ticket verified and checked against a copy of the clock. *)
Definition preview_region (envelope : Envelope) (nonce : list byte) (t : Z) : M Client ValidationError ValidationTicket :=
  let! r := get_runtime in
  match
    credential <-? ok_of_option (credential r) FatalError.CredentialCorrupt ;;
    ticket <-? verify_fast ValidationTicket r envelope t ;;
    verified_epoch <-? ok_of_option (Envelope.epoch_ref envelope) FatalError.ChainInvalid ;;
    Ok (ticket, ticket_checks r verified_epoch nonce (MachineCredential.machine_id credential))
  with
  | Err error => close_and_fail error ValidationError.Fatal
  | Ok (ticket, checks) =>
      match check_ticket ticket checks (StateMachine.clock (state r)) t with
      | None => M.abort
      | Some (_, Err error) => close_and_fail error ValidationError.Fatal
      | Some (_, Ok _) => M.ret ticket
      end
  end.

(** The online session an accepted ticket opens; a denied one has none. *)
Definition apply_verdict (ticket : ValidationTicket) : M Client ValidationError unit :=
  let! r := get_runtime in
  match ValidationTicket.verdict ticket with
  | Verdict.Accepted =>
      let r := set_online_keks r (default ∅ (ValidationTicket.wrapped_keks ticket)) in
      seq! put_runtime r ;;
      let! material := M.lift (ok_of_option (material r) ValidationError.NotActivated) in
      put_runtime (set_material r (Some (KeyMaterial.set_online_session material
        (ValidationTicket.server_nonce ticket) (ValidationTicket.epoch_id ticket))))
  | _ => put_runtime (set_online_keks r ∅)
  end.

(** The deadlines, the event and the durable copy. *)
Definition finish_ticket (credential : MachineCredential) (ticket : ValidationTicket) (envelope_bytes : list byte) (t : Z)
    : M Client ValidationError ValidationTicket :=
  let! r := get_runtime in
  let m := StateMachine.set_deadlines (state r) (deadlines_from_ticket credential ticket) in
  let event := match ValidationTicket.verdict ticket with
    | Verdict.Accepted => Event.TicketVerified
    | Verdict.NeedsReactivation | Verdict.VersionOutOfScope => Event.TicketDenied (ValidationTicket.verdict ticket)
    end in
  let (m, effects) := StateMachine.handle m event t in
  seq! put_runtime (set_state r m) ;;
  let! s := M.lift (ok_of_option (snapshot r) ValidationError.NotActivated) in
  seq! put_runtime (set_snapshot (set_state r m)
    (Some (ClientSnapshot.set_validation_ticket s (Some envelope_bytes)))) ;;
  seq! M.map_err ValidationError.Local persist_locked ;;
  seq! emit_effects effects ;;
  M.ret ticket.

(** The region that applies a ticket; its value is the ticket applied. *)
Definition ticket_region (envelope : Envelope) (envelope_bytes nonce : list byte) (t : Z)
    : M Client ValidationError ValidationTicket :=
  let! r := get_runtime in
  let! credential := M.lift (ok_of_option (credential r) ValidationError.NotActivated) in
  match
    ticket <-? verify_fast ValidationTicket r envelope t ;;
    verified_epoch <-? ok_of_option (Envelope.epoch_ref envelope) FatalError.ChainInvalid ;;
    Ok (ticket, verified_epoch)
  with
  | Err error => close_and_fail error ValidationError.Fatal
  | Ok (ticket, verified_epoch) =>
  match check_ticket ticket (ticket_checks r verified_epoch nonce (MachineCredential.machine_id credential))
    (StateMachine.clock (state r)) t with
  | None => M.abort
  | Some (_, Err error) => close_and_fail error ValidationError.Fatal
  | Some (clock, Ok _) =>
      let r := set_state r (StateMachine.set_clock (state r) clock) in
      let r := set_floors r (Z.max (max_security_floor r) (ValidationTicket.security_floor ticket))
        (Z.max (max_revocation_epoch r) (ValidationTicket.revocation_epoch ticket)) in
      seq! put_runtime (set_entitlements r (default (entitlements r) (ValidationTicket.entitlements ticket))) ;;
      seq! apply_verdict ticket ;;
      finish_ticket credential ticket envelope_bytes t
  end end.

(** The semantic checks of a kill order. *)
Definition kill_error (r : Runtime) (order : KillOrder) (machine_id : MachineId) (nonce : list byte)
    : option FatalError :=
  if negb (KillOrder.proto_ver order =? PROTO_VER) || negb (bool_decide (KillOrder.suite_id order = SUITE_ID))
  then Some FatalError.CredentialCorrupt
  else if negb (bool_decide (KillOrder.machine_id order = machine_id)) then Some FatalError.MachineMismatch
  else if negb (bool_decide (KillOrder.nonce_c_echo order = nonce)) then Some FatalError.NonceMismatch
  else if KillOrder.revocation_epoch order <? max_revocation_epoch r then Some FatalError.RevocationRollback
  else None.

Definition kill_region (envelope : Envelope) (nonce : list byte) (t : Z) : M Client ValidationError unit :=
  let! r := get_runtime in
  let! credential := M.lift (ok_of_option (credential r) ValidationError.NotActivated) in
  match verify_fast KillOrder r envelope t with
  | Err error => close_and_fail error ValidationError.Fatal
  | Ok order =>
  match kill_error r order (MachineCredential.machine_id credential) nonce with
  | Some error => close_and_fail error ValidationError.Fatal
  | None =>
      seq! put_runtime (set_state r (observe_server_time (state r) (KillOrder.server_time order))) ;;
      M.map_err ValidationError.Local (revoke_locked (KillOrder.reason order))
  end end.

(** The regions of [deactivate]. *)
Definition deactivate_olk_region : M Client DeactivateError bool :=
  let! r := get_runtime in
  if negb (is_none (olk r)) then
    seq! M.map_err DeactivateError.Local user_deactivate_locked ;; M.ret true
  else if is_none (credential r) then M.fail DeactivateError.NotActivated
  else M.ret false.

Definition deactivate_request_region (nonce : list byte) : M Client DeactivateError (list byte * string) :=
  let! r := get_runtime in
  let! credential := M.lift (ok_of_option (credential r) DeactivateError.NotActivated) in
  let! s := M.lift (ok_of_option (snapshot r) DeactivateError.NotActivated) in
  let! t := now in
  match build_deactivate_request product s credential nonce t with
  | Err error => close_and_fail error DeactivateError.Fatal
  | Ok request =>
      let! key := M.map_err DeactivateError.Local (platform random_idempotency_key) in
      M.ret (request, key)
  end.

(** The tick in front of the two key-releasing calls: the effects, after they are durable. *)
Definition tick_region (t : Z) : M Client CoreError (list Effect) :=
  let! effects := handle Event.Tick t in
  let! r := get_runtime in
  seq! (if is_none (snapshot r) then M.ret tt
        else M.map_err (fun _ => CoreError.Fatal FatalError.IntegrityFailure) persist_locked) ;;
  seq! emit_effects effects ;;
  M.ret effects.

(** The region of [feature_key]: whether a validation is wanted, and the key. *)
Definition feature_key_region (feature : string) (t : Z) : M Client CoreError (bool * result (list byte) CoreError) :=
  let! effects := tick_region t in
  let! r := get_runtime in
  let! m := M.lift (ok_of_option (material r) CoreError.NoCredential) in
  M.ret (existsb sends_validation effects,
         KeyMaterial.feature_key m (StateMachine.state (state r)) (entitlements r) feature SessionKind.Offline).

(** The region of [unseal]. *)
Definition unseal_region (feature : string) (t : Z) : M Client CoreError (bool * list byte) :=
  let! effects := tick_region t in
  let! r := get_runtime in
  let! m := M.lift (ok_of_option (material r) CoreError.NoCredential) in
  let offline := default [] (offline_wrapped_keks r !! feature) in
  let online := default [] (online_wrapped_keks r !! feature) in
  let! kek := M.lift (KeyMaterial.unwrap_kek_any m (StateMachine.state (state r)) (entitlements r) feature
    online offline) in
  M.ret (existsb sends_validation effects, kek).

(** The region of [run_scheduler_cycle]. *)
Definition cycle_region (hint : bool) (t : Z) {E} : M Client E (bool * bool) :=
  let! effects := handle (if hint then Event.NetworkAvailable else Event.Tick) t in
  let! r := get_runtime in
  seq! (if is_none (snapshot r) then M.ret tt
        else let! _ := M.attempt persist_locked in M.ret tt) ;;
  seq! emit_effects effects ;;
  M.ret (StateMachine.has_credential (state r), existsb sends_validation effects).
End Operations.

(** ** Programs *)

(** A program: a value, an atomic action and what follows its result, or a loop that does not
    end. *)
Inductive Prog `{SS : SignatureScheme} `{P : Platform} (A : Type) : Type :=
| Ret (a : A)
| Act (E B : Type) (m : M Client E B) (k : result B E -> Prog A)
| Diverge.
Arguments Ret {SS P A} a.
Arguments Act {SS P A E B} m k.
Arguments Diverge {SS P A}.

Section Programs.
Context `{SS : SignatureScheme} `{P : Platform}.

Fixpoint pbind {A B} (p : Prog A) (k : A -> Prog B) : Prog B :=
  match p with
  | Ret a => k a
  | Act m f => Act m (fun r => pbind (f r) k)
  | Diverge => Diverge
  end.

(** An action whose error ends the program, as [?] does. *)
Definition act {E A} (m : M Client E A) : Prog (result A E) := Act m Ret.
(** An action that does not fail. *)
Definition atomic {A} (m : M Client Empty_set A) : Prog A :=
  Act m (fun r => match r with Ok a => Ret a | Err e => match e with end end).

Definition pbind_ok {A B E} (p : Prog (result A E)) (k : A -> Prog (result B E)) : Prog (result B E) :=
  pbind p (fun r => match r with Ok a => k a | Err e => Ret (Err e) end).

Definition pmap_err {A E F} (f : E -> F) (p : Prog (result A E)) : Prog (result A F) :=
  pbind p (fun r => Ret (map_err f r)).

Inductive Outcome (A : Type) : Type := Done (a : A) (c : Client) | Aborted | Diverged.
Arguments Done {A} a c.
Arguments Aborted {A}.
Arguments Diverged {A}.

(** A program on its own. *)
Fixpoint run {A} (p : Prog A) (c : Client) : Outcome A :=
  match p with
  | Ret a => Done a c
  | Act m k => match m c with Some (r, c) => run (k r) c | None => Aborted end
  | Diverge => Diverged
  end.
End Programs.
Arguments Done {SS P A} a c.
Arguments Aborted {SS P A}.
Arguments Diverged {SS P A}.

Notation "'let*' x ':=' p 'in' k" := (pbind p (fun x => k))
  (at level 200, x pattern, p at level 200, k at level 200) : client_scope.
Notation "'seq*' p ;; k" := (pbind p (fun _ => k))
  (at level 100, p at next level, right associativity) : client_scope.
Notation "'try*' x ':=' p 'in' k" := (pbind_ok p (fun x => k))
  (at level 200, x pattern, p at level 200, k at level 200) : client_scope.

Section Methods.
Context `{Prim : Primitives} `{CS : CryptoSuite} `{SS : SignatureScheme} `{HS : HashScheme}
  `{K : KeyEncapsulation} `{U : UrlParser} `{P : Platform} (self : Inner).
Notation cfg := (config self).

(** [config.validate], the checks of [construct], and the restored client. *)
Definition construct (config : Config) (fingerprint : Fingerprint) (attributes : DeviceAttrs)
    : M PW ClientInitError (Inner * Client) :=
  if negb (bool_decide (SUITE_ID ∈ ClientInfo.supported_suites (client_info config)))
  then M.fail (ClientInitError.Config ConfigError.InvalidClientInfo)
  else
    let! anchors := M.lift (map_err ClientInitError.Fatal
      (TrustAnchors.decode (current_root_key config) (next_root_key config))) in
    let self := inner _ _ config fingerprint attributes anchors in
    let! c := restore self in M.ret (self, c).

(** [with_components], after [config.validate] the device fingerprint is collected. *)
Definition with_components (config : Config)
    (collect : result (Fingerprint * DeviceAttrs) FingerprintError) : M PW ClientInitError (Inner * Client) :=
  seq! M.lift (map_err ClientInitError.Config (validate config)) ;;
  let! (fingerprint, attributes) := M.lift (map_err ClientInitError.Fingerprint collect) in
  construct config fingerprint attributes.

Definition ensure_device_keys : Prog (result unit LocalError) :=
  let* needs_keys := atomic (let! r := get_runtime in M.ret (is_none (Runtime.snapshot r))) in
  if negb needs_keys then Ret (Ok tt)
  else
    try* generated := act (platform generate_snapshot) in
    act (put_device_keys generated).

Definition send_get (path : string) (limit : Z) : Prog (result TransportResponse TransportError) :=
  match endpoint cfg path with
  | Err _ => Ret (Err TransportError.InvalidRequest)
  | Ok u =>
      try* response := act (platform (fun w => Some (send (transport_request HttpMethod.Get (url_to_string u)
        (protocol_headers None) [] (request_timeout cfg) limit) w))) in
      if Z.of_nat (length (TransportResponse.body response)) >? limit then Ret (Err TransportError.ResponseTooLarge)
      else Ret (Ok response)
  end.

Definition send_post (path : string) (body : list byte) (idempotency_key : option string) (limit : Z)
    : Prog (result TransportResponse TransportError) :=
  if Z.of_nat (length body) >? MAX_BODY_BYTES then Ret (Err TransportError.InvalidRequest)
  else match endpoint cfg path with
  | Err _ => Ret (Err TransportError.InvalidRequest)
  | Ok u =>
      try* response := act (platform (fun w => Some (send (transport_request HttpMethod.Post (url_to_string u)
        (protocol_headers idempotency_key) body (request_timeout cfg) limit) w))) in
      if Z.of_nat (length (TransportResponse.body response)) >? limit then Ret (Err TransportError.ResponseTooLarge)
      else Ret (Ok response)
  end.

Definition fetch_keyset : Prog (result Keyset ValidationError) :=
  try* response := pmap_err map_transport_validation (send_get "v1/keys" MAX_KEYSET_BYTES) in
  Ret (body <-? success_body response ;;
       map_err (fun e => ValidationError.Fatal (FatalError.from_proto e)) (KeysetCodec.decode body)).

(** One page: the request, its answer and the region that applies it. *)
Definition sync_page (target current : Z) : Prog (result unit ValidationError) :=
  match checked 0 u64_max (current + 1) with
  | None => Ret (Err (ValidationError.Fatal FatalError.CredentialCorrupt))
  | Some cursor =>
      try* response := pmap_err map_transport_validation
        (send_get (String.append "v1/revocations?since=" (pretty cursor)) ARTIFACT_RESPONSE_LIMIT) in
      match body <-? success_body response ;;
            map_err (fun e => ValidationError.Fatal (FatalError.from_proto e)) (Envelope.decode body) with
      | Err e => Ret (Err e)
      | Ok envelope => act (sync_region self envelope target current cursor)
      end
  end.

(** The loop; every round sees a larger epoch than the round before, so that [target] + 2 rounds
    are enough. *)
Fixpoint sync_loop (fuel : nat) (target : Z) : Prog (result unit ValidationError) :=
  match fuel with
  | O => Diverge
  | S fuel =>
      let* current := atomic (let! r := get_runtime in M.ret (Runtime.max_revocation_epoch r)) in
      if target <? current then Ret (Err (ValidationError.Fatal FatalError.RevocationRollback))
      else if target =? current then Ret (Ok tt)
      else try* _ := sync_page target current in sync_loop fuel target
  end.
Definition sync_revocations (target : Z) : Prog (result unit ValidationError) :=
  sync_loop (S (S (Z.to_nat target))) target.

Definition resolve_validation_stage_error (error : ValidationError) : Prog ValidationError :=
  match error with
  | ValidationError.Transient transient =>
      seq* atomic (record_scheduler_failure self transient) ;;
      let* r := act (apply_transient_failure transient) in
      Ret (match r with Ok _ => ValidationError.Transient transient | Err local_or_fatal => local_or_fatal end)
  | ValidationError.Fatal fatal =>
      seq* atomic (fail_closed fatal) ;; Ret (ValidationError.Fatal fatal)
  | e => Ret e
  end.
Definition resolved {A} (p : Prog (result A ValidationError)) : Prog (result A ValidationError) :=
  let* r := p in
  match r with
  | Ok a => Ret (Ok a)
  | Err e => let* e := resolve_validation_stage_error e in Ret (Err e)
  end.

Definition resolve_activate_transport (error : TransportError) : Prog ActivateError :=
  match map_transport_activate error with
  | ActivateError.Fatal fatal => seq* atomic (fail_closed fatal) ;; Ret (ActivateError.Fatal fatal)
  | other => Ret other
  end.
Definition resolve_deactivate_transport (error : TransportError) : Prog DeactivateError :=
  match map_transport_deactivate error with
  | DeactivateError.Fatal fatal => seq* atomic (fail_closed fatal) ;; Ret (DeactivateError.Fatal fatal)
  | other => Ret other
  end.

(** [fail_closed(error); return Err(..)]. *)
Definition close {E A} (error : FatalError) (as_ : FatalError -> E) : Prog (result A E) :=
  seq* atomic (fail_closed error) ;; Ret (Err (as_ error)).

(** How [activate_credential] reports a failure of its validation stages. *)
Definition activate_stage {A} (p : Prog (result A ValidationError)) (record_failure : bool)
    : Prog (result A ActivateError) :=
  let* r := p in
  match r with
  | Ok a => Ret (Ok a)
  | Err (ValidationError.Transient error) =>
      seq* (if record_failure then atomic (record_scheduler_failure self error) else Ret tt) ;;
      Ret (Err (ActivateError.Transient error))
  | Err (ValidationError.Fatal error) => close error ActivateError.Fatal
  | Err (ValidationError.Local error) => Ret (Err (ActivateError.Local error))
  | Err _ => Ret (Err (ActivateError.Local LocalError.StateUnavailable))
  end.

Definition activate_credential (credential : Credential) : Prog (result unit ActivateError) :=
  try* _ := pmap_err ActivateError.Local ensure_device_keys in
  try* nonce := act (M.map_err ActivateError.Local (platform (random_array 32))) in
  try* (body, idempotency_key) := act (activation_request_region self credential nonce) in
  let* response := send_post "v1/activate" body (Some idempotency_key) ARTIFACT_RESPONSE_LIMIT in
  match response with
  | Err error => let* e := resolve_activate_transport error in Ret (Err e)
  | Ok response =>
  match activation_response response with
  | Err (ActivateResponseError.Transient error) => Ret (Err (ActivateError.Transient error))
  | Err (ActivateResponseError.Rejected error) => Ret (Err (ActivateError.Rejected error))
  | Err (ActivateResponseError.Fatal error) => close error ActivateError.Fatal
  | Ok credential_bytes =>
      try* keyset := activate_stage fetch_keyset false in
      let revocation_target := Keyset.revocation_epoch keyset in
      try* _ := activate_stage (act (install_keyset self keyset)) false in
      try* _ := activate_stage (sync_revocations revocation_target) true in
      let* t := atomic now in
      try* (start, deadline) := act (activation_region self credential_bytes revocation_target t) in
      seq* atomic (record_scheduler_success t start deadline) ;;
      Ret (Ok tt)
  end end.

Definition activate (key : string) := activate_credential (Credential.LicenseKey key).
Definition activate_with_account (token : list byte) := activate_credential (Credential.AccountToken token).

Definition build_offline_request (key : string) : Prog (result (list byte) OfflineError) :=
  try* _ := pmap_err OfflineError.Local ensure_device_keys in
  try* nonce := act (M.map_err OfflineError.Local (platform (random_array 32))) in
  let* t := atomic now in
  act (offline_request_region self key nonce t).

Definition import_offline_response (bytes : list byte) : Prog (result unit OfflineError) :=
  match
    envelope <-? TrustAnchors.fatal (Envelope.decode bytes) ;;
    unverified <-? TrustAnchors.fatal (Envelope.peek_unverified ActivationResponse envelope) ;;
    Ok (envelope, unverified)
  with
  | Err fatal => close fatal OfflineError.Fatal
  | Ok (envelope, unverified) =>
      let* t := atomic now in
      try* (start, deadline) := act (offline_response_region self envelope unverified t) in
      seq* atomic (record_scheduler_success t start deadline) ;;
      Ret (Ok tt)
  end.

Definition import_olk (armored : list byte) : Prog (result unit OfflineError) :=
  match
    bundle <-? TrustAnchors.fatal (OfflineLicenseBundle.from_armored armored) ;;
    envelope <-? TrustAnchors.fatal (Envelope.decode (OfflineLicenseBundle.license_envelope bundle)) ;;
    Ok (bundle, envelope)
  with
  | Err fatal => close fatal OfflineError.Fatal
  | Ok (bundle, envelope) =>
      if negb (bool_decide (Envelope.suite_id envelope = SUITE_ID)) ||
         negb (bool_decide (Envelope.suite_id envelope ∈ ClientInfo.supported_suites (client_info cfg)))
      then Ret (Err OfflineError.UnsupportedCredential)
      else match TrustAnchors.fatal (Envelope.peek_unverified OfflineLicenseKey envelope) with
      | Err fatal => close fatal OfflineError.Fatal
      | Ok preview =>
          let* t := atomic now in
          try* _ := act (olk_region self bundle envelope preview t) in
          seq* atomic disable_scheduler ;;
          Ret (Ok tt)
      end
  end.

(** [validate] after the flight guard. *)
Definition apply_envelope (envelope : Envelope) (envelope_bytes nonce : list byte) : Prog (result unit ValidationError) :=
  let* t := atomic now in
  match Envelope.kind envelope with
  | ArtifactKind.ValidationTicket =>
      try* preview := act (preview_region self envelope nonce t) in
      try* _ := resolved (sync_revocations (ValidationTicket.revocation_epoch preview)) in
      try* ticket := act (ticket_region self envelope envelope_bytes nonce t) in
      seq* atomic (record_scheduler_success t (ValidationTicket.server_time ticket)
        (ValidationTicket.next_refresh_after ticket)) ;;
      Ret (match ValidationTicket.verdict ticket with
           | Verdict.Accepted => Ok tt
           | Verdict.NeedsReactivation => Err ValidationError.ReactivationRequired
           | Verdict.VersionOutOfScope => Err ValidationError.VersionOutOfScope
           end)
  | ArtifactKind.KillOrder => act (kill_region self envelope nonce t)
  | _ => close FatalError.CredentialCorrupt ValidationError.Fatal
  end.

Definition validate_body : Prog (result unit ValidationError) :=
  try* nonce := act (M.map_err ValidationError.Local (platform (random_array 32))) in
  try* body := act (validate_request_region self nonce) in
  seq* atomic (let! t := now in mark_scheduler_attempt t) ;;
  try* response := resolved (pmap_err map_transport_validation
    (send_post "v1/validate" body None ARTIFACT_RESPONSE_LIMIT)) in
  match validation_response response with
  | Err (ValidationResponseError.Transient error) =>
      seq* atomic (record_scheduler_failure self error) ;;
      try* _ := act (apply_transient_failure error) in
      Ret (Err (ValidationError.Transient error))
  | Err (ValidationResponseError.Fatal error) => close error ValidationError.Fatal
  | Ok envelope_bytes =>
  match TrustAnchors.fatal (Envelope.decode envelope_bytes) with
  | Err error => close error ValidationError.Fatal
  | Ok envelope =>
      try* needs := act (needs_epoch_refresh envelope) in
      try* _ := (if needs then
          try* keyset := resolved fetch_keyset in
          try* _ := resolved (act (install_keyset self keyset)) in
          resolved (sync_revocations (Keyset.revocation_epoch keyset))
        else Ret (Ok tt)) in
      apply_envelope envelope envelope_bytes nonce
  end end.

Definition set_in_flight (b : bool) {E} : M Client E unit :=
  M.modify (fun c => client _ _ (runtime c) b (validation_requested c) (online_hint c) (scheduler_state c)
                       (state_changes c) (world c)).
(** [ValidationFlight::acquire], and its [Drop]. *)
Definition acquire : M Client ValidationError unit := fun c =>
  if validation_in_flight c then Some (Err ValidationError.AlreadyInFlight, c) else set_in_flight true c.

(** The name [validate] is the configuration's. *)
Definition validate_ : Prog (result unit ValidationError) :=
  try* _ := act acquire in
  let* r := validate_body in
  seq* atomic (set_in_flight false) ;; Ret r.

(** [deactivate] with a credential: the server releases the seat first. *)
Definition release_seat : Prog (result unit DeactivateError) :=
  try* nonce := act (M.map_err DeactivateError.Local (platform (random_array 32))) in
  try* (body, key) := act (deactivate_request_region self nonce) in
  let* response := send_post "v1/deactivate" body (Some key) ERROR_RESPONSE_LIMIT in
  match response with
  | Err error => let* e := resolve_deactivate_transport error in Ret (Err e)
  | Ok response =>
  match transient_status response with
  | Some error => Ret (Err (DeactivateError.Transient error))
  | None =>
  match deactivation_ack response with
  | Err error => close error DeactivateError.Fatal
  | Ok _ =>
      try* _ := act (M.map_err DeactivateError.Local user_deactivate_locked) in
      seq* atomic disable_scheduler ;; Ret (Ok tt)
  end end end.

Definition deactivate : Prog (result unit DeactivateError) :=
  try* was_olk := act deactivate_olk_region in
  if was_olk : bool then seq* atomic disable_scheduler ;; Ret (Ok tt) else release_seat.

Definition set_validation_requested (b : bool) {E} : M Client E unit :=
  M.modify (fun c => client _ _ (runtime c) (validation_in_flight c) b (online_hint c) (scheduler_state c)
                       (state_changes c) (world c)).
Definition set_online_hint (b : bool) {E} : M Client E unit :=
  M.modify (fun c => client _ _ (runtime c) (validation_in_flight c) (validation_requested c) b (scheduler_state c)
                       (state_changes c) (world c)).
Definition request_validation : Prog unit := atomic (set_validation_requested true).
Definition hint_online : Prog unit := atomic (set_online_hint true).

Definition feature_key (feature : string) : Prog (result (list byte) CoreError) :=
  let* t := atomic now in
  try* (wanted, key) := act (feature_key_region feature t) in
  seq* (if wanted : bool then request_validation else Ret tt) ;;
  Ret key.

Definition unseal (feature : string) (sealed : list byte) : Prog (result (list byte) CoreError) :=
  match SealedAsset.decode sealed with
  | Err _ => Ret (Err CoreError.AssetCorrupt)
  | Ok asset =>
      if negb (bool_decide (SealedAsset.suite_id asset = SUITE_ID)) ||
         negb (bool_decide (SealedAsset.product_id asset = product_id cfg)) ||
         negb (SealedAsset.variant_id asset =? ClientInfo.variant_id (client_info cfg)) ||
         negb (bool_decide (SealedAsset.feature_id asset = feature))
      then Ret (Err CoreError.AssetCorrupt)
      else
        let* t := atomic now in
        try* (wanted, kek) := act (unseal_region feature t) in
        seq* (if wanted : bool then request_validation else Ret tt) ;;
        Ret (map_err (fun _ => CoreError.AssetCorrupt) (SealedAsset.open asset kek))
  end.

Definition challenge (input : list byte) : Prog (result (list byte) CoreError) :=
  match FeatureChallenge.decode input with
  | Err _ => Ret (Err CoreError.AssetCorrupt)
  | Ok challenge =>
      try* feature_key := feature_key (FeatureChallenge.feature_id challenge) in
      Ret (response <-? map_err (fun _ => CoreError.DerivationFailed)
             (Kdf.derive_from FEATURE_CHALLENGE_SALT feature_key
                [text_bytes (FeatureChallenge.feature_id challenge); FeatureChallenge.challenge challenge]) ;;
           Ok (FeatureResponse.encode (FeatureResponse.new response)))
  end.

(** [state()], advisory. *)
Definition advisory_state (c : Client) : LicenseState := StateMachine.state (Runtime.state (runtime c)).

(** Reading and clearing a flag: [swap(false)]. *)
Definition swap_hint : M Client Empty_set bool := fun c => (seq! set_online_hint false ;; M.ret (online_hint c)) c.
Definition swap_requested : M Client Empty_set bool := fun c =>
  (seq! set_validation_requested false ;; M.ret (validation_requested c)) c.

Definition should_attempt (t : Z) (has_credential hint requested : bool) : M Client Empty_set bool := fun c =>
  let (b, s) := SchedulerState.should_attempt (scheduler_state c) t has_credential hint requested
    (CoreConfig.min_validation_interval_secs (core cfg)) in
  (seq! modify_scheduler (fun _ => s) ;; M.ret b) c.

Definition run_scheduler_cycle : Prog unit :=
  let* t := atomic now in
  let* hint := atomic swap_hint in
  let* explicitly_requested := atomic swap_requested in
  let* (has_credential, core_requested) := atomic (cycle_region hint t) in
  let* attempt := atomic (should_attempt t has_credential hint (explicitly_requested || core_requested)) in
  if negb attempt then Ret tt
  else let* _ := validate_ in Ret tt.
End Methods.
