(* ===== verification/ClientRuns.v ===== *)
(** * The client's invariant and its interleavings

    A predicate transformer over the runtime for the lock regions of [Client], the invariant of
    the runtime and its preservation by every region, and the programs of all methods running
    concurrently: the invariant and the high-water marks hold along every interleaving, and no
    program loops for ever. *)

From S2P Require Import Prelude Types Clock Errors StateMachine Ticket Device Cbor Field Artifacts Chain.
From S2P Require Import Requests Messages Armor Suite StdSuite Seal Keys StoreRecord Host Snapshot.
From S2P Require Import Scheduler ClientWire Client.
#[local] Open Scope client_scope.
Import Runtime.

(** ** The machine underneath *)

(** No credential is flagged in the states that wipe or never had one. *)
Definition machine_ok (m : StateMachine) : Prop :=
  match StateMachine.state m with
  | LicenseState.Unlicensed | LicenseState.Activating | LicenseState.Revoked | LicenseState.Tampered =>
      StateMachine.has_credential m = false
  | _ => True
  end.

(** The persisted order of the clock, with the widths its counters need. *)
Definition clock_ok (c : ClockState) : Prop := ClockState.last_server_time c <= ClockState.last_seen_max c.

Lemma handle_machine_ok m e t : machine_ok m -> machine_ok (StateMachine.handle m e t).1.
Proof. unfold machine_ok. table_cases m e. Qed.

Definition wiping (e : Event) : bool :=
  match e with Event.VerificationFailed _ | Event.KillOrderVerified _ | Event.UserDeactivate => true | _ => false end.

Lemma wiping_clears m e t :
  machine_ok m -> wiping e = true -> StateMachine.has_credential (StateMachine.handle m e t).1 = false.
Proof. unfold machine_ok. table_cases m e. Qed.

Lemma handle_clock_le m e t :
  ClockState.last_seen_max (StateMachine.clock m) <= ClockState.last_seen_max (StateMachine.clock (StateMachine.handle m e t).1).
Proof.
  rewrite handle_clock. destruct (time_driven e); [|lia]. unfold ClockState.check.
  destruct (_ <? _); simpl; autorewrite with clock; lia.
Qed.

Lemma handle_clock_ok m e t : clock_ok (StateMachine.clock m) -> clock_ok (StateMachine.clock (StateMachine.handle m e t).1).
Proof.
  unfold clock_ok. rewrite handle_clock. destruct (time_driven e); [|lia]. unfold ClockState.check.
  destruct (_ <? _); simpl; autorewrite with clock; lia.
Qed.

Lemma observe_ok c t : clock_ok (ClockState.observe_server_time c t).
Proof. unfold clock_ok, ClockState.observe_server_time. simpl. autorewrite with clock. lia. Qed.
Lemma observe_le c t : ClockState.last_seen_max c <= ClockState.last_seen_max (ClockState.observe_server_time c t).
Proof. unfold ClockState.observe_server_time. simpl. autorewrite with clock. lia. Qed.

(** A ticket either leaves the clock or has the server's time observed. *)
Lemma check_ticket_clock vt ctx c t c' o :
  check_ticket vt ctx c t = Some (c', o) ->
  (c' = c /\ exists e, o = Err e) \/ (exists x, o = Ok x /\ c' = ClockState.observe_server_time c (ValidationTicket.server_time vt)).
Proof.
  unfold check_ticket. intros H. repeat case_match; simplify_eq;
    first [left; split; [done|by eexists]|right; by eexists].
Qed.

(** ** The invariant *)
Section Invariant.
Context `{SS : SignatureScheme} `{U : UrlParser} (self : Inner).

(** Key material bound to a licence, a machine and this product. *)
Definition bound_to (m : KeyMaterial) (license : LicenseId) (machine : MachineId) (epoch : EpochId) : Prop :=
  KeyMaterial.license_id m = license /\ KeyMaterial.machine_id m = machine /\
  KeyMaterial.offline_epoch_id m = epoch /\ KeyMaterial.product_id m = text_bytes (product_id (config self)).

(** Something is held: its key material is bound to it, the snapshot carries its envelope, it is
    signed by an epoch the client does not know to be revoked, and it is not newer than the marks. *)
Definition holding (r : Runtime) (license : LicenseId) (machine : MachineId) (epoch : EpochId)
    (floor revocation : Z) : Prop :=
  exists s m c, snapshot r = Some s /\ material r = Some m /\ chain r = Some c /\
    is_Some (ClientSnapshot.credential_envelope s) /\ bound_to m license machine epoch /\
    epoch ∉ ClientSnapshot.revoked_epochs s /\
    floor <= max_security_floor r /\ revocation <= max_revocation_epoch r.

(** Nothing is held. *)
Definition empty_handed (r : Runtime) : Prop :=
  credential r = None /\ olk r = None /\ material r = None /\ entitlements r = no_entitlements /\
  offline_wrapped_keks r = ∅ /\ online_wrapped_keks r = ∅ /\ StateMachine.has_credential (state r) = false /\
  (forall s, snapshot r = Some s -> ClientSnapshot.credential_envelope s = None).

Definition held (r : Runtime) : Prop :=
  match credential r, olk r with
  | None, None => empty_handed r
  | Some c, None =>
      holding r (MachineCredential.license_id c) (MachineCredential.machine_id c) (MachineCredential.epoch_id c)
        (MachineCredential.security_floor c) (MachineCredential.revocation_epoch c)
  | None, Some l =>
      holding r (OfflineLicenseKey.license_id l) (OfflineLicenseKey.machine_id l) (OfflineLicenseKey.epoch_id l)
        (OfflineLicenseKey.security_floor l) (OfflineLicenseKey.revocation_epoch l)
  | Some _, Some _ => False
  end.

(** The chain knows the revocations the snapshot records, and no later epoch than the mark. *)
Definition chain_in_step (r : Runtime) : Prop :=
  forall c, chain r = Some c -> exists s, snapshot r = Some s /\
    RevocationState.epoch (VerifiedChain.revocation c) <= max_revocation_epoch r /\
    (forall e, e ∈ RevocationState.revoked_epochs (VerifiedChain.revocation c) <-> e ∈ ClientSnapshot.revoked_epochs s).

Record inv (r : Runtime) : Prop := {
  inv_held : held r;
  inv_chain : chain_in_step r;
  inv_machine : machine_ok (state r);
  inv_clock : clock_ok (StateMachine.clock (state r));
  inv_epoch : 0 <= max_revocation_epoch r;
}.

(** The marks a program may only raise. *)
Definition evolves (r r' : Runtime) : Prop :=
  max_security_floor r <= max_security_floor r' /\ max_revocation_epoch r <= max_revocation_epoch r' /\
  ClockState.last_seen_max (StateMachine.clock (state r)) <= ClockState.last_seen_max (StateMachine.clock (state r')).

#[export] Instance evolves_preorder : PreOrder evolves.
Proof. split; red; unfold evolves; intros; lia. Qed.

Definition good (r r' : Runtime) : Prop := inv r' /\ evolves r r'.

Lemma good_refl r : inv r -> good r r.
Proof. by split. Qed.
Lemma good_trans a b c : evolves a b -> good b c -> good a c.
Proof. intros H [? ?]. split; [done|]. by trans b. Qed.
End Invariant.

(** ** Reasoning about lock regions *)
Section Wp.
Context `{SS : SignatureScheme} `{P : Platform}.

(** What holds of the result and of the runtime after an action, whatever the rest of the state. *)
Definition wpr {E A} (m : M Client E A) (Q : result A E -> Runtime -> Prop) (r : Runtime) : Prop :=
  forall c, runtime c = r -> match m c with Some (x, c') => Q x (runtime c') | None => True end.

Definition steady {E A} (m : M Client E A) : Prop := forall r, wpr m (fun _ r' => r' = r) r.

Lemma wpr_mono {E A} (m : M Client E A) (Q Q' : result A E -> Runtime -> Prop) r :
  wpr m Q r -> (forall x r', Q x r' -> Q' x r') -> wpr m Q' r.
Proof. intros H HQ c Hc. specialize (H c Hc). destruct (m c) as [[x c']|]; auto. Qed.

Lemma wpr_bind {E A B} (m : M Client E A) (k : A -> M Client E B) Q r :
  wpr m (fun x r' => match x with Ok a => wpr (k a) Q r' | Err e => Q (Err e) r' end) r -> wpr (M.bind m k) Q r.
Proof.
  intros H c Hc. specialize (H c Hc). unfold M.bind. destruct (m c) as [[[a|e] c']|]; [|done..]. by apply H.
Qed.
Lemma wpr_ret {E A} (a : A) (Q : result A E -> Runtime -> Prop) r : Q (Ok a) r -> wpr (M.ret a) Q r.
Proof. by intros H c <-. Qed.
Lemma wpr_fail {E A} (e : E) (Q : result A E -> Runtime -> Prop) r : Q (Err e) r -> wpr (M.fail e) Q r.
Proof. by intros H c <-. Qed.
Lemma wpr_lift {E A} (x : result A E) Q r : Q x r -> wpr (M.lift x) Q r.
Proof. by intros H c <-. Qed.
Lemma wpr_abort {E A} (Q : result A E -> Runtime -> Prop) r : wpr M.abort Q r.
Proof. by intros c _. Qed.
Lemma wpr_get {E} (Q : result Runtime E -> Runtime -> Prop) r : Q (Ok r) r -> wpr get_runtime Q r.
Proof. by intros H c <-. Qed.
Lemma wpr_put {E} r' (Q : result unit E -> Runtime -> Prop) r : Q (Ok tt) r' -> wpr (put_runtime r') Q r.
Proof. by intros H c _. Qed.
Lemma wpr_map_err {E F A} (f : E -> F) (m : M Client E A) Q r :
  wpr m (fun x r' => Q (map_err f x) r') r -> wpr (M.map_err f m) Q r.
Proof. intros H c Hc. specialize (H c Hc). unfold M.map_err. by destruct (m c) as [[x c']|]. Qed.
Lemma wpr_attempt {E F A} (m : M Client E A) (Q : result (result A E) F -> Runtime -> Prop) r :
  wpr m (fun x r' => Q (Ok x) r') r -> wpr (M.attempt m) Q r.
Proof. intros H c Hc. specialize (H c Hc). unfold M.attempt. by destruct (m c) as [[x c']|]. Qed.
Lemma wpr_steady {E A} (m : M Client E A) (Q : result A E -> Runtime -> Prop) r :
  steady m -> (forall x, Q x r) -> wpr m Q r.
Proof. intros Hm HQ. eapply wpr_mono; [apply Hm|]. by intros x r' ->. Qed.

Lemma steady_bind {E A B} (m : M Client E A) (k : A -> M Client E B) :
  steady m -> (forall a, steady (k a)) -> steady (M.bind m k).
Proof. intros Hm Hk r. apply wpr_bind, wpr_steady; [done|]. intros [a|e]; [apply Hk|done]. Qed.
Lemma steady_map_err {E F A} (f : E -> F) (m : M Client E A) : steady m -> steady (M.map_err f m).
Proof. intros Hm r. apply wpr_map_err. apply Hm. Qed.
Lemma steady_attempt {E F A} (m : M Client E A) : steady m -> steady (M.attempt (F := F) m).
Proof. intros Hm r. apply wpr_attempt. apply Hm. Qed.
Lemma steady_platform {E A} (m : M PW E A) : steady (platform m).
Proof. intros r c <-. unfold platform. by destruct (m (world c)) as [[x w]|]. Qed.
Lemma steady_ret {E A} (a : A) : steady (E := E) (M.ret a).
Proof. intros r. by apply wpr_ret. Qed.
Lemma steady_lift {E A} (x : result A E) : steady (M.lift x).
Proof. intros r. by apply wpr_lift. Qed.
Lemma steady_fail {E A} (e : E) : steady (A := A) (M.fail e).
Proof. intros r. by apply wpr_fail. Qed.
Lemma steady_get {E} : steady (E := E) get_runtime.
Proof. intros r. by apply wpr_get. Qed.
Lemma steady_scheduler {E} f : steady (E := E) (modify_scheduler f).
Proof. by intros r c <-. Qed.
Lemma steady_emit {E} effects : steady (E := E) (emit_effects effects).
Proof. by intros r c <-. Qed.

(** The actions that cannot fail. *)
Lemma wpr_now {E} (Q : result Z E -> Runtime -> Prop) r : (forall t, Q (Ok t) r) -> wpr now Q r.
Proof. intros H c <-. unfold now, platform, now_. destruct (unix_seconds (world c)) as [t w]. apply H. Qed.
Lemma wpr_scheduler {E} f (Q : result unit E -> Runtime -> Prop) r : Q (Ok tt) r -> wpr (modify_scheduler f) Q r.
Proof. by intros H c <-. Qed.
Lemma wpr_emit {E} effects (Q : result unit E -> Runtime -> Prop) r : Q (Ok tt) r -> wpr (emit_effects effects) Q r.
Proof. by intros H c <-. Qed.
End Wp.

Create HintDb steady.
#[export] Hint Resolve steady_platform steady_ret steady_lift steady_fail steady_get steady_scheduler steady_emit
  steady_map_err steady_attempt : steady.
#[export] Hint Extern 2 (steady (M.bind _ _)) => (apply steady_bind; [|intros]) : steady.
#[export] Hint Extern 1 (steady now) => apply steady_platform : steady.
#[export] Hint Extern 1 (steady disable_scheduler) => apply steady_scheduler : steady.
#[export] Hint Extern 1 (steady (mark_scheduler_attempt _)) => apply steady_scheduler : steady.

(** ** What opening a credential establishes *)
Section Opening.
Context `{Prim : Primitives} `{CS : CryptoSuite} `{SS : SignatureScheme} `{HS : HashScheme}
  `{K : KeyEncapsulation} `{U : UrlParser} (self : Inner).
Notation cfg := (config self).

Lemma signing_epoch_live (c : VerifiedChain.VerifiedChain) env t e id :
  VerifiedChain.signing_epoch c env t = Ok e -> Envelope.epoch_ref env = Some id ->
  id ∉ RevocationState.revoked_epochs (VerifiedChain.revocation c).
Proof.
  unfold VerifiedChain.signing_epoch. intros H Hid. rewrite Hid in H. cbn [ok_of_option rbind] in H.
  destruct (VerifiedChain.epoch c id); [|done]. cbn [ok_of_option rbind] in H.
  unfold RevocationState.is_epoch_revoked in H. by case_bool_decide.
Qed.

Lemma verify_artifact_live `{Artifact A} (c : VerifiedChain.VerifiedChain) env product t (a : A) id :
  VerifiedChain.verify_artifact A c env product t = Ok a -> Envelope.epoch_ref env = Some id ->
  id ∉ RevocationState.revoked_epochs (VerifiedChain.revocation c).
Proof.
  unfold VerifiedChain.verify_artifact. rewrite rbind_ok. intros (e & He & _). by eapply signing_epoch_live.
Qed.

Lemma bind_bound secret fp env product license machine epoch variant vc nonce m :
  KeyMaterial.bind secret fp env product license machine epoch variant vc nonce = Ok m ->
  KeyMaterial.license_id m = license /\ KeyMaterial.machine_id m = machine /\
  KeyMaterial.offline_epoch_id m = epoch /\ KeyMaterial.product_id m = text_bytes product.
Proof. unfold KeyMaterial.bind. rewrite rbind_ok. by intros (b & _ & [= <-]). Qed.

Lemma corrupt_ok {A E} (m : result A E) a : corrupt_on_err m = Ok a -> m = Ok a.
Proof. by destruct m; intros [= ->]. Qed.
Lemma map_err_ok' {A E F} (f : E -> F) (m : result A E) a : map_err f m = Ok a -> m = Ok a.
Proof. by destruct m; intros [= ->]. Qed.

Lemma open_machine_spec encoded chain s fp t floor epoch c m :
  open_machine_credential encoded chain s cfg fp t floor epoch = Ok (c, m) ->
  bound_to self m (MachineCredential.license_id c) (MachineCredential.machine_id c) (MachineCredential.epoch_id c) /\
  MachineCredential.epoch_id c ∉ RevocationState.revoked_epochs (VerifiedChain.revocation chain) /\
  floor <= MachineCredential.security_floor c /\ epoch <= MachineCredential.revocation_epoch c.
Proof.
  unfold open_machine_credential. rewrite rbind_ok. intros (env & _ & H). destruct (_ || _); [done|].
  apply rbind_ok in H as (c' & Hv%fatal_ok & H). destruct (credential_bad _ _ _ _ _ _ _) eqn:Hbad; [done|].
  apply rbind_ok in H as (dk & _ & H). apply rbind_ok in H as (sh & _ & H). apply rbind_ok in H as (cs & _ & H).
  apply rbind_ok in H as (m' & Hm%corrupt_ok%bind_bound & [= <- <-]).
  unfold credential_bad in Hbad. rewrite !orb_false_iff, !negb_false_iff, !bool_decide_eq_true, !Z.ltb_ge in Hbad.
  destruct_and! Hbad. split; [|split; [eapply (verify_artifact_live _ _ _ _ _ _ Hv); eassumption|split; eassumption]]. unfold bound_to. destruct_and! Hm. split_and!; congruence.
Qed.

Lemma open_olk_spec envelope chain fp t floor epoch l m :
  open_offline_license envelope chain cfg fp t floor epoch = Ok (l, m) ->
  bound_to self m (OfflineLicenseKey.license_id l) (OfflineLicenseKey.machine_id l) (OfflineLicenseKey.epoch_id l) /\
  OfflineLicenseKey.epoch_id l ∉ RevocationState.revoked_epochs (VerifiedChain.revocation chain) /\
  floor <= OfflineLicenseKey.security_floor l /\ epoch <= OfflineLicenseKey.revocation_epoch l.
Proof.
  unfold open_offline_license. rewrite rbind_ok. intros (pre & _ & H).
  apply rbind_ok in H as (l' & Hv%map_err_ok'%fatal_ok & H). destruct (olk_bad _ _ _ _ _ _) eqn:Hbad; [done|].
  apply rbind_ok in H as (b & _ & H). apply rbind_ok in H as (m' & Hm%map_err_ok'%corrupt_ok & [= <- <-]).
  unfold KeyMaterial.bind_olk in Hm. apply rbind_ok in Hm as (d & _ & Hm%bind_bound).
  unfold olk_bad in Hbad. rewrite !orb_false_iff, !negb_false_iff, !bool_decide_eq_true, !Z.ltb_ge in Hbad.
  destruct_and! Hbad. split; [|split; [eapply (verify_artifact_live _ _ _ _ _ _ Hv); eassumption|split; eassumption]]. unfold bound_to. destruct_and! Hm. split_and!; congruence.
Qed.

(** A keyset's chain starts from the revocations it is given. *)
Lemma add_epoch_revocation (c : VerifiedChain.VerifiedChain) env product root t :
  VerifiedChain.revocation (VerifiedChain.add_epoch c env product root t).1 = VerifiedChain.revocation c.
Proof. unfold VerifiedChain.add_epoch. by destruct (VerifiedChain.check_epoch _ _ _ _ _). Qed.

Lemma verify_keyset_revocation keyset t known revoked c :
  verify_keyset self keyset t known revoked = Ok c ->
  RevocationState.epoch (VerifiedChain.revocation c) = known /\
  (forall e, e ∈ RevocationState.revoked_epochs (VerifiedChain.revocation c) <-> e ∈ revoked).
Proof.
  unfold verify_keyset, TrustAnchors.verify_keyset. destruct (negb _); [done|]. destruct (_ <? known); [done|].
  unfold VerifiedChain.advance_revocation, RevocationState.advance. cbn [VerifiedChain.new VerifiedChain.revocation
    RevocationState.epoch RevocationState.default_]. destruct (known <? 0); [done|]. cbn [map_err TrustAnchors.fatal rbind].
  set (c0 := VerifiedChain.mk _ _ _). intros H.
  assert (VerifiedChain.revocation c = VerifiedChain.revocation c0) as ->.
  { revert H. apply (try_fold_inv (fun x => VerifiedChain.revocation x = VerifiedChain.revocation c0)); [|done].
    intros acc x acc' _ Ha. unfold TrustAnchors.add_certificate. rewrite rbind_ok. intros (env & _ & H).
    apply rbind_ok in H as (ce & _ & H). destruct (negb _); [by simplify_eq|]. destruct (TrustAnchors.corrupt _ _ _); [done|].
    destruct (negb _); [by simplify_eq|]. apply rbind_ok in H as (root & _ & H).
    pose proof (add_epoch_revocation acc env (product_id cfg) root t) as Hr.
    destruct (VerifiedChain.add_epoch _ _ _ _ _) as [c1 r1]. apply rbind_ok in H as (_ & _ & [= <-]). cbn in Hr. congruence. }
  subst c0. cbn. split; [done|]. intros e. rewrite fold_push_new. set_solver.
Qed.

Lemma chain_of_keyset keyset t epoch revoked c r s :
  verify_keyset self keyset t epoch revoked = Ok c -> epoch <= max_revocation_epoch r ->
  chain r = Some c -> snapshot r = Some s -> ClientSnapshot.revoked_epochs s = revoked -> chain_in_step r.
Proof.
  intros [He Hr]%verify_keyset_revocation Hle Hc Hs <- c' Hc'. rewrite Hc in Hc'. injection Hc' as <-.
  exists s. split; [done|]. split; [by rewrite He|done].
Qed.
End Opening.

(** ** Every lock region keeps the invariant and raises the marks only *)
Ltac wstep :=
  match goal with
  | |- wpr (M.bind _ _) _ _ => apply wpr_bind
  | |- wpr get_runtime _ _ => apply wpr_get
  | |- wpr (put_runtime _) _ _ => apply wpr_put
  | |- wpr (M.ret _) _ _ => apply wpr_ret
  | |- wpr (M.fail _) _ _ => apply wpr_fail
  | |- wpr (M.lift _) _ _ => apply wpr_lift
  | |- wpr M.abort _ _ => apply wpr_abort
  | |- wpr (M.map_err _ _) _ _ => apply wpr_map_err
  | |- wpr (M.attempt _) _ _ => apply wpr_attempt
  | |- wpr now _ _ => apply wpr_now; intros ?
  | |- wpr (modify_scheduler _) _ _ => apply wpr_scheduler
  | |- wpr disable_scheduler _ _ => apply wpr_scheduler
  | |- wpr (emit_effects _) _ _ => apply wpr_emit
  | |- wpr _ _ _ => apply wpr_steady; [solve [auto 10 with steady]|intros ?]
  end; cbv beta iota.

Section Regions.
Context `{Prim : Primitives} `{CS : CryptoSuite} `{SS : SignatureScheme} `{HS : HashScheme}
  `{K : KeyEncapsulation} `{U : UrlParser} `{P : Platform} (self : Inner).
Notation inv := (inv self).
Notation good := (good self).

Definition keeps {E A} (m : M Client E A) : Prop := forall r, inv r -> wpr m (fun _ r' => good r r') r.

Lemma keeps_steady {E A} (m : M Client E A) : steady m -> keeps m.
Proof. intros Hm r Hr. apply wpr_steady; [done|]. intros _. by apply good_refl. Qed.

Lemma steady_persist : steady persist_locked.
Proof. unfold persist_locked. auto 10 with steady. Qed.
Lemma steady_sample {E} : steady (E := E) scheduler_random_sample.
Proof. unfold scheduler_random_sample. auto with steady. Qed.
#[local] Hint Resolve steady_persist steady_sample : steady.
Lemma steady_success {E} t a b : steady (E := E) (record_scheduler_success t a b).
Proof. unfold record_scheduler_success. auto with steady. Qed.
Lemma steady_failure {E} e : steady (E := E) (record_scheduler_failure self e).
Proof. unfold record_scheduler_failure. auto with steady. Qed.

Lemma wpr_handle {E} e t (Q : result (list Effect) E -> Runtime -> Prop) r :
  Q (Ok (StateMachine.handle (state r) e t).2) (set_state r (StateMachine.handle (state r) e t).1) -> wpr (handle e t) Q r.
Proof.
  intros H. unfold handle. do 2 wstep. destruct (StateMachine.handle (state r) e t) as [m effects]. by repeat wstep.
Qed.

(** Only the machine changes, by an event that installs nothing. *)
Lemma set_state_good r m :
  inv r -> machine_ok m -> clock_ok (StateMachine.clock m) ->
  ClockState.last_seen_max (StateMachine.clock (state r)) <= ClockState.last_seen_max (StateMachine.clock m) ->
  (StateMachine.has_credential m = true -> StateMachine.has_credential (state r) = true) ->
  good r (set_state r m).
Proof.
  intros [Hh Hc Hm Hk He] Hm' Hk' Hle Hcr. split; [|by repeat split].
  split; [|done..]. unfold held, empty_handed, holding in *. cbn. destruct (credential r), (olk r); try done.
  destruct Hh as (H1 & H2 & H3 & H4 & H5 & H6 & H7 & H8). split_and!; try done.
  destruct (StateMachine.has_credential m); [|done]. by rewrite Hcr in H7.
Qed.

Lemma handle_good r e t : inv r -> installs e = false -> good r (set_state r (StateMachine.handle (state r) e t).1).
Proof.
  intros Hr He. apply set_state_good; [done|apply handle_machine_ok, Hr|apply handle_clock_ok, Hr|apply handle_clock_le|].
  intros [H|H]%handle_credential; [done|congruence].
Qed.

(** Everything is gone: nothing in memory, no chain, no snapshot. *)
Definition gone (r : Runtime) : Prop := empty_handed r /\ snapshot r = None /\ chain r = None.

(** What a wipe needs of the runtime: less than the invariant. *)
Definition wipeable (r : Runtime) : Prop :=
  machine_ok (state r) /\ clock_ok (StateMachine.clock (state r)) /\ 0 <= max_revocation_epoch r.
Lemma inv_wipeable r : inv r -> wipeable r.
Proof. by intros []. Qed.

Lemma wipe_spec {E} e r :
  wipeable r -> wiping e = true ->
  wpr (wipe_runtime (E := E) e) (fun x r' => is_ok x = true /\ gone r' /\ good r r') r.
Proof.
  intros (Hm & Hc & Hep) He. unfold wipe_runtime. do 3 wstep. apply wpr_handle. repeat wstep. split; [done|]. set (m := (StateMachine.handle _ _ _).1).
  assert (StateMachine.has_credential m = false) as Hf by (by apply wiping_clears).
  assert (gone (wiped (set_state r m) m)) as Hg by (by repeat split).
  split; [done|]. split.
  - split; [apply Hg|done|by apply handle_machine_ok|by apply handle_clock_ok|done].
  - split_and!; cbn; [done|done|apply handle_clock_le].
Qed.

Lemma fail_closed_spec {E} error r :
  wipeable r -> wpr (fail_closed_locked (E := E) error) (fun x r' => x = Ok tt /\ gone r' /\ good r r') r.
Proof.
  intros Hr. unfold fail_closed_locked. wstep. eapply wpr_mono; [by apply wipe_spec|].
  intros [x|e] r' [Hx H]; [|done]. do 3 wstep. by repeat wstep.
Qed.

Lemma revoke_spec reason r :
  wipeable r -> wpr (revoke_locked reason) (fun x r' => gone r' /\ good r r') r.
Proof.
  intros Hr. unfold revoke_locked. wstep. eapply wpr_mono; [by apply wipe_spec|].
  intros [x|e] r' [Hx H]; [|done]. do 3 wstep. by repeat wstep.
Qed.

Lemma user_deactivate_spec r :
  wipeable r -> wpr user_deactivate_locked (fun x r' => gone r' /\ good r r') r.
Proof.
  intros Hr. unfold user_deactivate_locked. wstep. eapply wpr_mono; [by apply wipe_spec|].
  intros [x|e] r' [Hx H]; [|done]. do 3 wstep. by repeat wstep.
Qed.

Lemma close_spec {E A} error (as_ : FatalError -> E) r :
  wipeable r -> wpr (close_and_fail (A := A) error as_) (fun x r' => x = Err (as_ error) /\ gone r' /\ good r r') r.
Proof.
  intros Hr. unfold close_and_fail. wstep. eapply wpr_mono; [by apply fail_closed_spec|].
  intros ? r' (-> & H). by wstep.
Qed.
End Regions.

(** ** What an error says of the runtime *)
Inductive Severity := SFatal | SLocal | SVerdict | SBenign.
Class Severe (E : Type) := severity : E -> Severity.
#[export] Instance activate_severity : Severe ActivateError := fun e =>
  match e with ActivateError.Fatal _ => SFatal | ActivateError.Local _ => SLocal | _ => SBenign end.
#[export] Instance validation_severity : Severe ValidationError := fun e =>
  match e with
  | ValidationError.Fatal _ => SFatal | ValidationError.Local _ => SLocal
  | ValidationError.ReactivationRequired | ValidationError.VersionOutOfScope => SVerdict
  | _ => SBenign
  end.
#[export] Instance deactivate_severity : Severe DeactivateError := fun e =>
  match e with DeactivateError.Fatal _ => SFatal | DeactivateError.Local _ => SLocal | _ => SBenign end.
#[export] Instance offline_severity : Severe OfflineError := fun e =>
  match e with OfflineError.Fatal _ => SFatal | OfflineError.Local _ => SLocal | _ => SBenign end.

(** What a fatal error promises: everything is wiped; wiped or as before; nothing yet. *)
Inductive Claim := Wipes | WipesOrKeeps | NotYet.

Section Specs.
Context `{Prim : Primitives} `{CS : CryptoSuite} `{SS : SignatureScheme} `{HS : HashScheme}
  `{K : KeyEncapsulation} `{U : UrlParser} `{P : Platform} (self : Inner).
Notation inv := (inv self).
Notation good := (good self).

(** What is held is as it was. *)
Definition kept (r r' : Runtime) : Prop :=
  credential r' = credential r /\ olk r' = olk r /\ material r' = material r /\ entitlements r' = entitlements r /\
  offline_wrapped_keks r' = offline_wrapped_keks r /\ online_wrapped_keks r' = online_wrapped_keks r.
#[export] Instance kept_preorder : PreOrder kept.
Proof. split; red; unfold kept; naive_solver congruence. Qed.

Definition claims (f : Claim) (r r' : Runtime) : Prop :=
  match f with Wipes => gone r' | WipesOrKeeps => gone r' \/ kept r r' | NotYet => True end.

(** The contract of an action or a program: the invariant, the marks, the claim on a fatal error,
    and that a benign error (a refusal, a transient failure) and, where [k], a success leave
    what is held as it was. *)
Definition spec {E A} `{Severe E} (f : Claim) (k : bool) (r : Runtime) (x : result A E) (r' : Runtime) : Prop :=
  good r r' /\
  match x with
  | Ok _ => k = true -> kept r r'
  | Err e => match severity e with
             | SFatal => claims f r r'
             | SBenign => kept r r'
             | SLocal | SVerdict => True
             end
  end.

Definition meets {E A} `{Severe E} (f : Claim) (k : bool) (m : M Client E A) : Prop :=
  forall r, inv r -> wpr m (spec f k r) r.

Lemma meets_keeps {E A} `{Severe E} f k (m : M Client E A) : meets f k m -> keeps self m.
Proof. intros Hm r Hr. eapply wpr_mono; [by apply Hm|]. by intros x r' [? _]. Qed.

Lemma spec_same {E A} `{Severe E} f k r (x : result A E) : f <> Wipes -> inv r -> spec f k r x r.
Proof.
  intros Hf Hr. split; [by apply good_refl|]. destruct x as [a|e]; [done|].
  destruct (severity e), f; cbn; try done. by right.
Qed.
Lemma spec_err {E A} `{Severe E} f k r (e : E) : severity e <> SFatal -> inv r -> spec (A := A) f k r (Err e) r.
Proof. intros He Hr. split; [by apply good_refl|]. by destruct (severity e). Qed.
Lemma spec_ok {E A} `{Severe E} f k r (a : A) : inv r -> spec (E := E) f k r (Ok a) r.
Proof. intros Hr. split; [by apply good_refl|done]. Qed.

Lemma meets_close {E A} `{Severe E} f k error (as_ : FatalError -> E) :
  (forall e, severity (as_ e) = SFatal) -> meets f k (close_and_fail (A := A) error as_).
Proof.
  intros Hs r Hr. eapply wpr_mono; [by apply (close_spec self), (inv_wipeable self)|]. intros ? r' (-> & Hg & ?). split; [done|].
  rewrite Hs. destruct f; cbn; auto.
Qed.

Lemma meets_steady {E A} `{Severe E} f k (m : M Client E A) :
  steady m -> f <> Wipes -> meets f k m.
Proof. intros Hm Hf r Hr. apply wpr_steady; [done|]. intros x. by apply spec_same. Qed.
End Specs.

Section RegionSpecs.
Context `{Prim : Primitives} `{CS : CryptoSuite} `{SS : SignatureScheme} `{HS : HashScheme}
  `{K : KeyEncapsulation} `{U : UrlParser} `{P : Platform} (self : Inner).
Notation inv := (inv self).
Notation good := (good self).
#[local] Hint Resolve steady_persist steady_sample : steady.

(** What the invariant says before anything is installed, and after. *)
Lemma unheld r : inv r -> activated r = false -> empty_handed r.
Proof.
  intros [Hh _ _ _ _]. unfold activated, held in *. destruct (credential r), (olk r); cbn; try done.
Qed.
Lemma no_snapshot_unheld r : inv r -> snapshot r = None -> empty_handed r /\ chain r = None.
Proof.
  intros [Hh Hc _ _ _] Hs. split.
  - unfold held, holding in Hh. destruct (credential r), (olk r); try done;
      destruct Hh as (? & ? & ? & Hs' & _); congruence.
  - destruct (chain r) as [c|] eqn:E; [|done]. destruct (Hc c E) as (s & Hs' & _). congruence.
Qed.
Lemma credential_parts r c :
  inv r -> credential r = Some c ->
  holding self r (MachineCredential.license_id c) (MachineCredential.machine_id c) (MachineCredential.epoch_id c)
    (MachineCredential.security_floor c) (MachineCredential.revocation_epoch c) /\ olk r = None.
Proof. intros [Hh _ _ _ _] Hc. unfold held in Hh. rewrite Hc in Hh. by destruct (olk r). Qed.

(** A snapshot that still carries the same credential and revocations. *)
Lemma set_snapshot_good r s s' :
  inv r -> snapshot r = Some s -> ClientSnapshot.credential_envelope s' = ClientSnapshot.credential_envelope s ->
  ClientSnapshot.revoked_epochs s' = ClientSnapshot.revoked_epochs s -> good r (set_snapshot r (Some s')).
Proof.
  intros [Hh Hc Hm Hk He] Hs Hce Hre. split; [|by repeat split]. split; [|..|done|done|done].
  - unfold held, holding, empty_handed in *. cbn. destruct (credential r), (olk r); try done.
    1,2: destruct Hh as (s0 & km & ch & Hs0 & H); assert (s0 = s) as -> by congruence;
      exists s', km, ch; by rewrite Hce, Hre.
    destruct Hh as (H1 & H2 & H3 & H4 & H5 & H6 & H7 & H8). split_and!; try done. intros ? [= <-]. rewrite Hce. by apply H8.
  - intros c Hc'. destruct (Hc c Hc') as (s0 & Hs0 & H1 & H2). assert (s0 = s) as -> by congruence.
    exists s'. cbn. split_and!; [done|done|]. intros e. by rewrite Hre.
Qed.

Lemma device_keys_spec {E} `{Severe E} generated :
  ClientSnapshot.credential_envelope generated = None -> meets self Wipes true (put_device_keys (E := E) generated).
Proof.
  intros Hg r Hr. unfold put_device_keys. do 2 wstep. destruct (snapshot r) as [s|] eqn:Hs.
  { wstep. by apply spec_ok. }
  wstep. destruct (no_snapshot_unheld r Hr Hs) as [He Hc]. destruct Hr as [Hh Hch Hm Hk Hep].
  split; [|done]. split; [|by repeat split]. split; [|..|done|done|done].
  - unfold held. destruct He as (H1 & H2 & H3 & H4 & H5 & H6 & H7 & H8). cbn. rewrite H1, H2. split_and!; try done.
    by intros ? [= <-].
  - intros c Hc'. cbn in Hc'. congruence.
Qed.

Lemma offline_request_spec key nonce t : meets self WipesOrKeeps true (offline_request_region self key nonce t).
Proof.
  intros r Hr. unfold offline_request_region. do 2 wstep. destruct (activated r) eqn:Ha.
  { wstep. by apply spec_err. }
  wstep. wstep. destruct (snapshot r) as [s|] eqn:Hs; cbn [ok_of_option]; [|by apply spec_err].
  wstep. wstep. destruct (build_activation_request _ _ _ _ _ _ _) as [q|e]; cbn [map_err];
    [|by apply spec_same].
  assert (good r (set_snapshot r (Some (ClientSnapshot.set_pending_activation_nonce s (Some nonce))))) as Hg.
  { by eapply set_snapshot_good. }
  do 5 wstep. destruct x as [[]|e]; cbn [map_err]; [by wstep|done].
Qed.

(** A credential (or licence) installed over nothing or over another. *)
Lemma install_good r r' s m c license machine epoch floor revocation :
  inv r -> evolves r r' -> machine_ok (state r') -> clock_ok (StateMachine.clock (state r')) ->
  snapshot r' = Some s -> material r' = Some m -> chain r' = Some c ->
  is_Some (ClientSnapshot.credential_envelope s) -> bound_to self m license machine epoch ->
  epoch ∉ RevocationState.revoked_epochs (VerifiedChain.revocation c) ->
  floor <= max_security_floor r' -> revocation <= max_revocation_epoch r' -> chain_in_step r' ->
  (holding self r' license machine epoch floor revocation -> held self r') ->
  good r r'.
Proof.
  intros Hr Hev Hm Hk Hs Hmat Hc Hce Hb Hep Hf Hrv Hch Hheld. split; [|done].
  split; [|done|done|done|destruct Hr, Hev as (_ & ? & _); lia].
  apply Hheld. destruct (Hch c Hc) as (s' & Hs' & _ & He). assert (s' = s) as -> by congruence.
  exists s, m, c. split_and!; try done. by rewrite <- He.
Qed.

(** The end of the installing regions: persist, then emit. *)
Lemma persist_emit {E A} `{Severe E} f (local : LocalError -> E) effects (a : A) r r' :
  (forall e, severity (local e) = SLocal) -> good r r' ->
  wpr (seq! M.map_err local persist_locked ;; seq! emit_effects effects ;; M.ret a) (spec self f false r) r'.
Proof.
  intros Hl Hg. do 3 wstep. destruct x as [[]|e]; cbn [map_err]; [|split; [done|by rewrite Hl]].
  repeat wstep. by split.
Qed.

Lemma persist_emit_unit {E} `{Severe E} f (local : LocalError -> E) effects r r' :
  (forall e, severity (local e) = SLocal) -> good r r' ->
  wpr (seq! M.map_err local persist_locked ;; emit_effects effects) (spec self f false r) r'.
Proof.
  intros Hl Hg. do 3 wstep. destruct x as [[]|e]; cbn [map_err]; [|split; [done|by rewrite Hl]].
  repeat wstep. by split.
Qed.

(** The machine after an activation is verified. *)
Definition activated_machine (m : StateMachine) (d : Deadlines) (t : Z) : StateMachine :=
  (StateMachine.handle (StateMachine.set_deadlines m d) Event.ActivationVerified t).1.
Lemma activated_machine_ok m d t :
  machine_ok m -> clock_ok (StateMachine.clock m) ->
  machine_ok (activated_machine m d t) /\ clock_ok (StateMachine.clock (activated_machine m d t)) /\
  ClockState.last_seen_max (StateMachine.clock m) <= ClockState.last_seen_max (StateMachine.clock (activated_machine m d t)).
Proof.
  intros Hm Hc. unfold activated_machine. split_and!; [by apply handle_machine_ok|by apply handle_clock_ok|].
  by apply (handle_clock_le (StateMachine.set_deadlines m d)).
Qed.

Lemma offline_response_spec envelope unverified t :
  meets self Wipes false (offline_response_region self envelope unverified t).
Proof.
  intros r Hr. unfold offline_response_region. do 2 wstep. destruct (activated r) eqn:Ha.
  { wstep. by apply spec_err. }
  do 2 wstep. destruct (snapshot r) as [s|] eqn:Hs; cbn [ok_of_option]; [|by apply spec_err].
  do 2 wstep. destruct (ClientSnapshot.pending_activation_nonce s) as [n|]; cbn [ok_of_option]; [|by apply spec_err].
  destruct (verify_offline_response _ _ _ _ _ _) as [[[[resp cred] mat] ch]|e] eqn:Hv; [|by apply meets_close].
  unfold verify_offline_response in Hv. rewrite Hs in Hv. cbn [ok_of_option rbind] in Hv.
  apply rbind_ok in Hv as (ch' & Hch & Hv). apply rbind_ok in Hv as (resp' & _ & Hv). destruct (_ || _); [done|].
  apply rbind_ok in Hv as ([c' m'] & Ho & [= -> -> -> ->]).
  apply open_machine_spec in Ho as (Hb & Hep & Hf & Hrv).
  set (m := StateMachine.set_deadlines _ _). set (o := observe_server_time _ _) in m.
  pose proof (activated_machine_ok o (credential_deadlines cred) t) as Ham. unfold activated_machine in Ham. fold m in Ham.
  destruct Ham as (Hm1 & Hm2 & Hm3); [apply Hr|apply observe_ok|].
  destruct (StateMachine.handle m Event.ActivationVerified t) as [m1 effects]. cbn [fst] in *.
  do 2 wstep. apply persist_emit; [done|]. eapply (install_good r _ _ _ _ _ _ _ (MachineCredential.security_floor cred)
    (MachineCredential.revocation_epoch cred)); try done; cbn.
  - split_and!; cbn; [lia|lia|]. etrans; [|exact Hm3]. apply observe_le.
  - lia.
  - lia.
  - eapply chain_of_keyset; [exact Hch|cbn; lia|done|done|done].
Qed.

Lemma olk_region_spec bundle envelope preview t : meets self Wipes false (olk_region self bundle envelope preview t).
Proof.
  intros r Hr. unfold olk_region. do 2 wstep. destruct (activated r) eqn:Ha.
  { wstep. by apply spec_err. }
  match goal with |- wpr (match ?x with _ => _ end) _ _ => destruct x as [[[[s lic] mat] ch]|e] eqn:Hv end.
  2: { destruct e; [by apply meets_close|]. wstep. by apply spec_err. }
  apply rbind_ok in Hv as (s' & Hs & Hv). destruct (snapshot r) as [s0|] eqn:Hsn; [|done]. injection Hs as ->.
  apply rbind_ok in Hv as (ch' & Hch%map_err_ok' & Hv).
  apply rbind_ok in Hv as ([l' m'] & Ho & [= -> -> -> ->]). apply open_olk_spec in Ho as (Hb & Hep & Hf & Hrv).
  set (m := StateMachine.set_deadlines _ _). set (o := observe_server_time _ _) in m.
  pose proof (activated_machine_ok o (olk_deadlines lic) t) as Ham. unfold activated_machine in Ham. fold m in Ham.
  destruct Ham as (Hm1 & Hm2 & Hm3); [apply Hr|apply observe_ok|].
  destruct (StateMachine.handle m Event.ActivationVerified t) as [m1 effects]. cbn [fst] in *.
  do 2 wstep. apply persist_emit_unit; [done|]. eapply (install_good r _ _ _ _ _ _ _ (OfflineLicenseKey.security_floor lic)
    (OfflineLicenseKey.revocation_epoch lic)); try done; cbn.
  - split_and!; cbn; [lia|lia|]. etrans; [|exact Hm3]. apply observe_le.
  - lia.
  - lia.
  - eapply chain_of_keyset; [exact Hch|cbn; lia|done|done|done].
Qed.

Lemma activation_request_spec credential nonce : meets self Wipes true (activation_request_region self credential nonce).
Proof.
  intros r Hr. unfold activation_request_region. do 2 wstep. destruct (activated r) eqn:Ha.
  { wstep. by apply spec_err. }
  do 2 wstep. destruct (snapshot r) as [s|] eqn:Hs; cbn [ok_of_option]; [|by apply spec_err].
  do 2 wstep. destruct (build_activation_request _ _ _ _ _ _ _) as [q|e]; [|by apply meets_close].
  do 3 wstep. destruct x; cbn [map_err]; [wstep; by apply spec_ok|by apply spec_err].
Qed.

Lemma activation_spec bytes target t : meets self Wipes false (activation_region self bytes target t).
Proof.
  intros r Hr. unfold activation_region. do 4 wstep.
  destruct (snapshot r) as [s|] eqn:Hs; cbn [ok_of_option]; [|by apply spec_err].
  destruct (chain r) as [ch|] eqn:Hc; [|by apply meets_close].
  destruct (open_machine_credential _ _ _ _ _ _ _ _) as [[opened mat]|e] eqn:Ho; [|by apply meets_close].
  apply open_machine_spec in Ho as (Hb & Hep & Hf & Hrv).
  set (m := StateMachine.set_deadlines _ _).
  pose proof (activated_machine_ok (state r) (credential_deadlines opened) t) as Ham.
  unfold activated_machine in Ham. change (StateMachine.set_deadlines (state r) (credential_deadlines opened)) with m in Ham.
  destruct Ham as (Hm1 & Hm2 & Hm3); [apply Hr|apply Hr|].
  destruct (StateMachine.handle m Event.ActivationVerified t) as [m1 effects]. cbn [fst] in *.
  do 2 wstep. apply persist_emit; [done|]. eapply (install_good r _ _ _ _ _ _ _ (MachineCredential.security_floor opened)
    (MachineCredential.revocation_epoch opened)); try done; cbn.
  - split_and!; cbn; [lia|lia|done].
  - lia.
  - lia.
  - destruct (inv_chain _ _ Hr ch Hc) as (s' & Hs' & H1 & H2). assert (s' = s) as -> by congruence.
    intros c Hc'. cbn in Hc'. rewrite Hc in Hc'. injection Hc' as <-. eexists. cbn. split; [done|]. split; [lia|done].
Qed.

Lemma validate_request_spec nonce : meets self WipesOrKeeps true (validate_request_region self nonce).
Proof.
  intros r Hr. unfold validate_request_region. do 5 wstep. wstep.
  assert (good r (set_state r (StateMachine.note_validation_attempt (state r) t))) as Hg.
  { apply set_state_good; [done|apply Hr|apply Hr|done|done]. }
  set (r1 := set_state _ _) in *. assert (kept r r1) as Hk by (by repeat split).
  wstep. wstep. destruct (credential r) as [c|] eqn:Hc; cbn [ok_of_option]; [|by split].
  wstep. wstep. destruct (snapshot r) as [s|]; cbn [ok_of_option]; [|by split].
  wstep. split; [done|]. destruct (build_validate_request _ _ _ _ _ _ _ _); [done|]. by right.
Qed.

Lemma install_keyset_spec keyset : meets self WipesOrKeeps true (install_keyset self keyset).
Proof.
  intros r Hr. unfold install_keyset. do 5 wstep. wstep.
  destruct (snapshot r) as [s|] eqn:Hs; cbn [ok_of_option]; [|by apply spec_same].
  wstep. wstep. destruct (verify_keyset _ _ _ _ _) as [c|e] eqn:Hv; cbn [map_err]; [|by apply spec_same].
  wstep. split; [|by repeat split].
  destruct (set_snapshot_good r s (ClientSnapshot.set_epoch_certificates s (Keyset.epoch_certificates keyset)))
    as [[Hh Hc Hm Hk He] Hev]; [done|done|done|done|].
  split; [|done]. split; [|..|done|done|done].
  - unfold held, holding in *. cbn in *. destruct (credential r), (olk r); try done;
      destruct Hh as (s0 & m0 & c0 & H0 & H1 & H2 & H); by exists s0, m0, c.
  - by eapply chain_of_keyset.
Qed.

Lemma apply_transient_spec error : meets self Wipes true (apply_transient_failure error).
Proof.
  intros r Hr. unfold apply_transient_failure. do 3 wstep. apply wpr_handle.
  pose proof (handle_good self r (Event.NetworkFailed error) t Hr eq_refl) as Hg. set (r1 := set_state _ _) in *.
  do 3 wstep. destruct x as [[]|e]; cbn [map_err]; [|by split]. wstep. split; [done|]. by repeat split.
Qed.

(** The chain and the snapshot after a batch. *)
Lemma batch_good r s c to_epoch ids :
  inv r -> snapshot r = Some s -> chain r = Some c -> max_revocation_epoch r < to_epoch ->
  (forall l m e, credential_ids r = Some (l, m, e) -> e ∉ ids) ->
  let r' := set_snapshot (set_floors (set_chain r (Some (VerifiedChain.mk (VerifiedChain.roots c) (VerifiedChain.epochs c)
      (RevocationState.mk to_epoch (fold_left RevocationState.push_new ids
         (RevocationState.revoked_epochs (VerifiedChain.revocation c))))))) (max_security_floor r) to_epoch)
      (Some (ClientSnapshot.set_revoked_epochs s (fold_left RevocationState.push_new ids (ClientSnapshot.revoked_epochs s)))) in
  good r r'.
Proof.
  intros Hr Hs Hc Hto Hid r'. assert (Hr' := Hr). destruct Hr' as [Hh Hch Hm Hk He].
  split; [|split_and!; cbn; [done|lia|done]]. split; [|..|done|done|cbn; lia].
  - unfold held, empty_handed, holding, credential_ids in *. cbn. destruct (credential r) as [cr|], (olk r) as [ol|]; try done.
    1,2: destruct Hh as (s0 & m0 & c0 & H0 & H1 & H2 & H3 & H4 & H5 & H6 & H7); assert (s0 = s) as -> by congruence;
      eexists _, m0, _; split_and!; try done; [|lia]; cbn; rewrite fold_push_new; intros [|]; [done|]; by eapply Hid.
    destruct Hh as (H1 & H2 & H3 & H4 & H5 & H6 & H7 & H8). split_and!; try done. intros ? [= <-]. cbn. by apply H8.
  - intros c' [= <-]. eexists. cbn. split_and!; [done|done|]. intros e. rewrite fold_push_new.
    destruct (Hch c Hc) as (s' & Hs' & _ & Hx). assert (s' = s) as -> by congruence. rewrite Hx. cbn. by rewrite fold_push_new.
Qed.

(** A revocation batch: nothing held changes, or it is revoked and gone; after a page was
    applied the epoch has moved past the one the page was requested for. *)
Lemma sync_region_spec envelope target current cursor r :
  inv r -> cursor = current + 1 ->
  wpr (sync_region self envelope target current cursor)
    (fun x r' => spec self WipesOrKeeps true r x r' /\
       (is_ok x = true -> current <= max_revocation_epoch r -> current < max_revocation_epoch r')) r.
Proof.
  intros Hr ->. unfold sync_region. do 4 wstep.
  destruct (Z.eqb_spec (max_revocation_epoch r) current) as [<-|Hne]; cbn [negb].
  2: { wstep. split; [by apply spec_ok|lia]. }
  do 2 wstep. destruct (chain r) as [c|] eqn:Hc; cbn [ok_of_option]; [|split; [by apply spec_same|done]].
  do 2 wstep. destruct (VerifiedChain.verify_artifact _ _ _ _ _) as [b|e]; cbn [map_err TrustAnchors.fatal]; [|split; [by apply spec_same|done]].
  destruct (batch_bad b envelope _ target) eqn:Hbad; [wstep; split; [by apply spec_same|done]|].
  do 2 wstep. destruct (snapshot r) as [s|] eqn:Hs; cbn [ok_of_option]; [|split; [by apply spec_same|done]].
  unfold batch_bad in Hbad. rewrite !orb_false_iff, !negb_false_iff, !Z.eqb_eq, !Z.ltb_ge in Hbad.
  assert (max_revocation_epoch r < RevocationBatch.to_epoch b) as Hto by lia.
  unfold VerifiedChain.advance_revocation, RevocationState.advance.
  destruct (inv_chain _ _ Hr c Hc) as (s' & _ & Hce & _).
  destruct (Z.ltb_spec (RevocationBatch.to_epoch b) (RevocationState.epoch (VerifiedChain.revocation c))); [lia|].
  do 4 wstep. cbn [map_err TrustAnchors.fatal]. do 2 wstep.
  set (r1 := set_snapshot _ _). assert (kept r r1) as Hk by (by repeat split).
  destruct (revocation_reason r b) as [reason|] eqn:Hrr.
  - pose proof (inv_epoch _ _ Hr). do 2 wstep. eapply wpr_mono; [apply (revoke_spec self); split_and!; [apply Hr|apply Hr|cbn; lia]|].
    intros x r2 [Hg [Hi Hev]]. destruct x as [[]|e]; cbn [map_err].
    + wstep. split; [|done]. split; [|by left]. split; [done|]. etrans; [|exact Hev]. split_and!; cbn; [done|lia|done].
    + split; [|done]. split; [|done]. split; [done|]. etrans; [|exact Hev]. split_and!; cbn; [done|lia|done].
  - assert (good r r1) as Hg.
    { apply batch_good; try done. intros l m e Hid. unfold revocation_reason in Hrr. rewrite Hid in Hrr.
      by repeat case_bool_decide. }
    do 2 wstep. destruct x as [[]|e]; cbn [map_err]; (split; [by split|]); cbn; [lia|done].
Qed.

Lemma preview_spec envelope nonce t : meets self Wipes true (preview_region self envelope nonce t).
Proof.
  intros r Hr. unfold preview_region. do 2 wstep.
  match goal with |- wpr (match ?x with _ => _ end) _ _ => destruct x as [[ticket checks]|e] end; [|by apply meets_close].
  destruct (check_ticket _ _ _ _) as [[c [o|e]]|]; [wstep; by apply spec_ok|by apply meets_close|wstep].
Qed.

(** From [r], a runtime on the way to having a ticket applied: the same credential, snapshot and
    chain, and material of the same identities. *)
Record under_ticket (c : MachineCredential) (r r' : Runtime) : Prop := {
  ut_credential : credential r = Some c /\ credential r' = Some c /\ olk r' = olk r;
  ut_snapshot : snapshot r' = snapshot r /\ chain r' = chain r;
  ut_material : exists m m', material r = Some m /\ material r' = Some m' /\
    KeyMaterial.license_id m' = KeyMaterial.license_id m /\ KeyMaterial.machine_id m' = KeyMaterial.machine_id m /\
    KeyMaterial.offline_epoch_id m' = KeyMaterial.offline_epoch_id m /\ KeyMaterial.product_id m' = KeyMaterial.product_id m;
  ut_evolves : evolves r r';
  ut_machine : machine_ok (state r') /\ clock_ok (StateMachine.clock (state r'));
}.

Lemma under_ticket_good c r r' s s' m :
  inv r -> under_ticket c r r' -> snapshot r = Some s -> machine_ok m -> clock_ok (StateMachine.clock m) ->
  ClockState.last_seen_max (StateMachine.clock (state r')) <= ClockState.last_seen_max (StateMachine.clock m) ->
  ClientSnapshot.credential_envelope s' = ClientSnapshot.credential_envelope s ->
  ClientSnapshot.revoked_epochs s' = ClientSnapshot.revoked_epochs s ->
  good r (set_snapshot (set_state r' m) (Some s')).
Proof.
  intros Hr [(Hc & Hc' & Ho') (Es & Ech) (km & km' & Hm & Hm' & E1 & E2 & E3 & E4) (V1 & V2 & V3) _] Hs Hmo Hco Hle Hce Hre.
  pose proof (credential_parts r c Hr Hc) as [(s0 & m0 & ch & Hs0 & Hm0 & Hc0 & He & (B1 & B2 & B3 & B4) & Hep & Hf & Hrv) Ho].
  assert (m0 = km) as -> by congruence. assert (s0 = s) as -> by congruence.
  split; [|split_and!; cbn; lia]. split; [|..|done|done|cbn; pose proof (inv_epoch _ _ Hr); lia].
  - unfold held. cbn. rewrite Hc', Ho', Ho. exists s', km', ch. cbn. rewrite Hce, Hre, Ech. unfold bound_to.
    split_and!; try done; congruence || lia.
  - intros ch' Hch'. cbn in Hch'. destruct (inv_chain _ _ Hr ch') as (s1 & Hs1 & H1 & H2); [congruence|].
    assert (s1 = s) as -> by congruence. exists s'. cbn. split_and!; [done|lia|]. by rewrite Hre.
Qed.

Lemma finish_ticket_spec c ticket bytes t r r' :
  inv r -> under_ticket c r r' -> wpr (finish_ticket c ticket bytes t) (spec self Wipes false r) r'.
Proof.
  intros Hr Hu. assert (Hu' := Hu). destruct Hu' as [(Hc & _ & _) (Es & _) _ _ (Hm & Hk)].
  pose proof (credential_parts r c Hr Hc) as [(s & m0 & ch & Hs & _) _].
  unfold finish_ticket. do 2 wstep. set (ev := match ValidationTicket.verdict ticket with Verdict.Accepted => _ | _ => _ end).
  set (m := StateMachine.set_deadlines _ _). assert (H1 := handle_machine_ok m ev t Hm). assert (H2 := handle_clock_ok m ev t Hk).
  assert (H3 := handle_clock_le m ev t).
  destruct (StateMachine.handle m ev t) as [m1 effects]. cbn [fst] in *.
  do 4 wstep. rewrite Es, Hs. cbn [ok_of_option]. do 2 wstep. apply persist_emit; [done|]. by eapply under_ticket_good.
Qed.

Lemma apply_verdict_spec c ticket r r' :
  under_ticket c r r' -> wpr (apply_verdict ticket) (fun x r2 => x = Ok tt /\ under_ticket c r r2) r'.
Proof.
  intros [H1 H2 (m & m' & Hm & Hm' & H3) H4 H5]. unfold apply_verdict. do 2 wstep.
  destruct (ValidationTicket.verdict ticket); [do 4 wstep; cbn [material set_online_keks]; rewrite Hm'; cbn [ok_of_option]|..];
    wstep; (split; [done|]); split; try done; by eexists _, _.
Qed.

Lemma ticket_region_spec envelope bytes nonce t : meets self Wipes false (ticket_region self envelope bytes nonce t).
Proof.
  intros r Hr. unfold ticket_region. do 4 wstep.
  destruct (credential r) as [c|] eqn:Hc; cbn [ok_of_option]; [|by apply spec_err].
  match goal with |- wpr (match ?x with _ => _ end) _ _ => destruct x as [[ticket epoch]|e] end; [|by apply meets_close].
  destruct (check_ticket _ _ _ _) as [[ck [o|e]]|] eqn:Hck; [|by apply meets_close|by wstep].
  apply check_ticket_clock in Hck as [[_ [? ?]]|(x & _ & ->)]; [done|].
  pose proof (credential_parts r c Hr Hc) as [(s & m & ch & Hs & Hm & Hch & _) Ho].
  do 3 wstep. eapply wpr_mono; [apply (apply_verdict_spec c ticket r)|].
  2: { intros x' r2 [-> Hu]. by apply finish_ticket_spec. }
  split; [done|done|by exists m, m| |split; [apply Hr|apply observe_ok]].
  split_and!; cbn; [lia|lia|apply observe_le].
Qed.

Lemma kill_spec envelope nonce t : meets self Wipes false (kill_region self envelope nonce t).
Proof.
  intros r Hr. unfold kill_region. do 4 wstep.
  destruct (credential r) as [c|] eqn:Hc; cbn [ok_of_option]; [|by apply spec_err].
  destruct (verify_fast _ _ _ _ _) as [order|e]; [|by apply meets_close].
  destruct (kill_error _ _ _ _) as [e|]; [by apply meets_close|].
  do 3 wstep. eapply wpr_mono; [apply (revoke_spec self); split_and!; [apply Hr|apply observe_ok|apply Hr]|].
  intros x r' [Hg [Hi Hev]]. split; [|by destruct x]. split; [done|]. etrans; [|exact Hev].
  split_and!; cbn; [done|done|apply observe_le].
Qed.

Lemma user_deactivate_meets {E} `{Severe E} (local : LocalError -> E) :
  (forall e, severity (local e) = SLocal) -> meets self Wipes false (M.map_err local user_deactivate_locked).
Proof.
  intros Hl r Hr. wstep. eapply wpr_mono; [by apply (user_deactivate_spec self), (inv_wipeable self)|].
  intros x r' [_ Hg]. split; [done|]. destruct x; cbn; [done|by rewrite Hl].
Qed.

Lemma deactivate_olk_spec r :
  inv r -> wpr deactivate_olk_region (fun x r' => spec self Wipes false r x r' /\ (x = Ok false -> kept r r')) r.
Proof.
  intros Hr. unfold deactivate_olk_region. do 2 wstep. destruct (is_none (olk r)); cbn [negb].
  - destruct (is_none (credential r)); wstep; (split; [|done]); [by apply spec_err|by apply spec_ok].
  - wstep. eapply wpr_mono; [by apply user_deactivate_meets|]. intros [x|e] r' [Hg He]; [|by split].
    wstep. by split.
Qed.

Lemma deactivate_request_spec nonce : meets self Wipes true (deactivate_request_region self nonce).
Proof.
  intros r Hr. unfold deactivate_request_region. do 4 wstep.
  destruct (credential r) as [c|]; cbn [ok_of_option]; [|by apply spec_err].
  do 2 wstep. destruct (snapshot r) as [s|]; cbn [ok_of_option]; [|by apply spec_err].
  do 2 wstep. destruct (build_deactivate_request _ _ _ _ _); [|by apply meets_close].
  do 3 wstep. destruct x; cbn [map_err]; [wstep; by apply spec_ok|by apply spec_err].
Qed.

(** The tick: only the machine moves, and what is held stays. *)
Lemma tick_spec t r :
  inv r -> wpr (tick_region t) (fun _ r' => r' = set_state r (StateMachine.handle (state r) Event.Tick t).1) r.
Proof.
  intros Hr. unfold tick_region. wstep. apply wpr_handle. do 3 wstep. destruct (is_none _).
  - by repeat wstep.
  - do 2 wstep. destruct x; cbn [map_err]; [|done]. by repeat wstep.
Qed.
Lemma tick_keeps t : keeps self (tick_region t).
Proof.
  intros r Hr. eapply wpr_mono; [by apply tick_spec|]. intros _ r' ->. by apply handle_good.
Qed.

Lemma keeps_bind {E A B} (m : M Client E A) (k : A -> M Client E B) :
  keeps self m -> (forall a, steady (k a)) -> keeps self (M.bind m k).
Proof.
  intros Hm Hk r Hr. wstep. eapply wpr_mono; [by apply Hm|]. intros [a|e] r' Hg; [|done]. by apply wpr_steady.
Qed.

Lemma feature_key_keeps feature t : keeps self (feature_key_region feature t).
Proof. apply keeps_bind; [apply tick_keeps|]. intros effects. auto 10 with steady. Qed.
Lemma unseal_keeps feature t : keeps self (unseal_region feature t).
Proof.
  apply keeps_bind; [apply tick_keeps|]. intros effects. apply steady_bind; [auto with steady|intros r].
  apply steady_bind; [auto with steady|intros m]. cbv zeta. auto with steady.
Qed.
Lemma cycle_keeps {E} hint t : keeps self (cycle_region (E := E) hint t).
Proof.
  intros r Hr. unfold cycle_region. wstep. apply wpr_handle.
  assert (good r (set_state r (StateMachine.handle (state r) (if hint then Event.NetworkAvailable else Event.Tick) t).1)) as Hg.
  { by destruct hint; apply handle_good. }
  do 3 wstep. destruct (is_none _); [by repeat wstep|]. do 3 wstep. by repeat wstep.
Qed.
Lemma flag_keeps {E A} (m : M Client E A) :
  (forall c, match m c with Some (_, c') => runtime c' = runtime c | None => True end) -> keeps self m.
Proof. intros Hm. apply keeps_steady. intros r c <-. apply Hm. Qed.
End RegionSpecs.

(** ** Programs, alone *)
Section Alone.
Context `{Prim : Primitives} `{CS : CryptoSuite} `{SS : SignatureScheme} `{HS : HashScheme}
  `{K : KeyEncapsulation} `{U : UrlParser} `{P : Platform} (self : Inner).
Notation inv := (inv self).
Notation good := (good self).

(** What holds when a program has run alone; it may abort, it may not loop. *)
Definition pwp {A} (p : Prog A) (Q : A -> Runtime -> Prop) (r : Runtime) : Prop :=
  forall c, runtime c = r ->
    match run p c with Done a c' => Q a (runtime c') | Aborted => True | Diverged => False end.

Lemma pwp_ret {A} (a : A) Q r : Q a r -> pwp (Ret a) Q r.
Proof. by intros H c <-. Qed.
Lemma pwp_act {A E B} (m : M Client E B) (k : result B E -> Prog A) Q r :
  wpr m (fun x r' => pwp (k x) Q r') r -> pwp (Act m k) Q r.
Proof. intros H c Hc. specialize (H c Hc). cbn. destruct (m c) as [[x c']|]; [|done]. by apply H. Qed.
Lemma run_bind {A B} (p : Prog A) (k : A -> Prog B) c :
  run (pbind p k) c = match run p c with Done a c' => run (k a) c' | Aborted => Aborted | Diverged => Diverged end.
Proof. revert c. induction p as [a|E C m f IH|]; intros c; cbn; [done| |done]. destruct (m c) as [[x c']|]; [apply IH|done]. Qed.
Lemma pwp_bind {A B} (p : Prog A) (k : A -> Prog B) Q r :
  pwp p (fun a r' => pwp (k a) Q r') r -> pwp (pbind p k) Q r.
Proof. intros H c Hc. specialize (H c Hc). rewrite run_bind. destruct (run p c); [|done..]. by apply H. Qed.
Lemma pwp_mono {A} (p : Prog A) (Q Q' : A -> Runtime -> Prop) r :
  pwp p Q r -> (forall a r', Q a r' -> Q' a r') -> pwp p Q' r.
Proof. intros H HQ c Hc. specialize (H c Hc). destruct (run p c); auto. Qed.

Definition obeys {E A} `{Severe E} (f : Claim) (k : bool) (p : Prog (result A E)) : Prop :=
  forall r, inv r -> pwp p (spec self f k r) r.

Definition claim_le (f g : Claim) : bool :=
  match f, g with Wipes, _ => true | WipesOrKeeps, WipesOrKeeps => true | _, NotYet => true | _, _ => false end.

Lemma claims_mono f g r r' : claim_le f g = true -> claims f r r' -> claims g r r'.
Proof. destruct f, g; cbn; try done; auto. Qed.

(** Going on from a state in which what was held is still held. *)
Lemma spec_trans {E A} `{Severe E} f k r r1 (x : result A E) r2 :
  evolves r r1 -> kept r r1 -> spec self f k r1 x r2 -> spec self f k r x r2.
Proof.
  intros Hev Hk [Hg Hx]. split; [by eapply good_trans|]. destruct x as [a|e].
  - intros Hb. trans r1; auto.
  - destruct (severity e), f; cbn in *; try done; [destruct Hx; [by left|right; by trans r1]|by trans r1..].
Qed.

Lemma obeys_act {E A} `{Severe E} f k (m : M Client E A) : meets self f k m -> obeys f k (act m).
Proof. intros Hm r Hr. apply pwp_act. eapply wpr_mono; [by apply Hm|]. intros x r' Hs. by apply pwp_ret. Qed.

Lemma obeys_ret {E A} `{Severe E} f k (a : A) : obeys (E := E) f k (Ret (Ok a)).
Proof. intros r Hr. apply pwp_ret. by apply spec_ok. Qed.
Lemma obeys_err {E A} `{Severe E} f k (e : E) : severity e <> SFatal -> obeys (A := A) f k (Ret (Err e)).
Proof. intros He r Hr. apply pwp_ret. by apply spec_err. Qed.
Lemma obeys_same {E A} `{Severe E} f k (x : result A E) : f <> Wipes -> obeys f k (Ret x).
Proof. intros He r Hr. apply pwp_ret. by apply spec_same. Qed.

Lemma obeys_bind {E A B} `{Severe E} f f' k (p : Prog (result A E)) (q : A -> Prog (result B E)) :
  claim_le f f' = true -> obeys f true p -> (forall a, obeys f' k (q a)) -> obeys f' k (pbind_ok p q).
Proof.
  intros Hf Hp Hq r Hr. apply pwp_bind. eapply pwp_mono; [by apply Hp|]. intros [a|e] r1 [[Hi Hev] Hx].
  - eapply pwp_mono; [by apply Hq|]. intros x r2. apply spec_trans; auto.
  - apply pwp_ret. split; [done|]. destruct (severity e); [by eapply claims_mono|done..].
Qed.

(** A step whose own errors cannot be seen, or that cannot fail. *)
Lemma obeys_then {E A B} `{Severe E} f k (m : M Client Empty_set A) (q : A -> Prog (result B E)) :
  (forall r, inv r -> wpr m (fun _ r' => good r r' /\ kept r r') r) -> (forall a, obeys f k (q a)) ->
  obeys f k (pbind (atomic m) q).
Proof.
  intros Hm Hq r Hr. apply pwp_bind. apply pwp_act. eapply wpr_mono; [by apply Hm|]. intros [a|[]] r1 [[Hi Hev] Hk].
  apply pwp_ret. eapply pwp_mono; [by apply Hq|]. intros x r2. by apply spec_trans.
Qed.

Lemma steady_good {E A} (m : M Client E A) : steady m -> forall r, inv r -> wpr m (fun _ r' => good r r' /\ kept r r') r.
Proof. intros Hm r Hr. apply wpr_steady; [done|]. intros _. split; [by apply good_refl|done]. Qed.
End Alone.
