(* ===== verification/ClientSpec.v ===== *)
(** * The contracts of the client's methods

    Each method alone: a fatal error leaves nothing held, a transient failure or a refusal leaves
    what is held as it was, and the revocation loop ends with the epoch it was sent for.  All of
    them together: every interleaving of their actions keeps the invariant and the marks, and no
    call loops for ever. *)

From S2P Require Import Prelude Types Clock Errors StateMachine Ticket Device Cbor Field Artifacts Chain.
From S2P Require Import Requests Messages Armor Suite StdSuite Seal Keys StoreRecord Host Snapshot.
From S2P Require Import Scheduler ClientWire Client ClientRuns.
#[local] Open Scope client_scope.
Import Runtime.

#[export] Instance local_severity : Severe LocalError := fun _ => SLocal.

Section Alone.
Context `{Prim : Primitives} `{CS : CryptoSuite} `{SS : SignatureScheme} `{HS : HashScheme}
  `{K : KeyEncapsulation} `{U : UrlParser} `{P : Platform} (self : Inner).
Notation inv := (inv self).
Notation good := (good self).
Notation obeys := (obeys self).
#[local] Hint Resolve steady_persist steady_sample steady_success steady_failure : steady.

(** Programs that leave the runtime alone. *)
Definition quiet {A} (p : Prog A) : Prop := forall r, pwp p (fun _ r' => r' = r) r.

Lemma quiet_ret {A} (a : A) : quiet (Ret a).
Proof. intros r. by apply pwp_ret. Qed.
Lemma quiet_act {E A} (m : M Client E A) : steady m -> quiet (act m).
Proof. intros Hm r. apply pwp_act. eapply wpr_mono; [apply Hm|]. intros x r' ->. by apply pwp_ret. Qed.
Lemma quiet_atomic {A} (m : M Client Empty_set A) : steady m -> quiet (atomic m).
Proof. intros Hm r. apply pwp_act. eapply wpr_mono; [apply Hm|]. intros [x|[]] r' ->. by apply pwp_ret. Qed.
Lemma quiet_bind {A B} (p : Prog A) (k : A -> Prog B) : quiet p -> (forall a, quiet (k a)) -> quiet (pbind p k).
Proof. intros Hp Hk r. apply pwp_bind. eapply pwp_mono; [apply Hp|]. intros a r' ->. apply Hk. Qed.
Lemma quiet_try {E A B} (p : Prog (result A E)) (k : A -> Prog (result B E)) :
  quiet p -> (forall a, quiet (k a)) -> quiet (pbind_ok p k).
Proof. intros Hp Hk. apply quiet_bind; [done|]. intros [a|e]; [apply Hk|apply quiet_ret]. Qed.
Lemma quiet_map_err {E F A} (f : E -> F) (p : Prog (result A E)) : quiet p -> quiet (pmap_err f p).
Proof. intros Hp. apply quiet_bind; [done|]. intros r. apply quiet_ret. Qed.
Lemma obeys_quiet {E A} `{Severe E} f k (p : Prog (result A E)) : quiet p -> f <> Wipes -> obeys f k p.
Proof. intros Hp Hf r Hr. eapply pwp_mono; [apply Hp|]. intros x r' ->. by apply spec_same. Qed.

Lemma quiet_get path limit : quiet (send_get self path limit).
Proof.
  unfold send_get. destruct (endpoint _ _); [|apply quiet_ret]. apply quiet_try; [apply quiet_act, steady_platform|].
  intros r. destruct (_ >? _); apply quiet_ret.
Qed.
Lemma quiet_post path body key limit : quiet (send_post self path body key limit).
Proof.
  unfold send_post. destruct (_ >? _); [apply quiet_ret|]. destruct (endpoint _ _); [|apply quiet_ret].
  apply quiet_try; [apply quiet_act, steady_platform|]. intros r. destruct (_ >? _); apply quiet_ret.
Qed.
Lemma quiet_keyset : quiet (fetch_keyset self).
Proof. apply quiet_try; [apply quiet_map_err, quiet_get|]. intros r. apply quiet_ret. Qed.

(** Fresh device keys carry no credential. *)
Lemma generated_fresh w s w' :
  generate_snapshot w = Some (Ok s, w') -> ClientSnapshot.credential_envelope s = None.
Proof.
  unfold generate_snapshot. destruct (keygen adapter (w, false)) as [[dk ek] rng].
  destruct (FastSig.generate rng) as [[sk vk] rng']. destruct (rng'.2); [done|]. by intros [= <- _].
Qed.

Lemma wpr_platform {E A} (m : M PW E A) Q r :
  (forall w x w', m w = Some (x, w') -> Q x r) -> wpr (platform m) Q r.
Proof. intros H c <-. unfold platform. destruct (m (world c)) as [[x w]|] eqn:E1; [|done]. by eapply H. Qed.

Lemma ensure_keys_obeys : obeys Wipes true ensure_device_keys.
Proof.
  unfold ensure_device_keys. apply obeys_then; [apply steady_good; auto with steady|]. intros [|]; cbn [negb].
  2: apply obeys_ret.
  intros r Hr. apply pwp_bind, pwp_act, wpr_platform. intros w [s|e] w' Hg; apply pwp_ret.
  - apply obeys_act; [|done]. apply device_keys_spec. by eapply generated_fresh.
  - apply pwp_ret. by apply spec_err.
Qed.

Lemma close_pwp {E A} error (as_ : FatalError -> E) r :
  inv r -> pwp (close (A := A) error as_) (fun x r' => x = Err (as_ error) /\ gone r' /\ good r r') r.
Proof.
  intros Hr. apply pwp_bind, pwp_act. eapply wpr_mono; [by apply (fail_closed_spec self), (inv_wipeable self)|].
  intros x r' (-> & Hg). by do 2 apply pwp_ret.
Qed.
Lemma obeys_close {E A} `{Severe E} k error (as_ : FatalError -> E) :
  (forall e, severity (as_ e) = SFatal) -> obeys Wipes k (close (A := A) error as_).
Proof.
  intros Hs r Hr. eapply pwp_mono; [by apply close_pwp|]. intros x r' (-> & Hg & Hi). split; [done|]. by rewrite Hs.
Qed.

(** The error of a stage that has not been acted on yet. *)
Lemma obeys_map_err {E F A} `{Severe E} `{Severe F} (g : E -> F) f k (p : Prog (result A E)) :
  (forall e, severity (g e) = severity e) -> obeys f k p -> obeys f k (pmap_err g p).
Proof.
  intros Hg Hp r Hr. apply pwp_bind. eapply pwp_mono; [by apply Hp|]. intros x r' [Hi Hx]. apply pwp_ret.
  split; [done|]. destruct x as [a|e]; cbn [map_err]; [done|]. by rewrite Hg.
Qed.

Lemma stage_error_spec error r :
  inv r ->
  pwp (resolve_validation_stage_error self error)
    (fun e r' => good r r' /\ match severity e with SFatal => gone r' | SBenign => kept r r' | _ => True end) r.
Proof.
  intros Hr. destruct error; cbn [resolve_validation_stage_error];
    try (apply pwp_ret; split; [by apply good_refl|done]).
  - apply pwp_bind, pwp_act, wpr_steady; [auto with steady|]. intros [x|[]]. apply pwp_ret, pwp_bind, pwp_act.
    eapply wpr_mono; [by apply (apply_transient_spec self)|]. intros x' r' [Hg Hx]. do 2 apply pwp_ret. split; [done|].
    destruct x' as [u|e']; [by apply Hx|]. by destruct (severity e').
  - apply pwp_bind, pwp_act. eapply wpr_mono; [by apply (fail_closed_spec self), (inv_wipeable self)|].
    intros x r' (-> & Hg & Hi). by do 2 apply pwp_ret.
Qed.

Lemma obeys_resolved {A} k (p : Prog (result A ValidationError)) :
  obeys WipesOrKeeps k p -> obeys Wipes k (resolved self p).
Proof.
  intros Hp r Hr. apply pwp_bind. eapply pwp_mono; [by apply Hp|]. intros [a|e] r1 [[Hi Hev] Hx].
  { apply pwp_ret. by split. }
  apply pwp_bind. destruct e; cbn [resolve_validation_stage_error];
    try (do 2 apply pwp_ret; by split).
  - eapply pwp_mono; [by apply (stage_error_spec (ValidationError.Transient e))|]. intros e' r2 [Hg He']. apply pwp_ret.
    split; [by eapply good_trans|]. destruct (severity e'); try done. cbn in *. by trans r1.
  - apply pwp_bind, pwp_act. eapply wpr_mono; [by apply (fail_closed_spec self), (inv_wipeable self)|].
    intros x r2 (-> & Hg & Hi2). do 3 apply pwp_ret. split; [by eapply good_trans|done].
Qed.

Lemma obeys_stage {A} k (p : Prog (result A ValidationError)) b :
  obeys WipesOrKeeps k p -> obeys Wipes k (activate_stage self p b).
Proof.
  intros Hp r Hr. apply pwp_bind. eapply pwp_mono; [by apply Hp|]. intros [a|e] r1 [[Hi Hev] Hx].
  { apply pwp_ret. by split. }
  destruct e; try (apply pwp_ret; by split).
  - apply pwp_bind. destruct b; [|do 2 apply pwp_ret; by split].
    apply pwp_act, wpr_steady; [auto with steady|]. intros [x|[]]. do 2 apply pwp_ret. by split.
  - eapply pwp_mono; [by apply close_pwp|]. intros x r2 (-> & Hg & Hi2). split; [by eapply good_trans|done].
Qed.

(** ** The revocation loop *)

(** One page, alone: as [sync_region_spec]. *)
Lemma sync_page_spec target current r :
  inv r -> current <= max_revocation_epoch r ->
  pwp (sync_page self target current)
    (fun x r' => spec self WipesOrKeeps true r x r' /\ (is_ok x = true -> current < max_revocation_epoch r')) r.
Proof.
  intros Hr Hc. unfold sync_page. destruct (checked 0 u64_max (current + 1)) as [cursor|] eqn:Hk.
  2: { apply pwp_ret. split; [by apply spec_same|done]. }
  apply pwp_bind. eapply pwp_mono; [apply quiet_map_err, quiet_get|]. intros [resp|e] r' ->.
  2: { apply pwp_ret. split; [by apply spec_same|done]. }
  destruct (_ <-? _ ;; _) as [env|e]; [|apply pwp_ret; split; [by apply spec_same|done]].
  apply pwp_act. eapply wpr_mono; [apply sync_region_spec; [done|by apply checked_Some in Hk as [-> _]]|].
  intros x r' [Hs Hx]. apply pwp_ret. auto.
Qed.

Lemma sync_loop_spec target fuel : forall r,
  inv r -> (1 <= fuel)%nat -> target + 2 <= Z.of_nat fuel + max_revocation_epoch r ->
  pwp (sync_loop self fuel target)
    (fun x r' => spec self WipesOrKeeps true r x r' /\ (x = Ok tt -> max_revocation_epoch r' = target)) r.
Proof.
  induction fuel as [|fuel IH]; intros r Hr Hf Hle; [lia|]. cbn [sync_loop].
  apply pwp_bind, pwp_act. do 2 wstep. wstep. apply pwp_ret.
  destruct (Z.ltb_spec target (max_revocation_epoch r)); [apply pwp_ret; split; [by apply spec_same|done]|].
  destruct (Z.eqb_spec target (max_revocation_epoch r)); [apply pwp_ret; split; [by apply spec_ok|done]|].
  apply pwp_bind. eapply pwp_mono; [by apply sync_page_spec|]. intros [u|e] r1 [Hs Hp].
  - destruct Hs as [[Hi Hev] Hk]. specialize (Hp eq_refl). eapply pwp_mono; [apply IH; [done|lia|lia]|].
    intros x r2 [Hs2 Ht]. split; [|done]. eapply spec_trans; [done|by apply Hk|done].
  - apply pwp_ret. split; [|done]. destruct Hs as [Hg He]. by split.
Qed.

(** Alone, the loop ends, with the epoch it was asked for. *)
Lemma sync_spec target r :
  inv r ->
  pwp (sync_revocations self target)
    (fun x r' => spec self WipesOrKeeps true r x r' /\ (x = Ok tt -> max_revocation_epoch r' = target)) r.
Proof. intros Hr. pose proof (inv_epoch _ _ Hr). apply sync_loop_spec; [done|lia|lia]. Qed.
Lemma sync_obeys target : obeys WipesOrKeeps true (sync_revocations self target).
Proof. intros r Hr. eapply pwp_mono; [by apply sync_spec|]. by intros x r' [? _]. Qed.

(** ** The methods *)
Lemma obeys_time {E A} `{Severe E} f k (q : Z -> Prog (result A E)) : (forall t, obeys f k (q t)) -> obeys f k (pbind (atomic now) q).
Proof. intros Hq. apply obeys_then; [apply steady_good; auto with steady|done]. Qed.
Lemma obeys_nonce {E A} `{Severe E} f k (local : LocalError -> E) n (q : list byte -> Prog (result A E)) :
  (forall e, severity (local e) = SLocal) -> (forall b, obeys f k (q b)) ->
  obeys f k (pbind_ok (act (M.map_err local (platform (random_array n)))) q).
Proof.
  intros Hl Hq. eapply (obeys_bind self Wipes); [by destruct f|apply obeys_act|done].
  intros r Hr. wstep. wstep. destruct x; cbn [map_err]; [by apply spec_ok|]. apply spec_err; [by rewrite Hl|done].
Qed.
(** The scheduler's bookkeeping at the end of a method. *)
Definition closing {E A} `{Severe E} (p : Prog (result A E)) : Prop := forall r,
  pwp p (fun x r' => r' = r /\ match x with Ok _ => True | Err e => severity e = SVerdict end) r.
Lemma closing_after {E A} `{Severe E} (m : M Client Empty_set unit) (x : result A E) :
  steady m -> match x with Ok _ => True | Err e => severity e = SVerdict end -> closing (pbind (atomic m) (fun _ => Ret x)).
Proof. intros Hm Hx r. apply pwp_bind. eapply pwp_mono; [by apply quiet_atomic|]. intros u r2 ->. by apply pwp_ret. Qed.

(** An installing region followed by bookkeeping. *)
Lemma obeys_region {E A B} `{Severe E} f (m : M Client E A) (q : A -> Prog (result B E)) :
  meets self f false m -> (forall a, closing (q a)) -> obeys f false (pbind_ok (act m) q).
Proof.
  intros Hm Hq r Hr. apply pwp_bind, pwp_act. eapply wpr_mono; [by apply Hm|]. intros [a|e] r' [Hg Hx]; apply pwp_ret.
  - eapply pwp_mono; [apply Hq|]. intros x r2 [-> Hv]. split; [done|]. destruct x; [done|]. by rewrite Hv.
  - by apply pwp_ret.
Qed.

Lemma resolve_activate_obeys {A} k error :
  obeys Wipes k (pbind (resolve_activate_transport error) (fun e => Ret (Err (A := A) e))).
Proof.
  intros r Hr. apply pwp_bind. unfold resolve_activate_transport.
  assert (Hc : forall fatal, pwp (seq* atomic (fail_closed fatal) ;; Ret (ActivateError.Fatal fatal))
    (fun e r' => pwp (Ret (Err (A := A) e)) (spec self Wipes k r) r') r).
  { intros fatal. apply pwp_bind, pwp_act. eapply wpr_mono; [by apply (fail_closed_spec self), (inv_wipeable self)|].
    intros x r' (-> & Hg & Hi). do 3 apply pwp_ret. by split. }
  destruct error; cbn [map_transport_activate]; try apply Hc; do 2 apply pwp_ret; by apply spec_err.
Qed.
Lemma resolve_deactivate_obeys {A} k error :
  obeys Wipes k (pbind (resolve_deactivate_transport error) (fun e => Ret (Err (A := A) e))).
Proof.
  intros r Hr. apply pwp_bind. unfold resolve_deactivate_transport.
  assert (Hc : forall fatal, pwp (seq* atomic (fail_closed fatal) ;; Ret (DeactivateError.Fatal fatal))
    (fun e r' => pwp (Ret (Err (A := A) e)) (spec self Wipes k r) r') r).
  { intros fatal. apply pwp_bind, pwp_act. eapply wpr_mono; [by apply (fail_closed_spec self), (inv_wipeable self)|].
    intros x r' (-> & Hg & Hi). do 3 apply pwp_ret. by split. }
  destruct error; cbn [map_transport_deactivate]; try apply Hc; do 2 apply pwp_ret; by apply spec_err.
Qed.

Lemma obeys_response {E A B} `{Severe E} f k (p : Prog A) (q : A -> Prog (result B E)) :
  quiet p -> (forall a, obeys f k (q a)) -> obeys f k (pbind p q).
Proof.
  intros Hp Hq r Hr. apply pwp_bind. eapply pwp_mono; [apply Hp|]. intros a r' ->. by apply Hq.
Qed.

Lemma activate_obeys credential : obeys Wipes false (activate_credential self credential).
Proof.
  unfold activate_credential. eapply (obeys_bind self Wipes); [done|by apply obeys_map_err, ensure_keys_obeys|intros _].
  apply obeys_nonce; [done|]. intros nonce.
  eapply (obeys_bind self Wipes); [done|apply obeys_act, activation_request_spec|]. intros [body key].
  apply obeys_response; [apply quiet_post|]. intros [response|error]; [|apply resolve_activate_obeys].
  destruct (activation_response response) as [bytes|[e|e|e]]; [|by apply obeys_err|by apply obeys_err|by apply obeys_close].
  eapply (obeys_bind self Wipes); [done|apply obeys_stage, obeys_quiet; [apply quiet_keyset|done]|]. intros keyset.
  eapply (obeys_bind self Wipes); [done|apply obeys_stage, obeys_act, install_keyset_spec|]. intros _.
  eapply (obeys_bind self Wipes); [done|apply obeys_stage, sync_obeys|]. intros _.
  apply obeys_time. intros t.
  apply obeys_region; [apply activation_spec|]. intros [start deadline]. apply closing_after; auto with steady.
Qed.

Lemma offline_request_obeys key : obeys WipesOrKeeps true (build_offline_request self key).
Proof.
  unfold build_offline_request. eapply (obeys_bind self Wipes); [done|by apply obeys_map_err, ensure_keys_obeys|intros _].
  apply obeys_nonce; [done|]. intros nonce. apply obeys_time. intros t. apply obeys_act, offline_request_spec.
Qed.

Lemma offline_response_obeys bytes : obeys Wipes false (import_offline_response self bytes).
Proof.
  unfold import_offline_response. destruct (_ <-? _ ;; _) as [[envelope unverified]|e]; [|by apply obeys_close].
  apply obeys_time. intros t. apply obeys_region; [apply offline_response_spec|].
  intros [start deadline]. apply closing_after; auto with steady.
Qed.

Lemma import_olk_obeys armored : obeys Wipes false (import_olk self armored).
Proof.
  unfold import_olk. destruct (_ <-? _ ;; _) as [[bundle envelope]|e]; [|by apply obeys_close].
  destruct (_ || _); [by apply obeys_err|]. destruct (TrustAnchors.fatal _) as [preview|e]; [|by apply obeys_close].
  apply obeys_time. intros t. apply obeys_region; [apply olk_region_spec|]. intros _. apply closing_after; auto with steady.
Qed.

Lemma apply_envelope_obeys envelope bytes nonce : obeys Wipes false (apply_envelope self envelope bytes nonce).
Proof.
  unfold apply_envelope. apply obeys_time. intros t. destruct (Envelope.kind envelope); try by apply obeys_close.
  - eapply (obeys_bind self Wipes); [done|apply obeys_act, preview_spec|]. intros preview.
    eapply (obeys_bind self Wipes); [done|apply obeys_resolved, sync_obeys|]. intros _.
    apply obeys_region; [apply ticket_region_spec|]. intros ticket. apply closing_after; [auto with steady|].
    by destruct (ValidationTicket.verdict ticket).
  - apply obeys_act, kill_spec.
Qed.

Lemma validate_body_obeys : obeys WipesOrKeeps false (validate_body self).
Proof.
  unfold validate_body. apply obeys_nonce; [done|]. intros nonce.
  eapply (obeys_bind self WipesOrKeeps); [done|apply obeys_act, validate_request_spec|]. intros body.
  apply obeys_then; [apply steady_good; auto with steady|]. intros _.
  eapply (obeys_bind self Wipes); [done|apply obeys_resolved, obeys_quiet; [apply quiet_map_err, quiet_post|done]|]. intros response.
  destruct (validation_response response) as [bytes|[e|e]].
  2: { apply obeys_then; [apply steady_good; auto with steady|]. intros _.
       eapply (obeys_bind self Wipes); [done|apply obeys_act, apply_transient_spec|]. intros _. by apply obeys_err. }
  2: { intros r Hr. eapply pwp_mono; [by apply (close_pwp e ValidationError.Fatal)|]. intros x r' (-> & Hg & Hi).
       split; [done|by left]. }
  destruct (TrustAnchors.fatal _) as [envelope|e].
  2: { intros r Hr. eapply pwp_mono; [by apply (close_pwp e ValidationError.Fatal)|]. intros x r' (-> & Hg & Hi).
       split; [done|by left]. }
  eapply (obeys_bind self WipesOrKeeps); [done|apply obeys_act, meets_steady; [unfold needs_epoch_refresh; auto 10 with steady|done]|].
  intros needs. eapply (obeys_bind self Wipes); [done| |].
  - destruct needs; [|apply obeys_ret].
    eapply (obeys_bind self Wipes); [done|apply obeys_resolved, obeys_quiet; [apply quiet_keyset|done]|]. intros keyset.
    eapply (obeys_bind self Wipes); [done|apply obeys_resolved, obeys_act, install_keyset_spec|]. intros _.
    apply obeys_resolved, sync_obeys.
  - intros _ r Hr. eapply pwp_mono; [by apply apply_envelope_obeys|]. intros x r' [Hg Hx]. split; [done|].
    destruct x as [u|e]; [done|]. destruct (severity e); [by left|done..].
Qed.

Lemma steady_in_flight b {E} : steady (set_in_flight b (E := E)).
Proof. by intros r c <-. Qed.
Lemma steady_acquire : steady acquire.
Proof. intros r c <-. unfold acquire. by destruct (validation_in_flight c). Qed.

Lemma validate_obeys : obeys WipesOrKeeps false (validate_ self).
Proof.
  unfold validate_. eapply (obeys_bind self WipesOrKeeps); [done|apply obeys_act, meets_steady; [apply steady_acquire|done]|].
  intros _ r Hr. apply pwp_bind. eapply pwp_mono; [by apply validate_body_obeys|]. intros x r' Hs.
  apply pwp_bind. eapply pwp_mono; [apply quiet_atomic, steady_in_flight|]. intros u r2 ->. by apply pwp_ret.
Qed.

Lemma release_seat_obeys : obeys Wipes false (release_seat self).
Proof.
  unfold release_seat. apply obeys_nonce; [done|]. intros nonce.
  eapply (obeys_bind self Wipes); [done|apply obeys_act, deactivate_request_spec|]. intros [body key].
  apply obeys_response; [apply quiet_post|]. intros [response|error]; [|apply resolve_deactivate_obeys].
  destruct (transient_status response); [by apply obeys_err|].
  destruct (deactivation_ack response); [|by apply obeys_close].
  apply obeys_region; [by apply user_deactivate_meets|]. intros _. apply closing_after; auto with steady.
Qed.

Lemma deactivate_obeys : obeys Wipes false (deactivate self).
Proof.
  intros r Hr. unfold deactivate. apply pwp_bind, pwp_act. eapply wpr_mono; [by apply deactivate_olk_spec|].
  intros [[|]|e] r1 [Hs Hk]; apply pwp_ret; [..|by apply pwp_ret].
  { apply pwp_bind. eapply pwp_mono; [apply quiet_atomic; auto with steady|]. intros u r2 ->. by apply pwp_ret. }
  specialize (Hk eq_refl). destruct Hs as [[Hi Hev] _]. eapply pwp_mono; [by apply release_seat_obeys|].
  intros x r2. by apply spec_trans.
Qed.
End Alone.

(** ** The restored client satisfies the invariant *)
Section Restored.
Context `{Prim : Primitives} `{CS : CryptoSuite} `{SS : SignatureScheme} `{HS : HashScheme}
  `{K : KeyEncapsulation} `{U : UrlParser} `{P : Platform} (self : Inner).
Notation inv := (inv self).

Lemma mbind_some {S E A B} (m : M S E A) (k : A -> M S E B) s b s' :
  M.bind m k s = Some (Ok b, s') -> exists a s1, m s = Some (Ok a, s1) /\ k a s1 = Some (Ok b, s').
Proof. unfold M.bind. destruct (m s) as [[[a|e] s1]|]; [|done..]. intros H. by exists a, s1. Qed.
Lemma mlift_some {S E A} (x : result A E) s a s' : M.lift (S := S) x s = Some (Ok a, s') -> x = Ok a /\ s' = s.
Proof. by intros [= -> ->]. Qed.

(** What is loaded: a machine in its initial state with an ordered clock, and a mark of zero or more. *)
Lemma load_state_spec t w m s k w' :
  load_state self t w = Some (Ok (m, s, k), w') ->
  machine_ok m /\ clock_ok (StateMachine.clock m) /\ StateMachine.has_credential m = false /\
  0 <= MonotonicState.max_seen_revocation_epoch k /\
  ClockState.last_seen_max (StateMachine.clock m) = MonotonicState.last_seen_max k.
Proof.
  unfold load_state. intros (loaded & w1 & _ & H)%mbind_some. destruct loaded as [bytes|].
  - apply mbind_some in H as (rec & w2 & [Hd%map_err_ok' ->]%mlift_some & H).
    apply mbind_some in H as (snap & w3 & _ & H). apply mbind_some in H as ([] & w4 & _ & H).
    apply mbind_some in H as (clock & w5 & [Hc _]%mlift_some & H). injection H as <- <- <- _.
    unfold ClockState.from_persisted in Hc. rewrite Z.gtb_ltb in Hc.
    destruct (Z.ltb_spec (MonotonicState.last_seen_max (StoreRecord.monotonic rec))
      (MonotonicState.last_server_time (StoreRecord.monotonic rec))); [done|].
    injection Hc as <-. apply decode_inv in Hd as ((_ & _ & _ & _ & _ & Hu) & _). unfold clock_ok. cbn. split_and!; try done. int_lia.
  - apply mbind_some in H as (snap & w2 & _ & H). injection H as <- <- <- _. unfold clock_ok. cbn. split_and!; done || lia.
Qed.

Lemma handled_ok m e t : machine_ok m /\ clock_ok (StateMachine.clock m) ->
  machine_ok (handled m e t) /\ clock_ok (StateMachine.clock (handled m e t)).
Proof. intros [? ?]. split; [by apply handle_machine_ok|by apply handle_clock_ok]. Qed.
Lemma deadlines_ok m d : machine_ok m /\ clock_ok (StateMachine.clock m) ->
  machine_ok (StateMachine.set_deadlines m d) /\ clock_ok (StateMachine.clock (StateMachine.set_deadlines m d)).
Proof. done. Qed.

(** A runtime around an opened credential. *)
Lemma restored_inv (r : Runtime) s c m license machine epoch floor revocation t known :
  snapshot r = Some s -> material r = Some m -> chain r = Some c ->
  is_Some (ClientSnapshot.credential_envelope s) -> bound_to self m license machine epoch ->
  epoch ∉ RevocationState.revoked_epochs (VerifiedChain.revocation c) ->
  verify_keyset self (stored_keyset s known) t known (ClientSnapshot.revoked_epochs s) = Ok c ->
  0 <= known <= max_revocation_epoch r -> floor <= max_security_floor r -> revocation <= max_revocation_epoch r ->
  machine_ok (state r) /\ clock_ok (StateMachine.clock (state r)) ->
  (holding self r license machine epoch floor revocation -> held self r) -> inv r.
Proof.
  intros Hs Hm Hc Hce Hb He Hv Hk Hf Hr [Hmo Hco] Hh.
  assert (chain_in_step r) as Hch by (eapply chain_of_keyset; [exact Hv|lia|done|done|done]).
  split; [|done|done|done|lia]. apply Hh. destruct (Hch c Hc) as (s' & Hs' & _ & Hx). assert (s' = s) as -> by congruence.
  exists s, m, c. split_and!; try done. by rewrite <- Hx.
Qed.

Lemma restore_olk_inv m s envelope floor epoch t r :
  machine_ok m /\ clock_ok (StateMachine.clock m) -> 0 <= epoch -> is_Some (ClientSnapshot.credential_envelope s) ->
  restore_olk self m s envelope floor epoch t = Ok r -> inv r.
Proof.
  intros Hm He Hs. unfold restore_olk. destruct (is_none _); [|done]. rewrite rbind_ok. intros (pre & _ & H).
  apply rbind_ok in H as (c & Hc%map_err_ok' & H). apply rbind_ok in H as ([l k] & Ho%map_err_ok' & [= <-]).
  apply open_olk_spec in Ho as (Hb & Hep & Hf & Hrv).
  eapply (restored_inv _ s c k _ _ _ (OfflineLicenseKey.security_floor l) (OfflineLicenseKey.revocation_epoch l)); try done; cbn; try lia.
  do 2 apply handled_ok. by apply deadlines_ok.
Qed.

Lemma restore_machine_inv m s encoded floor epoch t r :
  machine_ok m /\ clock_ok (StateMachine.clock m) -> 0 <= epoch -> is_Some (ClientSnapshot.credential_envelope s) ->
  restore_machine self m s encoded floor epoch t = Some (Ok r) -> inv r.
Proof.
  intros Hm He Hs. unfold restore_machine.
  match goal with |- context [match ?x with Ok _ => _ | Err _ => _ end] => destruct x as [[c [o k]]|e] eqn:Hx end; [|done].
  apply map_err_ok', rbind_ok in Hx as (c' & Hc & Hx). apply rbind_ok in Hx as ([o' k'] & Ho & [= -> -> ->]).
  apply open_machine_spec in Ho as (Hb & Hep & Hf & Hrv).
  destruct (ClientSnapshot.validation_ticket s) as [tb|].
  - destruct (restore_ticket _ _ _ _ _ _ _ _) as [[[m1 ticket]|e]|] eqn:Ht; [|done..].
    assert (machine_ok m1 /\ clock_ok (StateMachine.clock m1)) as Hm1.
    { unfold restore_ticket in Ht. repeat case_match; simplify_eq. split; [apply Hm|].
      match goal with H : check_ticket _ _ _ _ = Some _ |- _ => apply check_ticket_clock in H as [[-> _]|(? & _ & ->)] end;
        [apply Hm|apply observe_ok]. }
    destruct (ValidationTicket.verdict ticket); intros [= <-];
    eapply (restored_inv _ s c _ _ _ _ (MachineCredential.security_floor o) (MachineCredential.revocation_epoch o)); try done; cbn; try lia;
      repeat apply handled_ok; by apply deadlines_ok.
  - intros [= <-].
    eapply (restored_inv _ s c k _ _ _ (MachineCredential.security_floor o) (MachineCredential.revocation_epoch o)); try done; cbn; try lia.
    do 2 apply handled_ok. by apply deadlines_ok.
Qed.

Lemma restore_inv w c w' : restore self w = Some (Ok c, w') -> inv (runtime c).
Proof.
  unfold restore. intros (t & w1 & _ & H)%mbind_some.
  apply mbind_some in H as ([[m s] k] & w2 & (Hm & Hc & Hf & He & _)%load_state_spec & H).
  apply mbind_some in H as (r & w3 & Hr & H). apply mbind_some in H as ([] & w4 & _ & [= <- _]). cbn [runtime].
  unfold restore_runtime in Hr. destruct (ClientSnapshot.credential_envelope s) as [encoded|] eqn:Hce.
  - apply mbind_some in Hr as (env & w5 & _ & Hr).
    assert (is_Some (ClientSnapshot.credential_envelope s)) as Hs by (by rewrite Hce).
    destruct (Envelope.kind env); try done.
    + destruct (restore_machine _ _ _ _ _ _ _) as [x|] eqn:Hx; [|done]. apply mlift_some in Hr as [-> _].
      by eapply restore_machine_inv.
    + apply mlift_some in Hr as [Hx _]. by eapply restore_olk_inv.
  - injection Hr as <- _. split; cbn; try done. unfold held, empty_handed. cbn. split_and!; try done. by intros ? [= <-].
Qed.
End Restored.

Lemma construct_inv `{Prim : Primitives} `{CS : CryptoSuite} `{SS : SignatureScheme} `{HS : HashScheme}
    `{K : KeyEncapsulation} `{U : UrlParser} `{P : Platform} config fingerprint attributes w self c w' :
  construct config fingerprint attributes w = Some (Ok (self, c), w') -> inv self (runtime c).
Proof.
  unfold construct. destruct (negb _); [done|]. intros (a & w1 & _ & H)%mbind_some.
  apply mbind_some in H as (c' & w2 & Hr & [= <- <- _]). by eapply restore_inv.
Qed.

(** ** All calls at once *)

(** The calls of an application and of the background task. *)
Inductive Call :=
| Activate (key : string) | ActivateWithAccount (token : list byte) | BuildOfflineRequest (key : string)
| ImportOfflineResponse (bytes : list byte) | ImportOlk (armored : list byte) | Validate | Deactivate
| FeatureKey (feature : string) | Unseal (feature : string) (sealed : list byte) | Challenge (input : list byte)
| HintOnline | SchedulerCycle.

Section Together.
Context `{Prim : Primitives} `{CS : CryptoSuite} `{SS : SignatureScheme} `{HS : HashScheme}
  `{K : KeyEncapsulation} `{U : UrlParser} `{P : Platform} (self : Inner).
Notation inv := (inv self).
Notation keeps := (keeps self).
Notation epoch c := (max_revocation_epoch (runtime c)).

Definition forget {A} (p : Prog A) : Prog unit := pbind p (fun _ => Ret tt).

Definition call (x : Call) : Prog unit :=
  match x with
  | Activate key => forget (activate self key)
  | ActivateWithAccount token => forget (activate_with_account self token)
  | BuildOfflineRequest key => forget (build_offline_request self key)
  | ImportOfflineResponse bytes => forget (import_offline_response self bytes)
  | ImportOlk armored => forget (import_olk self armored)
  | Validate => forget (validate_ self)
  | Deactivate => forget (deactivate self)
  | FeatureKey feature => forget (feature_key feature)
  | Unseal feature sealed => forget (unseal self feature sealed)
  | Challenge input => forget (challenge input)
  | HintOnline => hint_online
  | SchedulerCycle => run_scheduler_cycle self
  end.

(** The pending calls and the shared state; a step is one action of one of them, or a new call. *)
Definition Pool : Type := list (Prog unit) * Client.
Inductive step : Pool -> Pool -> Prop :=
| step_act ps c i E B (m : M Client E B) k x c' :
    ps !! i = Some (Act m k) -> m c = Some (x, c') -> step (ps, c) (<[i := k x]> ps, c')
| step_call ps c x : step (ps, c) (ps ++ [call x], c).

(** A program whose actions keep the invariant and which does not loop, provided the mark was at
    least [lo] before its next action; at its end [Q] of its value and the mark. *)
Fixpoint safe {A} (p : Prog A) (Q : A -> Z -> Prop) (lo : Z) : Prop :=
  match p with
  | Ret a => Q a lo
  | Act m k => keeps m /\ forall c x c', inv (runtime c) -> lo <= epoch c -> m c = Some (x, c') -> safe (k x) Q (epoch c')
  | Diverge => False
  end.

Lemma keeps_at {E A} (m : M Client E A) c x c' :
  keeps m -> inv (runtime c) -> m c = Some (x, c') -> good self (runtime c) (runtime c').
Proof. intros Hm Hi Hx. specialize (Hm _ Hi c eq_refl). by rewrite Hx in Hm. Qed.

Lemma safe_mono {A} (p : Prog A) (Q Q' : A -> Z -> Prop) lo lo' :
  lo <= lo' -> (forall a l l', l <= l' -> Q a l -> Q' a l') -> safe p Q lo -> safe p Q' lo'.
Proof.
  revert lo lo'. induction p as [a|E B m k IH|]; intros lo lo' Hl HQ; cbn; [by apply HQ| |done].
  intros [Hm Hk]. split; [done|]. intros c x c' Hi Hle Hx. eapply (IH x); [reflexivity|done|].
  eapply (Hk c x c'); [done|lia|done].
Qed.

Lemma safe_bind {A B} (p : Prog A) (k : A -> Prog B) Q lo :
  safe p (fun a l => safe (k a) Q l) lo -> safe (pbind p k) Q lo.
Proof.
  revert lo. induction p as [a|E C m f IH|]; intros lo; cbn; [done| |done].
  intros [Hm Hk]. split; [done|]. intros c x c' Hi Hle Hx. apply IH. by eapply Hk.
Qed.

(** Safety whatever the value and the mark. *)
Definition secure {A} (p : Prog A) : Prop := forall lo, 0 <= lo -> safe p (fun _ _ => True) lo.

Lemma safe_bounded {A} (p : Prog A) lo l0 :
  lo <= l0 -> safe p (fun _ _ => True) l0 -> safe p (fun _ l => lo <= l) l0.
Proof.
  revert l0. induction p as [a|E B m k IH|]; intros l0 Hl; cbn; [done| |done]. intros [Hm Hk]. split; [done|].
  intros c x c' Hi Hle Hx. pose proof (keeps_at m c x c' Hm Hi Hx) as (_ & _ & Hev & _). apply IH; [lia|]. by eapply Hk.
Qed.
Lemma safe_secure {A} (p : Prog A) lo : secure p -> 0 <= lo -> safe p (fun _ l => lo <= l) lo.
Proof. intros Hp Hlo. apply safe_bounded; [done|]. by apply Hp. Qed.
Lemma secure_ret {A} (a : A) : secure (Ret a).
Proof. done. Qed.
Lemma secure_act {E A B} (m : M Client E A) (k : result A E -> Prog B) :
  keeps m -> (forall c x c', inv (runtime c) -> m c = Some (x, c') -> secure (k x)) -> secure (Act m k).
Proof.
  intros Hm Hk lo Hlo. split; [done|]. intros c x c' Hi Hle Hx. pose proof (keeps_at m c x c' Hm Hi Hx) as (_ & _ & Hev & _).
  eapply Hk; [done..|lia].
Qed.
Lemma secure_bind {A B} (p : Prog A) (k : A -> Prog B) : secure p -> (forall a, secure (k a)) -> secure (pbind p k).
Proof.
  intros Hp Hk lo Hlo. apply safe_bind. eapply safe_mono; [reflexivity| |by apply safe_secure].
  intros a l l' Hl Hle. cbn in Hle. apply Hk. lia.
Qed.
Lemma secure_try {E A B} (p : Prog (result A E)) (k : A -> Prog (result B E)) :
  secure p -> (forall a, secure (k a)) -> secure (pbind_ok p k).
Proof. intros Hp Hk. apply secure_bind; [done|]. intros [a|e]; [apply Hk|apply secure_ret]. Qed.
Lemma secure_map_err {E F A} (f : E -> F) (p : Prog (result A E)) : secure p -> secure (pmap_err f p).
Proof. intros Hp. apply secure_bind; [done|]. intros x. apply secure_ret. Qed.
Lemma secure_action {E A} (m : M Client E A) : keeps m -> secure (act m).
Proof. intros Hm. by apply secure_act. Qed.
Lemma secure_atomic {A} (m : M Client Empty_set A) : keeps m -> secure (atomic m).
Proof. intros Hm. apply secure_act; [done|]. intros c [a|[]] c' _ _. apply secure_ret. Qed.
Lemma secure_steady {A} (m : M Client Empty_set A) : steady m -> secure (atomic m).
Proof. intros Hm. by apply secure_atomic, keeps_steady. Qed.
#[local] Hint Resolve steady_persist steady_sample steady_success steady_failure : steady.

Lemma secure_get path limit : secure (send_get self path limit).
Proof.
  unfold send_get. destruct (endpoint _ _); [|apply secure_ret].
  apply secure_try; [apply secure_action, keeps_steady, steady_platform|]. intros r. destruct (_ >? _); apply secure_ret.
Qed.
Lemma secure_post path body key limit : secure (send_post self path body key limit).
Proof.
  unfold send_post. destruct (_ >? _); [apply secure_ret|]. destruct (endpoint _ _); [|apply secure_ret].
  apply secure_try; [apply secure_action, keeps_steady, steady_platform|]. intros r. destruct (_ >? _); apply secure_ret.
Qed.
Lemma secure_keyset : secure (fetch_keyset self).
Proof. apply secure_try; [apply secure_map_err, secure_get|]. intros r. apply secure_ret. Qed.

Lemma keeps_close {E} error : keeps (fail_closed (E := E) error).
Proof.
  intros r Hr. eapply wpr_mono; [by apply (fail_closed_spec self), (inv_wipeable self)|]. by intros x r' (_ & _ & ?).
Qed.
Lemma secure_close {E A} error (as_ : FatalError -> E) : secure (close (A := A) error as_).
Proof. apply secure_bind; [apply secure_atomic, keeps_close|]. intros _. apply secure_ret. Qed.

Lemma secure_device_keys : secure ensure_device_keys.
Proof.
  unfold ensure_device_keys. apply secure_bind; [apply secure_steady; auto with steady|].
  intros [|]; cbn [negb]; [|apply secure_ret].
  unfold pbind_ok, act. cbn [pbind]. apply secure_act; [apply keeps_steady, steady_platform|].
  intros c [s|e] c' _ Hx; [|apply secure_ret]. apply secure_action. unfold platform in Hx.
  destruct (generate_snapshot (world c)) as [[x w]|] eqn:Hg; [|done]. injection Hx as -> _.
  eapply meets_keeps, (device_keys_spec self (E := LocalError)). by eapply generated_fresh.
Qed.

(** The loop, with others acting in between: after every page the mark has moved on. *)
Lemma sync_page_safe target current lo :
  0 <= lo -> current <= lo ->
  safe (sync_page self target current) (fun x l => is_ok x = true -> current < l) lo.
Proof.
  intros Hlo Hc. unfold sync_page. destruct (checked 0 u64_max (current + 1)) as [cursor|] eqn:Hk; [|done].
  apply checked_Some in Hk as [-> _]. apply safe_bind.
  eapply safe_mono; [reflexivity| |apply (safe_secure _ lo); [apply secure_map_err, secure_get|done]].
  cbn beta. intros [resp|e] l l' Hl Hle; [|done]. destruct (_ <-? _ ;; _) as [env|e]; [|done].
  split.
  - intros r Hr. eapply wpr_mono; [by apply sync_region_spec|]. by intros x r' [[? _] _].
  - intros c x c' Hi Hle' Hx. pose proof (sync_region_spec self env target current (current + 1) _ Hi eq_refl c eq_refl) as Hm.
    rewrite Hx in Hm. destruct Hm as [_ Hm]. cbn. intros Hok. apply Hm; [done|lia].
Qed.

Lemma sync_loop_safe target fuel : forall lo,
  0 <= lo -> (1 <= fuel)%nat -> target + 2 <= Z.of_nat fuel + lo -> safe (sync_loop self fuel target) (fun _ _ => True) lo.
Proof.
  induction fuel as [|fuel IH]; intros lo Hlo Hf Hle; [lia|]. cbn [sync_loop]. apply safe_bind. cbn [safe atomic].
  split; [apply keeps_steady; auto with steady|]. intros c x c' Hi Hc [= <- <-]. cbn [safe].
  destruct (Z.ltb_spec target (epoch c)); [exact I|]. destruct (Z.eqb_spec target (epoch c)); [exact I|].
  apply safe_bind. eapply safe_mono; [reflexivity| |apply sync_page_safe; lia].
  cbn beta. intros [u|e] l l' Hl Hp; [|exact I]. specialize (Hp eq_refl). apply IH; lia.
Qed.
Lemma secure_sync target : secure (sync_revocations self target).
Proof. intros lo Hlo. apply sync_loop_safe; lia. Qed.

Lemma secure_resolve error : secure (resolve_validation_stage_error self error).
Proof.
  destruct error; try apply secure_ret; cbn [resolve_validation_stage_error].
  - apply secure_bind; [apply secure_steady; auto with steady|]. intros _. apply secure_bind; [|intros; apply secure_ret].
    apply secure_action. eapply meets_keeps, apply_transient_spec.
  - apply secure_bind; [apply secure_atomic, keeps_close|]. intros _. apply secure_ret.
Qed.
Lemma secure_resolved {A} (p : Prog (result A ValidationError)) : secure p -> secure (resolved self p).
Proof.
  intros Hp. apply secure_bind; [done|]. intros [a|e]; [apply secure_ret|].
  apply secure_bind; [apply secure_resolve|]. intros e'. apply secure_ret.
Qed.
Lemma secure_stage {A} (p : Prog (result A ValidationError)) b : secure p -> secure (activate_stage self p b).
Proof.
  intros Hp. apply secure_bind; [done|]. intros [a|e]; [apply secure_ret|]. destruct e; try apply secure_ret.
  - apply secure_bind; [|intros _; apply secure_ret]. destruct b; [apply secure_steady; auto with steady|apply secure_ret].
  - apply secure_close.
Qed.
Lemma secure_time {A} (q : Z -> Prog A) : (forall t, secure (q t)) -> secure (pbind (atomic now) q).
Proof. intros Hq. apply secure_bind; [apply secure_steady; auto with steady|done]. Qed.
Lemma secure_nonce {E A} (local : LocalError -> E) n (q : list byte -> Prog (result A E)) :
  (forall b, secure (q b)) -> secure (pbind_ok (act (M.map_err local (platform (random_array n)))) q).
Proof. intros Hq. apply secure_try; [apply secure_action, keeps_steady; auto with steady|done]. Qed.
Lemma secure_after {A} (m : M Client Empty_set unit) (x : A) : steady m -> secure (pbind (atomic m) (fun _ => Ret x)).
Proof. intros Hm. apply secure_bind; [by apply secure_steady|]. intros _. apply secure_ret. Qed.

(** A region that meets its contract, as an action. *)
Lemma secure_region {E A} `{Severe E} f k (m : M Client E A) : meets self f k m -> secure (act m).
Proof. intros Hm. by eapply secure_action, meets_keeps. Qed.

Lemma secure_activate credential : secure (activate_credential self credential).
Proof.
  unfold activate_credential. apply secure_try; [apply secure_map_err, secure_device_keys|intros _].
  apply secure_nonce. intros nonce. apply secure_try; [eapply secure_region, activation_request_spec|]. intros [body key].
  apply secure_bind; [apply secure_post|]. intros [response|error].
  2: { apply secure_bind; [|intros; apply secure_ret]. unfold resolve_activate_transport.
       destruct error; try apply secure_ret; (apply secure_bind; [apply secure_atomic, keeps_close|intros; apply secure_ret]). }
  destruct (activation_response response) as [bytes|[e|e|e]]; [|apply secure_ret|apply secure_ret|apply secure_close].
  apply secure_try; [apply secure_stage, secure_keyset|]. intros keyset.
  apply secure_try; [eapply secure_stage, secure_region, install_keyset_spec|]. intros _.
  apply secure_try; [apply secure_stage, secure_sync|]. intros _. apply secure_time. intros t.
  apply secure_try; [eapply secure_region, activation_spec|]. intros [start deadline]. apply secure_after; auto with steady.
Qed.

Lemma secure_validate : secure (validate_ self).
Proof.
  unfold validate_. apply secure_try; [apply secure_action, keeps_steady, steady_acquire|intros _].
  apply secure_bind; [|intros r; apply secure_after, steady_in_flight].
  unfold validate_body. apply secure_nonce. intros nonce. apply secure_try; [eapply secure_region, validate_request_spec|].
  intros body. apply secure_bind; [apply secure_steady; auto with steady|]. intros _.
  apply secure_try; [apply secure_resolved, secure_map_err, secure_post|]. intros response.
  destruct (validation_response response) as [bytes|[e|e]]; [| |apply secure_close].
  2: { apply secure_bind; [apply secure_steady; auto with steady|]. intros _.
       apply secure_try; [eapply secure_region, apply_transient_spec|]. intros _. apply secure_ret. }
  destruct (TrustAnchors.fatal _) as [envelope|e]; [|apply secure_close].
  apply secure_try; [apply secure_action, keeps_steady; unfold needs_epoch_refresh; auto 10 with steady|]. intros needs.
  apply secure_try.
  { destruct needs; [|apply secure_ret]. apply secure_try; [apply secure_resolved, secure_keyset|]. intros keyset.
    apply secure_try; [eapply secure_resolved, secure_region, install_keyset_spec|]. intros _. apply secure_resolved, secure_sync. }
  intros _. unfold apply_envelope. apply secure_time. intros t. destruct (Envelope.kind envelope); try apply secure_close.
  - apply secure_try; [eapply secure_region, preview_spec|]. intros preview.
    apply secure_try; [apply secure_resolved, secure_sync|]. intros _.
    apply secure_try; [eapply secure_region, ticket_region_spec|]. intros ticket. apply secure_after; auto with steady.
  - eapply secure_region, kill_spec.
Qed.

Lemma secure_deactivate : secure (deactivate self).
Proof.
  unfold deactivate. apply secure_try.
  { apply secure_action. intros r Hr. eapply wpr_mono; [by apply deactivate_olk_spec|]. by intros x r' [[? _] _]. }
  intros [|]; [apply secure_after; auto with steady|]. unfold release_seat. apply secure_nonce. intros nonce.
  apply secure_try; [eapply secure_region, deactivate_request_spec|]. intros [body key].
  apply secure_bind; [apply secure_post|]. intros [response|error].
  2: { apply secure_bind; [|intros; apply secure_ret]. unfold resolve_deactivate_transport.
       destruct error; try apply secure_ret; (apply secure_bind; [apply secure_atomic, keeps_close|intros; apply secure_ret]). }
  destruct (transient_status response); [apply secure_ret|]. destruct (deactivation_ack response); [|apply secure_close].
  apply secure_try; [by eapply secure_region, user_deactivate_meets|]. intros _. apply secure_after; auto with steady.
Qed.

Lemma secure_wanted (b : bool) : secure (if b then request_validation else Ret tt).
Proof. destruct b; [|apply secure_ret]. apply secure_atomic, flag_keeps. by intros c. Qed.
Lemma secure_feature_key feature : secure (feature_key feature).
Proof.
  apply secure_time. intros t. apply secure_try; [apply secure_action, feature_key_keeps|]. intros [wanted key].
  apply secure_bind; [apply secure_wanted|]. intros _. apply secure_ret.
Qed.

Lemma secure_call x : secure (call x).
Proof.
  destruct x; cbn [call]; unfold forget;
    try (apply secure_bind; [|intros; apply secure_ret]).
  - apply secure_activate.
  - apply secure_activate.
  - unfold build_offline_request. apply secure_try; [apply secure_map_err, secure_device_keys|intros _].
    apply secure_nonce. intros nonce. apply secure_time. intros t. eapply secure_region, offline_request_spec.
  - unfold import_offline_response. destruct (_ <-? _ ;; _) as [[envelope unverified]|e]; [|apply secure_close].
    apply secure_time. intros t. apply secure_try; [eapply secure_region, offline_response_spec|].
    intros [start deadline]. apply secure_after; auto with steady.
  - unfold import_olk. destruct (_ <-? _ ;; _) as [[bundle envelope]|e]; [|apply secure_close].
    destruct (_ || _); [apply secure_ret|]. destruct (TrustAnchors.fatal _) as [preview|e]; [|apply secure_close].
    apply secure_time. intros t. apply secure_try; [eapply secure_region, olk_region_spec|]. intros _. apply secure_after; auto with steady.
  - apply secure_validate.
  - apply secure_deactivate.
  - apply secure_feature_key.
  - unfold unseal. destruct (SealedAsset.decode sealed) as [asset|]; [|apply secure_ret]. destruct (_ || _); [apply secure_ret|].
    apply secure_time. intros t. apply secure_try; [apply secure_action, unseal_keeps|]. intros [wanted kek].
    apply secure_bind; [apply secure_wanted|]. intros _. apply secure_ret.
  - unfold challenge. destruct (FeatureChallenge.decode input); [|apply secure_ret].
    apply secure_try; [apply secure_feature_key|]. intros key. apply secure_ret.
  - apply secure_atomic, flag_keeps. by intros c.
  - unfold run_scheduler_cycle. apply secure_time. intros t.
    apply secure_bind; [apply secure_atomic, flag_keeps; by intros c|]. intros hint.
    apply secure_bind; [apply secure_atomic, flag_keeps; by intros c|]. intros requested.
    apply secure_bind; [apply secure_atomic, cycle_keeps|]. intros [has core_requested].
    apply secure_bind.
    { apply secure_atomic, flag_keeps. intros c. unfold should_attempt. by destruct (SchedulerState.should_attempt _ _ _ _ _ _). }
    intros attempt. destruct (negb attempt); [apply secure_ret|]. apply secure_bind; [apply secure_validate|]. intros; apply secure_ret.
Qed.

(** ** Every interleaving *)
Definition pool_ok (p : Pool) : Prop :=
  inv (runtime p.2) /\ Forall (fun q => safe q (fun _ _ => True) (epoch p.2)) p.1.

Lemma step_ok p p' : pool_ok p -> step p p' -> pool_ok p' /\ evolves (runtime p.2) (runtime p'.2).
Proof.
  intros [Hi Hs] Hst. destruct Hst as [ps c i E B m k x c' Hps Hm|ps c x]; cbn [fst snd] in *.
  - pose proof (Forall_lookup_1 _ _ _ _ Hs Hps) as [Hk Hsafe]. pose proof (keeps_at m c x c' Hk Hi Hm) as [Hi' Hev].
    split; [|done]. split; [done|]. cbn [fst snd]. apply Forall_insert.
    + eapply Forall_impl; [done|]. intros q Hq. eapply safe_mono; [apply Hev| |exact Hq]. done.
    + eapply (Hsafe c x c'); [done|lia|done].
  - split; [|reflexivity]. split; [done|]. cbn [fst snd]. apply Forall_app. split; [done|]. apply Forall_singleton.
    apply secure_call. apply Hi.
Qed.

Lemma run_ok p p' : pool_ok p -> rtc step p p' -> pool_ok p' /\ evolves (runtime p.2) (runtime p'.2).
Proof.
  intros Hp Hr. induction Hr as [p|p q p' Hst Hr IH]; [by split|].
  destruct (step_ok p q Hp Hst) as [Hq Hev]. destruct (IH Hq) as [Hp' Hev']. split; [done|]. by trans (runtime q.2).
Qed.

Lemma safe_run {A} (p : Prog A) Q lo c : safe p Q lo -> inv (runtime c) -> lo <= epoch c -> run p c <> Diverged.
Proof.
  revert lo c. induction p as [a|E B m k IH|]; intros lo c; cbn; [done| |done]. intros [Hk Hs] Hi Hle.
  destruct (m c) as [[x c']|] eqn:Hm; [|done]. pose proof (keeps_at m c x c' Hk Hi Hm) as [Hi' _].
  eapply IH; [by eapply (Hs c x c')|done|lia].
Qed.
End Together.
