(* ===== verification/ClientDemo.v ===== *)
(** * A client on a scripted platform

    A platform whose clock moves by a constant at each reading, whose random bytes are fives, whose store is one cell and
    whose server answers from a script, with toy primitives: the client's methods run on it by
    evaluation, so that the hypotheses of its theorems are seen to hold of a real session. *)

From S2P Require Import Prelude Types Clock Errors StateMachine Ticket Device Cbor Field Artifacts Chain.
From S2P Require Import Requests Messages Armor Suite StdSuite Seal Keys StoreRecord Host Snapshot.
From S2P Require Import Scheduler ClientWire Client.

Module Script.
Record World := mk {
  clock : Z; drift : Z; disk : option (list byte); replies : list (result TransportResponse TransportError) }.

#[global] Instance platform_ : Platform := {|
  PW := World;
  unix_seconds w := (clock w, mk (clock w + drift w) (drift w) (disk w) (replies w));
  random_fill n w := (Some (repeat 5 n), w);
  send _ w := match replies w with
    | r :: rest => (r, mk (clock w) (drift w) (disk w) rest)
    | [] => (Err TransportError.Offline, w)
    end;
  store_load w := (Ok (disk w), w);
  store_save b w := (Ok tt, mk (clock w) (drift w) (Some b) (replies w));
  store_wipe w := (Ok tt, mk (clock w) (drift w) None (replies w));
  tokio_runtime _ := true |}.

#[global] Instance kem : KeyEncapsulation := {|
  DecapKey := list byte; EncapKey := list byte;
  keygen R rng := let '(b, rng) := fill_bytes 32 rng in (b, b, rng);
  encap_key dk := dk; decap dk _ := Ok dk; encode_ek ek := ek; encode_dk dk := dk;
  decode_dk b := if (length b =? 32)%nat then Ok b else Err CryptoError.BadLength |}.
End Script.

Module Demo1.
#[local] Existing Instances DemoPrim.prims Demo.suite demo_scheme demo_hash DemoConfig.parser.

Definition config_ : result Config ConfigError :=
  new "https://license.example/" "com.example.app" "acme" DemoConfig.info [42] (repeat 2 32) (repeat 4 32) DemoConfig.env.
Definition device : Fingerprint := [1; 2; 3].

(** The server's keys: a root, an epoch and its fast key. *)
Definition fast_seed : list byte := repeat 9 32.
Definition epoch_id : EpochId := [1; 2; 3; 4; 5; 6; 7; 8].
Definition suite_id : list byte := [1; 0; 0; 1].
Definition cert : EpochCert :=
  EpochCert.mk 1 suite_id epoch_id [7] (ed_vk_bytes (ed_verifying_key fast_seed)) 100 100000 (Some "acme"%string) (hash [42]).

Definition bytes_of (e : result Envelope ProtoError) : list byte :=
  match e with Ok e => Envelope.encode e | Err _ => [] end.
Definition sealed {A} `{Artifact A} (a : A) : list byte := bytes_of (Envelope.seal a suite_id "acme" (Some epoch_id) [7]).
Definition sealed_fast {A} `{Artifact A} (a : A) : list byte :=
  bytes_of (Envelope.seal (S := FastSig.FastSig) a suite_id "acme" (Some epoch_id) fast_seed).
Definition root_signed : list byte := bytes_of (Envelope.seal cert suite_id "acme" None [42]).
Definition keyset (epoch : Z) : list byte := KeysetCodec.encode (Keyset.mk 1 [root_signed] epoch).

Definition answer (body : list byte) : result TransportResponse TransportError :=
  Ok (TransportResponse.mk 200 (Some "application/cbor; charset=binary"%string) (Some "1"%string) None body).

(** The credential, sealed to the device's key. *)
Definition entitlements_ : Entitlements := Entitlements.mk {["export.pdf"%string]} ∅ "pro" "Pro" 1 None None.
Definition credential_ (sealed_cs : list byte) : MachineCredential :=
  MachineCredential.mk 1 suite_id "acme" (repeat 3 16) (repeat 4 16) device [9] sealed_cs (repeat 6 32) entitlements_
    1000 0 5000 86400 Mode.OfflineHybrid 0 epoch_id (Some "fp"%string) None 3 1 ∅ None.
Definition sealed_secret : list byte :=
  match (seal_credential_secret (repeat 5 32) (seal_context (credential_ [])) (repeat 8 32) 0).1 with Ok b => b | Err _ => [] end.
Definition credential_envelope : list byte := sealed (credential_ sealed_secret).

Definition ticket (epoch : Z) : list byte :=
  sealed_fast (ValidationTicket.mk 1 suite_id (repeat 4 16) (repeat 5 32) (repeat 1 32) 2000 6000 0 epoch Verdict.Accepted
    None epoch_id None 3 None None None).
Definition batch (epoch : Z) (licenses : list LicenseId) : list byte :=
  sealed (RevocationBatch.mk 1 suite_id epoch epoch 2000 licenses [] [] None).

Definition world0 (replies : list (result TransportResponse TransportError)) : Script.World := Script.mk 2000 0 None replies.

(** A fresh client, and one run of a method. *)
Definition started (w : Script.World) : option (result (Inner * Client) ClientInitError) :=
  match config_ with
  | Ok c => option_map fst (construct c device (DeviceAttrs.mk ∅) w)
  | Err _ => None
  end.
End Demo1.
