(* ===== verification/ClientTheorems.v ===== *)
(** * What a client guarantees

    The theorems about [client.rs], of every client that a constructor returned and that any
    interleaving of calls has brought to its state: the invariant and the marks, termination, what
    errors leave behind, which keys are released, and that a success is durable.  Then the
    departures, on the scripted platform of [ClientDemo]. *)

From S2P Require Import Prelude Types Clock Errors StateMachine Ticket Device Cbor Field Artifacts Chain.
From S2P Require Import Requests Messages Armor Suite StdSuite Seal Keys StoreRecord Host Snapshot.
From S2P Require Import Scheduler ClientWire Client ClientRuns ClientSpec ClientDemo.
#[local] Open Scope client_scope.
Import Runtime.

(** A client in use: constructed on some platform, then driven by any interleaving of calls, some
    of which may still be pending. *)
Definition reachable `{Prim : Primitives} `{CS : CryptoSuite} `{SS : SignatureScheme} `{HS : HashScheme}
    `{K : KeyEncapsulation} `{U : UrlParser} `{P : Platform} (self : Inner) (c0 : Client) (p : Pool) : Prop :=
  (exists config fingerprint attributes w w', construct config fingerprint attributes w = Some (Ok (self, c0), w')) /\
  rtc (step self) ([], c0) p.

Section Guarantees.
Context `{Prim : Primitives} `{CS : CryptoSuite} `{SS : SignatureScheme} `{HS : HashScheme}
  `{K : KeyEncapsulation} `{U : UrlParser} `{P : Platform} (self : Inner).

Lemma reachable_ok c0 p : reachable self c0 p -> pool_ok self p /\ evolves (runtime c0) (runtime p.2).
Proof.
  intros [(cfg & f & a & w & w' & Hc%construct_inv) Hr]. apply (run_ok self ([], c0) p); [|done].
  by split; [|apply Forall_nil].
Qed.
Lemma reachable_inv c0 ps c : reachable self c0 (ps, c) -> inv self (runtime c).
Proof. by intros [[Hi _] _]%reachable_ok. Qed.

Lemma obeys_run {E A} `{Severe E} f k (p : Prog (result A E)) c x c' :
  obeys self f k p -> inv self (runtime c) -> run p c = Done x c' -> spec self f k (runtime c) x (runtime c').
Proof. intros Hp Hi Hx. specialize (Hp _ Hi c eq_refl). by rewrite Hx in Hp. Qed.

Lemma obeys_fatal {E A} `{Severe E} f k (p : Prog (result A E)) c e c' :
  obeys self f k p -> inv self (runtime c) -> run p c = Done (Err e) c' -> severity e = SFatal ->
  claims f (runtime c) (runtime c').
Proof. intros Hp Hi Hx He. destruct (obeys_run _ _ _ _ _ _ Hp Hi Hx) as [_ Hs]. by rewrite He in Hs. Qed.
Lemma obeys_benign {E A} `{Severe E} f k (p : Prog (result A E)) c e c' :
  obeys self f k p -> inv self (runtime c) -> run p c = Done (Err e) c' -> severity e = SBenign ->
  kept (runtime c) (runtime c').
Proof. intros Hp Hi Hx He. destruct (obeys_run _ _ _ _ _ _ Hp Hi Hx) as [_ Hs]. by rewrite He in Hs. Qed.

(** C12 Whatever the calls in flight and however their lock regions interleave, a constructed
    client's runtime satisfies its invariant - key material exists exactly while one credential is
    held, is bound to it and to the product, is signed by an epoch not known to be revoked, and the
    trust chain agrees with the snapshot - and the security floor, the revocation epoch and the
    highest time seen never go down. *)
Theorem interleavings_keep_invariant (c0 c : Client) (ps : list (Prog unit))
    (Hr : reachable self c0 (ps, c)) :
  inv self (runtime c) /\ evolves (runtime c0) (runtime c).
Proof. destruct (reachable_ok _ _ Hr) as [[Hi _] He]. by split. Qed.

(** C17 No call of a client loops for ever: in every reachable state every pending call, run from
    there, returns or aborts, although other calls may have moved the revocation epoch its loop
    looks at in between. *)
Theorem pending_calls_terminate (c0 c : Client) (ps : list (Prog unit)) (i : nat) (p : Prog unit)
    (Hr : reachable self c0 (ps, c)) (Hp : ps !! i = Some p) : run p c <> Diverged.
Proof.
  destruct (reachable_ok _ _ Hr) as [[Hi Hs] _]. pose proof (Forall_lookup_1 _ _ _ _ Hs Hp) as Hsafe.
  eapply safe_run; [exact Hsafe|done|done].
Qed.

(** C13 Failing closed.  A fatal error of an activation, an import or a deactivation leaves nothing
    behind: no credential, no key material, no entitlements, no wrapped keys, no trust chain and no
    snapshot.  A fatal error of a validation leaves nothing, or exactly what was held before (as
    [validation_error_without_wipe] shows it may). *)
Theorem fatal_errors_wipe (c0 c : Client) (ps : list (Prog unit)) (Hr : reachable self c0 (ps, c)) :
  (forall credential e c', run (activate_credential self credential) c = Done (Err (ActivateError.Fatal e)) c' ->
     gone (runtime c')) /\
  (forall bytes e c', run (import_offline_response self bytes) c = Done (Err (OfflineError.Fatal e)) c' ->
     gone (runtime c')) /\
  (forall bytes e c', run (import_olk self bytes) c = Done (Err (OfflineError.Fatal e)) c' -> gone (runtime c')) /\
  (forall e c', run (deactivate self) c = Done (Err (DeactivateError.Fatal e)) c' -> gone (runtime c')) /\
  (forall e c', run (validate_ self) c = Done (Err (ValidationError.Fatal e)) c' ->
     gone (runtime c') \/ kept (runtime c) (runtime c')).
Proof.
  apply reachable_inv in Hr as Hi. split_and!.
  - intros x e c' H. by apply (obeys_fatal _ _ _ c _ c' (activate_obeys self x) Hi H).
  - intros x e c' H. by apply (obeys_fatal _ _ _ c _ c' (offline_response_obeys self x) Hi H).
  - intros x e c' H. by apply (obeys_fatal _ _ _ c _ c' (import_olk_obeys self x) Hi H).
  - intros e c' H. by apply (obeys_fatal _ _ _ c _ c' (deactivate_obeys self) Hi H).
  - intros e c' H. by apply (obeys_fatal _ _ _ c _ c' (validate_obeys self) Hi H).
Qed.

(** A refusal or a transient failure costs nothing: after an error that is neither fatal nor
    local, what the client holds - credential, key material, entitlements and wrapped keys - is
    what it held before the call. *)
Theorem benign_errors_keep_credential (c0 c : Client) (ps : list (Prog unit)) (Hr : reachable self c0 (ps, c)) :
  (forall credential e c', run (activate_credential self credential) c = Done (Err e) c' ->
     severity e = SBenign -> kept (runtime c) (runtime c')) /\
  (forall bytes e c', run (import_offline_response self bytes) c = Done (Err e) c' ->
     severity e = SBenign -> kept (runtime c) (runtime c')) /\
  (forall bytes e c', run (import_olk self bytes) c = Done (Err e) c' ->
     severity e = SBenign -> kept (runtime c) (runtime c')) /\
  (forall e c', run (validate_ self) c = Done (Err e) c' -> severity e = SBenign -> kept (runtime c) (runtime c')) /\
  (forall e c', run (deactivate self) c = Done (Err e) c' -> severity e = SBenign -> kept (runtime c) (runtime c')).
Proof.
  apply reachable_inv in Hr as Hi. split_and!.
  - intros x e c' H. by apply (obeys_benign _ _ _ c _ c' (activate_obeys self x) Hi H).
  - intros x e c' H. by apply (obeys_benign _ _ _ c _ c' (offline_response_obeys self x) Hi H).
  - intros x e c' H. by apply (obeys_benign _ _ _ c _ c' (import_olk_obeys self x) Hi H).
  - intros e c' H. by apply (obeys_benign _ _ _ c _ c' (validate_obeys self) Hi H).
  - intros e c' H. by apply (obeys_benign _ _ _ c _ c' (deactivate_obeys self) Hi H).
Qed.

(** ** Keys *)
Lemma run_bind_done {A B} (p : Prog A) (k : A -> Prog B) c b c' :
  run (pbind p k) c = Done b c' -> exists a c1, run p c = Done a c1 /\ run (k a) c1 = Done b c'.
Proof. rewrite run_bind. destruct (run p c) as [a c1| |]; [|done..]. intros H. by exists a, c1. Qed.
Lemma run_try_done {E A B} (p : Prog (result A E)) (k : A -> Prog (result B E)) c b c' :
  run (pbind_ok p k) c = Done (Ok b) c' -> exists a c1, run p c = Done (Ok a) c1 /\ run (k a) c1 = Done (Ok b) c'.
Proof. intros ([a|e] & c1 & Hp & Hk)%run_bind_done; [|done]. by exists a, c1. Qed.
Lemma run_act_done {E A} (m : M Client E A) c x c' : run (act m) c = Done x c' -> m c = Some (x, c').
Proof. cbn. destruct (m c) as [[y c1]|]; [|done]. by intros [= -> ->]. Qed.
Lemma run_atomic_done {A} (m : M Client Empty_set A) c a c' : run (atomic m) c = Done a c' -> m c = Some (Ok a, c').
Proof. cbn. destruct (m c) as [[[y|[]] c1]|]; [|done]. by intros [= -> ->]. Qed.

(** A tick that leaves a state from which keys are released: the credential has not expired at the
    effective time, or the reading was a rollback that sent an active machine to revalidation. *)
Lemma tick_fresh m t :
  let m' := (StateMachine.handle m Event.Tick t).1 in
  LicenseState.permits_key_derivation (StateMachine.state m') = true ->
  Deadlines.hard_expired (StateMachine.deadlines m') (ClockState.effective_now (StateMachine.clock m') t) = false \/
  ((ClockState.check (StateMachine.clock m) t).2 <> ClockVerdict.Ok /\
   StateMachine.state m = LicenseState.Active /\ StateMachine.state m' = LicenseState.NeedsRevalidation).
Proof.
  destruct m as [st ck dl cf la hc]. cbv zeta. unfold_table. simpl.
  destruct (ClockState.check ck t) as [c v] eqn:Ec. destruct st; simpl in *; repeat (case_match; simpl in *; simplify_eq);
    try done; auto 10;
    match goal with H : Deadlines.grace_exhausted _ _ = false |- _ => apply orb_false_iff in H as [_ ?] end; by left.
Qed.

Lemma material_held r m : inv self r -> material r = Some m -> activated r = true.
Proof.
  intros [Hh _ _ _ _] Hm. unfold held, activated in *. destruct (credential r), (olk r); try done.
  destruct Hh as (_ & _ & H & _). congruence.
Qed.

Lemma tick_outcome t c effects c' :
  inv self (runtime c) -> tick_region t c = Some (Ok effects, c') ->
  runtime c' = set_state (runtime c) (StateMachine.handle (state (runtime c)) Event.Tick t).1.
Proof. intros Hi H. pose proof (tick_spec self t _ Hi c eq_refl) as Hs. by rewrite H in Hs. Qed.

(** C14 Keys are released on three conditions.  When [feature_key] returns a key, a credential or an
    offline licence is held, the state machine - after the tick at the time the call read - is in
    a state that permits derivation, and the entitlements carry the feature; the credential has
    not reached its hard expiry at the effective time, unless that very reading was a clock
    rollback that moved an active machine to revalidation. *)
Theorem feature_keys_need_credential (c0 c c' : Client) (ps : list (Prog unit)) (feature : string) (key : list byte)
    (Hr : reachable self c0 (ps, c)) (Hk : run (feature_key feature) c = Done (Ok key) c') :
  let t := (unix_seconds (world c)).1 in
  let r := runtime c' in
  r = set_state (runtime c) (StateMachine.handle (state (runtime c)) Event.Tick t).1 /\
  activated r = true /\
  LicenseState.permits_key_derivation (StateMachine.state (state r)) = true /\
  Entitlements.has_feature (entitlements r) feature = true /\
  (Deadlines.hard_expired (StateMachine.deadlines (state r)) (ClockState.effective_now (StateMachine.clock (state r)) t) = false \/
   (ClockState.check (StateMachine.clock (state (runtime c))) t).2 <> ClockVerdict.Ok /\
   StateMachine.state (state (runtime c)) = LicenseState.Active).
Proof.
  apply reachable_inv in Hr as Hi. unfold feature_key in Hk.
  apply run_bind_done in Hk as (t & c1 & Ht%run_atomic_done & Hk). unfold now, platform, now_ in Ht.
  destruct (unix_seconds (world c)) as [t' w] eqn:Et. injection Ht as -> <-. cbn [fst].
  apply run_try_done in Hk as ([wanted k] & c2 & Hf%run_act_done & Hk).
  apply run_bind_done in Hk as (u & c3 & Hw & [= -> <-]).
  unfold feature_key_region in Hf. apply mbind_some in Hf as (effects & c4 & Htick & Hf).
  apply tick_outcome in Htick; [|done]. cbn [runtime] in Htick.
  apply mbind_some in Hf as (r & c5 & [= <- <-] & Hf).
  apply mbind_some in Hf as (m & c6 & [Hm ->]%mlift_some & [= _ Hkey <-]).
  assert (runtime c3 = runtime c4) as -> by (destruct wanted; by injection Hw as _ <-).
  destruct (material (runtime c4)) as [m'|] eqn:Em; [|done]. injection Hm as ->.
  assert (inv self (runtime c4)) as Hi4 by (rewrite Htick; by apply handle_good).
  unfold KeyMaterial.feature_key in Hkey.
  destruct (LicenseState.permits_key_derivation _) eqn:Hp; [|done]. destruct (Entitlements.has_feature _ _) eqn:He; [|done].
  cbv zeta. split_and!; [done|by eapply material_held|done|done|]. rewrite Htick in *. cbn [state set_state] in *.
  destruct (tick_fresh (state (runtime c)) t Hp) as [|(? & ? & _)]; auto.
Qed.

(** ** Revocation *)

(** The revocation loop does its work: [sync_revocations target] run to a success leaves the
    client at exactly the epoch it was sent for, with everything it held; and if it fails fatally,
    what it held is either gone (it was revoked) or still what it was. *)
Theorem sync_reaches_target (c0 c c' : Client) (ps : list (Prog unit)) (target : Z) (x : result unit ValidationError)
    (Hr : reachable self c0 (ps, c)) (Hx : run (sync_revocations self target) c = Done x c') :
  match x with
  | Ok _ => max_revocation_epoch (runtime c') = target /\ kept (runtime c) (runtime c')
  | Err (ValidationError.Fatal _) => gone (runtime c') \/ kept (runtime c) (runtime c')
  | Err _ => True
  end.
Proof.
  apply reachable_inv in Hr as Hi. pose proof (sync_spec self target _ Hi c eq_refl) as Hs. rewrite Hx in Hs.
  destruct Hs as [[_ Hs] Ht]. destruct x as [[]|e]; [by auto|]. by destruct e.
Qed.


(** ** Deactivation *)
(** What a success says of the runtime. *)
Definition ends {E A} (Q : Runtime -> Prop) (p : Prog (result A E)) : Prop :=
  forall r, inv self r -> pwp p (fun x r' => is_ok x = true -> Q r') r.
Lemma ends_err {E A} Q (e : E) : ends (A := A) Q (Ret (Err e)).
Proof. intros r Hr. by apply pwp_ret. Qed.
Lemma ends_try {E A B} `{Severe E} Q f k (p : Prog (result A E)) (q : A -> Prog (result B E)) :
  obeys self f k p -> (forall a, ends Q (q a)) -> ends Q (pbind_ok p q).
Proof.
  intros Hp Hq r Hr. apply pwp_bind. eapply pwp_mono; [by apply Hp|]. intros [a|e] r1 [[Hi _] _]; [by apply Hq|by apply pwp_ret].
Qed.
Lemma ends_bind {E A B} Q (p : Prog A) (q : A -> Prog (result B E)) :
  quiet p -> (forall a, ends Q (q a)) -> ends Q (pbind p q).
Proof. intros Hp Hq r Hr. apply pwp_bind. eapply pwp_mono; [by apply Hp|]. intros a r1 ->. by apply Hq. Qed.
(** The region that does the work, followed by bookkeeping. *)
Lemma ends_region {E A B} (Q : Runtime -> Prop) (m : M Client E A) (q : A -> Prog (result B E)) :
  (forall r, inv self r -> wpr m (fun x r' => is_ok x = true -> Q r') r) -> (forall a, quiet (q a)) ->
  ends Q (pbind_ok (act m) q).
Proof.
  intros Hm Hq r Hr. apply pwp_bind, pwp_act. eapply wpr_mono; [by apply Hm|]. intros [a|e] r1 Hx; do 1 apply pwp_ret.
  - eapply pwp_mono; [apply Hq|]. intros x r2 -> _. by apply Hx.
  - by apply pwp_ret.
Qed.
Lemma ends_run {E A} Q (p : Prog (result A E)) c a c' :
  ends Q p -> inv self (runtime c) -> run p c = Done (Ok a) c' -> Q (runtime c').
Proof. intros Hp Hi Hx. specialize (Hp _ Hi c eq_refl). rewrite Hx in Hp. by apply Hp. Qed.

Lemma quiet_after {A} (m : M Client Empty_set unit) (a : A) : steady m -> quiet (pbind (atomic m) (fun _ => Ret a)).
Proof. intros Hm. apply quiet_bind; [by apply quiet_atomic|]. intros _. apply quiet_ret. Qed.
#[local] Hint Resolve steady_persist steady_sample steady_success steady_failure : steady.

Lemma user_deactivate_ends {E} (f : LocalError -> E) r :
  inv self r -> wpr (M.map_err f user_deactivate_locked) (fun _ r' => gone r') r.
Proof.
  intros Hr. wstep. eapply wpr_mono; [by apply (user_deactivate_spec self), (inv_wipeable self)|]. by intros x r' [? _].
Qed.

Lemma release_seat_ends : ends gone (release_seat self).
Proof.
  unfold release_seat. eapply (ends_try _ Wipes true); [apply obeys_act; intros r Hr; do 2 wstep|intros nonce].
  { destruct x; cbn [map_err]; [by apply spec_ok|by apply spec_err]. }
  eapply ends_try; [apply obeys_act, deactivate_request_spec|]. intros [body key].
  apply ends_bind; [apply quiet_post|]. intros [response|error].
  2: { intros r Hr c Hc. pose proof (resolve_deactivate_obeys self (A := unit) true error r Hr c Hc) as H. revert H.
       rewrite !run_bind. by destruct (run (resolve_deactivate_transport error) c). }
  destruct (transient_status response); [apply ends_err|]. destruct (deactivation_ack response).
  - apply ends_region; [|intros _; apply quiet_after; auto with steady]. intros r Hr.
    eapply wpr_mono; [by apply user_deactivate_ends|done].
  - intros r Hr. eapply pwp_mono; [by apply (close_pwp self)|]. by intros x r' (-> & _).
Qed.

Lemma deactivate_ends : ends gone (deactivate self).
Proof.
  intros r Hr. unfold deactivate. apply pwp_bind, pwp_act. unfold deactivate_olk_region. do 2 wstep.
  destruct (negb (is_none (olk r))).
  - wstep. eapply wpr_mono; [by apply user_deactivate_ends|]. intros [[]|e] r' Hg; [wstep|]; apply pwp_ret; [|by apply pwp_ret].
    eapply pwp_mono; [apply quiet_after; auto with steady|]. by intros x r2 ->.
  - destruct (is_none (credential r)); wstep; apply pwp_ret; [by apply pwp_ret|]. by apply release_seat_ends.
Qed.

(** After a successful deactivation nothing is held: no credential, offline licence, key
    material, entitlements, wrapped keys, trust chain or snapshot. *)
Theorem deactivation_wipes (c0 c c' : Client) (ps : list (Prog unit))
    (Hr : reachable self c0 (ps, c)) (Hx : run (deactivate self) c = Done (Ok tt) c') : gone (runtime c').
Proof. apply reachable_inv in Hr. by eapply (ends_run gone); [apply deactivate_ends|..]. Qed.
End Guarantees.

(** ** Durability *)

(** What the client may assume of a key store: a save that reports success has replaced the
    content, and reading the clock or drawing random bytes does not touch it. *)
Class StoreLaws `{P : Platform} := {
  saved : PW -> option (list byte);
  save_replaces b w w' : store_save b w = (Ok tt, w') -> saved w' = Some b;
  clock_spares_store w : saved (unix_seconds w).2 = saved w;
  random_spares_store n w : saved (random_fill n w).2 = saved w;
}.

Section Durable.
Context `{Prim : Primitives} `{CS : CryptoSuite} `{SS : SignatureScheme} `{HS : HashScheme}
  `{K : KeyEncapsulation} `{U : UrlParser} `{P : Platform} `{SL : !StoreLaws} (self : Inner).

(** The bytes are the record of this runtime: its snapshot, its clock and its marks. *)
Definition record_of (r : Runtime) (bytes : list byte) : Prop :=
  exists s payload, snapshot r = Some s /\ ClientSnapshot.encode s = Ok payload /\
    let clock := StateMachine.clock (state r) in
    StoreRecord.encode (StoreRecord.new payload
      (MonotonicState.mk (ClockState.last_seen_max clock) (ClockState.last_server_time clock)
         (ClockState.rollback_events clock) (max_security_floor r) (max_revocation_epoch r))) = Ok bytes.

Definition durable (c : Client) : Prop := exists bytes, saved (world c) = Some bytes /\ record_of (runtime c) bytes.

Definition lasts {E A} (m : M Client E A) : Prop := forall c a c', m c = Some (Ok a, c') -> durable c'.
(** Actions that leave the runtime and the store alone. *)
Definition spares {E A} (m : M Client E A) : Prop := forall c x c',
  m c = Some (x, c') -> runtime c' = runtime c /\ saved (world c') = saved (world c).

Lemma durable_spared {E A} (m : M Client E A) c x c' : spares m -> m c = Some (x, c') -> durable c -> durable c'.
Proof. intros Hm Hx. unfold durable. by destruct (Hm c x c' Hx) as [-> ->]. Qed.
Lemma lasts_bind {E A B} (m : M Client E A) (k : A -> M Client E B) : (forall a, lasts (k a)) -> lasts (M.bind m k).
Proof. intros Hk c b c' (a & c1 & _ & H)%mbind_some. by eapply Hk. Qed.
Lemma lasts_then {E A B} (m : M Client E A) (k : A -> M Client E B) :
  lasts m -> (forall a, spares (k a)) -> lasts (M.bind m k).
Proof. intros Hm Hk c b c' (a & c1 & H1 & H2)%mbind_some. eapply durable_spared; [apply Hk|exact H2|]. by eapply Hm. Qed.
Lemma lasts_fail {E A} (e : E) : lasts (A := A) (M.fail e).
Proof. by intros c a c'. Qed.
Lemma lasts_close {E A} error (as_ : FatalError -> E) : lasts (close_and_fail (A := A) error as_).
Proof. apply lasts_bind. intros _. apply lasts_fail. Qed.
Lemma lasts_map_err {E F A} (f : E -> F) (m : M Client E A) : lasts m -> lasts (M.map_err f m).
Proof. intros Hm c a c'. unfold M.map_err. destruct (m c) as [[[x|e] c1]|] eqn:H; [|done..]. intros [= -> ->]. by eapply Hm. Qed.

Lemma lasts_persist : lasts persist_locked.
Proof.
  intros c [] c'. unfold persist_locked. intros (r & c1 & [= <- <-] & H)%mbind_some.
  apply mbind_some in H as (s & c2 & [Hs ->]%mlift_some & H). apply mbind_some in H as (payload & c3 & [Hp%map_err_ok' ->]%mlift_some & H).
  apply mbind_some in H as (bytes & c4 & [Hb%map_err_ok' ->]%mlift_some & H). unfold platform, store in H.
  destruct (store_save bytes (world c)) as [[[]|e] w] eqn:Hw; [|done]. injection H as <-.
  exists bytes. cbn. split; [by eapply save_replaces|]. exists s, payload. split_and!; [|done|done].
  by destruct (snapshot (runtime c)); [injection Hs as ->|].
Qed.

Lemma spares_ret {E A} (a : A) : spares (E := E) (M.ret a).
Proof. by intros c x c' [= <- <-]. Qed.
Lemma spares_emit {E} effects : spares (E := E) (emit_effects effects).
Proof. by intros c x c' [= <- <-]. Qed.
Lemma spares_scheduler {E} f : spares (E := E) (modify_scheduler f).
Proof. by intros c x c' [= <- <-]. Qed.
Lemma spares_in_flight {E} b : spares (set_in_flight b (E := E)).
Proof. by intros c x c' [= <- <-]. Qed.
Lemma spares_then {E A B} (m : M Client E A) (k : A -> M Client E B) :
  spares m -> (forall a, spares (k a)) -> spares (M.bind m k).
Proof.
  intros Hm Hk c x c'. unfold M.bind. destruct (m c) as [[[a|e] c1]|] eqn:H1; [|intros [= <- <-]; by eapply Hm|done].
  intros H2. destruct (Hm _ _ _ H1) as [<- <-]. by eapply Hk.
Qed.
Lemma spares_sample {E} : spares (E := E) scheduler_random_sample.
Proof.
  apply spares_then; [|intros; apply spares_ret]. intros c x c'. unfold M.attempt, platform, random_array.
  pose proof (random_spares_store 8 (world c)) as Hr. destruct (random_fill 8 (world c)) as [o w]. by intros [= <- <-].
Qed.
Lemma spares_success {E} t a b : spares (E := E) (record_scheduler_success t a b).
Proof. apply spares_then; [apply spares_sample|]. intros s. apply spares_scheduler. Qed.

(** Persisting, emitting the effects and returning. *)
Lemma lasts_persist_emit {E A} (f : LocalError -> E) effects (k : M Client E A) :
  spares k -> lasts (seq! M.map_err f persist_locked ;; seq! emit_effects effects ;; k).
Proof.
  intros Hk. apply lasts_then; [apply lasts_map_err, lasts_persist|]. intros _. apply spares_then; [apply spares_emit|by intros _].
Qed.

Lemma activation_lasts bytes target t : lasts (activation_region self bytes target t).
Proof.
  apply lasts_bind. intros r. apply lasts_bind. intros s. destruct (chain r); [|apply lasts_close].
  destruct (open_machine_credential _ _ _ _ _ _ _ _) as [[o m]|e]; [|apply lasts_close].
  cbv zeta. destruct (StateMachine.handle _ _ _). apply lasts_bind. intros _. apply lasts_persist_emit, spares_ret.
Qed.
Lemma offline_response_lasts envelope unverified t : lasts (offline_response_region self envelope unverified t).
Proof.
  apply lasts_bind. intros r. destruct (activated r); [apply lasts_fail|]. apply lasts_bind. intros s. apply lasts_bind. intros n.
  cbv zeta. destruct (verify_offline_response self r _ _ _ _) as [[[[resp o] m] ch]|e]; [|apply lasts_close].
  cbv zeta. destruct (StateMachine.handle _ _ _). apply lasts_bind. intros _. apply lasts_persist_emit, spares_ret.
Qed.
Lemma olk_lasts bundle envelope preview t : lasts (olk_region self bundle envelope preview t).
Proof.
  apply lasts_bind. intros r. destruct (activated r); [apply lasts_fail|]. cbv zeta.
  match goal with |- lasts (match ?x with _ => _ end) => destruct x as [[[[s l] m] ch]|[e|]] end; [|apply lasts_close|apply lasts_fail].
  destruct (StateMachine.handle _ _ _). apply lasts_bind. intros _.
  apply lasts_then; [apply lasts_map_err, lasts_persist|]. intros _. apply spares_emit.
Qed.
Lemma ticket_lasts envelope bytes nonce t : lasts (ticket_region self envelope bytes nonce t).
Proof.
  apply lasts_bind. intros r. apply lasts_bind. intros o.
  match goal with |- lasts (match ?x with _ => _ end) => destruct x as [[ticket e]|e] end; [|apply lasts_close].
  destruct (check_ticket _ _ _ _) as [[ck [x|e']]|]; [|apply lasts_close|by intros c a c'].
  cbv zeta. do 2 (apply lasts_bind; intros _). apply lasts_bind. intros r2. cbv zeta. destruct (StateMachine.handle _ _ _).
  apply lasts_bind. intros _. apply lasts_bind. intros snap. apply lasts_bind. intros _. apply lasts_persist_emit, spares_ret.
Qed.

(** Programs whose success is durable. *)
Definition endures {E A} (p : Prog (result A E)) : Prop := forall c a c', run p c = Done (Ok a) c' -> durable c'.
Lemma endures_bind {E A B} (p : Prog A) (q : A -> Prog (result B E)) : (forall a, endures (q a)) -> endures (pbind p q).
Proof. intros Hq c b c' (a & c1 & _ & H)%run_bind_done. by eapply Hq. Qed.
Lemma endures_try {E A B} (p : Prog (result A E)) (q : A -> Prog (result B E)) : (forall a, endures (q a)) -> endures (pbind_ok p q).
Proof. intros Hq c b c' (a & c1 & _ & H)%run_try_done. by eapply Hq. Qed.
Lemma endures_err {E A} (e : E) : endures (A := A) (Ret (Err e)).
Proof. by intros c a c'. Qed.
Lemma endures_close {E A} error (as_ : FatalError -> E) : endures (close (A := A) error as_).
Proof. apply endures_bind. intros _. apply endures_err. Qed.
(** The bookkeeping after the region that persists. *)
Definition idles {A} (p : Prog A) : Prop := forall c x c',
  run p c = Done x c' -> runtime c' = runtime c /\ saved (world c') = saved (world c).
Lemma idles_after {A} (m : M Client Empty_set unit) (a : A) : spares m -> idles (pbind (atomic m) (fun _ => Ret a)).
Proof. intros Hm c x c' (u & c1 & H%run_atomic_done & [= <- <-])%run_bind_done. by eapply Hm. Qed.
Lemma endures_region {E A B} (m : M Client E A) (q : A -> Prog (result B E)) :
  lasts m -> (forall a, idles (q a)) -> endures (pbind_ok (act m) q).
Proof.
  intros Hm Hq c b c' (a & c1 & H1%run_act_done%Hm & H2%Hq)%run_try_done. unfold durable in *. by destruct H2 as [-> ->].
Qed.

Lemma activate_endures credential : endures (activate_credential self credential).
Proof.
  unfold activate_credential. do 2 (apply endures_try; intros ?). apply endures_try. intros [body key]. apply endures_bind.
  intros [response|error]; [|apply endures_bind; intros; apply endures_err].
  destruct (activation_response response) as [bytes|[e|e|e]]; [|apply endures_err|apply endures_err|apply endures_close].
  do 3 (apply endures_try; intros ?). apply endures_bind. intros t.
  apply endures_region; [apply activation_lasts|]. intros [start deadline]. apply idles_after, spares_success.
Qed.
Lemma offline_response_endures bytes : endures (import_offline_response self bytes).
Proof.
  unfold import_offline_response. destruct (_ <-? _ ;; _) as [[envelope unverified]|e]; [|apply endures_close].
  apply endures_bind. intros t. apply endures_region; [apply offline_response_lasts|]. intros [start deadline].
  apply idles_after, spares_success.
Qed.
Lemma olk_endures armored : endures (import_olk self armored).
Proof.
  unfold import_olk. destruct (_ <-? _ ;; _) as [[bundle envelope]|e]; [|apply endures_close].
  destruct (_ || _); [apply endures_err|]. destruct (TrustAnchors.fatal _) as [preview|e]; [|apply endures_close].
  apply endures_bind. intros t. apply endures_region; [apply olk_lasts|]. intros _. apply idles_after, spares_scheduler.
Qed.

(** A validation that returns without an error has applied a ticket, or obeyed a kill order. *)
Definition stripped (r : Runtime) : Prop :=
  credential r = None /\ olk r = None /\ material r = None /\ snapshot r = None /\ chain r = None.
Lemma revoke_strips reason r : wpr (revoke_locked reason) (fun _ r' => stripped r') r.
Proof.
  unfold revoke_locked, wipe_runtime, handle. repeat wstep. destruct (StateMachine.handle _ _ _). by repeat wstep.
Qed.
Lemma kill_strips envelope nonce t c c' : kill_region self envelope nonce t c = Some (Ok tt, c') -> stripped (runtime c').
Proof.
  intros (r & c1 & [= <- <-] & H)%mbind_some. apply mbind_some in H as (o & c2 & [_ ->]%mlift_some & H).
  destruct (verify_fast self _ _ _ _) as [order|e]; [|by apply mbind_some in H as (? & ? & _ & ?)].
  destruct (kill_error _ _ _ _); [by apply mbind_some in H as (? & ? & _ & ?)|].
  apply mbind_some in H as (u & c3 & _ & H). unfold M.map_err in H. pose proof (revoke_strips (KillOrder.reason order) _ c3 eq_refl) as Hs.
  destruct (revoke_locked _ c3) as [[y c4]|]; [|done]. by injection H as _ <-.
Qed.

Definition settles {E A} (p : Prog (result A E)) : Prop :=
  forall c a c', run p c = Done (Ok a) c' -> durable c' \/ stripped (runtime c').
Lemma settles_bind {E A B} (p : Prog A) (q : A -> Prog (result B E)) : (forall a, settles (q a)) -> settles (pbind p q).
Proof. intros Hq c b c' (a & c1 & _ & H)%run_bind_done. by eapply Hq. Qed.
Lemma settles_try {E A B} (p : Prog (result A E)) (q : A -> Prog (result B E)) : (forall a, settles (q a)) -> settles (pbind_ok p q).
Proof. intros Hq c b c' (a & c1 & _ & H)%run_try_done. by eapply Hq. Qed.
Lemma endures_settles {E A} (p : Prog (result A E)) : endures p -> settles p.
Proof. intros Hp c a c' H. left. by eapply Hp. Qed.

Lemma validate_settles : settles (validate_ self).
Proof.
  unfold validate_. apply settles_try. intros _. intros c a c' (x & c1 & Hb & H)%run_bind_done.
  apply idles_after in H as Hi; [|apply spares_in_flight]. apply run_bind_done in H as (u & c2 & _ & [= -> _]).
  assert (settles (validate_body self)) as Hs; [|specialize (Hs _ _ _ Hb); unfold durable in *; by destruct Hi as [-> ->]].
  clear. unfold validate_body. do 2 (apply settles_try; intros ?). apply settles_bind. intros _. apply settles_try. intros response.
  destruct (validation_response response) as [bytes|[e|e]]; [| |apply endures_settles, endures_close].
  2: { apply settles_bind. intros _. apply settles_try. intros _. apply endures_settles, endures_err. }
  destruct (TrustAnchors.fatal _) as [envelope|e]; [|apply endures_settles, endures_close].
  do 2 (apply settles_try; intros ?). unfold apply_envelope. apply settles_bind. intros t.
  destruct (Envelope.kind envelope); try apply endures_settles, endures_close.
  - do 2 (apply settles_try; intros ?). apply endures_settles, endures_region; [apply ticket_lasts|]. intros ticket.
    apply idles_after, spares_success.
  - intros c [] c' H%run_act_done. right. by eapply kill_strips.
Qed.

End Durable.

(** ** Sessions on the scripted platform *)

(** A call that runs alone is one of the interleavings. *)
Lemma run_reaches `{Prim : Primitives} `{CS : CryptoSuite} `{SS : SignatureScheme} `{HS : HashScheme}
    `{K : KeyEncapsulation} `{U : UrlParser} `{P : Platform} (self : Inner) (p : Prog unit) ps c c' :
  run p c = Done tt c' -> rtc (step self) (ps ++ [p], c) (ps ++ [Ret tt], c').
Proof.
  revert c. induction p as [[]|E B m k IH|]; intros c; cbn; [by intros [= <-]| |done].
  destruct (m c) as [[x c1]|] eqn:Hm; [|done]. intros H%IH. eapply rtc_l; [|exact H].
  replace (ps ++ [k x]) with (<[length ps := k x]> (ps ++ [Act m k])) by (by rewrite insert_app_r_alt, Nat.sub_diag).
  eapply step_act; [|exact Hm]. by rewrite lookup_app_r, Nat.sub_diag by done.
Qed.

Module Session.
#[local] Existing Instances DemoPrim.prims Demo.suite demo_scheme demo_hash DemoConfig.parser.
Import Demo1.

#[export] Instance script_laws : StoreLaws.
Proof. refine (Build_StoreLaws Script.platform_ Script.disk _ _ _); [by intros b w w' [= <-]|done|done]. Defined.

(** Calls one after the other, on a fresh client. *)
Fixpoint drive (self : Inner) (calls : list Call) (c : Client) : option Client :=
  match calls with
  | [] => Some c
  | x :: calls => match run (call self x) c with Done _ c => drive self calls c | _ => None end
  end.
Definition session (w : Script.World) (calls : list Call) : option (Inner * Client) :=
  match started w with
  | Some (Ok (self, c)) => option_map (pair self) (drive self calls c)
  | _ => None
  end.
(** The world of an activation, with further answers of the server. *)
Definition server (replies : list (result TransportResponse TransportError)) : Script.World :=
  world0 (answer credential_envelope :: answer (keyset 0) :: replies).
Definition active (replies : list (result TransportResponse TransportError)) : option (Inner * Client) :=
  session (server replies) [Activate "ABCD-EFGH"].
Definition holds (o : option (Inner * Client)) (f : Inner -> Client -> bool) : bool :=
  match o with Some (self, c) => f self c | None => false end.

Lemma drive_reaches self calls : forall ps c c',
  drive self calls c = Some c' -> exists ps', rtc (step self) (ps, c) (ps', c').
Proof.
  induction calls as [|x calls IH]; intros ps c c'; cbn; [intros [= ->]; by exists ps|].
  destruct (run (call self x) c) as [[] c1| |] eqn:Hr; [|done..]. intros [ps' H]%(IH (ps ++ [Ret tt])). exists ps'.
  eapply rtc_l; [apply (step_call self ps c x)|]. etrans; [by apply run_reaches|done].
Qed.
Lemma session_reachable w calls f :
  holds (session w calls) f = true -> exists self c0 c ps, reachable self c0 (ps, c) /\ f self c = true.
Proof.
  unfold session, started. destruct config_ as [cfg|] eqn:Ec; [|done].
  destruct (construct (P := Script.platform_) cfg device (DeviceAttrs.mk ∅) w) as [[[[self c0]|e] w']|] eqn:Hc; [|done..].
  cbn [option_map fst]. destruct (drive self calls c0) as [c|] eqn:Hd; [|done]. cbn. intros Hf.
  apply (drive_reaches self calls []) in Hd as [ps Hd].
  exists self, c0, c, ps. split; [|done]. split; [|done]. by exists cfg, device, (DeviceAttrs.mk ∅), w, w'.
Qed.

Definition done_with {A} (o : Outcome A) (f : A -> Client -> bool) : bool := match o with Done a c => f a c | _ => false end.
Lemma done_with_true {A} (o : Outcome A) f : done_with o f = true -> exists a c, o = Done a c /\ f a c = true.
Proof. destruct o as [a c| |]; [|done..]. intros H. by exists a, c. Qed.
End Session.

Section Witnesses.
#[local] Existing Instances DemoPrim.prims Demo.suite demo_scheme demo_hash DemoConfig.parser.
Import Demo1 Session.

Lemma interleavings_keep_invariant_witness :
  exists self c0 c, is_none (credential (runtime c)) = false /\ inv self (runtime c) /\ evolves (runtime c0) (runtime c).
Proof.
  destruct (session_reachable (server []) [Activate "ABCD-EFGH"] (fun _ c => negb (is_none (credential (runtime c))))) as (self & c0 & c & ps & Hr & Hf);
    [vm_compute; reflexivity|].
  exists self, c0, c. split; [by apply negb_true_iff|]. exact (interleavings_keep_invariant self c0 c _ Hr).
Defined.

Lemma pending_calls_terminate_witness :
  exists self c, run (call self Validate) c <> Diverged.
Proof.
  destruct (session_reachable (server []) [Activate "ABCD-EFGH"] (fun _ _ => true)) as (self & c0 & c & ps & Hr & _); [vm_compute; reflexivity|].
  exists self, c. apply (pending_calls_terminate self c0 c (ps ++ [call self Validate]) (length ps)); [|by rewrite lookup_app_r, Nat.sub_diag by done].
  destruct Hr as [Hc Hr]. split; [done|]. eapply rtc_r; [exact Hr|]. apply step_call.
Defined.

Lemma fatal_errors_wipe_witness :
  exists self c e c', credential (runtime c) <> None /\
    run (import_olk self [1; 2; 3]) c = Done (Err (OfflineError.Fatal e)) c' /\ gone (runtime c').
Proof.
  destruct (session_reachable (server []) [Activate "ABCD-EFGH"] (fun self c => negb (is_none (credential (runtime c))) &&
    done_with (run (import_olk self [1; 2; 3]) c) (fun x _ => match x with Err (OfflineError.Fatal _) => true | _ => false end)))
    as (self & c0 & c & ps & Hr & [Hc Hx]%andb_prop); [vm_compute; reflexivity|].
  apply done_with_true in Hx as (x & c' & Hx & Hf). destruct x as [|[]]; try discriminate Hf.
  exists self, c, e, c'. split_and!; [by destruct (credential (runtime c))|done|].
  exact (proj1 (proj2 (proj2 (fatal_errors_wipe self c0 c _ Hr))) [1; 2; 3] e c' Hx).
Defined.

Lemma benign_errors_keep_credential_witness :
  exists self c c', credential (runtime c) <> None /\
    run (validate_ self) c = Done (Err (ValidationError.Transient TransientError.Offline)) c' /\ kept (runtime c) (runtime c').
Proof.
  destruct (session_reachable (server []) [Activate "ABCD-EFGH"] (fun self c => negb (is_none (credential (runtime c))) && done_with (run (validate_ self) c)
    (fun x _ => match x with Err (ValidationError.Transient TransientError.Offline) => true | _ => false end)))
    as (self & c0 & c & ps & Hr & [Hc Hx]%andb_prop); [vm_compute; reflexivity|].
  apply done_with_true in Hx as (x & c' & Hx & Hf). destruct x as [|[| | | |[]| |]]; try discriminate Hf.
  exists self, c, c'. split_and!; [by destruct (credential (runtime c))|done|].
  exact (proj1 (proj2 (proj2 (proj2 (benign_errors_keep_credential self c0 c _ Hr)))) _ c' Hx eq_refl).
Defined.

Lemma feature_keys_need_credential_witness :
  exists self c c' key, run (feature_key "export.pdf") c = Done (Ok key) c' /\ inv self (runtime c) /\
    activated (runtime c') = true /\ Entitlements.has_feature (entitlements (runtime c')) "export.pdf" = true.
Proof.
  destruct (session_reachable (server []) [Activate "ABCD-EFGH"] (fun self c => done_with (run (feature_key "export.pdf") c) (fun x _ => is_ok x)))
    as (self & c0 & c & ps & Hr & (x & c' & Hx & Hf)%done_with_true); [vm_compute; reflexivity|].
  destruct x as [key|]; [|discriminate Hf]. exists self, c, c', key.
  pose proof (feature_keys_need_credential self c0 c c' _ _ key Hr Hx) as (_ & Ha & _ & He & _).
  split_and!; [done|by eapply reachable_inv|done|done].
Defined.

Lemma sync_reaches_target_witness :
  exists self c c', run (sync_revocations self 1) c = Done (Ok tt) c' /\
    max_revocation_epoch (runtime c) = 0 /\ max_revocation_epoch (runtime c') = 1 /\ kept (runtime c) (runtime c').
Proof.
  destruct (session_reachable (server [answer (batch 1 [])]) [Activate "ABCD-EFGH"] (fun self c => (max_revocation_epoch (runtime c) =? 0) &&
    done_with (run (sync_revocations self 1) c) (fun x _ => is_ok x)))
    as (self & c0 & c & ps & Hr & [H0%Z.eqb_eq (x & c' & Hx & Hf)%done_with_true]%andb_prop); [vm_compute; reflexivity|].
  destruct x as [[]|]; [|discriminate Hf]. exists self, c, c'. split_and!; [done|done|..];
    apply (sync_reaches_target self c0 c c' _ 1 (Ok tt) Hr Hx).
Defined.

Lemma deactivation_wipes_witness :
  exists self c c', credential (runtime c) <> None /\ run (deactivate self) c = Done (Ok tt) c' /\ gone (runtime c').
Proof.
  destruct (session_reachable (server [answer (CborValue.to_canonical (CborValue.Map [(CborValue.Uint 0, CborValue.Bool true)]))]) [Activate "ABCD-EFGH"]
    (fun self c => negb (is_none (credential (runtime c))) && done_with (run (deactivate self) c) (fun x _ => is_ok x)))
    as (self & c0 & c & ps & Hr & [Hc (x & c' & Hx & Hf)%done_with_true]%andb_prop); [vm_compute; reflexivity|].
  destruct x as [[]|]; [|discriminate Hf]. exists self, c, c'. split_and!; [by destruct (credential (runtime c))|done|].
  exact (deactivation_wipes self c0 c c' _ Hr Hx).
Defined.


(** The page a verified envelope carries, on this client now. *)
Definition page (self : Inner) (c : Client) (envelope : Envelope) : option RevocationBatch :=
  match chain (runtime c) with
  | Some ch => match VerifiedChain.verify_artifact RevocationBatch ch envelope (product_id (config self))
      (ClockState.effective_now (StateMachine.clock (state (runtime c))) (unix_seconds (world c)).1) with
      | Ok b => Some b | Err _ => None end
  | None => None
  end.
End Witnesses.

(** ** Departures *)
Section Departures.
Context `{Prim : Primitives} `{CS : CryptoSuite} `{SS : SignatureScheme} `{HS : HashScheme}
  `{K : KeyEncapsulation} `{U : UrlParser} `{P : Platform} (self : Inner).
#[local] Hint Resolve steady_persist : steady.

(** A restart accepts a stored machine credential only if it is as new as the persisted marks - but
    the marks move with every revocation page and every ticket, the stored credential does not. *)
Theorem restart_compares_credential_with_marks (m : StateMachine) (s : ClientSnapshot) (encoded : list byte)
    (floor epoch t : Z) (r : Runtime) (Hr : restore_machine self m s encoded floor epoch t = Some (Ok r)) :
  exists o, credential r = Some o /\ floor <= MachineCredential.security_floor o /\
    epoch <= MachineCredential.revocation_epoch o.
Proof.
  revert Hr. unfold restore_machine.
  match goal with |- context [match ?x with Ok _ => _ | Err _ => _ end] => destruct x as [[c [o k]]|e] eqn:Hx end; [|done].
  apply map_err_ok', rbind_ok in Hx as (c' & Hc & Hx). apply rbind_ok in Hx as ([o' k'] & Ho & [= -> -> ->]).
  apply open_machine_spec in Ho as (_ & _ & Hf & He). destruct (ClientSnapshot.validation_ticket s) as [tb|].
  - destruct (restore_ticket _ _ _ _ _ _ _ _) as [[[m1 ticket]|e]|]; [|done..].
    destruct (ValidationTicket.verdict ticket); intros [= <-]; by exists o.
  - intros [= <-]. by exists o.
Qed.

(** A locked machine stays locked when an activation succeeds. *)
Theorem activation_leaves_locked (bytes : list byte) (target t : Z) (c : Client) (x : Z * Z) (c' : Client)
    (Hl : StateMachine.state (state (runtime c)) = LicenseState.Locked)
    (Hx : activation_region self bytes target t c = Some (Ok x, c')) :
  StateMachine.state (state (runtime c')) = LicenseState.Locked /\ credential (runtime c') <> None /\
  StateMachine.has_credential (state (runtime c')) = StateMachine.has_credential (state (runtime c)).
Proof.
  cut (wpr (activation_region self bytes target t) (fun x r => is_ok x = true ->
    StateMachine.state (state r) = LicenseState.Locked /\ credential r <> None /\
    StateMachine.has_credential (state r) = StateMachine.has_credential (state (runtime c))) (runtime c)).
  { intros H. specialize (H c eq_refl). rewrite Hx in H. by apply H. }
  generalize dependent (runtime c). intros r Hl. clear Hx. unfold activation_region. do 4 wstep.
  destruct (snapshot r); cbn [ok_of_option]; [|done].
  assert (forall e, wpr (close_and_fail (A := Z * Z) e ActivateError.Fatal) (fun x r' => is_ok x = true ->
    StateMachine.state (state r') = LicenseState.Locked /\ credential r' <> None /\
    StateMachine.has_credential (state r') = StateMachine.has_credential (state r)) r) as Hclose.
  { intros e c1 _. unfold close_and_fail, M.bind. by destruct (fail_closed_locked e c1) as [[[[]|y] c2]|]. }
  destruct (chain r) as [ch|]; [|apply Hclose].
  match goal with |- wpr (match ?x with _ => _ end) _ _ => destruct x as [[o k]|e] end; [|apply Hclose].
  unfold StateMachine.handle, StateMachine.dispatch. cbn [StateMachine.state StateMachine.set_deadlines state set_snapshot set_floors].
  rewrite Hl. cbn [StateMachine.handle_locked]. do 5 wstep.
  destruct x0; cbn [map_err]; [|done]. by repeat wstep.
Qed.
End Departures.

Section Scripted.
#[local] Existing Instances DemoPrim.prims Demo.suite demo_scheme demo_hash DemoConfig.parser.
Import Demo1 Session.

Lemma activation_leaves_locked_witness :
  exists self bytes target t c x c', activation_region self bytes target t c = Some (Ok x, c') /\
    StateMachine.state (state (runtime c')) = LicenseState.Locked /\ credential (runtime c') <> None.
Proof.
  assert (holds (session (Script.mk 90000 (-1000) None []) (repeat (FeatureKey "export.pdf") 4)) (fun self c =>
    bool_decide (advisory_state c = LicenseState.Locked) &&
    match KeysetCodec.decode (keyset 0) with
    | Ok k => match install_keyset self k c with
        | Some (Ok _, c) => bool_decide (advisory_state c = LicenseState.Locked) &&
            match activation_region self credential_envelope 0 90000 c with Some (Ok _, _) => true | _ => false end
        | _ => false end
    | Err _ => false end) = true) as H by (vm_compute; reflexivity).
  revert H. unfold holds. destruct (session _ _) as [[self c]|]; [|discriminate].
  intros [_ H]%andb_prop. destruct (KeysetCodec.decode (keyset 0)) as [k|]; [|discriminate].
  destruct (install_keyset self k c) as [[[[]|] c1]|]; [|discriminate..]. apply andb_prop in H as [Hl%bool_decide_eq_true H].
  destruct (activation_region self credential_envelope 0 90000 c1) as [[[x|] c2]|] eqn:Hx; [|discriminate..].
  exists self, credential_envelope, 0, 90000, c1, x, c2. split; [done|].
  pose proof (activation_leaves_locked self credential_envelope 0 90000 c1 x c2 Hl Hx) as (H1 & H2 & _). done.
Defined.

Lemma restart_compares_credential_with_marks_witness :
  exists (self : Inner) r o, credential r = Some o /\ 0 <= MachineCredential.revocation_epoch o.
Proof.
  assert (holds (active []) (fun self c => match snapshot (runtime c) with
    | Some s => match restore_machine self (StateMachine.new (core (config self)) 2000) s credential_envelope 3 0 2000 with
        | Some (Ok _) => true | _ => false end
    | None => false end) = true) as H by (vm_compute; reflexivity).
  revert H. unfold holds. destruct (active []) as [[self c]|]; [|discriminate].
  destruct (snapshot (runtime c)) as [s|]; [|discriminate].
  destruct (restore_machine self (StateMachine.new (core (config self)) 2000) s credential_envelope 3 0 2000)
    as [[r|]|] eqn:Hr; [|discriminate..]. intros _.
  destruct (restart_compares_credential_with_marks self _ _ _ _ _ _ _ Hr) as (o & Ho & _ & He). by exists self, r, o.
Defined.

(** A client is activated and restarts fine; it then validates successfully and learns of a later
    revocation epoch, which concerns other licences.  The next start is refused: the credential
    on disk is of an older epoch than the mark on disk. *)
Theorem restart_locked_out :
  holds (active []) (fun _ c => match started (world c) with Some (Ok _) => true | _ => false end) = true /\
  holds (active [answer (ticket 1); answer (batch 1 [])]) (fun self c =>
    done_with (run (validate_ self) c) (fun x c => is_ok x && bool_decide (advisory_state c = LicenseState.Active) &&
      match started (world c) with
      | Some (Err (ClientInitError.Fatal FatalError.RevocationRollback)) => true
      | _ => false
      end)) = true.
Proof. split; vm_compute; reflexivity. Qed.

(** Bytes that are no offline licence at all, given to an activated client, cost it its credential;
    a well-formed licence would only have been refused as [AlreadyActivated]. *)
Theorem garbage_import_wipes :
  holds (active []) (fun self c => bool_decide (advisory_state c = LicenseState.Active) &&
    done_with (run (import_olk self [1; 2; 3]) c) (fun x c' => negb (is_ok x) && is_none (credential (runtime c')) &&
      is_none (Script.disk (world c')) && bool_decide (advisory_state c' = LicenseState.Tampered)) &&
    done_with (run (import_offline_response self [1; 2; 3]) c) (fun x c' => negb (is_ok x) &&
      is_none (credential (runtime c')) && bool_decide (advisory_state c' = LicenseState.Tampered))) = true.
Proof. vm_compute. reflexivity. Qed.

(** A validation answered by an envelope without an epoch reference fails fatally and leaves the
    client active with its credential. *)
Theorem validation_error_without_wipe :
  holds (active [answer root_signed]) (fun self c => done_with (run (validate_ self) c) (fun x c' =>
    match x with Err (ValidationError.Fatal FatalError.ChainInvalid) => true | _ => false end &&
    negb (is_none (credential (runtime c'))) && bool_decide (advisory_state c' = LicenseState.Active))) = true.
Proof. vm_compute. reflexivity. Qed.

(** Four clock rollbacks before the activation: the activation succeeds and stores its credential,
    and the client stays locked, with the state machine unaware of the credential. *)
Theorem rollbacks_before_activation_lock :
  holds (session (Script.mk 90000 (-1000) None [answer credential_envelope; answer (keyset 0)])
    (repeat (FeatureKey "export.pdf") 4)) (fun self c =>
    done_with (run (activate self "ABCD-EFGH") c) (fun x c' => is_ok x && negb (is_none (credential (runtime c'))) &&
      bool_decide (advisory_state c' = LicenseState.Locked) && negb (StateMachine.has_credential (state (runtime c'))))) = true.
Proof. vm_compute. reflexivity. Qed.

(** An active client whose grace window has closed since the last reading releases one more key:
    the first reading only moves it to revalidation, the second one locks it. *)
Theorem one_key_after_grace :
  holds (session (Script.mk 2000 23000 None [answer credential_envelope; answer (keyset 0)]) [Activate "ABCD-EFGH"])
    (fun self c => Deadlines.grace_exhausted (StateMachine.deadlines (state (runtime c))) (Script.clock (world c)) &&
      done_with (run (feature_key "export.pdf") c) (fun x c' => is_ok x &&
        done_with (run (feature_key "export.pdf") c') (fun x c'' => negb (is_ok x) &&
          bool_decide (advisory_state c'' = LicenseState.Locked)))) = true.
Proof. vm_compute. reflexivity. Qed.
End Scripted.
