(* ===== verification/Simulator.v ===== *)
(** * The policy simulator ([crates/copylocker-server-core/src/simulator.rs])

    A scenario replayed against a policy with the functions the server uses.  [None] is the
    abort of an overflow: of [Policy.warnings], of a period's end and of the event counter.
    Text is the source's; [debug_str] is Rust's quoting of a string in [Debug] output, which
    depends on Unicode tables and which nothing here looks into. *)

From stdpp Require Import pretty.
From S2P Require Import Prelude Types Catalog Entitlement Policy Version Subscription.

Module ScenarioStep.
Inductive ScenarioStep :=
| Activate (at_ : Z)
| Renew (at_ : Z)
| PaymentFails (at_ : Z)
| DunningLapses (at_ : Z)
| Cancel (at_ : Z)
| PeriodEnds (at_ : Z)
| RunRelease (at_ : Z) (release_id : string).

Definition time (s : ScenarioStep) : Z :=
  match s with
  | Activate t | Renew t | PaymentFails t | DunningLapses t | Cancel t | PeriodEnds t
  | RunRelease t _ => t
  end.
End ScenarioStep.
Notation ScenarioStep := ScenarioStep.ScenarioStep.

Module Scenario.
Record Scenario := mk { name : string; steps : list ScenarioStep }.
End Scenario.
Notation Scenario := Scenario.Scenario.

Module TimelineEntry.
Record TimelineEntry := mk { at_ : Z; event : string; detail : string; notable : bool }.
End TimelineEntry.
Notation TimelineEntry := TimelineEntry.TimelineEntry.

(** ** Text *)
Definition MINUTE : Z := 60.
Definition HOUR : Z := 3600.

Definition format_duration (seconds : Z) : string :=
  if negb (seconds =? 0) && (Z.rem seconds DAY =? 0) then pretty (Z.quot seconds DAY) +:+ "d"
  else if negb (seconds =? 0) && (Z.rem seconds HOUR =? 0) then pretty (Z.quot seconds HOUR) +:+ "h"
  else if negb (seconds =? 0) && (Z.rem seconds MINUTE =? 0) then pretty (Z.quot seconds MINUTE) +:+ "m"
  else pretty seconds +:+ "s".

Definition format_validity (v : Validity) : string :=
  match v with
  | Validity.Perpetual => "perpetual"
  | Validity.FixedTerm d => "fixed_term(" +:+ format_duration d +:+ ")"
  | Validity.Subscription period dunning fallback =>
      let fallback := match fallback with
        | None => "none"
        | Some terms =>
            let scope := match PerpetualFallback.scope_at terms with
              | FallbackScopeAt.EarnedAt => "earned_at"
              | FallbackScopeAt.SubscriptionStart => "subscription_start"
              end in
            pretty (PerpetualFallback.after_months terms) +:+ "mo@" +:+ scope
        end in
      "subscription(period=" +:+ format_duration period +:+ ",dunning=" +:+ format_duration dunning +:+
        ",fallback=" +:+ fallback +:+ ")"
  | Validity.Trial d once_per extendable =>
      let once_per := match once_per with
        | TrialScope.Fingerprint => "fingerprint"
        | TrialScope.Account => "account"
        | TrialScope.Email => "email"
        end in
      "trial(duration=" +:+ format_duration d +:+ ",once_per=" +:+ once_per +:+ ",extendable=" +:+
        match extendable with Some e => format_duration e | None => "none" end +:+ ")"
  end.

Definition format_version_scope (scope : VersionScope) : string :=
  match scope with
  | VersionScope.Unlimited => "unlimited"
  | VersionScope.SemverRange range => "semver(" +:+ range +:+ ")"
  | VersionScope.ReleasedBefore cutoff => "released_before(" +:+ pretty cutoff +:+ ")"
  | VersionScope.Pinned releases => "pinned(" +:+ pretty (Z.of_nat (length releases)) +:+ ")"
  end.

Definition mode_name (m : Mode) : string :=
  match m with Mode.OfflineHybrid => "offline_hybrid" | Mode.EnforcedOnline => "enforced_online" end.

Definition offline_upgrade_name (p : OfflineUpgradePolicy) : string :=
  match p with
  | OfflineUpgradePolicy.RequireOnline => "require_online"
  | OfflineUpgradePolicy.PreloadN => "preload_n"
  | OfflineUpgradePolicy.VariantStable => "variant_stable"
  end.

Definition display_bool (b : bool) : string := if b then "true" else "false".

Definition policy_summary (p : Policy) : string :=
  "validity=" +:+ format_validity (Policy.validity p) +:+
  " version_scope=" +:+ format_version_scope (Policy.version_scope p) +:+
  " seats=" +:+ pretty (SeatSpec.seats (Policy.seats p)) +:+
  " mode=" +:+ mode_name (Policy.mode p) +:+
  " heartbeat=" +:+ match SeatSpec.heartbeat_secs (Policy.seats p) with Some h => format_duration h | None => "none" end +:+
  " refresh_after=" +:+ format_duration (RuntimeSpec.refresh_after_secs (Policy.runtime p)) +:+
  " grace=" +:+ format_duration (RuntimeSpec.grace_secs (Policy.runtime p)) +:+
  " offline_keys=" +:+ display_bool (RuntimeSpec.allow_olk (Policy.runtime p)) +:+
  " offline_upgrade=" +:+ offline_upgrade_name (RuntimeSpec.offline_upgrade_policy (Policy.runtime p)).

(** [{:?}] of the subscription states. *)
Definition debug_state (s : SubState.SubscriptionState) : string :=
  match s with
  | SubState.Active => "Active" | SubState.PastDue => "PastDue" | SubState.Canceling => "Canceling"
  | SubState.Suspended => "Suspended" | SubState.Ended => "Ended" | SubState.Expired => "Expired"
  | SubState.PerpetualFallback => "PerpetualFallback"
  end.

Fixpoint join (sep : string) (l : list string) : string :=
  match l with
  | [] => EmptyString
  | [x] => x
  | x :: l => x +:+ sep +:+ join sep l
  end.

(** ** The result *)
Module Simulation.
Record Simulation := mk {
  scenario : string;
  timeline : list TimelineEntry;
  final_subscription_state : option SubState.SubscriptionState;
  final_version_cutoff : option Z;
  policy_warnings : list string;
}.

Definition spaces (n : nat) : string := String.concat EmptyString (repeat " " n).
(** [{:>n}] and [{:<n}], for ASCII text. *)
Definition pad_left (n : nat) (s : string) : string := spaces (n - String.length s) +:+ s.
Definition pad_right (n : nat) (s : string) : string := s +:+ spaces (n - String.length s).
Definition newline : string := String (ascii_of_N 10) EmptyString.

Definition render_entry (e : TimelineEntry) : string :=
  (if TimelineEntry.notable e then "★" else " ") +:+ " " +:+ pad_left 12 (pretty (TimelineEntry.at_ e)) +:+ "  " +:+
  pad_right 24 (TimelineEntry.event e) +:+ " " +:+ TimelineEntry.detail e +:+ newline.
Definition render (s : Simulation) : string :=
  "scenario: " +:+ scenario s +:+ newline +:+
  String.concat EmptyString (map (fun w => "  ⚠ policy: " +:+ w +:+ newline) (policy_warnings s)) +:+
  String.concat EmptyString (map render_entry (timeline s)).

Definition has_notable (s : Simulation) : bool := existsb TimelineEntry.notable (timeline s).
Definition find (s : Simulation) (event : string) : option TimelineEntry :=
  find_first (fun e => bool_decide (TimelineEntry.event e = event)) (timeline s).
End Simulation.
Notation Simulation := Simulation.Simulation.

(** ** Replaying *)
Module Replay.
(** The loop's variables. *)
Record State := mk {
  timeline : list TimelineEntry;
  subscription : option Subscription;
  version_scope : VersionScope;
  credential_expiry : option Z;
  event_seq : Z;
}.
End Replay.

Section Simulate.
Context (debug_str : string -> string) (policy : Policy) (catalog : Catalog) (registry : ReleaseRegistry).
Import Replay.

Definition debug_scope (scope : VersionScope) : string :=
  match scope with
  | VersionScope.Unlimited => "Unlimited"
  | VersionScope.SemverRange range => "SemverRange(" +:+ debug_str range +:+ ")"
  | VersionScope.ReleasedBefore cutoff => "ReleasedBefore(" +:+ pretty cutoff +:+ ")"
  | VersionScope.Pinned ids => "Pinned([" +:+ join ", " (map debug_str ids) +:+ "])"
  end.

(** The subscription terms; zeroes for another validity. *)
Definition terms : Z * Z * option PerpetualFallback :=
  match Policy.validity policy with
  | Validity.Subscription period dunning fallback => (period, dunning, fallback)
  | _ => (0, 0, None)
  end.
Definition period_secs : Z := terms.1.1.
Definition dunning_secs : Z := terms.1.2.
Definition fallback : option PerpetualFallback := terms.2.

Definition push (s : State) (e : TimelineEntry) : State :=
  mk (timeline s ++ [e]) (subscription s) (version_scope s) (credential_expiry s) (event_seq s).
Definition set_subscription (s : State) (sub : Subscription) (seq : Z) : State :=
  mk (timeline s) (Some sub) (version_scope s) (credential_expiry s) seq.
Definition set_expiry (s : State) (e : option Z) : State :=
  mk (timeline s) (subscription s) (version_scope s) e (event_seq s).
Definition set_scope (s : State) (v : VersionScope) : State :=
  mk (timeline s) (subscription s) v (credential_expiry s) (event_seq s).

Definition next_seq (s : State) : option Z := checked 0 u32_max (event_seq s + 1).
Definition event_id (seq : Z) : string := "sim_" +:+ pretty seq.

Definition activate (s : State) (t : Z) : option (result State PolicyError) :=
  match Resolve.resolve catalog (Policy.entitlement policy) t with
  | Err e => Some (Err e)
  | Ok ent =>
      let s := push s (TimelineEntry.mk t "activate" ("tier=" +:+ Entitlements.tier_id ent +:+ " features=[" +:+
        join ", " (bt_elems (Entitlements.features ent)) +:+ "] " +:+ policy_summary policy) false) in
      let s := set_expiry s (Policy.expires_at policy t) in
      let s := match credential_expiry s with
        | Some expiry => push s (TimelineEntry.mk t "credential_expiry" ("not_after=" +:+ pretty expiry) false)
        | None => s
        end in
      if period_secs >? 0 then
        period_end ← add_i64 t period_secs;
        Some (Ok (mk (timeline s) (Some (Subscription.new "sim" "sub_sim" t period_end)) (version_scope s)
                    (credential_expiry s) (event_seq s)))
      else Some (Ok s)
  end.

Definition renew_step (s : State) (t : Z) : option State :=
  match subscription s with
  | None => Some (push s (TimelineEntry.mk t "renew" "policy is not a subscription; renewal has no effect" true))
  | Some sub =>
      seq ← next_seq s;
      period_end ← add_i64 t period_secs;
      let (sub, out) := Subscription.apply sub (event_id seq) (SubscriptionEvent.Renewed t period_end) fallback t dunning_secs in
      let s := set_subscription s sub seq in
      let s := if TransitionOutcome.applied out
        then set_expiry s (Some (sat_add_i64 (sat_add_i64 t period_secs) dunning_secs)) else s in
      let s := push s (TimelineEntry.mk t "renew" ("state=" +:+ debug_state (Subscription.state sub) +:+
        " continuous_paid_months=" +:+ pretty (Subscription.continuous_paid_months sub) +:+ " not_after=" +:+
        match credential_expiry s with Some e => pretty e | None => "none" end) false) in
      Some (if TransitionOutcome.fallback_earned out
        then push s (TimelineEntry.mk t "fallback_earned"
               ("perpetual fallback vested; version cap anchored at " +:+ pretty t) true)
        else s)
  end.

Definition payment_fails (s : State) (t : Z) : option State :=
  match subscription s with
  | None => Some s
  | Some sub =>
      seq ← next_seq s;
      let (sub, _) := Subscription.apply sub (event_id seq) SubscriptionEvent.PaymentFailed fallback t dunning_secs in
      Some (push (set_subscription s sub seq) (TimelineEntry.mk t "payment_failed"
        ("state=" +:+ debug_state (Subscription.state sub) +:+ "; still usable until " +:+
         pretty (default t (Subscription.dunning_until sub))) true))
  end.

Definition dunning_lapses (s : State) (t : Z) : option State :=
  match subscription s with
  | None => Some s
  | Some sub =>
      seq ← next_seq s;
      let (sub, out) := Subscription.apply sub (event_id seq) SubscriptionEvent.DunningElapsed fallback t dunning_secs in
      Some (push (set_subscription s sub seq) (TimelineEntry.mk t "dunning_lapsed"
        ("state=" +:+ debug_state (Subscription.state sub) +:+
         (if TransitionOutcome.streak_reset out then "; consecutive-payment streak reset to 0" else EmptyString)) true))
  end.

Definition cancel (s : State) (t : Z) : option State :=
  match subscription s with
  | None => Some s
  | Some sub =>
      seq ← next_seq s;
      let (sub, _) := Subscription.apply sub (event_id seq) SubscriptionEvent.CancelAtPeriodEnd fallback t dunning_secs in
      let (would_become, cutoff) := Subscription.preview_ending sub fallback in
      Some (push (set_subscription s sub seq) (TimelineEntry.mk t "cancel"
        ("state=" +:+ debug_state (Subscription.state sub) +:+ "; at period end will become " +:+
         debug_state would_become +:+
         match cutoff with Some c => " capped at releases before " +:+ pretty c | None => EmptyString end) true))
  end.

Definition period_ends (s : State) (t : Z) : option State :=
  match subscription s with
  | None => Some s
  | Some sub =>
      seq ← next_seq s;
      let (sub, _) := Subscription.apply sub (event_id seq) SubscriptionEvent.PeriodElapsed fallback t dunning_secs in
      let s := set_subscription s sub seq in
      let s := if bool_decide (Subscription.state sub = SubState.PerpetualFallback) then
          let s := match Subscription.fallback_version_cutoff sub fallback with
            | Some cut => set_scope s (VersionScope.ReleasedBefore cut)
            | None => s
            end in
          set_expiry s None
        else s in
      Some (push s (TimelineEntry.mk t "period_ends" ("state=" +:+ debug_state (Subscription.state sub) +:+
        "; scope=" +:+ debug_scope (version_scope s)) true))
  end.

(** The line a registered, out-of-scope or compromised release gets. *)
Definition decision_line (release_id : string) (d : VersionDecision) : string * bool :=
  match d with
  | VersionDecision.InScope variant => (release_id +:+ " runs (variant " +:+ pretty variant +:+ ")", false)
  | VersionDecision.NotRegistered =>
      (release_id +:+ " is not registered; run `copylocker release register`", true)
  | VersionDecision.OutOfScope highest =>
      (release_id +:+ " is outside the licensed scope — restricted mode. Highest covered release: " +:+
       default "none" highest, true)
  | VersionDecision.Compromised action =>
      (release_id +:+ " is marked compromised; action=" +:+ CompromisedAction.as_str action, true)
  end.

Definition became_perpetual (s : State) : bool :=
  match subscription s with
  | Some sub => bool_decide (Subscription.state sub = SubState.PerpetualFallback)
  | None => false
  end.
Definition unusable (s : State) (t : Z) : option Subscription :=
  sub ← subscription s; if Subscription.is_usable_at sub t then None else Some sub.

Definition run_release (s : State) (t : Z) (release_id : string) : State :=
  let line detail notable := push s (TimelineEntry.mk t "run_release" detail notable) in
  match unusable s t with
  | Some sub => line (release_id +:+ " cannot run; subscription state " +:+ debug_state (Subscription.state sub) +:+
      " is not usable") true
  | None =>
      if negb (became_perpetual s) && match credential_expiry s with Some e => t >=? e | None => false end then
        line (release_id +:+ " cannot run; credential expired at " +:+ pretty (default t (credential_expiry s)) +:+
          "; activate or renew") true
      else
        let (detail, notable) := decision_line release_id (ReleaseRegistry.decide registry (version_scope s) release_id) in
        line detail notable
  end.

Definition total (s : option State) : option (result State PolicyError) := option_map Ok s.
Definition step (s : State) (x : ScenarioStep) : option (result State PolicyError) :=
  match x with
  | ScenarioStep.Activate t => activate s t
  | ScenarioStep.Renew t => total (renew_step s t)
  | ScenarioStep.PaymentFails t => total (payment_fails s t)
  | ScenarioStep.DunningLapses t => total (dunning_lapses s t)
  | ScenarioStep.Cancel t => total (cancel s t)
  | ScenarioStep.PeriodEnds t => total (period_ends s t)
  | ScenarioStep.RunRelease t id => Some (Ok (run_release s t id))
  end.

Fixpoint replay (s : State) (steps : list ScenarioStep) : option (result State PolicyError) :=
  match steps with
  | [] => Some (Ok s)
  | x :: steps =>
      match step s x with
      | None => None
      | Some (Err e) => Some (Err e)
      | Some (Ok s) => replay s steps
      end
  end.

Definition start : State := mk [] None (Policy.version_scope policy) None 0.

Definition simulate (sc : Scenario) : option (result Simulation PolicyError) :=
  warnings ← Policy.warnings policy;
  match replay start (Scenario.steps sc) with
  | None => None
  | Some (Err e) => Some (Err e)
  | Some (Ok s) =>
      Some (Ok (Simulation.mk (Scenario.name sc) (timeline s) (option_map Subscription.state (subscription s))
        (match version_scope s with VersionScope.ReleasedBefore c => Some c | _ => None end)
        (map PolicyWarning.message warnings)))
  end.
End Simulate.

(** ** What the simulator shows is what the server does *)
Section Facts.
Context (debug_str : string -> string) (policy : Policy) (catalog : Catalog) (registry : ReleaseRegistry).
Import Replay.
Notation period := (period_secs policy).
Notation step := (step debug_str policy catalog registry).
Notation replay := (replay debug_str policy catalog registry).
Notation simulate := (simulate debug_str policy catalog registry).

Definition is_activate (x : ScenarioStep) : bool := match x with ScenarioStep.Activate _ => true | _ => false end.

(** The webhook event a step stands for. *)
Definition event_of (x : ScenarioStep) : option SubscriptionEvent :=
  match x with
  | ScenarioStep.Renew t => Some (SubscriptionEvent.Renewed t (t + period))
  | ScenarioStep.PaymentFails _ => Some SubscriptionEvent.PaymentFailed
  | ScenarioStep.DunningLapses _ => Some SubscriptionEvent.DunningElapsed
  | ScenarioStep.Cancel _ => Some SubscriptionEvent.CancelAtPeriodEnd
  | ScenarioStep.PeriodEnds _ => Some SubscriptionEvent.PeriodElapsed
  | ScenarioStep.Activate _ | ScenarioStep.RunRelease _ _ => None
  end.

(** The deliveries of a list of steps, numbered from the one after [seq]. *)
Fixpoint deliveries (seq : Z) (steps : list ScenarioStep) : list delivery :=
  match steps with
  | [] => []
  | x :: steps =>
      match event_of x with
      | Some e => Delivery (event_id (seq + 1)) e (fallback policy) (ScenarioStep.time x) (dunning_secs policy)
                    :: deliveries (seq + 1) steps
      | None => deliveries seq steps
      end
  end.

Lemma deliveries_ids seq steps d : d ∈ deliveries seq steps -> exists k, seq < k /\ d_id d = event_id k.
Proof.
  revert seq. induction steps as [|x steps IH]; intros seq; cbn; [by intros ?%not_elem_of_nil|].
  destruct (event_of x) as [e|]; [|apply IH]. intros [->|(k & Hk & ->)%IH]%elem_of_cons; [by exists (seq + 1); split; [lia|]|].
  exists k. split; [lia|done].
Qed.
Lemma event_id_inj a b : event_id a = event_id b -> a = b.
Proof. intros H. unfold event_id in H. by apply (inj (String.append "sim_")), (inj pretty) in H. Qed.
Lemma deliveries_nodup seq steps : NoDup (map d_id (deliveries seq steps)).
Proof.
  revert seq. induction steps as [|x steps IH]; intros seq; cbn; [constructor|]. destruct (event_of x) as [e|]; [|done].
  cbn. constructor; [|done]. intros (d & Hd & (k & Hk & He)%list_elem_of_In%deliveries_ids)%list_elem_of_In%in_map_iff. rewrite He in Hd.
  apply event_id_inj in Hd. lia.
Qed.
Lemma deliveries_events seq steps :
  map d_event (deliveries seq steps) = omap event_of steps /\
  Forall (fun d => d_fallback d = fallback policy /\ d_grace d = dunning_secs policy) (deliveries seq steps).
Proof.
  revert seq. induction steps as [|x steps IH]; intros seq; cbn; [by repeat constructor|].
  destruct (event_of x) as [e|]; [|apply IH]. destruct (IH (seq + 1)) as [H1 H2]. cbn. rewrite H1. by repeat constructor.
Qed.

(** A release run adds one line; the line says the release runs exactly when the subscription is
    usable, the credential is not past its expiry and the release is in scope. *)
Lemma run_release_line s t id :
  exists detail notable,
    run_release registry s t id = push s (TimelineEntry.mk t "run_release" detail notable) /\
    (notable = false <->
       (forall sub, subscription s = Some sub -> Subscription.is_usable_at sub t = true) /\
       (became_perpetual s = true \/ forall e, credential_expiry s = Some e -> t < e) /\
       exists v, ReleaseRegistry.decide registry (version_scope s) id = VersionDecision.InScope v).
Proof.
  unfold run_release. destruct (unusable s t) as [sub|] eqn:Hu.
  { eexists _, true. split; [done|]. split; [done|]. intros (H & _). unfold unusable in Hu.
    destruct (subscription s) as [sub'|]; [|done]. cbn in Hu. by rewrite (H sub' eq_refl) in Hu. }
  assert (forall sub, subscription s = Some sub -> Subscription.is_usable_at sub t = true) as Hus.
  { intros sub Hs. unfold unusable in Hu. rewrite Hs in Hu. cbn in Hu. by destruct (Subscription.is_usable_at sub t). }
  destruct (became_perpetual s) eqn:Hb; cbn [negb andb].
  2: destruct (credential_expiry s) as [e|] eqn:He; [rewrite Z.geb_leb; destruct (Z.leb_spec e t) as [Hle|Hlt]|].
  2: { eexists _, true. split; [done|]. split; [done|]. intros (_ & [?|H] & _); [done|]. specialize (H e eq_refl). lia. }
  all: destruct (ReleaseRegistry.decide _ _ _) as [v| |h|a]; cbn [decision_line];
    (eexists _, _; split; [reflexivity|]); (split; [|by intros (_ & _ & v' & ?)]); intros Hf; try discriminate Hf.
  all: split_and!; [done| |by exists v]; auto; right; by intros e' [= <-].
Qed.

(** One step of a running subscription. *)
Lemma step_delivers s x s' sub :
  subscription s = Some sub -> is_activate x = false -> step s x = Some (Ok s') ->
  subscription s' = Some (Subscription.run sub (deliveries (event_seq s) [x])) /\
  event_seq s' = event_seq s + Z.of_nat (length (deliveries (event_seq s) [x])).
Proof.
  intros Hs Hx Hst. destruct x; try done; cbn [Simulator.step total option_map] in Hst; cbn [deliveries event_of ScenarioStep.time];
    unfold renew_step, payment_fails, dunning_lapses, cancel, period_ends in Hst; try rewrite Hs in Hst;
    try (destruct (next_seq s) as [q|] eqn:Hq; [apply checked_Some in Hq as [-> _]|done]);
    try (destruct (add_i64 at_ period) as [pe|] eqn:Hp; [apply checked_Some in Hp as [-> _]|done]);
    unfold Subscription.run, deliver; cbn in Hst |- *;
    try (destruct (Subscription.apply _ _ _ _ _ _) as [sub' out]; try (destruct (Subscription.preview_ending _ _)); cbn in Hst |- *);
    injection Hst as <-; try (destruct (run_release_line s at_ release_id) as (dt & nt & -> & _)); repeat case_match;
    (split; [done|cbn; lia]).
Qed.

Lemma replay_app s xs ys :
  replay s (xs ++ ys) = match replay s xs with Some (Ok s) => replay s ys | other => other end.
Proof. revert s. induction xs as [|x xs IH]; intros s; cbn; [done|]. by destruct (step s x) as [[s1|e]|]. Qed.

Lemma deliveries_app seq xs ys :
  deliveries seq (xs ++ ys) = deliveries seq xs ++ deliveries (seq + Z.of_nat (length (deliveries seq xs))) ys.
Proof.
  revert seq. induction xs as [|x xs IH]; intros seq; cbn [deliveries app]; [by rewrite Z.add_0_r|].
  destruct (event_of x) as [e|]; [|apply IH]. rewrite IH. cbn [app length]. do 3 f_equal. lia.
Qed.

(** Replaying steps is delivering their events. *)
Lemma replay_delivers steps : forall s s' sub,
  subscription s = Some sub -> Forall (fun x => is_activate x = false) steps -> replay s steps = Some (Ok s') ->
  subscription s' = Some (Subscription.run sub (deliveries (event_seq s) steps)).
Proof.
  induction steps as [|x steps IH]; intros s s' sub Hs Hx Hr; cbn [Simulator.replay] in Hr; [by injection Hr as <-|].
  apply Forall_cons in Hx as [Hx Hxs]. destruct (step s x) as [[s1|e]|] eqn:Hst; [|done..].
  destruct (step_delivers s x s1 sub Hs Hx Hst) as [H1 H2]. rewrite (IH s1 s' _ H1 Hxs Hr), H2.
  by rewrite <- Subscription.run_app, <- (deliveries_app (event_seq s) [x] steps).
Qed.

Lemma activate_starts s t s' :
  0 < period -> step s (ScenarioStep.Activate t) = Some (Ok s') ->
  subscription s' = Some (Subscription.new "sim" "sub_sim" t (t + period)).
Proof.
  intros Hp. cbn. unfold activate. destruct (Resolve.resolve _ _ _); [|done]. rewrite Z.gtb_ltb.
  destruct (Z.ltb_spec 0 period); [|lia]. destruct (add_i64 t period) as [e|] eqn:He; [|done].
  apply checked_Some in He as [-> _]. by intros [= <-].
Qed.

(** C32 The simulator's subscription is the server's.  After the last activation of a scenario, the
    final subscription state is the one the server's [apply] reaches from a new subscription by the
    webhook events the remaining steps stand for, each with an identifier of its own and with the
    policy's terms - so that whatever holds of every history of deliveries holds of the
    simulation. *)
Theorem simulation_is_a_history (name : string) (before after : list ScenarioStep) (t : Z) (sim : Simulation)
    (Hp : 0 < period) (Ha : Forall (fun x => is_activate x = false) after)
    (Hs : simulate (Scenario.mk name (before ++ ScenarioStep.Activate t :: after)) = Some (Ok sim)) :
  exists h, NoDup (map d_id h) /\ map d_event h = omap event_of after /\
    Forall (fun d => d_fallback d = fallback policy /\ d_grace d = dunning_secs policy) h /\
    Simulation.final_subscription_state sim =
      Some (Subscription.state (Subscription.run (Subscription.new "sim" "sub_sim" t (t + period)) h)).
Proof.
  unfold Simulator.simulate in Hs. destruct (Policy.warnings policy) as [ws|]; [|done]. cbn [mbind option_bind Scenario.steps] in Hs.
  rewrite replay_app in Hs. destruct (replay (start policy) before) as [[s0|e]|]; [|done..]. cbn [Simulator.replay] in Hs.
  destruct (step s0 (ScenarioStep.Activate t)) as [[s1|e]|] eqn:Hst; [|done..].
  apply activate_starts in Hst; [|done]. destruct (replay s1 after) as [[s2|e]|] eqn:Hr; [|done..].
  apply replay_delivers with (sub := Subscription.new "sim" "sub_sim" t (t + period)) in Hr; [|done|done].
  exists (deliveries (event_seq s1) after). split; [apply deliveries_nodup|]. destruct (deliveries_events (event_seq s1) after).
  split_and!; [done|done|]. injection Hs as <-. cbn. by rewrite Hr.
Qed.

(** The line of a release run is honest: a scenario that ends by running a release appends one
    line, and the line is unremarkable exactly when the subscription - if there is one - is usable
    at that time, the credential is not past its expiry (or the fallback is perpetual) and the
    server's version decision on the scope in force is [InScope]. *)
Theorem release_lines_are_honest (steps : list ScenarioStep) (t : Z) (id : string) (s' : State)
    (Hs : replay (start policy) (steps ++ [ScenarioStep.RunRelease t id]) = Some (Ok s')) :
  exists s e, replay (start policy) steps = Some (Ok s) /\ timeline s' = timeline s ++ [e] /\
    (TimelineEntry.notable e = false <->
       (forall sub, subscription s = Some sub -> Subscription.is_usable_at sub t = true) /\
       (became_perpetual s = true \/ forall x, credential_expiry s = Some x -> t < x) /\
       exists v, ReleaseRegistry.decide registry (version_scope s) id = VersionDecision.InScope v).
Proof.
  rewrite replay_app in Hs. destruct (replay (start policy) steps) as [[s|e]|]; [|done..]. cbn in Hs. injection Hs as <-.
  destruct (run_release_line s t id) as (detail & notable & -> & Hn). exists s, (TimelineEntry.mk t "run_release" detail notable).
  done.
Qed.

(** ** When a simulation fails *)
Definition period_fits (x : ScenarioStep) : Prop :=
  match x with ScenarioStep.Activate t | ScenarioStep.Renew t => in_i64 (t + period) | _ => True end.
Definition resolves (x : ScenarioStep) : Prop :=
  match x with ScenarioStep.Activate t => is_ok (Resolve.resolve catalog (Policy.entitlement policy) t) = true | _ => True end.

Lemma step_err s x e :
  step s x = Some (Err e) -> exists t, x = ScenarioStep.Activate t /\ Resolve.resolve catalog (Policy.entitlement policy) t = Err e.
Proof.
  destruct x; cbn; unfold total; try (by match goal with |- option_map _ ?m = _ -> _ => destruct m end); [|done].
  unfold activate. destruct (Resolve.resolve _ _ _) as [ent|e'] eqn:Hr; [|intros [= ->]; by eexists].
  destruct (_ >? _); [|done]. by destruct (add_i64 _ _).
Qed.
Lemma replay_err steps e : forall s, replay s steps = Some (Err e) ->
  exists t, ScenarioStep.Activate t ∈ steps /\ Resolve.resolve catalog (Policy.entitlement policy) t = Err e.
Proof.
  induction steps as [|x steps IH]; intros s; cbn; [done|]. destruct (step s x) as [[s1|e1]|] eqn:Hst; [..|done].
  - intros (t & Ht & Hr)%IH. exists t. split; [by right|done].
  - intros [= ->]. apply step_err in Hst as (t & -> & Hr). exists t. split; [by left|done].
Qed.

Lemma add_fits a b : in_i64 (a + b) -> add_i64 a b = Some (a + b).
Proof. intros H. unfold add_i64, checked. unfold in_i64 in H. by destruct (Z.leb_spec i64_min (a + b)), (Z.leb_spec (a + b) i64_max); try lia. Qed.

Lemma step_total s x :
  period_fits x -> resolves x -> 0 <= event_seq s < u32_max ->
  exists s', step s x = Some (Ok s') /\ 0 <= event_seq s' <= event_seq s + 1.
Proof.
  intros Hp Hr Hq. assert (next_seq s = Some (event_seq s + 1)) as Hn.
  { unfold next_seq, checked. by destruct (Z.leb_spec 0 (event_seq s + 1)), (Z.leb_spec (event_seq s + 1) u32_max); try lia. }
  destruct x; cbn [Simulator.step total option_map period_fits resolves] in *;
    unfold renew_step, payment_fails, dunning_lapses, cancel, period_ends; rewrite ?Hn, ?(add_fits _ _ Hp); cbn [mbind option_bind].
  2-6: destruct (subscription s) as [sub|]; [|eexists; split; [done|cbn; lia]];
    destruct (Subscription.apply _ _ _ _ _ _) as [sub' out]; try destruct (Subscription.preview_ending _ _); eexists;
    (split; [done|]); repeat case_match; cbn; lia.
  - unfold activate. destruct (Resolve.resolve _ _ _) as [ent|]; [|done]. rewrite (add_fits _ _ Hp).
    destruct (period >? 0); (eexists; split; [done|]); repeat case_match; cbn; lia.
  - destruct (run_release_line s at_ release_id) as (dt & nt & -> & _). eexists. split; [done|cbn; lia].
Qed.

Lemma replay_total steps : forall s,
  Forall period_fits steps -> Forall resolves steps -> 0 <= event_seq s -> event_seq s + Z.of_nat (length steps) <= u32_max ->
  exists s', replay s steps = Some (Ok s').
Proof.
  induction steps as [|x steps IH]; intros s Hp Hr H0 Hq; cbn [Simulator.replay length] in *; [by eexists|].
  apply Forall_cons in Hp as [Hp Hps]. apply Forall_cons in Hr as [Hr Hrs].
  destruct (step_total s x Hp Hr) as (s1 & -> & Hb); [lia|]. apply IH; [done|done|lia|lia].
Qed.

(** A simulation fails only where the server would: an error is the entitlement resolver's, at
    the time of one of the scenario's activations; and if every activation resolves, and no sum of
    times overflows, the simulation succeeds and carries the policy's warnings. *)
Theorem simulation_outcome (sc : Scenario) (ws : list PolicyWarning)
    (Hw : Policy.warnings policy = Some ws) (Hp : Forall period_fits (Scenario.steps sc))
    (Hl : Z.of_nat (length (Scenario.steps sc)) <= u32_max) :
  (forall e, simulate sc = Some (Err e) -> exists t, ScenarioStep.Activate t ∈ Scenario.steps sc /\
     Resolve.resolve catalog (Policy.entitlement policy) t = Err e) /\
  (Forall resolves (Scenario.steps sc) -> exists sim, simulate sc = Some (Ok sim) /\
     Simulation.policy_warnings sim = map PolicyWarning.message ws).
Proof.
  unfold Simulator.simulate. rewrite Hw. cbn [mbind option_bind]. split.
  - intros e. destruct (replay (start policy) (Scenario.steps sc)) as [[s|e']|] eqn:Hr; [done| |done].
    intros [= ->]. by eapply replay_err.
  - intros Hr. destruct (replay_total (Scenario.steps sc) (start policy) Hp Hr) as [s ->]; [done|cbn; lia|]. by eexists.
Qed.
End Facts.

(** ** The documented fallback scenario *)
Module SimDemo.
Definition T0 : Z := 1767225600.
Definition release (id version : string) (variant published : Z) : Release :=
  Release.mk id "acme" version variant "bf" "stable" ReleaseStatus.Active None published.
Definition registry : ReleaseRegistry := ReleaseRegistry.mk
  [release "rel_38" "3.8.0" 38 T0; release "rel_39" "3.9.0" 39 (T0 + 350 * DAY);
   release "rel_42" "4.2.0" 42 (T0 + 2 * YEAR - 60 * DAY)].
Definition policy : Policy := Preset.build Preset.SubAnnualFallback "p" "acme" "pro" T0.
Definition later : list ScenarioStep :=
  [ScenarioStep.Renew (T0 + YEAR); ScenarioStep.Cancel (T0 + YEAR + 150 * DAY); ScenarioStep.PeriodEnds (T0 + 2 * YEAR);
   ScenarioStep.RunRelease (T0 + 2 * YEAR + DAY) "rel_42"].
Definition steps : list ScenarioStep := ScenarioStep.Activate T0 :: later ++ [ScenarioStep.RunRelease (T0 + 2 * YEAR + DAY) "rel_39"].
Definition run_it (l : list ScenarioStep) : option (result Simulation PolicyError) :=
  simulate (fun s => s) policy demo_catalog registry (Scenario.mk "fallback" l).
Definition outcome (o : option (result Simulation PolicyError))
    : option (option SubState.SubscriptionState * option Z * list (string * bool)) :=
  match o with
  | Some (Ok s) => Some (Simulation.final_subscription_state s, Simulation.final_version_cutoff s,
      map (fun e => (TimelineEntry.event e, TimelineEntry.notable e)) (Simulation.timeline s))
  | _ => None
  end.

(** An annual subscription with a perpetual fallback, cancelled in its second year, ends capped at
    the releases before the day the fallback vested: 3.9 runs, 4.2 does not. *)
Example fallback_scenario :
  outcome (run_it steps) = Some (Some SubState.PerpetualFallback, Some (T0 + YEAR),
    [("activate", false); ("credential_expiry", false); ("renew", false); ("fallback_earned", true); ("cancel", true);
     ("period_ends", true); ("run_release", true); ("run_release", false)]%string).
Proof. vm_compute. reflexivity. Qed.

Lemma simulation_is_a_history_witness :
  exists sim h, run_it (ScenarioStep.Activate T0 :: later) = Some (Ok sim) /\ NoDup (map d_id h) /\ length h = 3%nat /\
    Simulation.final_subscription_state sim =
      Some (Subscription.state (Subscription.run (Subscription.new "sim" "sub_sim" T0 (T0 + period_secs policy)) h)).
Proof.
  destruct (run_it (ScenarioStep.Activate T0 :: later)) as [[sim|]|] eqn:E; [|vm_compute in E; discriminate E..].
  destruct (simulation_is_a_history (fun s => s) policy demo_catalog registry "fallback" [] later T0 sim)
    as (h & Hn & He & _ & Hf); [vm_compute; reflexivity|by repeat constructor|exact E|].
  exists sim, h. split_and!; [done|done| |done]. apply (f_equal length) in He. rewrite length_map in He. by rewrite He.
Defined.

Lemma release_lines_are_honest_witness :
  exists s' s e, Replay.timeline s' = Replay.timeline s ++ [e] /\ TimelineEntry.notable e = false /\
    replay (fun s => s) policy demo_catalog registry (start policy) steps = Some (Ok s').
Proof.
  destruct (replay (fun s => s) policy demo_catalog registry (start policy) steps) as [[s'|]|] eqn:E; [|vm_compute in E; discriminate E..].
  destruct (release_lines_are_honest (fun s => s) policy demo_catalog registry (ScenarioStep.Activate T0 :: later)
    (T0 + 2 * YEAR + DAY) "rel_39" s' E) as (s & e & Hs & Ht & Hn).
  exists s', s, e. split_and!; [done| |done]. apply Hn.
  assert (match replay (fun s => s) policy demo_catalog registry (start policy) (ScenarioStep.Activate T0 :: later) with
    | Some (Ok s) => match Replay.subscription s with Some sub => Subscription.is_usable_at sub (T0 + 2 * YEAR + DAY) | None => true end &&
        became_perpetual s && match ReleaseRegistry.decide registry (Replay.version_scope s) "rel_39" with
          | VersionDecision.InScope _ => true | _ => false end
    | _ => false end = true) as H by (vm_compute; reflexivity).
  rewrite Hs in H. apply andb_prop in H as [[H1 H2]%andb_prop H3]. split_and!; [|by left|].
  - intros sub Hsub. by rewrite Hsub in H1.
  - destruct (ReleaseRegistry.decide _ _ _) as [v| | |]; try discriminate H3. by exists v.
Defined.

Lemma all_resolve : Forall (resolves policy demo_catalog) steps.
Proof. apply Forall_forall. intros x Hx. repeat (apply elem_of_cons in Hx as [->|Hx]; [by vm_compute|]). by apply not_elem_of_nil in Hx. Qed.
Lemma all_fit : Forall (period_fits policy) steps.
Proof.
  apply Forall_forall. intros x Hx.
  repeat (apply elem_of_cons in Hx as [->|Hx]; [by vm_compute|]). by apply not_elem_of_nil in Hx.
Qed.

Lemma simulation_outcome_witness :
  exists sim, run_it steps = Some (Ok sim) /\ Simulation.policy_warnings sim = [].
Proof.
  destruct (simulation_outcome (fun s => s) policy demo_catalog registry (Scenario.mk "fallback" steps) []) as [_ H];
    [vm_compute; reflexivity|exact all_fit|vm_compute; discriminate|].
  destruct (H all_resolve) as (sim & Hs & Hw). exists sim. split; [exact Hs|exact Hw].
Defined.
End SimDemo.
