(* ===== verification/Events.v ===== *)
(** * Queue events ([crates/copylocker-worker/src/events.rs])

    The projections of a licence that its durable object publishes, with their validity checks,
    and the checks on texts that the worker's messages share. *)

From stdpp Require Import pretty.
From S2P Require Import Prelude Types Cbor LicenseKey Field Chain Messages Suite Analytics.

(** ** Text checks *)
Definition is_ascii_graphic (b : byte) : bool := (33 <=? b) && (b <=? 126).
Definition is_ascii_digit (b : byte) : bool := (48 <=? b) && (b <=? 57).
Definition is_ascii_hexdigit (b : byte) : bool :=
  is_ascii_digit b || ((65 <=? b) && (b <=? 70)) || ((97 <=? b) && (b <=? 102)).

Definition one_of (names : list string) (s : string) : bool := bool_decide (s ∈ names).

Definition is_product_id (value : string) : bool :=
  negb (str_len value =? 0) && (str_len value <=? 128) &&
  forallb (fun b => is_ascii_alphanumeric b || (b =? 45) || (b =? 95) || (b =? 46)) (text_bytes value).

Definition is_identifier (value : string) : bool := is_product_id value.

Definition valid_admin_action (value : string) : bool :=
  negb (str_len value =? 0) && (str_len value <=? 128) &&
  forallb (fun b => is_ascii_alphanumeric b || (b =? 58) || (b =? 45) || (b =? 95) || (b =? 46))
    (text_bytes value).

Definition valid_admin_target (value : string) : bool :=
  negb (str_len value =? 0) && (str_len value <=? 256) && forallb is_ascii_graphic (text_bytes value).

Definition valid_idempotency_key (value : string) : bool :=
  negb (str_len value =? 0) && (str_len value <=? 128) && forallb is_ascii_graphic (text_bytes value).

Definition is_lower_hex (value : string) (length : Z) : bool :=
  (str_len value =? length) &&
  forallb (fun b => is_ascii_digit b || ((97 <=? b) && (b <=? 102))) (text_bytes value).

Definition is_none_or {A} (p : A -> bool) (o : option A) : bool :=
  match o with None => true | Some a => p a end.

Definition optional_string_is_bounded (value : option string) (max_len : Z) : bool :=
  is_none_or (fun v => str_len v <=? max_len) value.

Definition bounded_non_empty (value : string) (max_len : Z) : bool :=
  negb (str_len value =? 0) && (str_len value <=? max_len).

Definition cube_dimension (value : string) (max_len : Z) : bool :=
  bounded_non_empty value max_len && negb (existsb (fun b => b =? 124) (text_bytes value)).

Definition MAX_SAFE_INTEGER : Z := 9007199254740991.

Definition blen (b : list byte) : Z := Z.of_nat (length b).

(** ** Projections of a licence *)
Definition LICENSE_PROJECTION_EVENT : string := "license_projection".
Definition PROJECTION_SCHEMA_VERSION : Z := 1.

Module MachineProjection.
Record MachineProjection := mk {
  machine_id : list byte; fingerprint : list byte; status : string; activation_path : string;
  first_seen_at : Z; last_seen_at : option Z; os : option string; arch : option string;
  app_version : option string; sdk_version : option string; release_id : option string;
  variant_id : option Z; build_fp : option string; geo_country : option string; suspicion : Z;
}.

Definition is_valid (m : MachineProjection) : bool :=
  (length (machine_id m) =? 16)%nat &&
  negb (blen (fingerprint m) =? 0) && (blen (fingerprint m) <=? 128) &&
  one_of ["active"; "pending"; "released"; "revoked"] (status m) &&
  one_of ["online"; "offline_ar"; "olk"; "account"] (activation_path m) &&
  (0 <=? first_seen_at m) && is_none_or (fun v => 0 <=? v) (last_seen_at m) &&
  is_none_or (fun v => 0 <=? v) (variant_id m) && (0 <=? suspicion m) &&
  optional_string_is_bounded (os m) 128 && optional_string_is_bounded (arch m) 128 &&
  optional_string_is_bounded (app_version m) 128 && optional_string_is_bounded (sdk_version m) 128 &&
  optional_string_is_bounded (release_id m) 128 && optional_string_is_bounded (build_fp m) 256 &&
  optional_string_is_bounded (geo_country m) 16.
End MachineProjection.
Notation MachineProjection := MachineProjection.MachineProjection.

Module ProjectionEvent.
Record ProjectionEvent := mk {
  event : string; schema_version : Z; license_id : list byte; license_status : string;
  seats_used : Z; last_seen_at : option Z; machine : option MachineProjection;
  proj_version : Z; occurred_at : Z;
}.

Definition is_valid (e : ProjectionEvent) : bool :=
  bool_decide (event e = LICENSE_PROJECTION_EVENT) && (schema_version e =? PROJECTION_SCHEMA_VERSION) &&
  (length (license_id e) =? 16)%nat &&
  one_of ["active"; "suspended"; "expired"; "revoked"] (license_status e) &&
  (0 <=? seats_used e) && (0 <? proj_version e) && (0 <=? occurred_at e) &&
  is_none_or (fun v => 0 <=? v) (last_seen_at e) &&
  is_none_or MachineProjection.is_valid (machine e).
End ProjectionEvent.
Notation ProjectionEvent := ProjectionEvent.ProjectionEvent.

#[global] Instance MachineProjection_eq_dec : EqDecision MachineProjection.
Proof. solve_decision. Defined.
#[global] Instance ProjectionEvent_eq_dec : EqDecision ProjectionEvent.
Proof. solve_decision. Defined.

(** ** Histories *)

(** The last projection of a machine in a history. *)
Definition concerns (id : list byte) (e : ProjectionEvent) : option MachineProjection :=
  match ProjectionEvent.machine e with
  | Some m => if bool_decide (MachineProjection.machine_id m = id) then Some m else None
  | None => None
  end.
Definition last_of (id : list byte) (es : list ProjectionEvent) : option MachineProjection :=
  last (omap (concerns id) es).
