(* ===== verification/Projection.v ===== *)
(** * The read model of licences ([crates/copylocker-worker/src/projection.rs])

    A consumer of the queue writes each projection into the database: a licence's columns and a
    machine's row, each only when the event is newer than what the row shows.  The queue delivers
    at least once and in any order; what the rows show in the end depends on neither. *)

From S2P Require Import Prelude Types Cbor Events.

(** ** Rows *)
Module LicenseRow.
(** The columns of [licenses] that a projection writes. *)
Record LicenseRow := mk {
  status : string; seats_used : Z; last_seen_at : option Z; updated_at : Z; proj_version : Z }.
End LicenseRow.
Notation LicenseRow := LicenseRow.LicenseRow.

Module MachineRow.
(** A row of [machines]; its other columns are those of the projection. *)
Record MachineRow := mk { license_id : list byte; columns : MachineProjection; proj_version : Z }.
End MachineRow.
Notation MachineRow := MachineRow.MachineRow.

Module Database.
Record Database := mk {
  licenses : gmap (list byte) LicenseRow; machines : gmap (list byte) MachineRow }.
End Database.
Notation Database := Database.Database.

(** ** Statements *)

(** A number that JavaScript cannot hold exactly is refused when the statement is built. *)
Definition integer (v : Z) : option Z :=
  if (- MAX_SAFE_INTEGER <=? v) && (v <=? MAX_SAFE_INTEGER) then Some v else None.
Definition optional_integer (v : option Z) : option (option Z) :=
  match v with None => Some None | Some v => match integer v with Some v => Some (Some v) | None => None end end.

Definition machine_statement (e : ProjectionEvent) (m : MachineProjection) : option (Database -> Database) :=
  first_seen_at ← integer (MachineProjection.first_seen_at m);
  last_seen_at ← optional_integer (MachineProjection.last_seen_at m);
  variant_id ← optional_integer (MachineProjection.variant_id m);
  suspicion ← integer (MachineProjection.suspicion m);
  version ← integer (ProjectionEvent.proj_version e);
  let row := MachineRow.mk (ProjectionEvent.license_id e)
    (MachineProjection.mk (MachineProjection.machine_id m) (MachineProjection.fingerprint m) (MachineProjection.status m)
       (MachineProjection.activation_path m) first_seen_at last_seen_at (MachineProjection.os m) (MachineProjection.arch m)
       (MachineProjection.app_version m) (MachineProjection.sdk_version m) (MachineProjection.release_id m) variant_id
       (MachineProjection.build_fp m) (MachineProjection.geo_country m) suspicion) version in
  Some (fun db =>
    match Database.machines db !! MachineProjection.machine_id m with
    | Some old => if MachineRow.proj_version old <? version
                  then Database.mk (Database.licenses db) (<[MachineProjection.machine_id m := row]> (Database.machines db))
                  else db
    | None => Database.mk (Database.licenses db) (<[MachineProjection.machine_id m := row]> (Database.machines db))
    end).

Definition license_statement (e : ProjectionEvent) : option (Database -> Database) :=
  seats_used ← integer (ProjectionEvent.seats_used e);
  last_seen_at ← optional_integer (ProjectionEvent.last_seen_at e);
  updated_at ← integer (ProjectionEvent.occurred_at e);
  version ← integer (ProjectionEvent.proj_version e);
  Some (fun db =>
    match Database.licenses db !! ProjectionEvent.license_id e with
    | Some old => if LicenseRow.proj_version old <? version
                  then Database.mk (<[ProjectionEvent.license_id e :=
                         LicenseRow.mk (ProjectionEvent.license_status e) seats_used last_seen_at updated_at version]>
                         (Database.licenses db)) (Database.machines db)
                  else db
    | None => db
    end).

(** [None] is an error: the batch is one transaction, and the statements are built before it. *)
Definition apply (db : Database) (e : ProjectionEvent) : option Database :=
  machine ← match ProjectionEvent.machine e with
             | Some m => option_map Some (machine_statement e m)
             | None => Some None
             end;
  license ← license_statement e;
  Some (license (match machine with Some f => f db | None => db end)).

(** The consumer's branch for projections: an event that fails is delivered again. *)
Inductive Disposition := Ack | Retry.
Definition consume (db : Database) (e : ProjectionEvent) : Database * Disposition :=
  if ProjectionEvent.is_valid e then
    match apply db e with Some db => (db, Ack) | None => (db, Retry) end
  else (db, Ack).
Definition deliver (db : Database) (es : list ProjectionEvent) : Database :=
  fold_left (fun db e => (consume db e).1) es db.

(** ** What is written *)
Definition safe (v : Z) : bool := (- MAX_SAFE_INTEGER <=? v) && (v <=? MAX_SAFE_INTEGER).
Definition storable (e : ProjectionEvent) : bool :=
  is_none_or (fun m => safe (MachineProjection.first_seen_at m) && is_none_or safe (MachineProjection.last_seen_at m) &&
    is_none_or safe (MachineProjection.variant_id m) && safe (MachineProjection.suspicion m)) (ProjectionEvent.machine e) &&
  safe (ProjectionEvent.proj_version e) && safe (ProjectionEvent.seats_used e) &&
  is_none_or safe (ProjectionEvent.last_seen_at e) && safe (ProjectionEvent.occurred_at e).

Lemma optional_integer_spec o : optional_integer o = if is_none_or safe o then Some o else None.
Proof. destruct o as [v|]; simpl; [|done]. unfold integer. fold (safe v). by destruct (safe v). Qed.

Definition license_row (e : ProjectionEvent) : LicenseRow :=
  LicenseRow.mk (ProjectionEvent.license_status e) (ProjectionEvent.seats_used e) (ProjectionEvent.last_seen_at e)
    (ProjectionEvent.occurred_at e) (ProjectionEvent.proj_version e).
Definition machine_row (e : ProjectionEvent) (m : MachineProjection) : MachineRow :=
  MachineRow.mk (ProjectionEvent.license_id e) m (ProjectionEvent.proj_version e).

(** The two guarded writes. *)
Definition put_machine (e : ProjectionEvent) (m : MachineProjection) (rows : gmap (list byte) MachineRow) :=
  match rows !! MachineProjection.machine_id m with
  | Some old => if MachineRow.proj_version old <? ProjectionEvent.proj_version e
                then <[MachineProjection.machine_id m := machine_row e m]> rows else rows
  | None => <[MachineProjection.machine_id m := machine_row e m]> rows
  end.
Definition put_license (e : ProjectionEvent) (rows : gmap (list byte) LicenseRow) :=
  match rows !! ProjectionEvent.license_id e with
  | Some old => if LicenseRow.proj_version old <? ProjectionEvent.proj_version e
                then <[ProjectionEvent.license_id e := license_row e]> rows else rows
  | None => rows
  end.

(** The transaction in one equation: all of it when every number fits, none of it otherwise. *)
Lemma apply_spec db e : apply db e =
  if storable e then
    Some (Database.mk (put_license e (Database.licenses db))
            (match ProjectionEvent.machine e with Some m => put_machine e m (Database.machines db)
             | None => Database.machines db end))
  else None.
Proof.
  unfold apply, license_statement, machine_statement, storable, put_license.
  destruct (ProjectionEvent.machine e) as [m|]; simpl; unfold integer; rewrite !optional_integer_spec;
    repeat match goal with |- context [(- MAX_SAFE_INTEGER <=? ?v) && (?v <=? MAX_SAFE_INTEGER)] => fold (safe v) end.
  - destruct (safe (MachineProjection.first_seen_at m)), (is_none_or safe (MachineProjection.last_seen_at m)),
      (is_none_or safe (MachineProjection.variant_id m)), (safe (MachineProjection.suspicion m)); simpl; try done.
    destruct (safe (ProjectionEvent.proj_version e)), (safe (ProjectionEvent.seats_used e)),
      (is_none_or safe (ProjectionEvent.last_seen_at e)), (safe (ProjectionEvent.occurred_at e)); simpl; try done.
    unfold put_machine, machine_row, license_row. destruct m, db. simpl in *. repeat (case_match; simplify_eq/=); done.
  - destruct (safe (ProjectionEvent.proj_version e)), (safe (ProjectionEvent.seats_used e)),
      (is_none_or safe (ProjectionEvent.last_seen_at e)), (safe (ProjectionEvent.occurred_at e)); simpl; try done.
    unfold license_row. destruct db. simpl in *. repeat (case_match; simplify_eq/=); done.
Qed.

(** ** Deliveries *)
Lemma consume_fine db e : ProjectionEvent.is_valid e = true -> storable e = true ->
  consume db e = (Database.mk (put_license e (Database.licenses db))
    (match ProjectionEvent.machine e with Some m => put_machine e m (Database.machines db)
     | None => Database.machines db end), Ack).
Proof. intros Hv Hs. unfold consume. by rewrite Hv, apply_spec, Hs. Qed.

Lemma deliver_snoc db es e : deliver db (es ++ [e]) = (consume (deliver db es) e).1.
Proof. unfold deliver. by rewrite fold_left_app. Qed.

Definition deliverable (license : list byte) (e : ProjectionEvent) : Prop :=
  ProjectionEvent.is_valid e = true /\ storable e = true /\ ProjectionEvent.license_id e = license.

(** A licence's row shows the newest event delivered so far. *)
Lemma deliver_license license db r0 es : Database.licenses db !! license = Some r0 ->
  Forall (deliverable license) es ->
  exists row, Database.licenses (deliver db es) !! license = Some row /\
    LicenseRow.proj_version r0 <= LicenseRow.proj_version row /\
    (row = r0 \/ exists e, e ∈ es /\ row = license_row e) /\
    forall e, e ∈ es -> ProjectionEvent.proj_version e <= LicenseRow.proj_version row.
Proof.
  intros H0. induction es as [|e es IH] using rev_ind; intros Hes; [exists r0; split_and!; [done|done|by left|by intros e He%not_elem_of_nil]|].
  apply Forall_app in Hes as [Hes (Hv & Hs & Hl)%Forall_singleton].
  destruct (IH Hes) as (row & Hrow & Hge & Hshow & Hmax). rewrite deliver_snoc, (consume_fine _ e Hv Hs). simpl.
  unfold put_license. rewrite Hl, Hrow. destruct (Z.ltb_spec (LicenseRow.proj_version row) (ProjectionEvent.proj_version e)).
  - exists (license_row e). rewrite lookup_insert_eq. split_and!; [done|simpl; lia|right; exists e; set_solver|].
    intros e' [He'|He'%list_elem_of_singleton]%elem_of_app; [apply Hmax in He'; simpl; lia|by subst].
  - exists row. split_and!; [done|done| |].
    + destruct Hshow as [->|(e' & He' & ->)]; [by left|right; exists e'; set_solver].
    + intros e' [He'|He'%list_elem_of_singleton]%elem_of_app; [by apply Hmax|by subst].
Qed.

Definition shows_machine (id : list byte) (es : list ProjectionEvent) (o : option MachineRow) : Prop :=
  match o with
  | None => forall e, e ∈ es -> concerns id e = None
  | Some row => exists e m, e ∈ es /\ concerns id e = Some m /\ row = machine_row e m /\
      forall e' m', e' ∈ es -> concerns id e' = Some m' -> ProjectionEvent.proj_version e' <= ProjectionEvent.proj_version e
  end.

Lemma concerns_spec id e m : concerns id e = Some m <->
  ProjectionEvent.machine e = Some m /\ MachineProjection.machine_id m = id.
Proof.
  unfold concerns. destruct (ProjectionEvent.machine e) as [m'|]; [|naive_solver]. case_bool_decide; naive_solver.
Qed.

Lemma shows_other id e es o : concerns id e = None -> shows_machine id es o -> shows_machine id (es ++ [e]) o.
Proof.
  intros Hn. destruct o as [row|]; simpl.
  - intros (e0 & m & He & Hc & -> & Hmax). exists e0, m. split_and!; [set_solver|done|done|].
    intros e' m' [He'|He'%list_elem_of_singleton]%elem_of_app Hc'; [by eapply Hmax|congruence].
  - intros H e' [He'|He'%list_elem_of_singleton]%elem_of_app; [by apply H|congruence].
Qed.

(** A machine's row shows the newest event about the machine delivered so far. *)
Lemma deliver_machine license id db es : Database.machines db !! id = None -> Forall (deliverable license) es ->
  shows_machine id es (Database.machines (deliver db es) !! id).
Proof.
  intros H0. induction es as [|e es IH] using rev_ind; intros Hes; [simpl; rewrite H0; by intros e He%not_elem_of_nil|].
  apply Forall_app in Hes as [Hes (Hv & Hs & _)%Forall_singleton]. specialize (IH Hes).
  rewrite deliver_snoc, (consume_fine _ e Hv Hs). simpl. destruct (ProjectionEvent.machine e) as [m|] eqn:Hm.
  2: { apply shows_other; [unfold concerns; by rewrite Hm|done]. }
  set (rows := Database.machines (deliver db es)) in *. clearbody rows. unfold put_machine.
  destruct (decide (MachineProjection.machine_id m = id)) as [Hid|Hne].
  - assert (Hc : concerns id e = Some m) by (by apply concerns_spec). rewrite Hid.
    assert (Hnew : (forall e' m', e' ∈ es -> concerns id e' = Some m' -> ProjectionEvent.proj_version e' <= ProjectionEvent.proj_version e) ->
      shows_machine id (es ++ [e]) (Some (machine_row e m))).
    { intros Hmax. exists e, m. split_and!; [set_solver|done|done|].
      intros e' m' [He'|He'%list_elem_of_singleton]%elem_of_app Hc'; [by eapply Hmax|by subst]. }
    destruct (rows !! id) as [old|] eqn:Ho; [|rewrite lookup_insert_eq; apply Hnew; intros e' m' He' Hc'; by rewrite (IH e' He') in Hc'].
    destruct IH as (e0 & m0 & He0 & Hc0 & -> & Hmax). simpl.
    destruct (Z.ltb_spec (ProjectionEvent.proj_version e0) (ProjectionEvent.proj_version e)).
    + rewrite lookup_insert_eq. apply Hnew. intros e' m' He' Hc'. specialize (Hmax e' m' He' Hc'). lia.
    + rewrite Ho. exists e0, m0. split_and!; [set_solver|done|done|].
      intros e' m' [He'|He'%list_elem_of_singleton]%elem_of_app Hc'; [by eapply Hmax|by subst].
  - assert (Hn : concerns id e = None) by (unfold concerns; rewrite Hm; by rewrite bool_decide_eq_false_2).
    apply shows_other; [done|]. repeat case_match; rewrite ?lookup_insert_ne by done; done.
Qed.

(** ** Convergence *)

(** A history numbers its events from one. *)
Definition numbered (es : list ProjectionEvent) : Prop :=
  forall i e, es !! i = Some e -> ProjectionEvent.proj_version e = Z.of_nat i + 1.

Lemma numbered_le es e e' : numbered es -> e ∈ es -> last es = Some e' ->
  ProjectionEvent.proj_version e <= ProjectionEvent.proj_version e'.
Proof.
  intros Hn He Hl. apply list_elem_of_lookup in He as (i & Hi). rewrite last_lookup in Hl.
  rewrite (Hn _ _ Hi), (Hn _ _ Hl). apply lookup_lt_Some in Hi. lia.
Qed.

Lemma numbered_unique es e e' : numbered es -> e ∈ es -> e' ∈ es ->
  ProjectionEvent.proj_version e = ProjectionEvent.proj_version e' -> e = e'.
Proof.
  intros Hn He He' Heq. apply list_elem_of_lookup in He as (i & Hi). apply list_elem_of_lookup in He' as (j & Hj).
  rewrite (Hn _ _ Hi), (Hn _ _ Hj) in Heq. assert (i = j) as -> by lia. congruence.
Qed.

(** The last projection of a machine is that of the newest event about it. *)
Lemma last_of_newest id es m : numbered es -> last_of id es = Some m ->
  exists e, e ∈ es /\ concerns id e = Some m /\
    forall e' m', e' ∈ es -> concerns id e' = Some m' -> ProjectionEvent.proj_version e' <= ProjectionEvent.proj_version e.
Proof.
  induction es as [|e es IH] using rev_ind; [done|]. intros Hn. unfold last_of. rewrite omap_app. simpl.
  assert (Hn' : numbered es).
  { intros i x Hx. apply Hn. rewrite lookup_app_l; [done|]. by eapply lookup_lt_Some. }
  destruct (concerns id e) as [m'|] eqn:Hc.
  - rewrite last_snoc. intros [= ->]. exists e. split_and!; [set_solver|done|]. intros e' m'' He' _.
    eapply numbered_le; [exact Hn|exact He'|by rewrite last_snoc].
  - rewrite app_nil_r. intros Hl. destruct (IH Hn' Hl) as (e0 & He0 & Hc0 & Hmax). exists e0. split_and!; [set_solver|done|].
    intros e' m' [He'|He'%list_elem_of_singleton]%elem_of_app Hc'; [by eapply Hmax|congruence].
Qed.

Lemma deliveries_converge license db r0 hist ds : Database.licenses db !! license = Some r0 ->
  LicenseRow.proj_version r0 = 0 -> numbered hist -> Forall (deliverable license) hist ->
  (forall e, e ∈ ds <-> e ∈ hist) ->
  (forall e, last hist = Some e -> Database.licenses (deliver db ds) !! license = Some (license_row e)) /\
  forall id m, Database.machines db !! id = None -> last_of id hist = Some m ->
    exists v, Database.machines (deliver db ds) !! id = Some (MachineRow.mk license m v).
Proof.
  intros H0 Hr0 Hn Hok Hds. assert (Hds' : Forall (deliverable license) ds).
  { apply Forall_forall. intros e He. rewrite Forall_forall in Hok. by apply Hok, Hds. }
  split.
  - intros e Hl. destruct (deliver_license license db r0 ds H0 Hds') as (row & Hrow & _ & Hshow & Hmax). rewrite Hrow. f_equal.
    assert (He : e ∈ hist) by (by apply last_Some_elem_of). assert (Hpos : 0 < ProjectionEvent.proj_version e).
    { apply list_elem_of_lookup in He as (i & Hi). rewrite (Hn _ _ Hi). lia. }
    pose proof (Hmax e (proj2 (Hds e) He)) as Hge. destruct Hshow as [->|(e' & He' & ->)]; [lia|]. f_equal. simpl in Hge. apply Hds in He'.
    apply (numbered_unique hist); [done..|]. pose proof (numbered_le _ _ _ Hn He' Hl). lia.
  - intros id m Hid Hl. destruct (last_of_newest id hist m Hn Hl) as (e & He & Hc & Hmax).
    pose proof (deliver_machine license id db ds Hid Hds') as Hshow.
    destruct (Database.machines (deliver db ds) !! id) as [row|]; simpl in Hshow.
    + destruct Hshow as (e' & m' & He' & Hc' & -> & Hmax'). apply Hds in He'.
      assert (e' = e) as ->.
      { apply (numbered_unique hist); [done..|]. apply Z.le_antisymm; [by eapply Hmax|]. eapply Hmax'; [by apply Hds|exact Hc]. }
      rewrite Hc in Hc'. injection Hc' as <-. rewrite Forall_forall in Hok. destruct (Hok e He) as (_ & _ & <-). by eexists.
    + apply Hds in He. by rewrite (Hshow e He) in Hc.
Qed.
