(* ===== verification/LicenseTables.v ===== *)
(** * The tables of a licence object
      ([crates/copylocker-worker/src/durable/license.rs]: schema, rows, messages)

    A licence's durable object keeps its state in an SQL database of six tables.  [meta] is a map
    from keys to values; the other tables are lists of rows in insertion order, the order in
    which the statements here return rows when they give none.  An SQL statement is a function
    on tables; a statement that violates a key constraint throws.  Integers are exact: the runtime
    carries them as doubles, exact up to 2^53. *)

From S2P Require Import Prelude Types Cbor Field Messages Events.

(** ** Values and rows *)
Inductive SqlStorageValue :=
| SqlInteger (z : Z)
| SqlText (s : string)
| SqlBlob (b : list byte).

Definition STATUS_ACTIVE : Z := 0.
Definition STATUS_RELEASED : Z := 1.
Definition STATUS_REVOKED : Z := 2.
Definition STATUS_PENDING : Z := 3.
Definition PENDING_TTL_SECS : Z := 60.
Definition DEFAULT_NONCE_TTL_SECS : Z := 48 * 60 * 60.
Definition IDEMPOTENCY_TTL_SECS : Z := 24 * 60 * 60.
Definition RELEASED_RETENTION_SECS : Z := 90 * 24 * 60 * 60.
Definition MAX_INTERNAL_BODY : Z := 64 * 1024.
Definition LICENSE_SCHEMA_VERSION : Z := 4.
Definition MAX_CREDENTIAL_STATE : Z := 256.
Definition OUTBOX_BATCH_SIZE : nat := 100.
Definition OPERATION_HASH_LABEL : list byte := text_bytes "copylocker/license-operation/v1".
Definition ANOMALY_WINDOW_SECS : Z := 24 * 60 * 60.

(** A row of [activations]. *)
Module Activation.
Record Activation := mk {
  machine_id : list byte; fingerprint : list byte; attrs : option (list byte);
  device_kem_ek : list byte; device_sig_vk : list byte; status : Z; activation_path : string;
  release_id : option string; variant_id : option Z; created_at : Z; last_seen_at : option Z;
  last_hb_at : option Z; refresh_after : option Z; not_after : option Z; build_fp : option string;
  app_version : option string; geo : option string; transfer_count : Z; os : option string;
  arch : option string; sdk_version : option string; suspicion : Z;
  credential_state : option (list byte);
}.

(** [COALESCE(last_seen_at, created_at)] and [COALESCE(last_hb_at, last_seen_at, created_at)]. *)
Definition seen (a : Activation) : Z := default (created_at a) (last_seen_at a).
Definition beat (a : Activation) : Z := default (seen a) (last_hb_at a).

(** [status IN (0, 3)]. *)
Definition occupies (a : Activation) : bool :=
  (status a =? STATUS_ACTIVE) || (status a =? STATUS_PENDING).

Definition set_status_seen (s : Z) (now : Z) (a : Activation) : Activation :=
  mk (machine_id a) (fingerprint a) (attrs a) (device_kem_ek a) (device_sig_vk a) s (activation_path a)
    (release_id a) (variant_id a) (created_at a) (Some now) (last_hb_at a) (refresh_after a) (not_after a)
    (build_fp a) (app_version a) (geo a) (transfer_count a) (os a) (arch a) (sdk_version a) (suspicion a)
    (credential_state a).
Definition add_transfer (a : Activation) : Activation :=
  mk (machine_id a) (fingerprint a) (attrs a) (device_kem_ek a) (device_sig_vk a) (status a)
    (activation_path a) (release_id a) (variant_id a) (created_at a) (last_seen_at a) (last_hb_at a)
    (refresh_after a) (not_after a) (build_fp a) (app_version a) (geo a) (transfer_count a + 1) (os a)
    (arch a) (sdk_version a) (suspicion a) (credential_state a).
Definition set_beat (now : Z) (a : Activation) : Activation :=
  mk (machine_id a) (fingerprint a) (attrs a) (device_kem_ek a) (device_sig_vk a) (status a)
    (activation_path a) (release_id a) (variant_id a) (created_at a) (Some now) (Some now)
    (refresh_after a) (not_after a) (build_fp a) (app_version a) (geo a) (transfer_count a) (os a)
    (arch a) (sdk_version a) (suspicion a) (credential_state a).
Definition set_validated (now refresh not_after_ : Z) (variant : option Z) (a : Activation) : Activation :=
  mk (machine_id a) (fingerprint a) (attrs a) (device_kem_ek a) (device_sig_vk a) (status a)
    (activation_path a) (release_id a) (match variant with Some v => Some v | None => variant_id a end)
    (created_at a) (Some now) (last_hb_at a) (Some refresh) (Some not_after_) (build_fp a) (app_version a)
    (geo a) (transfer_count a) (os a) (arch a) (sdk_version a) (suspicion a) (credential_state a).
Definition set_suspicion (s : Z) (a : Activation) : Activation :=
  mk (machine_id a) (fingerprint a) (attrs a) (device_kem_ek a) (device_sig_vk a) (status a)
    (activation_path a) (release_id a) (variant_id a) (created_at a) (last_seen_at a) (last_hb_at a)
    (refresh_after a) (not_after a) (build_fp a) (app_version a) (geo a) (transfer_count a) (os a)
    (arch a) (sdk_version a) s (credential_state a).
End Activation.
Notation Activation := Activation.Activation.

Module Transfer.
Record Transfer := mk { machine_id : list byte; action : Z; at_ : Z }.
End Transfer.
Notation Transfer := Transfer.Transfer.

(** A row of [outbox]; its [id] is the position at which it was inserted, from 1. *)
Module OutboxRow.
Record OutboxRow := mk { id : Z; kind : string; payload : list byte; created_at : Z; sent_at : option Z }.
Definition mark_sent (now : Z) (r : OutboxRow) : OutboxRow :=
  mk (id r) (kind r) (payload r) (created_at r) (Some now).
End OutboxRow.
Notation OutboxRow := OutboxRow.OutboxRow.

Module IdemRow.
Record IdemRow := mk {
  key : string; resp : list byte; created_at : Z; kind : option string; request_hash : option (list byte);
}.
Definition set_resp (b : list byte) (r : IdemRow) : IdemRow :=
  mk (key r) b (created_at r) (kind r) (request_hash r).
End IdemRow.
Notation IdemRow := IdemRow.IdemRow.

(** ** The database with the object's alarm *)
Module Tables.
Record Tables := mk {
  meta : gmap string SqlStorageValue;
  activations : list Activation;
  nonces : list (list byte * Z);
  transfers : list Transfer;
  outbox : list OutboxRow;
  idem : list IdemRow;
  alarm : option Z;
}.
Definition empty_ : Tables := mk ∅ [] [] [] [] [] None.
Definition set_meta (m : gmap string SqlStorageValue) (t : Tables) : Tables :=
  mk m (activations t) (nonces t) (transfers t) (outbox t) (idem t) (alarm t).
Definition set_activations (l : list Activation) (t : Tables) : Tables :=
  mk (meta t) l (nonces t) (transfers t) (outbox t) (idem t) (alarm t).
Definition set_nonces (l : list (list byte * Z)) (t : Tables) : Tables :=
  mk (meta t) (activations t) l (transfers t) (outbox t) (idem t) (alarm t).
Definition set_transfers (l : list Transfer) (t : Tables) : Tables :=
  mk (meta t) (activations t) (nonces t) l (outbox t) (idem t) (alarm t).
Definition set_outbox (l : list OutboxRow) (t : Tables) : Tables :=
  mk (meta t) (activations t) (nonces t) (transfers t) l (idem t) (alarm t).
Definition set_idem (l : list IdemRow) (t : Tables) : Tables :=
  mk (meta t) (activations t) (nonces t) (transfers t) (outbox t) l (alarm t).
Definition set_alarm (a : option Z) (t : Tables) : Tables :=
  mk (meta t) (activations t) (nonces t) (transfers t) (outbox t) (idem t) a.
End Tables.
Notation Tables := Tables.Tables.

(** ** Statements *)

(** [UPDATE … SET … WHERE]; [SELECT MIN(…)] and [MAX(…)] over the selected rows. *)
Definition update_where {A} (p : A -> bool) (f : A -> A) (rows : list A) : list A :=
  map (fun r => if p r then f r else r) rows.
Definition delete_where {A} (p : A -> bool) (rows : list A) : list A :=
  List.filter (fun r => negb (p r)) rows.

Fixpoint min_of (l : list Z) : option Z :=
  match l with
  | [] => None
  | x :: l => Some (match min_of l with Some y => Z.min x y | None => x end)
  end.
Fixpoint max_of (l : list Z) : option Z :=
  match l with
  | [] => None
  | x :: l => Some (match max_of l with Some y => Z.max x y | None => x end)
  end.

Definition count_where {A} (p : A -> bool) (rows : list A) : Z := Z.of_nat (count_if p rows).

(** [COUNT(DISTINCT …)]. *)
Definition count_distinct {A} `{EqDecision A} (l : list A) : Z := Z.of_nat (length (remove_dups l)).

(** [ORDER BY status, created_at LIMIT 1]; of equal rows the first inserted. *)
Definition ordered_before (a b : Activation) : bool :=
  (Activation.status a <? Activation.status b) ||
  ((Activation.status a =? Activation.status b) && (Activation.created_at a <=? Activation.created_at b)).
Fixpoint first_ordered (rows : list Activation) : option Activation :=
  match rows with
  | [] => None
  | r :: rows => match first_ordered rows with
                 | Some s => Some (if ordered_before r s then r else s)
                 | None => Some r
                 end
  end.

(** ** Messages *)
Module InitRequest.
Record InitRequest := mk {
  license_id : list byte; product_id : string; suite_id : list byte; seats : Z;
  heartbeat_sec : option Z; expires_at : option Z; nonce_ttl_sec : option Z;
}.
End InitRequest.
Notation InitRequest := InitRequest.InitRequest.

Module AdminUpdateRequest.
Record AdminUpdateRequest := mk {
  license_id : list byte; operation_id : string; version : Z; status : string; seats : Z;
  heartbeat_sec : option Z; expires_at : option Z;
}.
End AdminUpdateRequest.
Notation AdminUpdateRequest := AdminUpdateRequest.AdminUpdateRequest.

Module AdminForgetRequest.
Record AdminForgetRequest := mk { license_id : list byte; machine_id : list byte; operation_id : string }.
End AdminForgetRequest.
Notation AdminForgetRequest := AdminForgetRequest.AdminForgetRequest.

Module ReserveRequest.
Record ReserveRequest := mk {
  idempotency_key : string; request_hash : option (list byte); machine_id : list byte;
  fingerprint : list byte; attrs : option (list byte); device_kem_ek : list byte;
  device_sig_vk : list byte; activation_path : string; release_id : string; variant_id : Z;
  refresh_after : Z; not_after : Z; build_fp : option string; app_version : option string;
  os : option string; arch : option string; sdk_version : option string; geo : option string;
  credential_state : option (list byte); authoritative_security_floor : Z;
}.
End ReserveRequest.
Notation ReserveRequest := ReserveRequest.ReserveRequest.

Module CompleteRequest.
Record CompleteRequest := mk {
  idempotency_key : string; request_hash : list byte; machine_id : list byte;
  activation_envelope : list byte;
}.
End CompleteRequest.
Notation CompleteRequest := CompleteRequest.CompleteRequest.

Module AuthenticatedMachineRequest.
Record AuthenticatedMachineRequest := mk {
  license_id : list byte; machine_id : list byte; suite_id : list byte; nonce : list byte;
  proof_input : list byte; proof : list byte; idempotency_key : string;
}.
End AuthenticatedMachineRequest.
Notation AuthenticatedMachineRequest := AuthenticatedMachineRequest.AuthenticatedMachineRequest.

Module ValidateMachineRequest.
Record ValidateMachineRequest := mk {
  auth : AuthenticatedMachineRequest; known_revocation_epoch : Z; authoritative_revocation_epoch : Z;
  known_security_floor : Z; next_refresh_after : Z; not_after : Z; variant_id : option Z;
  authoritative_security_floor : Z;
}.
End ValidateMachineRequest.
Notation ValidateMachineRequest := ValidateMachineRequest.ValidateMachineRequest.

Inductive RevokeKind := RevokeLicense | RevokeMachine.
Inductive RevokeSubject := SubjectLicense | SubjectMachine (id : list byte).
Module RevokeRequest.
Record RevokeRequest := mk {
  license_id : list byte; kind : RevokeKind; machine_id : option (list byte); revocation_epoch : Z;
}.
End RevokeRequest.
Notation RevokeRequest := RevokeRequest.RevokeRequest.

Module ReserveMaterial.
Record ReserveMaterial := mk {
  attrs : option (list byte); device_kem_ek : list byte; device_sig_vk : list byte;
  activation_path : string; release_id : string; variant_id : Z; refresh_after : Z; not_after : Z;
  build_fp : option string; app_version : option string; os : option string; arch : option string;
  sdk_version : option string; geo : option string;
}.
(** [i64::try_from(variant_id).unwrap_or(i64::MAX)]. *)
Definition from_ (i : ReserveRequest) : ReserveMaterial :=
  mk (ReserveRequest.attrs i) (ReserveRequest.device_kem_ek i) (ReserveRequest.device_sig_vk i)
    (ReserveRequest.activation_path i) (ReserveRequest.release_id i)
    (try_into_or i64_max (ReserveRequest.variant_id i) i64_max) (ReserveRequest.refresh_after i)
    (ReserveRequest.not_after i) (ReserveRequest.build_fp i) (ReserveRequest.app_version i)
    (ReserveRequest.os i) (ReserveRequest.arch i) (ReserveRequest.sdk_version i) (ReserveRequest.geo i).
End ReserveMaterial.
Notation ReserveMaterial := ReserveMaterial.ReserveMaterial.

Module ReserveResponse.
Record ReserveResponse := mk {
  ok : bool; machine_id : list byte; reused_existing : bool; status : string; revocation_epoch : Z;
  security_floor : Z; variant_id : Z; refresh_after : Z; not_after : Z; build_fp : option string;
  fingerprint : list byte; credential_state : option (list byte);
  activation_envelope : option (list byte); material : option ReserveMaterial;
}.
Definition completed (envelope : list byte) (r : ReserveResponse) : ReserveResponse :=
  mk (ok r) (machine_id r) (reused_existing r) "active" (revocation_epoch r) (security_floor r)
    (variant_id r) (refresh_after r) (not_after r) (build_fp r) (fingerprint r) (credential_state r)
    (Some envelope) (material r).
End ReserveResponse.
Notation ReserveResponse := ReserveResponse.ReserveResponse.

Module SuspicionContribution.
Record SuspicionContribution := mk { signal : string; points : Z; max : Z }.
End SuspicionContribution.
Notation SuspicionContribution := SuspicionContribution.SuspicionContribution.

Module ValidateStateResponse.
Record ValidateStateResponse := mk {
  ok : bool; outcome : string; kill_reason : option Z; revocation_epoch : Z; security_floor : Z;
  suspicion : Z; previous_suspicion : Z; suspicion_contributions : option (list SuspicionContribution);
  fingerprint : option (list byte); credential_state : option (list byte); activation_path : option string;
}.
End ValidateStateResponse.
Notation ValidateStateResponse := ValidateStateResponse.ValidateStateResponse.

(** The columns [authenticate_device] selects. *)
Module AuthenticatedActivation.
Record AuthenticatedActivation := mk {
  device_sig_vk : list byte; status : Z; suspicion : Z; fingerprint : list byte;
  credential_state : option (list byte); activation_path : string;
}.
Definition of_row (a : Activation) : AuthenticatedActivation :=
  mk (Activation.device_sig_vk a) (Activation.status a) (Activation.suspicion a)
    (Activation.fingerprint a) (Activation.credential_state a) (Activation.activation_path a).
End AuthenticatedActivation.
Notation AuthenticatedActivation := AuthenticatedActivation.AuthenticatedActivation.

(** The bodies of the object's responses. *)
Inductive Body :=
| InternalError (code : string)
| OkResponse
| AdminUpdateResponse (initialized : bool)
| AdminForgetResponse (forgotten : bool)
| Reservation (r : ReserveResponse)
| CompleteResponse (envelope : list byte)
| HeartbeatResponse (next_after : Z)
| RevokeResponse (changed : bool) (revocation_epoch : Z)
| ValidateState (r : ValidateStateResponse)
| DurableHealth (schema_version : Z)
| EmptyBody.

Record Response := response { code : Z; body : Body }.

(** ** Serialization: [serde_json] on a type, and the law its users rely on. *)
Class Json (A : Type) := { to_vec : A -> list byte; from_slice : list byte -> option A }.
Class JsonLaws A {J : Json A} : Prop := { from_to : forall a : A, from_slice (to_vec a) = Some a }.
