(* ===== verification/LicenseDO.v ===== *)
(** * The licence object ([crates/copylocker-worker/src/durable/license.rs])

    Every handler of a licence's durable object, as a function on its tables.  A handler runs
    without interruption (the object's input gate holds other events back while it waits for
    storage), reads the clock once and ends with a response or with an exception, which keeps what
    was written before it.  The alarm's handler waits for the queue between its regions and is
    composed in [LicenseRuns].  The host - the object's own identifier, the namespace, the JSON
    serializer and SQLite's casts between types - is the class [LicenseHost]. *)

From S2P Require Import Prelude Types Cbor Field Artifacts Chain Messages Requests License Anomaly Suite StdSuite Events.
From S2P Require Import LicenseTables.
Import Tables.

(** ** Handlers as state-passing programs *)
Inductive flow (A : Type) : Type :=
| Next (a : A)
| Return (r : Response)
| Throw.
Arguments Next {A} a.
Arguments Return {A} r.
Arguments Throw {A}.

Definition Do (A : Type) : Type := Tables -> Tables * flow A.
Definition ret {A} (a : A) : Do A := fun t => (t, Next a).
Definition throw {A} : Do A := fun t => (t, Throw).
Definition reply {A} (code : Z) (body : Body) : Do A := fun t => (t, Return (response code body)).
Definition internal_error {A} (code : Z) (error : string) : Do A := reply code (InternalError error).
Definition reads {A} (f : Tables -> A) : Do A := fun t => (t, Next (f t)).
Definition writes (f : Tables -> Tables) : Do unit := fun t => (f t, Next tt).
Definition bind {A B} (m : Do A) (k : A -> Do B) : Do B := fun t =>
  match m t with
  | (t', Next a) => k a t'
  | (t', Return r) => (t', Return r)
  | (t', Throw) => (t', Throw)
  end.

Declare Scope do_scope.
Delimit Scope do_scope with do.
Notation "x <~ m ;; k" := (bind m (fun x => k))
  (at level 100, m at next level, right associativity) : do_scope.
Notation "'do~' m ;; k" := (bind m (fun _ => k))
  (at level 100, m at next level, right associativity) : do_scope.
Local Open Scope do_scope.

(** [let Some(x) = o else { return … }] and [ok_or_else(error)?]. *)
Definition some_or {A} (o : option A) (otherwise : Do A) : Do A :=
  match o with Some a => ret a | None => otherwise end.

(** [if condition { return internal_error(…) }]. *)
Definition refuse_if (b : bool) (code : Z) (error : string) : Do unit :=
  if b then internal_error code error else ret tt.

Fixpoint for_rows {A} (body : A -> Do unit) (rows : list A) : Do unit :=
  match rows with [] => ret tt | r :: rows => do~ body r ;; for_rows body rows end.

(** [i64::try_from] of an unsigned integer, and under an [Option]. *)
Definition try_i64 (v : Z) : option Z := if (0 <=? v) && (v <=? i64_max) then Some v else None.
Definition try_i64_opt (o : option Z) : option (option Z) :=
  match o with
  | None => Some None
  | Some v => match try_i64 v with Some v => Some (Some v) | None => None end
  end.

Class LicenseHost := {
  own_id : string;
  id_from_name : string -> string;
  cast_integer : SqlStorageValue -> Z;
  cast_text : SqlStorageValue -> string;
  json_reservation :: Json ReserveResponse;
  json_projection :: Json ProjectionEvent;
  json_reserve_request :: Json ReserveRequest;
  json_admin_update :: Json AdminUpdateRequest;
  json_admin_forget :: Json AdminForgetRequest;
}.

Section Object.
Context `{Host : LicenseHost} `{Prim : Primitives}.

(** ** Reading and writing [meta] *)

(** A cast of a value that already has the type is that value. *)
Definition as_integer (v : SqlStorageValue) : Z :=
  match v with SqlInteger z => z | _ => cast_integer v end.
Definition as_text_ (v : SqlStorageValue) : string :=
  match v with SqlText s => s | _ => cast_text v end.

Definition upsert_meta (key : string) (value : SqlStorageValue) : Do unit :=
  writes (fun t => set_meta (<[key := value]> (meta t)) t).
Definition delete_meta (key : string) : Do unit :=
  writes (fun t => set_meta (delete key (meta t)) t).
Definition upsert_optional_i64 (key : string) (value : option Z) : Do unit :=
  match value with
  | Some v => upsert_meta key (SqlInteger v)
  | None => delete_meta key
  end.
Definition insert_or_ignore_meta (key : string) (value : SqlStorageValue) : Do unit :=
  writes (fun t => match meta t !! key with Some _ => t | None => set_meta (<[key := value]> (meta t)) t end).

Definition meta_i64 (key : string) : Do (option Z) :=
  reads (fun t => option_map as_integer (meta t !! key)).
Definition meta_text (key : string) : Do (option string) :=
  reads (fun t => option_map as_text_ (meta t !! key)).
(** A value that is not a blob does not deserialize into bytes. *)
Definition meta_blob (key : string) : Do (option (list byte)) := fun t =>
  match meta t !! key with
  | None => (t, Next None)
  | Some (SqlBlob b) => (t, Next (Some b))
  | Some _ => (t, Throw)
  end.

Definition PENDING_ADMIN_KEYS : list string :=
  ["pending_admin_update"; "pending_admin_status"; "pending_admin_seats";
   "pending_admin_heartbeat_sec"; "pending_admin_expires_at"]%string.

Definition apply_pending_admin_update : Do unit :=
  pending <~ meta_i64 "pending_admin_update" ;;
  if negb (bool_decide (pending = Some 1)) then ret tt else
  status <~ meta_text "pending_admin_status" ;;
  status <~ some_or status throw ;;
  seats <~ meta_i64 "pending_admin_seats" ;;
  seats <~ some_or seats throw ;;
  if negb (one_of ["active"; "suspended"; "expired"] status) || negb ((1 <=? seats) && (seats <=? 100000))
  then throw else
  do~ upsert_meta "status" (SqlText status) ;;
  do~ upsert_meta "seats" (SqlInteger seats) ;;
  heartbeat <~ meta_i64 "pending_admin_heartbeat_sec" ;;
  do~ upsert_optional_i64 "heartbeat_sec" heartbeat ;;
  expires_at <~ meta_i64 "pending_admin_expires_at" ;;
  do~ upsert_optional_i64 "expires_at" expires_at ;;
  for_rows delete_meta PENDING_ADMIN_KEYS.

(** ** Activations *)
Definition is_machine (id : list byte) (a : Activation) : bool := bool_decide (Activation.machine_id a = id).

Definition activation_status (machine_id : list byte) : Do (option Z) :=
  reads (fun t => option_map Activation.status (find_first (is_machine machine_id) (activations t))).

Definition activation_status_name (status : Z) : string :=
  if status =? STATUS_ACTIVE then "active"
  else if status =? STATUS_PENDING then "pending"
  else if status =? STATUS_RELEASED then "released"
  else if status =? STATUS_REVOKED then "revoked"
  else "unknown".

Definition activation_status_from_storage (status : Z) : option ActivationStatus :=
  if status =? STATUS_ACTIVE then Some ActivationStatus.Active
  else if status =? STATUS_RELEASED then Some ActivationStatus.Released
  else if status =? STATUS_REVOKED then Some ActivationStatus.Revoked
  else if status =? STATUS_PENDING then Some ActivationStatus.Pending
  else None.

Definition license_status_from_storage (status : string) : option LicenseStatus :=
  if String.eqb status "active" then Some LicenseStatus.Active
  else if String.eqb status "suspended" then Some LicenseStatus.Suspended
  else if String.eqb status "expired" then Some LicenseStatus.Expired
  else if String.eqb status "revoked" then Some LicenseStatus.Revoked
  else None.

(** [UPDATE activations … WHERE …]: the number of rows the condition selects. *)
Definition update_activations (p : Activation -> bool) (f : Activation -> Activation) : Do Z := fun t =>
  (set_activations (update_where p f (activations t)) t, Next (count_where p (activations t))).
(** The same with [RETURNING machine_id]. *)
Definition update_returning (p : Activation -> bool) (f : Activation -> Activation) : Do (list (list byte)) :=
  fun t => (set_activations (update_where p f (activations t)) t,
            Next (map Activation.machine_id (List.filter p (activations t)))).
(** [INSERT INTO activations]; [machine_id] is the primary key. *)
Definition insert_activation (a : Activation) : Do unit := fun t =>
  if existsb (is_machine (Activation.machine_id a)) (activations t) then (t, Throw)
  else (set_activations (activations t ++ [a]) t, Next tt).

Definition occupied : Do Z := reads (fun t => count_where Activation.occupies (activations t)).

(** ** Idempotency *)
Inductive OperationReplay := Completed | Conflict | Missing.

Definition has_key (key : string) (r : IdemRow) : bool := bool_decide (IdemRow.key r = key).

Definition insert_idem (r : IdemRow) : Do unit := fun t =>
  if existsb (has_key (IdemRow.key r)) (idem t) then (t, Throw)
  else (set_idem (idem t ++ [r]) t, Next tt).

Definition load_operation_response (key kind : string) (request_hash : list byte) : Do OperationReplay :=
  reads (fun t =>
    match find_first (has_key key) (idem t) with
    | None => Missing
    | Some r =>
        if bool_decide (IdemRow.kind r = Some kind) &&
           bool_decide (default [] (IdemRow.request_hash r) = request_hash)
        then Completed else Conflict
    end).

(** [serde_json::to_vec(&OkResponse { ok: true })]. *)
Definition OK_JSON : list byte := [123; 34; 111; 107; 34; 58; 116; 114; 117; 101; 125].

Definition store_operation_response (key kind : string) (request_hash : list byte) (now : Z) : Do unit :=
  insert_idem (IdemRow.mk key OK_JSON now (Some kind) (Some request_hash)).

Definition load_idempotent_response (key : string) : Do (option ReserveResponse) := fun t =>
  match find_first (has_key key) (idem t) with
  | None => (t, Next None)
  | Some r => match from_slice (IdemRow.resp r) with
              | Some v => (t, Next (Some v))
              | None => (t, Throw)
              end
  end.

Definition store_idempotent_response (key : string) (value : ReserveResponse) (request_hash : list byte)
    (now : Z) : Do unit :=
  insert_idem (IdemRow.mk key (to_vec value) now (Some "reserve"%string) (Some request_hash)).

Definition update_idempotent_response (key : string) (value : ReserveResponse) (request_hash : list byte)
    : Do unit := fun t =>
  let p r := has_key key r && bool_decide (IdemRow.kind r = Some "reserve"%string) &&
             bool_decide (IdemRow.request_hash r = Some request_hash) in
  let t' := set_idem (update_where p (IdemRow.set_resp (to_vec value)) (idem t)) t in
  if count_where p (idem t) =? 1 then (t', Next tt) else (t', Throw).

Definition delete_idem (key : string) : Do unit :=
  writes (fun t => set_idem (delete_where (has_key key) (idem t)) t).

Definition reserve_request_hash (input : ReserveRequest) : Do (list byte) :=
  match ReserveRequest.request_hash input with
  | Some h => some_or (ByteId.from_slice 32 h) throw
  | None => ret (Hash.hash_parts [OPERATION_HASH_LABEL; text_bytes "reserve"; to_vec input])
  end.

Definition authenticated_request_hash (kind : ArtifactKind) (input : AuthenticatedMachineRequest)
    : list byte :=
  Hash.hash_parts [OPERATION_HASH_LABEL; [Types.to_u8 kind];
    AuthenticatedMachineRequest.license_id input; AuthenticatedMachineRequest.machine_id input;
    AuthenticatedMachineRequest.suite_id input; AuthenticatedMachineRequest.nonce input;
    AuthenticatedMachineRequest.proof_input input; AuthenticatedMachineRequest.proof input].

(** [INSERT OR IGNORE INTO nonces]. *)
Definition record_nonce (nonce : list byte) (now : Z) : Do bool := fun t =>
  if existsb (fun n => bool_decide (n.1 = nonce)) (nonces t) then (t, Next false)
  else (set_nonces (nonces t ++ [(nonce, now)]) t, Next true).

(** ** Projections *)
Definition machine_projection (a : Activation) : MachineProjection :=
  MachineProjection.mk (Activation.machine_id a) (Activation.fingerprint a)
    (activation_status_name (Activation.status a)) (Activation.activation_path a)
    (Activation.created_at a) (Activation.last_seen_at a) (Activation.os a) (Activation.arch a)
    (Activation.app_version a) (Activation.sdk_version a) (Activation.release_id a)
    (Activation.variant_id a) (Activation.build_fp a) (Activation.geo a) (Activation.suspicion a).

Definition next_version : Do Z := fun t =>
  let v := match meta t !! "proj_version" with Some v => as_integer v + 1 | None => 1 end in
  (set_meta (<["proj_version" := SqlInteger v]> (meta t)) t, Next v).

(** [.one()]: exactly one row. *)
Definition project_machine (machine_id : list byte) : Do MachineProjection := fun t =>
  match List.filter (is_machine machine_id) (activations t) with
  | [a] => (t, Next (machine_projection a))
  | _ => (t, Throw)
  end.

Definition push_outbox (payload : list byte) (now : Z) : Do unit :=
  writes (fun t => set_outbox
    (outbox t ++ [OutboxRow.mk (Z.of_nat (length (outbox t)) + 1) "projection" payload now None]) t).

Definition append_projection (machine_id : option (list byte)) (now : Z) : Do unit :=
  version <~ next_version ;;
  license_id <~ meta_blob "license_id" ;;
  license_id <~ some_or license_id throw ;;
  license_status <~ meta_text "status" ;;
  license_status <~ some_or license_status throw ;;
  seats_used <~ occupied ;;
  last_seen_at <~ reads (fun t => max_of (map Activation.seen (activations t))) ;;
  machine <~ match machine_id with
             | None => ret None
             | Some id => m <~ project_machine id ;; ret (Some m)
             end ;;
  push_outbox (to_vec (ProjectionEvent.mk LICENSE_PROJECTION_EVENT PROJECTION_SCHEMA_VERSION license_id
    license_status seats_used last_seen_at machine version now)) now.

(** ** Anomaly scores *)
Definition anomaly_signals (seats validations_in_window expected_validations now : Z)
    : Do AnomalySignals :=
  let cutoff := sat_sub_i64 now ANOMALY_WINDOW_SECS in
  fingerprints <~ reads (fun t => count_distinct
    (map Activation.fingerprint (List.filter (fun a => cutoff <=? Activation.seen a) (activations t)))) ;;
  versions <~ reads (fun t => count_distinct (omap Activation.app_version (activations t))) ;;
  if (fingerprints <? 0) || (versions <? 0) then throw else
  ret (AnomalySignals.mk (try_into_or u32_max fingerprints u32_max)
    (try_into_or u32_max (Z.max seats 0) u32_max) false 0 validations_in_window expected_validations
    (try_into_or u32_max versions u32_max)).

Definition score_activation (seats now : Z) : Do Z :=
  signals <~ anomaly_signals seats 0 1 now ;;
  ret (AnomalyScore.score (Anomaly.score signals)).

Definition refresh_suspicion (input : ValidateMachineRequest) (now : Z)
    : Do (Z * list SuspicionContribution) :=
  window_start <~ meta_i64 "anomaly_window_start" ;;
  window_count <~ meta_i64 "anomaly_window_count" ;;
  let window_count := default 0 window_count in
  let '(window_start, window_count) :=
    match window_start with
    | Some start =>
        if (0 <=? start) && (sat_sub_i64 now start <? ANOMALY_WINDOW_SECS)
        then (start, sat_add_i64 window_count 1) else (now, 1)
    | None => (now, 1)
    end in
  do~ upsert_meta "anomaly_window_start" (SqlInteger window_start) ;;
  do~ upsert_meta "anomaly_window_count" (SqlInteger window_count) ;;
  active <~ occupied ;;
  if active <? 0 then throw else
  let interval := Z.max (sat_sub_i64 (ValidateMachineRequest.next_refresh_after input) now) 1 in
  let per_machine := Z.quot ANOMALY_WINDOW_SECS interval + 1 in
  let expected := Z.min (sat_mul_i64 per_machine (Z.max active 1)) u32_max in
  let expected_validations := try_into_or u32_max expected u32_max in
  let validations_in_window := try_into_or u32_max window_count u32_max in
  seats <~ meta_i64 "seats" ;;
  signals <~ anomaly_signals (default 0 seats) validations_in_window expected_validations now ;;
  let scored := Anomaly.score signals in
  ret (AnomalyScore.score scored,
       map (fun c => SuspicionContribution.mk (Contribution.signal c) (Contribution.points c)
                       (Contribution.max c)) (AnomalyScore.contributions scored)).

(** ** Time limits *)

(** The alarm is set for the earliest deadline, at once when that is past. *)
Definition nonce_deadline (t : Tables) : option Z :=
  match option_map as_integer (meta t !! "nonce_ttl_sec") with
  | Some ttl => min_of (map (fun n => n.2 + ttl) (nonces t))
  | None => None
  end.

Definition unsent (r : OutboxRow) : bool := bool_decide (OutboxRow.sent_at r = None).
Definition has_status (s : Z) (a : Activation) : bool := Activation.status a =? s.

Definition deadlines (now : Z) (t : Tables) : list (option Z) :=
  [ min_of (map (fun _ => now) (List.filter unsent (outbox t)));
    min_of (map (fun a => Activation.created_at a + 60)
      (List.filter (has_status STATUS_PENDING) (activations t)));
    nonce_deadline t;
    min_of (map (fun r => IdemRow.created_at r + 86400) (idem t));
    min_of (map (fun a => Activation.seen a + 7776000)
      (List.filter (has_status STATUS_RELEASED) (activations t))) ] ++
  match option_map as_integer (meta t !! "heartbeat_sec") with
  | Some heartbeat => [min_of (map (fun a => Activation.beat a + sat_mul_i64 heartbeat 3)
      (List.filter (has_status STATUS_ACTIVE) (activations t)))]
  | None => []
  end ++
  (if bool_decide (option_map as_text_ (meta t !! "status") = Some "active"%string)
   then [option_map as_integer (meta t !! "expires_at")] else []).

Definition schedule_next_alarm (now : Z) : Do unit :=
  writes (fun t =>
    set_alarm
      match min_of (omap id (deadlines now t)) with
      | Some next => Some (now + Z.max 0 (sat_sub_i64 next now))
      | None => None
      end t).

(** ** Authentication of a device *)
Definition proof_input_matches (kind : ArtifactKind) (input : AuthenticatedMachineRequest) : bool :=
  match Parser.decode_canonical (AuthenticatedMachineRequest.proof_input input) CLIENT_LIMITS with
  | Err _ => false
  | Ok value =>
      let bytes_at k b := bool_decide ((v ← CborValue.get value k; CborValue.as_bytes v) = Some b) in
      let matches license_key machine_key proof_key :=
        match CborValue.as_map value with Some _ => true | None => false end &&
        match CborValue.get value proof_key with None => true | Some _ => false end &&
        bool_decide ((v ← CborValue.get value 0; CborValue.as_uint v) = Some PROTO_VER) &&
        bytes_at 1 (AuthenticatedMachineRequest.suite_id input) &&
        bytes_at license_key (AuthenticatedMachineRequest.license_id input) &&
        bytes_at machine_key (AuthenticatedMachineRequest.machine_id input) &&
        bytes_at 4 (AuthenticatedMachineRequest.nonce input) in
      match kind with
      | ArtifactKind.ValidateRequest => matches 12 2 8
      | ArtifactKind.HeartbeatRequest | ArtifactKind.DeactivateRequest => matches 2 3 6
      | _ => false
      end
  end.

Definition owns_license (license_id : list byte) : bool :=
  match ByteId.from_slice 16 license_id with
  | None => false
  | Some license_id => bool_decide (own_id = id_from_name (ByteId.to_hex license_id))
  end.

Definition authenticate_device (input : AuthenticatedMachineRequest) (kind : ArtifactKind)
    : Do (option AuthenticatedActivation) :=
  if negb (length (AuthenticatedMachineRequest.license_id input) =? 16)%nat ||
     negb (length (AuthenticatedMachineRequest.machine_id input) =? 16)%nat ||
     negb (length (AuthenticatedMachineRequest.suite_id input) =? SuiteId.LEN)%nat ||
     negb (length (AuthenticatedMachineRequest.nonce input) =? 32)%nat ||
     (blen (AuthenticatedMachineRequest.proof_input input) =? 0) ||
     (MAX_BODY_BYTES <? blen (AuthenticatedMachineRequest.proof_input input)) ||
     negb (length (AuthenticatedMachineRequest.proof input) =? ED_SIG_LEN)%nat ||
     negb (proof_input_matches kind input) ||
     negb (owns_license (AuthenticatedMachineRequest.license_id input))
  then ret None else
  license_id <~ meta_blob "license_id" ;;
  if negb (bool_decide (license_id = Some (AuthenticatedMachineRequest.license_id input))) then ret None else
  suite <~ meta_blob "suite_id" ;;
  if negb (bool_decide (suite = Some (AuthenticatedMachineRequest.suite_id input))) then ret None else
  product_id <~ meta_text "product_id" ;;
  match product_id, SuiteId.from_slice (AuthenticatedMachineRequest.suite_id input) with
  | Some product_id, Some suite_id =>
      activation <~ reads (fun t => option_map AuthenticatedActivation.of_row
        (find_first (is_machine (AuthenticatedMachineRequest.machine_id input)) (activations t))) ;;
      match activation with
      | None => ret None
      | Some activation =>
          match FastSig.decode_vk (AuthenticatedActivation.device_sig_vk activation) with
          | Err _ => ret None
          | Ok verifying_key =>
              match FastSig.verify verifying_key (DomainCtx.new kind suite_id product_id)
                      (AuthenticatedMachineRequest.proof_input input) (AuthenticatedMachineRequest.proof input) with
              | Err _ => ret None
              | Ok _ => ret (Some activation)
              end
          end
      end
  | _, _ => ret None
  end.

(** ** Initialisation and administration *)
Definition init (now : Z) (input : InitRequest) : Do Response :=
  heartbeat_sec <~ some_or (try_i64_opt (InitRequest.heartbeat_sec input)) (internal_error 400 "invalid_request") ;;
  do~ refuse_if
    (negb (length (InitRequest.license_id input) =? 16)%nat || negb (is_product_id (InitRequest.product_id input)) ||
     bool_decide (SuiteId.from_slice (InitRequest.suite_id input) = None) || (InitRequest.seats input =? 0) ||
     (100000 <? InitRequest.seats input) || bool_decide (heartbeat_sec = Some 0) ||
     match InitRequest.nonce_ttl_sec input with Some v => v <=? 0 | None => false end)
    400 "invalid_request" ;;
  do~ refuse_if (negb (owns_license (InitRequest.license_id input))) 409 "identity_conflict" ;;
  existing <~ meta_blob "license_id" ;;
  do~ refuse_if match existing with Some e => negb (bool_decide (e = InitRequest.license_id input)) | None => false end
    409 "identity_conflict" ;;
  existing <~ meta_text "product_id" ;;
  do~ refuse_if match existing with Some e => negb (bool_decide (e = InitRequest.product_id input)) | None => false end
    409 "identity_conflict" ;;
  existing <~ meta_blob "suite_id" ;;
  do~ refuse_if match existing with Some e => negb (bool_decide (e = InitRequest.suite_id input)) | None => false end
    409 "identity_conflict" ;;
  do~ upsert_meta "license_id" (SqlBlob (InitRequest.license_id input)) ;;
  do~ upsert_meta "product_id" (SqlText (InitRequest.product_id input)) ;;
  do~ upsert_meta "suite_id" (SqlBlob (InitRequest.suite_id input)) ;;
  do~ upsert_meta "seats" (SqlInteger (InitRequest.seats input)) ;;
  do~ upsert_optional_i64 "heartbeat_sec" heartbeat_sec ;;
  do~ upsert_optional_i64 "expires_at" (InitRequest.expires_at input) ;;
  do~ upsert_meta "nonce_ttl_sec" (SqlInteger (default DEFAULT_NONCE_TTL_SECS (InitRequest.nonce_ttl_sec input))) ;;
  do~ insert_or_ignore_meta "status" (SqlText "active") ;;
  do~ apply_pending_admin_update ;;
  do~ insert_or_ignore_meta "proj_version" (SqlInteger 0) ;;
  do~ insert_or_ignore_meta "revocation_epoch" (SqlInteger 0) ;;
  do~ insert_or_ignore_meta "security_floor" (SqlInteger 0) ;;
  do~ schedule_next_alarm now ;;
  ret (response 200 OkResponse).

Definition bad_operation_id (id : string) : bool :=
  (str_len id =? 0) || (512 <? str_len id) || existsb (fun b => negb (is_ascii_graphic b)) (text_bytes id).

Definition admin_update (now : Z) (input : AdminUpdateRequest) : Do Response :=
  heartbeat_sec <~ some_or (try_i64_opt (AdminUpdateRequest.heartbeat_sec input))
    (internal_error 400 "invalid_request") ;;
  do~ refuse_if
    (negb (length (AdminUpdateRequest.license_id input) =? 16)%nat ||
     bad_operation_id (AdminUpdateRequest.operation_id input) || (AdminUpdateRequest.version input <=? 0) ||
     (AdminUpdateRequest.seats input =? 0) || (100000 <? AdminUpdateRequest.seats input) ||
     bool_decide (heartbeat_sec = Some 0) ||
     match AdminUpdateRequest.expires_at input with Some v => v <? 0 | None => false end ||
     negb (one_of ["active"; "suspended"; "expired"] (AdminUpdateRequest.status input)))
    400 "invalid_request" ;;
  do~ refuse_if (negb (owns_license (AdminUpdateRequest.license_id input))) 409 "identity_conflict" ;;
  let request_hash := Hash.hash_parts [OPERATION_HASH_LABEL; text_bytes "admin-update"; to_vec input] in
  let cache_key := String.append "admin:" (AdminUpdateRequest.operation_id input) in
  replay <~ load_operation_response cache_key "admin-update" request_hash ;;
  match replay with
  | Completed =>
      license_id <~ meta_blob "license_id" ;;
      ret (response 200 (AdminUpdateResponse (bool_decide (license_id <> None))))
  | Conflict => internal_error 409 "idempotency_conflict"
  | Missing =>
  license_id <~ meta_blob "license_id" ;;
  let initialized := bool_decide (license_id <> None) in
  current_version <~ meta_i64 "admin_version" ;;
  if AdminUpdateRequest.version input <=? default 0 current_version then
    do~ store_operation_response cache_key "admin-update" request_hash now ;;
    ret (response 200 (AdminUpdateResponse initialized))
  else
  stored_license_id <~ meta_blob "license_id" ;;
  match stored_license_id with
  | None =>
      do~ upsert_meta "pending_admin_status" (SqlText (AdminUpdateRequest.status input)) ;;
      do~ upsert_meta "pending_admin_seats" (SqlInteger (AdminUpdateRequest.seats input)) ;;
      do~ upsert_optional_i64 "pending_admin_heartbeat_sec" heartbeat_sec ;;
      do~ upsert_optional_i64 "pending_admin_expires_at" (AdminUpdateRequest.expires_at input) ;;
      do~ upsert_meta "pending_admin_update" (SqlInteger 1) ;;
      do~ upsert_meta "admin_version" (SqlInteger (AdminUpdateRequest.version input)) ;;
      do~ store_operation_response cache_key "admin-update" request_hash now ;;
      ret (response 200 (AdminUpdateResponse false))
  | Some stored_license_id =>
  do~ refuse_if (negb (bool_decide (stored_license_id = AdminUpdateRequest.license_id input)))
    409 "identity_conflict" ;;
  status <~ meta_text "status" ;;
  do~ refuse_if (bool_decide (status = Some "revoked"%string)) 409 "license_revoked" ;;
  do~ upsert_meta "status" (SqlText (AdminUpdateRequest.status input)) ;;
  do~ upsert_meta "seats" (SqlInteger (AdminUpdateRequest.seats input)) ;;
  do~ upsert_optional_i64 "heartbeat_sec" heartbeat_sec ;;
  do~ upsert_optional_i64 "expires_at" (AdminUpdateRequest.expires_at input) ;;
  do~ append_projection None now ;;
  do~ upsert_meta "admin_version" (SqlInteger (AdminUpdateRequest.version input)) ;;
  do~ store_operation_response cache_key "admin-update" request_hash now ;;
  do~ schedule_next_alarm now ;;
  ret (response 200 (AdminUpdateResponse true))
  end
  end.

Definition admin_forget (now : Z) (input : AdminForgetRequest) : Do Response :=
  do~ refuse_if
    (negb (length (AdminForgetRequest.license_id input) =? 16)%nat ||
     negb (length (AdminForgetRequest.machine_id input) =? 16)%nat ||
     bad_operation_id (AdminForgetRequest.operation_id input)) 400 "invalid_request" ;;
  do~ refuse_if (negb (owns_license (AdminForgetRequest.license_id input))) 409 "identity_conflict" ;;
  let request_hash := Hash.hash_parts [OPERATION_HASH_LABEL; text_bytes "admin-forget"; to_vec input] in
  let cache_key := String.append "forget:" (AdminForgetRequest.operation_id input) in
  replay <~ load_operation_response cache_key "admin-forget" request_hash ;;
  match replay with
  | Completed => ret (response 200 (AdminForgetResponse false))
  | Conflict => internal_error 409 "idempotency_conflict"
  | Missing =>
  license_id <~ meta_blob "license_id" ;;
  forgotten <~ (if bool_decide (license_id = Some (AdminForgetRequest.license_id input)) then
                  fun t => (set_activations (delete_where (is_machine (AdminForgetRequest.machine_id input)) (activations t)) t,
                            Next (0 <? count_where (is_machine (AdminForgetRequest.machine_id input)) (activations t)))
                else ret false) ;;
  do~ store_operation_response cache_key "admin-forget" request_hash now ;;
  ret (response 200 (AdminForgetResponse forgotten))
  end.

(** ** Reserving a seat *)
Definition validate_reservation (i : ReserveRequest) : option Z :=
  if negb (str_len (ReserveRequest.idempotency_key i) =? 0) && (str_len (ReserveRequest.idempotency_key i) <=? 128) &&
     (length (ReserveRequest.machine_id i) =? 16)%nat &&
     is_none_or (fun h => (length h =? 32)%nat) (ReserveRequest.request_hash i) &&
     negb (blen (ReserveRequest.fingerprint i) =? 0) && (blen (ReserveRequest.fingerprint i) <=? 128) &&
     is_none_or (fun a => blen a <=? 4096) (ReserveRequest.attrs i) &&
     negb (blen (ReserveRequest.device_kem_ek i) =? 0) && (blen (ReserveRequest.device_kem_ek i) <=? 16 * 1024) &&
     negb (blen (ReserveRequest.device_sig_vk i) =? 0) && (blen (ReserveRequest.device_sig_vk i) <=? 1024) &&
     one_of ["online"; "offline_ar"; "olk"; "account"] (ReserveRequest.activation_path i) &&
     negb (str_len (ReserveRequest.release_id i) =? 0) && (str_len (ReserveRequest.release_id i) <=? 128) &&
     optional_string_is_bounded (ReserveRequest.build_fp i) 256 &&
     optional_string_is_bounded (ReserveRequest.app_version i) 128 &&
     optional_string_is_bounded (ReserveRequest.os i) 128 &&
     optional_string_is_bounded (ReserveRequest.arch i) 128 &&
     optional_string_is_bounded (ReserveRequest.sdk_version i) 128 &&
     optional_string_is_bounded (ReserveRequest.geo i) 16 &&
     is_none_or (fun s => negb (blen s =? 0) && (blen s <=? MAX_CREDENTIAL_STATE)) (ReserveRequest.credential_state i)
  then try_i64 (ReserveRequest.variant_id i) else None.

Definition new_activation (i : ReserveRequest) (variant_id now : Z) : Activation :=
  Activation.mk (ReserveRequest.machine_id i) (ReserveRequest.fingerprint i) (ReserveRequest.attrs i)
    (ReserveRequest.device_kem_ek i) (ReserveRequest.device_sig_vk i) STATUS_PENDING
    (ReserveRequest.activation_path i) (Some (ReserveRequest.release_id i)) (Some variant_id) now (Some now)
    None (Some (ReserveRequest.refresh_after i)) (Some (ReserveRequest.not_after i)) (ReserveRequest.build_fp i)
    (ReserveRequest.app_version i) (ReserveRequest.geo i) 0 (ReserveRequest.os i) (ReserveRequest.arch i)
    (ReserveRequest.sdk_version i) 0 (ReserveRequest.credential_state i).

Definition reservation (i : ReserveRequest) (machine_id : list byte) (reused : bool) (status : string)
    (revocation_epoch security_floor variant_id : Z) : ReserveResponse :=
  ReserveResponse.mk true machine_id reused status revocation_epoch security_floor variant_id
    (ReserveRequest.refresh_after i) (ReserveRequest.not_after i) (ReserveRequest.build_fp i)
    (ReserveRequest.fingerprint i) (ReserveRequest.credential_state i) None (Some (ReserveMaterial.from_ i)).

Definition past_expiry (expires_at : option Z) (now : Z) : bool :=
  match expires_at with Some expiry => expiry <=? now | None => false end.

(** The rows the reservation looks for: the device's own seats. *)
Definition same_device (fingerprint : list byte) (a : Activation) : bool :=
  bool_decide (Activation.fingerprint a = fingerprint) && Activation.occupies a.

Definition take_seat (now : Z) (i : ReserveRequest) (seats variant_id revocation_epoch security_floor : Z)
    : Do (ReserveResponse * Z) :=
  occupied <~ occupied ;;
  do~ refuse_if (seats <=? occupied) 409 "seat_exhausted" ;;
  do~ insert_activation (new_activation i variant_id now) ;;
  suspicion <~ score_activation seats now ;;
  do~ update_activations (is_machine (ReserveRequest.machine_id i)) (Activation.set_suspicion suspicion) ;;
  do~ append_projection (Some (ReserveRequest.machine_id i)) now ;;
  ret (reservation i (ReserveRequest.machine_id i) false "pending" revocation_epoch security_floor variant_id, 201).

Definition reserve_fresh (now : Z) (i : ReserveRequest) (cache_key : string) (request_hash : list byte)
    (seats variant_id revocation_epoch security_floor : Z) : Do Response :=
  existing <~ reads (fun t => first_ordered
    (List.filter (same_device (ReserveRequest.fingerprint i)) (activations t))) ;;
  taken <~ match existing with
    | Some existing =>
        do~ refuse_if (Activation.status existing =? STATUS_PENDING) 409 "activation_pending" ;;
        ret (reservation i (Activation.machine_id existing) true
               (activation_status_name (Activation.status existing)) revocation_epoch security_floor variant_id, 200)
    | None => take_seat now i seats variant_id revocation_epoch security_floor
    end ;;
  do~ store_idempotent_response cache_key taken.1 request_hash now ;;
  do~ schedule_next_alarm now ;;
  ret (response taken.2 (Reservation taken.1)).

Definition replayable (cached : ReserveResponse) (current_status : option Z) : bool :=
  bool_decide (ReserveResponse.activation_envelope cached <> None) ||
  bool_decide (current_status = Some STATUS_ACTIVE) || bool_decide (current_status = Some STATUS_PENDING).

(** The checks before the idempotency record is consulted. *)
Definition raise_floor (authoritative : Z) : Do Z :=
  stored <~ meta_i64 "security_floor" ;;
  let floor := Z.max (default 0 stored) authoritative in
  do~ (if floor =? default 0 stored then ret tt else upsert_meta "security_floor" (SqlInteger floor)) ;;
  ret floor.

Definition reserve (now : Z) (i : ReserveRequest) : Do Response :=
  variant_id <~ some_or (validate_reservation i) (internal_error 400 "invalid_request") ;;
  seats <~ meta_i64 "seats" ;;
  seats <~ some_or seats (internal_error 409 "not_initialized") ;;
  status <~ meta_text "status" ;;
  expires_at <~ meta_i64 "expires_at" ;;
  do~ refuse_if (negb (bool_decide (status = Some "active"%string)) || past_expiry expires_at now)
    401 "invalid_credential" ;;
  revocation_epoch <~ meta_i64 "revocation_epoch" ;;
  authoritative <~ some_or (try_i64 (ReserveRequest.authoritative_security_floor i))
    (internal_error 400 "invalid_request") ;;
  security_floor <~ raise_floor authoritative ;;
  let cache_key := String.append "reserve:" (ReserveRequest.idempotency_key i) in
  request_hash <~ reserve_request_hash i ;;
  replay <~ load_operation_response cache_key "reserve" request_hash ;;
  let fresh := reserve_fresh now i cache_key request_hash seats variant_id (default 0 revocation_epoch) security_floor in
  match replay with
  | Completed =>
      cached <~ load_idempotent_response cache_key ;;
      cached <~ some_or cached throw ;;
      current_status <~ activation_status (ReserveResponse.machine_id cached) ;;
      if replayable cached current_status then
        ret (response (if ReserveResponse.reused_existing cached then 200 else 201) (Reservation cached))
      else
        do~ delete_idem cache_key ;;
        fresh
  | Conflict => internal_error 409 "idempotency_conflict"
  | Missing => fresh
  end.

(** ** Completing an activation *)
Definition completion_matches (envelope : list byte) (r : ReserveResponse) (material : ReserveMaterial)
    : Do bool :=
  match Envelope.decode envelope with
  | Err _ => ret false
  | Ok envelope =>
  match Envelope.peek_unverified MachineCredential envelope with
  | Err _ => ret false
  | Ok credential =>
      license_id <~ meta_blob "license_id" ;;
      match license_id with
      | None => ret false
      | Some license_id =>
          product_id <~ meta_text "product_id" ;;
          match product_id with
          | None => ret false
          | Some product_id =>
              suite_id <~ meta_blob "suite_id" ;;
              match suite_id with
              | None => ret false
              | Some suite_id =>
                  ret (bool_decide (MachineCredential.license_id credential = license_id) &&
                       bool_decide (MachineCredential.product_id credential = product_id) &&
                       bool_decide (MachineCredential.suite_id credential = suite_id) &&
                       bool_decide (MachineCredential.machine_id credential = ReserveResponse.machine_id r) &&
                       bool_decide (MachineCredential.fingerprint credential = ReserveResponse.fingerprint r) &&
                       (MachineCredential.variant_id credential =?
                          try_into_or u64_max (ReserveMaterial.variant_id material) u64_max) &&
                       (MachineCredential.refresh_after credential =? ReserveMaterial.refresh_after material) &&
                       (MachineCredential.not_after credential =? ReserveMaterial.not_after material) &&
                       bool_decide (MachineCredential.build_fingerprint credential = ReserveMaterial.build_fp material))
              end
          end
      end
  end
  end.

Definition complete_row (fingerprint : list byte) (m : ReserveMaterial) (credential_state : list byte) (now : Z)
    (a : Activation) : Activation :=
  Activation.mk (Activation.machine_id a) fingerprint (ReserveMaterial.attrs m) (ReserveMaterial.device_kem_ek m)
    (ReserveMaterial.device_sig_vk m) STATUS_ACTIVE (ReserveMaterial.activation_path m)
    (Some (ReserveMaterial.release_id m)) (Some (ReserveMaterial.variant_id m)) (Activation.created_at a)
    (Some now) (Activation.last_hb_at a) (Some (ReserveMaterial.refresh_after m))
    (Some (ReserveMaterial.not_after m)) (ReserveMaterial.build_fp m) (ReserveMaterial.app_version m)
    (ReserveMaterial.geo m) (Activation.transfer_count a) (ReserveMaterial.os m) (ReserveMaterial.arch m)
    (ReserveMaterial.sdk_version m) (Activation.suspicion a) (Some credential_state).

Definition complete (now : Z) (input : CompleteRequest) : Do Response :=
  do~ refuse_if
    ((str_len (CompleteRequest.idempotency_key input) =? 0) || (128 <? str_len (CompleteRequest.idempotency_key input)) ||
     negb (length (CompleteRequest.request_hash input) =? 32)%nat ||
     negb (length (CompleteRequest.machine_id input) =? 16)%nat ||
     (blen (CompleteRequest.activation_envelope input) =? 0) ||
     (MAX_INTERNAL_BODY <? blen (CompleteRequest.activation_envelope input))) 400 "invalid_request" ;;
  let cache_key := String.append "reserve:" (CompleteRequest.idempotency_key input) in
  replay <~ load_operation_response cache_key "reserve" (CompleteRequest.request_hash input) ;;
  do~ match replay with
      | Completed => ret tt
      | Conflict => internal_error 409 "idempotency_conflict"
      | Missing => internal_error 409 "reservation_missing"
      end ;;
  r <~ load_idempotent_response cache_key ;;
  r <~ some_or r throw ;;
  do~ refuse_if (negb (bool_decide (ReserveResponse.machine_id r = CompleteRequest.machine_id input)))
    409 "idempotency_conflict" ;;
  match ReserveResponse.activation_envelope r with
  | Some envelope =>
      do~ schedule_next_alarm now ;;
      ret (response 200 (CompleteResponse envelope))
  | None =>
  material <~ some_or (ReserveResponse.material r) (internal_error 409 "reservation_incompatible") ;;
  credential_state <~ some_or (ReserveResponse.credential_state r) (internal_error 409 "reservation_incompatible") ;;
  matches <~ completion_matches (CompleteRequest.activation_envelope input) r material ;;
  do~ refuse_if (negb matches) 400 "invalid_artifact" ;;
  status <~ activation_status (CompleteRequest.machine_id input) ;;
  status <~ some_or status (internal_error 409 "reservation_missing") ;;
  do~ refuse_if (negb ((status =? STATUS_ACTIVE) || (status =? STATUS_PENDING))) 401 "invalid_credential" ;;
  do~ update_activations (fun a => is_machine (CompleteRequest.machine_id input) a && Activation.occupies a)
        (complete_row (ReserveResponse.fingerprint r) material credential_state now) ;;
  do~ append_projection (Some (CompleteRequest.machine_id input)) now ;;
  do~ update_idempotent_response cache_key
        (ReserveResponse.completed (CompleteRequest.activation_envelope input) r) (CompleteRequest.request_hash input) ;;
  do~ schedule_next_alarm now ;;
  ret (response 200 (CompleteResponse (CompleteRequest.activation_envelope input)))
  end.

Definition commit (now : Z) (machine_id : list byte) : Do Response :=
  do~ refuse_if (negb (length machine_id =? 16)%nat) 400 "invalid_request" ;;
  status <~ activation_status machine_id ;;
  status <~ some_or status (internal_error 401 "invalid_credential") ;;
  do~ (if status =? STATUS_PENDING then
         do~ update_activations (fun a => is_machine machine_id a && has_status STATUS_PENDING a)
               (Activation.set_status_seen STATUS_ACTIVE now) ;;
         append_projection (Some machine_id) now
       else if status =? STATUS_ACTIVE then ret tt
       else if (status =? STATUS_RELEASED) || (status =? STATUS_REVOKED) then internal_error 401 "invalid_credential"
       else internal_error 500 "storage_corrupt") ;;
  do~ schedule_next_alarm now ;;
  ret (response 200 OkResponse).

(** ** Requests of a device *)
Definition deactivate (now : Z) (input : AuthenticatedMachineRequest) : Do Response :=
  do~ refuse_if ((str_len (AuthenticatedMachineRequest.idempotency_key input) =? 0) ||
                 (117 <? str_len (AuthenticatedMachineRequest.idempotency_key input))) 400 "invalid_request" ;;
  let cache_key := String.append "deactivate:" (AuthenticatedMachineRequest.idempotency_key input) in
  let request_hash := authenticated_request_hash ArtifactKind.DeactivateRequest input in
  replay <~ load_operation_response cache_key "deactivate" request_hash ;;
  match replay with
  | Completed =>
      do~ schedule_next_alarm now ;;
      ret (response 200 OkResponse)
  | Conflict => internal_error 409 "idempotency_conflict"
  | Missing =>
  activation <~ authenticate_device input ArtifactKind.DeactivateRequest ;;
  activation <~ some_or activation (internal_error 401 "invalid_credential") ;;
  fresh <~ record_nonce (AuthenticatedMachineRequest.nonce input) now ;;
  do~ refuse_if (negb fresh) 409 "replayed_nonce" ;;
  status <~ some_or (activation_status_from_storage (AuthenticatedActivation.status activation))
    (internal_error 500 "storage_corrupt") ;;
  plan <~ match Deactivate.plan status with
          | Ok plan => ret plan
          | Err _ => internal_error 401 "invalid_credential"
          end ;;
  do~ (if Deactivate.changed plan then
         written <~ update_activations
           (fun a => is_machine (AuthenticatedMachineRequest.machine_id input) a && Activation.occupies a)
           (fun a => Activation.add_transfer (Activation.set_status_seen STATUS_RELEASED now a)) ;;
         do~ refuse_if (written =? 0) 500 "storage_corrupt" ;;
         do~ (if Deactivate.record_transfer plan then
                writes (fun t => set_transfers
                  (transfers t ++ [Transfer.mk (AuthenticatedMachineRequest.machine_id input) 1 now]) t)
              else ret tt) ;;
         append_projection (Some (AuthenticatedMachineRequest.machine_id input)) now
       else ret tt) ;;
  do~ store_operation_response cache_key "deactivate" request_hash now ;;
  do~ schedule_next_alarm now ;;
  ret (response 200 OkResponse)
  end.

Definition heartbeat (now : Z) (input : AuthenticatedMachineRequest) : Do Response :=
  activation <~ authenticate_device input ArtifactKind.HeartbeatRequest ;;
  activation <~ some_or activation (internal_error 401 "invalid_credential") ;;
  activation_status <~ some_or (activation_status_from_storage (AuthenticatedActivation.status activation))
    (internal_error 500 "storage_corrupt") ;;
  license_status <~ meta_text "status" ;;
  license_status <~ some_or license_status (internal_error 409 "not_initialized") ;;
  license_status <~ some_or (license_status_from_storage license_status) (internal_error 500 "storage_corrupt") ;;
  heartbeat_secs <~ meta_i64 "heartbeat_sec" ;;
  do~ refuse_if match heartbeat_secs with Some v => v <=? 0 | None => false end 500 "storage_corrupt" ;;
  expires_at <~ meta_i64 "expires_at" ;;
  plan <~ match Heartbeat.plan license_status expires_at activation_status heartbeat_secs now with
          | Ok plan => ret plan
          | Err _ => internal_error 401 "invalid_credential"
          end ;;
  fresh <~ record_nonce (AuthenticatedMachineRequest.nonce input) now ;;
  do~ refuse_if (negb fresh) 409 "replayed_nonce" ;;
  written <~ update_activations
    (fun a => is_machine (AuthenticatedMachineRequest.machine_id input) a && has_status STATUS_ACTIVE a)
    (Activation.set_beat now) ;;
  do~ refuse_if (written =? 0) 401 "invalid_credential" ;;
  do~ append_projection (Some (AuthenticatedMachineRequest.machine_id input)) now ;;
  do~ schedule_next_alarm now ;;
  ret (response 200 (HeartbeatResponse (Heartbeat.next_after plan))).

Definition kill_reason (license_status : option string) (status : Z) : Do (option Z) :=
  if bool_decide (license_status = Some "revoked"%string) then ret (Some 1)
  else if status =? STATUS_REVOKED then ret (Some 2)
  else if status =? STATUS_RELEASED then ret (Some 3)
  else if (status =? STATUS_ACTIVE) || (status =? STATUS_PENDING) then ret None
  else internal_error 500 "storage_corrupt".

Definition validate (now : Z) (input : ValidateMachineRequest) : Do Response :=
  do~ refuse_if
    ((ValidateMachineRequest.next_refresh_after input <=? 0) || (ValidateMachineRequest.not_after input <? 0) ||
     match ValidateMachineRequest.variant_id input with Some v => v <? 0 | None => false end)
    400 "invalid_request" ;;
  known_epoch <~ some_or (try_i64 (ValidateMachineRequest.known_revocation_epoch input))
    (internal_error 401 "invalid_credential") ;;
  authoritative_epoch <~ some_or (try_i64 (ValidateMachineRequest.authoritative_revocation_epoch input))
    (internal_error 400 "invalid_request") ;;
  known_floor <~ some_or (try_i64 (ValidateMachineRequest.known_security_floor input))
    (internal_error 401 "invalid_credential") ;;
  authoritative_floor <~ some_or (try_i64 (ValidateMachineRequest.authoritative_security_floor input))
    (internal_error 400 "invalid_request") ;;
  let auth := ValidateMachineRequest.auth input in
  activation <~ authenticate_device auth ArtifactKind.ValidateRequest ;;
  activation <~ some_or activation (internal_error 401 "invalid_credential") ;;
  local_epoch <~ meta_i64 "revocation_epoch" ;;
  let revocation_epoch := Z.max (default 0 local_epoch) authoritative_epoch in
  stored_floor <~ meta_i64 "security_floor" ;;
  let security_floor := Z.max (default 0 stored_floor) authoritative_floor in
  do~ refuse_if ((revocation_epoch <? known_epoch) || (security_floor <? known_floor)) 401 "invalid_credential" ;;
  do~ (if revocation_epoch =? default 0 local_epoch then ret tt
       else upsert_meta "revocation_epoch" (SqlInteger revocation_epoch)) ;;
  do~ (if security_floor =? default 0 stored_floor then ret tt
       else upsert_meta "security_floor" (SqlInteger security_floor)) ;;
  fresh <~ record_nonce (AuthenticatedMachineRequest.nonce auth) now ;;
  do~ refuse_if (negb fresh) 409 "replayed_nonce" ;;
  license_status <~ meta_text "status" ;;
  kill <~ kill_reason license_status (AuthenticatedActivation.status activation) ;;
  outcome <~ match kill with
    | Some reason =>
        ret (ValidateStateResponse.mk true "kill" (Some reason) revocation_epoch security_floor
               (AuthenticatedActivation.suspicion activation) (AuthenticatedActivation.suspicion activation)
               None None None None)
    | None =>
        expires_at <~ meta_i64 "expires_at" ;;
        do~ refuse_if (negb (bool_decide (license_status = Some "active"%string)) || past_expiry expires_at now)
          401 "invalid_credential" ;;
        do~ update_activations
              (fun a => is_machine (AuthenticatedMachineRequest.machine_id auth) a && Activation.occupies a)
              (Activation.set_validated now (ValidateMachineRequest.next_refresh_after input)
                 (ValidateMachineRequest.not_after input) (ValidateMachineRequest.variant_id input)) ;;
        scored <~ refresh_suspicion input now ;;
        do~ update_activations (is_machine (AuthenticatedMachineRequest.machine_id auth))
              (Activation.set_suspicion scored.1) ;;
        do~ append_projection (Some (AuthenticatedMachineRequest.machine_id auth)) now ;;
        ret (ValidateStateResponse.mk true "ticket" None revocation_epoch security_floor scored.1
               (AuthenticatedActivation.suspicion activation) (Some scored.2)
               (Some (AuthenticatedActivation.fingerprint activation))
               (AuthenticatedActivation.credential_state activation)
               (Some (AuthenticatedActivation.activation_path activation)))
    end ;;
  do~ schedule_next_alarm now ;;
  ret (response 200 (ValidateState outcome)).

(** ** Revocation *)
Definition revoke_subject (input : RevokeRequest) : option RevokeSubject :=
  match RevokeRequest.kind input, RevokeRequest.machine_id input with
  | RevokeLicense, None => Some SubjectLicense
  | RevokeMachine, Some id => if (length id =? 16)%nat then Some (SubjectMachine id) else None
  | _, _ => None
  end.

Definition revoke_plan (subject : RevokeSubject) (current_epoch requested : Z)
    : Do (option string * result Revoke.RevokePlan Revoke.RevokeError) :=
  match subject with
  | SubjectLicense =>
      status <~ meta_text "status" ;;
      status <~ some_or status (internal_error 409 "not_initialized") ;;
      core_status <~ some_or (license_status_from_storage status) (internal_error 500 "storage_corrupt") ;;
      ret (Some status, Revoke.plan_license core_status current_epoch requested)
  | SubjectMachine machine_id =>
      status <~ activation_status machine_id ;;
      status <~ match status with
                | Some status =>
                    status <~ some_or (activation_status_from_storage status) (internal_error 500 "storage_corrupt") ;;
                    ret (Some status)
                | None => ret None
                end ;;
      ret (None, Revoke.plan_machine status current_epoch requested)
  end.

Definition revoke_write (subject : RevokeSubject) (previous_status : option string) (now : Z) : Do Z :=
  match subject with
  | SubjectLicense =>
      previous_status <~ some_or previous_status throw ;;
      fun t => match meta t !! "status" with
               | Some v => if bool_decide (as_text_ v = previous_status)
                           then (set_meta (<["status" := SqlText "revoked"]> (meta t)) t, Next 1)
                           else (t, Next 0)
               | None => (t, Next 0)
               end
  | SubjectMachine machine_id =>
      update_activations (fun a => is_machine machine_id a && negb (has_status STATUS_REVOKED a))
        (Activation.set_status_seen STATUS_REVOKED now)
  end.

Definition revoke (now : Z) (input : RevokeRequest) : Do Response :=
  subject <~ some_or (revoke_subject input) (internal_error 400 "invalid_request") ;;
  do~ refuse_if (negb (length (RevokeRequest.license_id input) =? 16)%nat ||
                 (RevokeRequest.revocation_epoch input =? 0) ||
                 bool_decide (try_i64 (RevokeRequest.revocation_epoch input) = None)) 400 "invalid_request" ;;
  do~ refuse_if (negb (owns_license (RevokeRequest.license_id input))) 409 "identity_conflict" ;;
  license_id <~ meta_blob "license_id" ;;
  do~ refuse_if (negb (bool_decide (license_id = Some (RevokeRequest.license_id input)))) 409 "not_initialized" ;;
  current_epoch <~ meta_i64 "revocation_epoch" ;;
  let current_epoch := default 0 current_epoch in
  do~ refuse_if (current_epoch <? 0) 500 "storage_corrupt" ;;
  planned <~ revoke_plan subject current_epoch (RevokeRequest.revocation_epoch input) ;;
  plan <~ match planned.2 with
          | Ok plan => ret plan
          | Err Revoke.UnknownMachine => internal_error 404 "not_found"
          | Err Revoke.StaleEpoch => internal_error 409 "stale_revocation_epoch"
          end ;;
  do~ (if Revoke.state_changed plan then
         written <~ revoke_write subject planned.1 now ;;
         refuse_if (written =? 0) 500 "storage_corrupt"
       else ret tt) ;;
  do~ (if Revoke.epoch_changed plan then
         epoch <~ some_or (try_i64 (Revoke.revocation_epoch plan)) throw ;;
         upsert_meta "revocation_epoch" (SqlInteger epoch)
       else ret tt) ;;
  do~ (if Revoke.state_changed plan then
         append_projection match subject with SubjectLicense => None | SubjectMachine id => Some id end now
       else ret tt) ;;
  do~ schedule_next_alarm now ;;
  ret (response 200 (RevokeResponse (Revoke.state_changed plan || Revoke.epoch_changed plan)
                       (Revoke.revocation_epoch plan))).

(** ** The alarm's regions *)
Definition project_all (now : Z) (ids : list (list byte)) : Do unit :=
  for_rows (fun id => append_projection (Some id) now) ids.

Definition reclaim_pending (now : Z) : Do unit :=
  pending <~ update_returning
    (fun a => has_status STATUS_PENDING a && (Activation.created_at a <=? sat_sub_i64 now PENDING_TTL_SECS))
    (Activation.set_status_seen STATUS_RELEASED now) ;;
  project_all now pending.

Definition reclaim_zombies (now : Z) : Do unit :=
  heartbeat <~ meta_i64 "heartbeat_sec" ;;
  match heartbeat with
  | None => ret tt
  | Some heartbeat =>
      stale_before <~ some_or (Heartbeat.zombie_cutoff heartbeat now) throw ;;
      zombies <~ update_returning
        (fun a => has_status STATUS_ACTIVE a && (Activation.beat a <? stale_before))
        (Activation.set_status_seen STATUS_RELEASED now) ;;
      project_all now zombies
  end.

Definition reclaim_expired (now : Z) : Do unit :=
  status <~ meta_text "status" ;;
  expires_at <~ meta_i64 "expires_at" ;;
  if bool_decide (status = Some "active"%string) && past_expiry expires_at now then
    do~ upsert_meta "status" (SqlText "expired") ;;
    expired <~ update_returning Activation.occupies (Activation.set_status_seen STATUS_RELEASED now) ;;
    do~ project_all now expired ;;
    append_projection None now
  else ret tt.

Definition prune (now : Z) : Do unit :=
  nonce_ttl <~ meta_i64 "nonce_ttl_sec" ;;
  let nonce_ttl := default DEFAULT_NONCE_TTL_SECS nonce_ttl in
  do~ writes (fun t => set_nonces (delete_where (fun n => n.2 <=? sat_sub_i64 now nonce_ttl) (nonces t)) t) ;;
  do~ writes (fun t => set_idem
        (delete_where (fun r => IdemRow.created_at r <=? sat_sub_i64 now IDEMPOTENCY_TTL_SECS) (idem t)) t) ;;
  writes (fun t => set_activations
    (delete_where (fun a => has_status STATUS_RELEASED a &&
       (Activation.seen a <=? sat_sub_i64 now RELEASED_RETENTION_SECS)) (activations t)) t).

Definition reclaim (now : Z) : Do unit :=
  do~ reclaim_pending now ;;
  do~ reclaim_zombies now ;;
  do~ reclaim_expired now ;;
  prune now.

(** [flush_outbox]: the rows of a batch, what is sent for a row, and the row's mark. *)
Definition outbox_batch : Do (list OutboxRow) :=
  reads (fun t => take OUTBOX_BATCH_SIZE (List.filter unsent (outbox t))).
Definition outbox_event (row : OutboxRow) : option ProjectionEvent :=
  match from_slice (OutboxRow.payload row) with
  | Some event => if ProjectionEvent.is_valid event then Some event else None
  | None => None
  end.
Definition mark_sent (now : Z) (row : OutboxRow) : Do unit :=
  writes (fun t => set_outbox
    (update_where (fun r => (OutboxRow.id r =? OutboxRow.id row) && unsent r) (OutboxRow.mark_sent now) (outbox t)) t).

(** ** Dispatch *)
Inductive Call :=
| Health
| Init (i : InitRequest)
| Reserve (i : ReserveRequest)
| Complete (i : CompleteRequest)
| Commit (machine_id : list byte)
| DeactivateCall (i : AuthenticatedMachineRequest)
| HeartbeatCall (i : AuthenticatedMachineRequest)
| RevokeCall (i : RevokeRequest)
| AdminUpdate (i : AdminUpdateRequest)
| AdminForget (i : AdminForgetRequest)
| ValidateCall (i : ValidateMachineRequest)
| UnreadableBody
| InvalidBody
| UnknownGet
| UnknownMethod.

(** The match of [fetch] on method and path, with the outcome of [parse_json]. *)
Definition fetch (now : Z) (call : Call) : Do Response :=
  match call with
  | Health => ret (response 200 (DurableHealth LICENSE_SCHEMA_VERSION))
  | Init i => init now i
  | Reserve i => reserve now i
  | Complete i => complete now i
  | Commit id => commit now id
  | DeactivateCall i => deactivate now i
  | HeartbeatCall i => heartbeat now i
  | RevokeCall i => revoke now i
  | AdminUpdate i => admin_update now i
  | AdminForget i => admin_forget now i
  | ValidateCall i => validate now i
  | UnreadableBody => throw
  | InvalidBody => internal_error 400 "invalid_request"
  | UnknownGet => internal_error 404 "not_found"
  | UnknownMethod => internal_error 405 "method_not_allowed"
  end.

(** The tables and the response of a handler; [None] is an exception. *)
Definition run (m : Do Response) (t : Tables) : Tables * option Response :=
  match m t with
  | (t', Next r) | (t', Return r) => (t', Some r)
  | (t', Throw) => (t', None)
  end.
End Object.
