(* ===== verification/LicenseMoves.v ===== *)
(** * What a licence object may do to its tables

    The abstract specification of [LicenseDO]: the invariant of the tables, and the relation
    [move], one constructor per kind of change with the condition under which it may happen.
    [LicenseSpec] and [LicenseRuns] prove that every handler makes only such moves; [LicenseTheorems]
    proves the properties of the object by cases on the moves. *)

From S2P Require Import Prelude Types Cbor Field Artifacts Chain Messages Requests License Anomaly Suite StdSuite Events.
From S2P Require Import LicenseTables LicenseDO.
Import Tables.

Section Moves.
Context `{Host : LicenseHost} `{Prim : Primitives}.

(** ** The invariant *)
Definition int_at (t : Tables) (key : string) : option Z := option_map as_integer (meta t !! key).
Definition text_at (t : Tables) (key : string) : option string := option_map as_text_ (meta t !! key).
Definition license_id_of (t : Tables) : list byte :=
  match meta t !! "license_id" with Some (SqlBlob b) => b | _ => [] end.
Definition initialized (t : Tables) : Prop := is_Some (meta t !! "license_id").

(** What a key of [meta] may hold. *)
Definition value_ok (key : string) (v : SqlStorageValue) : Prop :=
  match v with
  | SqlBlob b => key = "license_id"%string /\ length b = 16%nat \/ key = "suite_id"%string
  | SqlText s =>
      key = "product_id"%string \/
      key = "status"%string /\ one_of ["active"; "suspended"; "expired"; "revoked"] s = true \/
      key = "pending_admin_status"%string /\ one_of ["active"; "suspended"; "expired"] s = true
  | SqlInteger z =>
      (key = "pending_admin_update"%string /\ z = 1) \/
      (key ∈ ["heartbeat_sec"; "nonce_ttl_sec"; "pending_admin_heartbeat_sec"]%string /\ 0 < z) \/
      (key ∈ ["seats"; "pending_admin_seats"]%string /\ 1 <= z <= 100000) \/
      (key ∈ ["proj_version"; "revocation_epoch"; "security_floor"; "admin_version"]%string /\ 0 <= z) \/
      key ∈ ["expires_at"; "pending_admin_expires_at"; "anomaly_window_start"; "anomaly_window_count"]%string
  end.
Definition meta_ok (m : gmap string SqlStorageValue) : Prop := map_Forall value_ok m.

(** Keys that an initialised object has, and that no other has. *)
Definition LIVE_KEYS : list string :=
  ["license_id"; "product_id"; "suite_id"; "seats"; "nonce_ttl_sec"; "status"; "proj_version";
   "revocation_epoch"; "security_floor"]%string.
Definition pending_ok (m : gmap string SqlStorageValue) : Prop :=
  (forall k, k ∈ PENDING_ADMIN_KEYS -> m !! k = None) \/
  (forall k, k ∈ ["pending_admin_update"; "pending_admin_status"; "pending_admin_seats"]%string -> is_Some (m !! k)).
Definition phase_ok (t : Tables) : Prop :=
  (initialized t /\ (forall k, k ∈ LIVE_KEYS -> is_Some (meta t !! k)) /\
     (forall k, k ∈ PENDING_ADMIN_KEYS -> meta t !! k = None)) \/
  ((forall k, k ∈ LIVE_KEYS -> meta t !! k = None) /\ pending_ok (meta t) /\ activations t = [] /\ outbox t = []).

(** Rows of activations project to valid machine records. *)
Definition row_ok (a : Activation) : Prop := MachineProjection.is_valid (machine_projection a) = true.

(** A cached reservation can be written into a row. *)
Definition material_ok (fingerprint : list byte) (m : ReserveMaterial) : Prop :=
  MachineProjection.is_valid (MachineProjection.mk (repeat 0 16) fingerprint "active"
    (ReserveMaterial.activation_path m) 0 None (ReserveMaterial.os m) (ReserveMaterial.arch m)
    (ReserveMaterial.app_version m) (ReserveMaterial.sdk_version m) (Some (ReserveMaterial.release_id m))
    (Some (ReserveMaterial.variant_id m)) (ReserveMaterial.build_fp m) (ReserveMaterial.geo m) 0) = true.
Definition reservation_ok (r : ReserveResponse) : Prop :=
  match ReserveResponse.material r with
  | Some m => material_ok (ReserveResponse.fingerprint r) m
  | None => True
  end.
Definition cached (r : IdemRow) : option ReserveResponse := from_slice (IdemRow.resp r).
Definition idem_ok (r : IdemRow) : Prop :=
  IdemRow.kind r = Some "reserve"%string ->
  IdemRow.request_hash r <> None /\ exists v, cached r = Some v /\ reservation_ok v.

(** The outbox is the history of published events, numbered from one. *)
Definition outbox_ok (t : Tables) : Prop :=
  forall i r, outbox t !! i = Some r ->
    OutboxRow.id r = Z.of_nat i + 1 /\
    exists e, outbox_event r = Some e /\ ProjectionEvent.proj_version e = Z.of_nat i + 1 /\
      ProjectionEvent.license_id e = license_id_of t.

Definition events (t : Tables) : list ProjectionEvent := omap outbox_event (outbox t).

(** [stale] are the machines whose row changed since their last projection; [fresh] says that
    the licence's status has not changed since the last event. *)
Record Inv_except (stale : list (list byte)) (fresh : bool) (t : Tables) : Prop := {
  inv_meta : meta_ok (meta t);
  inv_phase : phase_ok t;
  inv_version : initialized t -> int_at t "proj_version" = Some (Z.of_nat (length (outbox t)));
  inv_ids : NoDup (map Activation.machine_id (activations t));
  inv_rows : Forall row_ok (activations t);
  inv_keys : NoDup (map IdemRow.key (idem t));
  inv_idem : Forall idem_ok (idem t);
  inv_nonces : NoDup (map fst (nonces t));
  inv_outbox : outbox_ok t;
  inv_mirror : forall a, a ∈ activations t -> Activation.machine_id a ∉ stale ->
    last_of (Activation.machine_id a) (events t) = Some (machine_projection a);
  inv_status : fresh = true -> forall e, last (events t) = Some e ->
    text_at t "status" = Some (ProjectionEvent.license_status e);
}.
Definition Inv : Tables -> Prop := Inv_except [] true.

(** ** Publishing *)
Definition the_event (t : Tables) (m : option MachineProjection) (now : Z) : ProjectionEvent :=
  ProjectionEvent.mk LICENSE_PROJECTION_EVENT PROJECTION_SCHEMA_VERSION (license_id_of t)
    (default EmptyString (text_at t "status")) (count_where Activation.occupies (activations t))
    (max_of (map Activation.seen (activations t))) m (default 0 (int_at t "proj_version") + 1) now.

Definition published (m : option MachineProjection) (now : Z) (t : Tables) : Tables :=
  set_outbox (outbox t ++ [OutboxRow.mk (Z.of_nat (length (outbox t)) + 1) "projection"
                             (to_vec (the_event t m now)) now None])
    (set_meta (<["proj_version" := SqlInteger (default 0 (int_at t "proj_version") + 1)]> (meta t)) t).

(** The projections of the rows with the given identifiers, one event each. *)
Definition publish_machine (now : Z) (t : Tables) (id : list byte) : Tables :=
  published (option_map machine_projection (find_first (is_machine id) (activations t))) now t.
Definition publish_all (now : Z) (ids : list (list byte)) (t : Tables) : Tables :=
  fold_left (publish_machine now) ids t.

(** ** Moves *)
Definition status_step (s s' : Z) : Prop :=
  exists a b, activation_status_from_storage s = Some a /\ activation_status_from_storage s' = Some b /\
    lifecycle a b.

(** A row against its successor. *)
Definition row_evolves (a b : Activation) : Prop :=
  Activation.machine_id b = Activation.machine_id a /\ Activation.created_at b = Activation.created_at a /\
  status_step (Activation.status a) (Activation.status b) /\ row_ok b.

Definition with_int (k : string) (z : Z) (t : Tables) : Tables := set_meta (<[k := SqlInteger z]> (meta t)) t.

(** What an administrator sets. *)
Definition set_optional (k : string) (o : option Z) (m : gmap string SqlStorageValue) :=
  match o with Some v => <[k := SqlInteger v]> m | None => delete k m end.
Definition with_settings (status : string) (seats : Z) (hb expiry : option Z) (m : gmap string SqlStorageValue) :=
  set_optional "expires_at" expiry (set_optional "heartbeat_sec" hb
    (<["seats" := SqlInteger seats]> (<["status" := SqlText status]> m))).

Definition settings_ok (status : string) (seats : Z) (hb : option Z) : Prop :=
  one_of ["active"; "suspended"; "expired"] status = true /\ 1 <= seats <= 100000 /\
  match hb with Some v => 0 < v | None => True end.

(** The metadata a first or repeated initialisation leaves. *)
Definition or_insert (k : string) (v : SqlStorageValue) (m : gmap string SqlStorageValue) :=
  match m !! k with Some _ => m | None => <[k := v]> m end.
Definition apply_pending (m : gmap string SqlStorageValue) : gmap string SqlStorageValue :=
  match m !! "pending_admin_update"%string with
  | Some (SqlInteger 1) =>
      fold_left (fun m k => delete k m) PENDING_ADMIN_KEYS
        (with_settings (default EmptyString (option_map as_text_ (m !! "pending_admin_status"%string)))
           (default 0 (option_map as_integer (m !! "pending_admin_seats"%string)))
           (option_map as_integer (m !! "pending_admin_heartbeat_sec"%string))
           (option_map as_integer (m !! "pending_admin_expires_at"%string)) m)
  | _ => m
  end.
Definition base_meta (i : InitRequest) (m : gmap string SqlStorageValue) : gmap string SqlStorageValue :=
  let m := <["license_id" := SqlBlob (InitRequest.license_id i)]> m in
  let m := <["product_id" := SqlText (InitRequest.product_id i)]> m in
  let m := <["suite_id" := SqlBlob (InitRequest.suite_id i)]> m in
  let m := <["seats" := SqlInteger (InitRequest.seats i)]> m in
  let m := set_optional "heartbeat_sec" (InitRequest.heartbeat_sec i) m in
  let m := set_optional "expires_at" (InitRequest.expires_at i) m in
  let m := <["nonce_ttl_sec" := SqlInteger (default DEFAULT_NONCE_TTL_SECS (InitRequest.nonce_ttl_sec i))]> m in
  or_insert "status" (SqlText "active") m.
Definition init_meta (i : InitRequest) (m : gmap string SqlStorageValue) : gmap string SqlStorageValue :=
  or_insert "security_floor" (SqlInteger 0) (or_insert "revocation_epoch" (SqlInteger 0)
    (or_insert "proj_version" (SqlInteger 0) (apply_pending (base_meta i m)))).

(** The metadata an administrator leaves for an object that is not initialised yet. *)
Definition pending_meta (status : string) (seats : Z) (hb expiry : option Z) (m : gmap string SqlStorageValue) :=
  <["pending_admin_update" := SqlInteger 1]>
    (set_optional "pending_admin_expires_at" expiry (set_optional "pending_admin_heartbeat_sec" hb
      (<["pending_admin_seats" := SqlInteger seats]> (<["pending_admin_status" := SqlText status]> m)))).

Definition init_ok (t : Tables) (i : InitRequest) : Prop :=
  length (InitRequest.license_id i) = 16%nat /\ owns_license (InitRequest.license_id i) = true /\
  1 <= InitRequest.seats i <= 100000 /\
  match InitRequest.heartbeat_sec i with Some v => 0 < v | None => True end /\
  match InitRequest.nonce_ttl_sec i with Some v => 0 < v | None => True end /\
  (forall v, meta t !! "license_id"%string = Some v -> v = SqlBlob (InitRequest.license_id i)).

Definition status_of (t : Tables) (id : list byte) : option Z :=
  option_map Activation.status (find_first (is_machine id) (activations t)).

(** The rows an alarm releases: reservations nobody completed, devices that fell silent. *)
Definition lapsed (now : Z) (a : Activation) : bool :=
  has_status STATUS_PENDING a && (Activation.created_at a <=? sat_sub_i64 now PENDING_TTL_SECS).
Definition silent (cutoff : Z) (a : Activation) : bool :=
  has_status STATUS_ACTIVE a && (Activation.beat a <? cutoff).
Definition reclaimable (now : Z) (t : Tables) (p : Activation -> bool) : Prop :=
  p = lapsed now \/
  exists hb cutoff, int_at t "heartbeat_sec" = Some hb /\ Heartbeat.zombie_cutoff hb now = Some cutoff /\ p = silent cutoff.

Definition release_rows (p : Activation -> bool) (now : Z) (t : Tables) : Tables :=
  publish_all now (map Activation.machine_id (List.filter p (activations t)))
    (set_activations (update_where p (Activation.set_status_seen STATUS_RELEASED now) (activations t)) t).

Definition pruned (now : Z) (t : Tables) : Tables :=
  let ttl := default DEFAULT_NONCE_TTL_SECS (int_at t "nonce_ttl_sec") in
  set_activations (delete_where (fun a => has_status STATUS_RELEASED a &&
      (Activation.seen a <=? sat_sub_i64 now RELEASED_RETENTION_SECS)) (activations t))
    (set_idem (delete_where (fun r => IdemRow.created_at r <=? sat_sub_i64 now IDEMPOTENCY_TTL_SECS) (idem t))
      (set_nonces (delete_where (fun n => n.2 <=? sat_sub_i64 now ttl) (nonces t)) t)).

Inductive move (now : Z) (t : Tables) : Tables -> Prop :=
| move_raise k z : k ∈ ["revocation_epoch"; "security_floor"; "admin_version"]%string ->
    initialized t \/ k = "admin_version"%string -> default 0 (int_at t k) <= z -> move now t (with_int k z t)
| move_window k z : k ∈ ["anomaly_window_start"; "anomaly_window_count"]%string -> initialized t ->
    move now t (with_int k z t)
| move_nonce n : n ∉ map fst (nonces t) -> move now t (set_nonces (nonces t ++ [(n, now)]) t)
| move_answer r : IdemRow.key r ∉ map IdemRow.key (idem t) -> IdemRow.created_at r = now -> idem_ok r ->
    move now t (set_idem (idem t ++ [r]) t)
| move_drop_answer k r v : r ∈ idem t -> IdemRow.key r = k -> cached r = Some v ->
    replayable v (status_of t (ReserveResponse.machine_id v)) = false ->
    move now t (set_idem (delete_where (has_key k) (idem t)) t)
| move_complete_answer k r v envelope : r ∈ idem t -> IdemRow.key r = k -> IdemRow.kind r = Some "reserve"%string ->
    cached r = Some v -> ReserveResponse.activation_envelope v = None ->
    move now t (set_idem (update_where (has_key k)
      (IdemRow.set_resp (to_vec (ReserveResponse.completed envelope v))) (idem t)) t)
| move_transfer x : move now t (set_transfers (transfers t ++ [x]) t)
| move_alarm a : move now t (set_alarm a t)
| move_machine a f : a ∈ activations t -> row_evolves a (f a) ->
    move now t (publish_machine now (set_activations (update_where (is_machine (Activation.machine_id a)) f
      (activations t)) t) (Activation.machine_id a))
| move_take a seats : Activation.machine_id a ∉ map Activation.machine_id (activations t) ->
    Activation.status a = STATUS_PENDING -> Activation.created_at a = now -> row_ok a ->
    text_at t "status" = Some "active"%string -> past_expiry (int_at t "expires_at") now = false ->
    int_at t "seats" = Some seats -> count_where Activation.occupies (activations t) < seats ->
    List.filter (same_device (Activation.fingerprint a)) (activations t) = [] ->
    move now t (publish_machine now (set_activations (activations t ++ [a]) t) (Activation.machine_id a))
| move_settings status seats hb expiry : initialized t -> text_at t "status" <> Some "revoked"%string ->
    settings_ok status seats hb ->
    move now t (published None now (set_meta (with_settings status seats hb expiry (meta t)) t))
| move_revoke_license : initialized t ->
    move now t (published None now (set_meta (<["status" := SqlText "revoked"]> (meta t)) t))
| move_pending status seats hb expiry : meta t !! "license_id"%string = None -> settings_ok status seats hb ->
    move now t (set_meta (pending_meta status seats hb expiry (meta t)) t)
| move_init i : init_ok t i -> move now t (set_meta (init_meta i (meta t)) t)
| move_forget id : initialized t ->
    move now t (set_activations (delete_where (is_machine id) (activations t)) t)
| move_release p : initialized t -> reclaimable now t p -> move now t (release_rows p now t)
| move_expire : text_at t "status" = Some "active"%string -> past_expiry (int_at t "expires_at") now = true ->
    move now t (published None now (release_rows Activation.occupies now
      (set_meta (<["status" := SqlText "expired"]> (meta t)) t)))
| move_prune : move now t (pruned now t).
End Moves.
