(* ===== verification/LicenseInv.v ===== *)
(** * The invariant of a licence object is kept by every move *)

From S2P Require Import Prelude Types Cbor Field Artifacts Chain Messages Requests License Anomaly Suite StdSuite Events.
From S2P Require Import LicenseTables LicenseDO LicenseMoves.
Import Tables.

(** ** Statements on lists *)
Lemma max_of_elem l v : max_of l = Some v -> v ∈ l.
Proof.
  revert v. induction l as [|x l IH]; simpl; [done|]. intros v [= <-].
  destruct (max_of l) as [y|] eqn:E; [|by left].
  destruct (Z.max_spec x y) as [[_ ->]|[_ ->]]; [right; by apply IH|by left].
Qed.

Lemma min_of_elem l v : min_of l = Some v -> v ∈ l.
Proof.
  revert v. induction l as [|x l IH]; simpl; [done|]. intros v [= <-].
  destruct (min_of l) as [y|] eqn:E; [|by left].
  destruct (Z.min_spec x y) as [[_ ->]|[_ ->]]; [by left|right; by apply IH].
Qed.

Lemma min_of_le l x : x ∈ l -> exists v, min_of l = Some v /\ v <= x.
Proof.
  induction l as [|y l IH]; simpl; intros Hx; [by apply elem_of_nil in Hx|]. eexists. split; [done|].
  apply elem_of_cons in Hx as [->|Hx]; [destruct (min_of l); lia|].
  destruct (IH Hx) as (v & -> & ?). lia.
Qed.

Lemma elem_of_update_where {A} p f (l : list A) y :
  y ∈ update_where p f l <-> exists x, x ∈ l /\ y = if p x then f x else x.
Proof.
  unfold update_where. rewrite list_elem_of_In, in_map_iff. split.
  - intros (x & <- & Hx). exists x. by rewrite list_elem_of_In.
  - intros (x & Hx & ->). exists x. by rewrite <- list_elem_of_In.
Qed.

Lemma elem_of_delete_where {A} p (l : list A) x : x ∈ delete_where p l <-> x ∈ l /\ p x = false.
Proof.
  unfold delete_where. rewrite !list_elem_of_In, filter_In. destruct (p x); simpl; intuition congruence.
Qed.

Lemma elem_of_List_filter {A} p (l : list A) x : x ∈ List.filter p l <-> x ∈ l /\ p x = true.
Proof. by rewrite !list_elem_of_In, filter_In. Qed.

Lemma update_where_keys {A B} (key : A -> B) p f (l : list A) :
  (forall x, x ∈ l -> p x = true -> key (f x) = key x) -> map key (update_where p f l) = map key l.
Proof.
  unfold update_where. induction l as [|x l IH]; simpl; intros H; [done|]. f_equal.
  - destruct (p x) eqn:E; [|done]. apply H; [by left|done].
  - apply IH. intros y Hy. apply H. by right.
Qed.

Lemma delete_where_NoDup {A B} (key : A -> B) p (l : list A) :
  NoDup (map key l) -> NoDup (map key (delete_where p l)).
Proof.
  unfold delete_where. induction l as [|x l IH]; simpl; [done|]. rewrite NoDup_cons. intros [Hx Hl].
  destruct (p x); simpl; [by apply IH|]. apply NoDup_cons. split; [|by apply IH].
  intros Hin. apply Hx. apply list_elem_of_In, in_map_iff in Hin as (y & <- & Hy).
  apply filter_In in Hy as [Hy _]. apply list_elem_of_In, in_map_iff. by exists y.
Qed.

Lemma key_elem {A B} (key : A -> B) (l : list A) x : x ∈ l -> key x ∈ map key l.
Proof. rewrite !list_elem_of_In. apply in_map. Qed.

(** A row is found by its key. *)
Lemma find_by_key {A B} `{EqDecision B} (key : A -> B) (l : list A) a :
  NoDup (map key l) -> a ∈ l -> find_first (fun x => bool_decide (key x = key a)) l = Some a.
Proof.
  unfold find_first. induction l as [|x l IH]; simpl; [by intros _ H%elem_of_nil|].
  rewrite NoDup_cons. intros [Hx Hl] Ha. apply elem_of_cons in Ha as [->|Ha]; [by rewrite bool_decide_true|].
  rewrite bool_decide_false; [by apply IH|]. intros Heq. apply Hx. rewrite Heq.
  by apply key_elem.
Qed.

Lemma filter_by_key {A B} `{EqDecision B} (key : A -> B) (l : list A) a :
  NoDup (map key l) -> a ∈ l -> List.filter (fun x => bool_decide (key x = key a)) l = [a].
Proof.
  induction l as [|x l IH]; simpl; [by intros _ H%elem_of_nil|].
  rewrite NoDup_cons. intros [Hx Hl] Ha. apply elem_of_cons in Ha as [->|Ha].
  - rewrite bool_decide_true by done. f_equal.
    destruct (List.filter _ l) as [|y r] eqn:E; [done|].
    assert (Hy : y ∈ List.filter (fun x0 => bool_decide (key x0 = key x)) l) by (rewrite E; apply elem_of_cons; by left).
    apply elem_of_List_filter in Hy as [Hy He]. apply bool_decide_eq_true in He.
    exfalso. apply Hx. rewrite <- He. by apply key_elem.
  - rewrite bool_decide_false; [by apply IH|]. intros Heq. apply Hx. rewrite Heq.
    by apply key_elem.
Qed.

Lemma key_unique {A B} (key : A -> B) (l : list A) a b :
  NoDup (map key l) -> a ∈ l -> b ∈ l -> key a = key b -> a = b.
Proof.
  induction l as [|x l IH]; simpl; [by intros _ H%elem_of_nil|]. rewrite NoDup_cons.
  intros [Hx Hl] Ha Hb Heq.
  apply elem_of_cons in Ha as [->|Ha], Hb as [->|Hb]; [done| | |by apply IH].
  - exfalso. apply Hx. rewrite Heq. by apply key_elem.
  - exfalso. apply Hx. rewrite <- Heq. by apply key_elem.
Qed.

Lemma last_app_one {A} (l : list A) x : last (l ++ [x]) = Some x.
Proof. by rewrite last_snoc. Qed.

Section Invariant.
Context `{Host : LicenseHost} `{Prim : Primitives}.
Context `{JR : !JsonLaws ReserveResponse} `{JE : !JsonLaws ProjectionEvent}.
Implicit Types (t : Tables) (a : Activation) (id : list byte) (S : list (list byte)).

(** ** Reading an initialised object *)
Lemma inv_live S fr t k : Inv_except S fr t -> initialized t -> k ∈ LIVE_KEYS -> is_Some (meta t !! k).
Proof.
  intros HI Hi Hk. destruct (inv_phase _ _ _ HI) as [(_ & H & _)|(H & _)]; [by apply H|].
  destruct Hi as [v Hv]. rewrite H in Hv; [done|set_solver].
Qed.

Lemma inv_license S fr t : Inv_except S fr t -> initialized t ->
  meta t !! "license_id"%string = Some (SqlBlob (license_id_of t)) /\ length (license_id_of t) = 16%nat.
Proof.
  intros HI [v Hv]. pose proof (inv_meta _ _ _ HI _ _ Hv) as Hok. unfold license_id_of. rewrite Hv.
  destruct v as [z|s|b]; simpl in Hok; set_solver.
Qed.

Lemma inv_text_status S fr t : Inv_except S fr t -> initialized t ->
  exists s, meta t !! "status"%string = Some (SqlText s) /\ text_at t "status" = Some s /\
    one_of ["active"; "suspended"; "expired"; "revoked"] s = true.
Proof.
  intros HI Hi. destruct (inv_live _ _ _ "status" HI Hi) as [v Hv]; [set_solver|].
  pose proof (inv_meta _ _ _ HI _ _ Hv) as Hok. unfold text_at. rewrite Hv.
  destruct v as [z|s|b]; simpl in Hok; [set_solver| |set_solver]. exists s. set_solver.
Qed.

Lemma inv_int S fr t k v : Inv_except S fr t -> meta t !! k = Some v ->
  k ∉ ["license_id"; "suite_id"; "product_id"; "status"; "pending_admin_status"]%string ->
  exists z, v = SqlInteger z.
Proof.
  intros HI Hv Hk. pose proof (inv_meta _ _ _ HI _ _ Hv) as Hok.
  destruct v as [z|s|b]; simpl in Hok; [by exists z|set_solver..].
Qed.

Lemma inv_empty S fr t : Inv_except S fr t -> ~ initialized t -> activations t = [] /\ outbox t = [].
Proof. intros HI Hi. destruct (inv_phase _ _ _ HI) as [(? & _)|(_ & _ & ? & ?)]; done. Qed.

Lemma inv_rows_initialized S fr t a : Inv_except S fr t -> a ∈ activations t -> initialized t.
Proof.
  intros HI Ha. destruct (inv_phase _ _ _ HI) as [(? & _)|(_ & _ & Hn & _)]; [done|].
  rewrite Hn in Ha. by apply elem_of_nil in Ha.
Qed.

(** ** Published events *)
Lemma row_seen_nonneg a : row_ok a -> 0 <= Activation.seen a.
Proof.
  unfold row_ok, MachineProjection.is_valid, Activation.seen. simpl. intros H.
  repeat (apply andb_true_iff in H as [H ?]). 
  destruct (Activation.last_seen_at a); simpl in *; bprop; lia.
Qed.

Lemma the_event_valid S fr t m now : Inv_except S fr t -> initialized t -> 0 <= now ->
  is_none_or MachineProjection.is_valid m = true -> ProjectionEvent.is_valid (the_event t m now) = true.
Proof.
  intros HI Hi Hnow Hm. destruct (inv_license _ _ _ HI Hi) as [_ Hlen].
  destruct (inv_text_status _ _ _ HI Hi) as (s & _ & Hs & Hok). unfold ProjectionEvent.is_valid, the_event. simpl.
  rewrite Hs, Hlen, (inv_version _ _ _ HI Hi). simpl. rewrite Hok, Hm.
  assert (E1 : (0 <=? count_where Activation.occupies (activations t)) = true) by (apply Z.leb_le; unfold count_where; lia).
  assert (E2 : (0 <? Z.of_nat (length (outbox t)) + 1) = true) by (apply Z.ltb_lt; lia).
  assert (E3 : (0 <=? now) = true) by (by apply Z.leb_le). rewrite E1, E2, E3. simpl.
  destruct (max_of _) as [v|] eqn:E; [|done]. simpl. apply max_of_elem in E.
  apply list_elem_of_In, in_map_iff in E as (a & <- & Ha). apply list_elem_of_In in Ha.
  pose proof (proj1 (Forall_forall _ _) (inv_rows _ _ _ HI) a Ha) as Hrow. apply row_seen_nonneg in Hrow.
  rewrite andb_true_r. by apply Z.leb_le.
Qed.

Lemma events_published S fr t m now : Inv_except S fr t -> initialized t -> 0 <= now ->
  is_none_or MachineProjection.is_valid m = true ->
  events (published m now t) = events t ++ [the_event t m now].
Proof.
  intros HI Hi Hnow Hm. unfold events, published. simpl. rewrite omap_app. f_equal. simpl.
  unfold outbox_event at 1. simpl. rewrite from_to, (the_event_valid _ _ _ _ _ HI Hi Hnow Hm). done.
Qed.

Lemma last_of_snoc id es e :
  last_of id (es ++ [e]) = match concerns id e with Some m => Some m | None => last_of id es end.
Proof.
  unfold last_of. rewrite omap_app. simpl. destruct (concerns id e) as [m|] eqn:E; simpl.
  - by rewrite last_snoc.
  - by rewrite app_nil_r.
Qed.

Lemma phase_insert t t' k v : phase_ok t -> initialized t -> k ∉ PENDING_ADMIN_KEYS ->
  meta t' = <[k := v]> (meta t) -> phase_ok t'.
Proof.
  intros Hp Hi Hk Hm. left. unfold phase_ok, initialized in *. rewrite Hm.
  destruct Hp as [(_ & H1 & H2)|(H & _)].
  - split_and!; [|intros k' Hk'; apply lookup_insert_is_Some; destruct (decide (k = k')); auto|].
    + apply lookup_insert_is_Some. destruct (decide (k = "license_id"%string)); auto.
    + intros k' Hk'. rewrite lookup_insert_ne; [auto|]. by intros ->.
  - destruct Hi as [x Hx]. rewrite H in Hx; [done|set_solver].
Qed.

Lemma is_machine_spec id a : is_machine id a = true <-> Activation.machine_id a = id.
Proof. unfold is_machine. apply bool_decide_eq_true. Qed.

Lemma published_inv S S' fr t m now :
  Inv_except S fr t -> initialized t -> 0 <= now ->
  match m with None => True | Some p => exists a, a ∈ activations t /\ p = machine_projection a end ->
  (forall id, id ∉ S' -> id ∈ S -> option_map MachineProjection.machine_id m = Some id) ->
  Inv_except S' true (published m now t).
Proof.
  intros HI Hi Hnow Hm HS.
  assert (Hvalid : is_none_or MachineProjection.is_valid m = true).
  { destruct m as [p|]; [|done]. destruct Hm as (a & Ha & ->). simpl.
    exact (proj1 (Forall_forall _ _) (inv_rows _ _ _ HI) a Ha). }
  pose proof (events_published _ _ _ _ _ HI Hi Hnow Hvalid) as Hev.
  pose proof (inv_version _ _ _ HI Hi) as Hv.
  constructor; try apply HI.
  - simpl. apply map_Forall_insert_2; [|apply HI]. rewrite Hv. simpl. set_solver by lia.
  - eapply phase_insert; [apply HI|exact Hi| |reflexivity]. set_solver.
  - intros _. unfold int_at, published. simpl. rewrite lookup_insert_eq, Hv, length_app. simpl. f_equal. lia.
  - intros i r Hr. unfold published in Hr. simpl in Hr. apply lookup_app_Some in Hr as [Hr|[Hlen Hr]].
    + destruct (inv_outbox _ _ _ HI _ _ Hr) as (Hid & e & He & Hpv & Hl). split; [done|]. exists e. split_and!; try done.
      rewrite Hl. unfold license_id_of, published. simpl. rewrite lookup_insert_ne; done.
    + apply list_lookup_singleton_Some in Hr as [Hi0 <-]. simpl. assert (i = length (outbox t)) by lia. subst i.
      split; [done|]. exists (the_event t m now). split_and!.
      * unfold outbox_event. simpl. rewrite from_to, (the_event_valid _ _ _ _ _ HI Hi Hnow Hvalid). done.
      * simpl. by rewrite Hv.
      * unfold license_id_of, published. simpl. rewrite lookup_insert_ne; done.
  - intros a Ha Hstale. unfold published in Ha. simpl in Ha. rewrite Hev, last_of_snoc.
    unfold concerns. simpl. destruct m as [p|].
    + destruct Hm as (b & Hb & ->). simpl. case_bool_decide as Heq.
      * f_equal. f_equal. eapply key_unique; [apply (inv_ids _ _ _ HI)|done..].
      * apply (inv_mirror _ _ _ HI); [done|]. intros Hin. specialize (HS _ Hstale Hin). simpl in HS. congruence.
    + apply (inv_mirror _ _ _ HI); [done|]. intros Hin. by specialize (HS _ Hstale Hin).
  - intros _ e. rewrite Hev, last_snoc. intros [= <-]. simpl.
    destruct (inv_text_status _ _ _ HI Hi) as (s & Hs & Hs' & _). rewrite Hs'. simpl.
    unfold text_at, published in *. simpl. rewrite lookup_insert_ne; done.
Qed.

(** ** Changes of rows *)
Lemma events_same t t' : outbox t' = outbox t -> events t' = events t.
Proof. unfold events. by intros ->. Qed.

Lemma license_id_same t t' : meta t' = meta t -> license_id_of t' = license_id_of t.
Proof. unfold license_id_of. by intros ->. Qed.

(** Rows that change keep their identifier; they are stale until they are published. *)
Lemma update_inv S fr t p f :
  Inv_except S fr t ->
  (forall a, a ∈ activations t -> p a = true -> Activation.machine_id (f a) = Activation.machine_id a /\ row_ok (f a)) ->
  Inv_except (S ++ map Activation.machine_id (List.filter p (activations t))) fr
    (set_activations (update_where p f (activations t)) t).
Proof.
  intros HI Hf. constructor; try apply HI; simpl.
  - destruct (inv_phase _ _ _ HI) as [H|(H1 & H2 & H3 & H4)]; [by left|right]. simpl. by rewrite H3.
  - rewrite update_where_keys; [apply HI|]. intros a Ha Hp. by apply Hf.
  - apply Forall_forall. intros b (a & Ha & ->)%elem_of_update_where. destruct (p a) eqn:E; [by apply Hf|].
    exact (proj1 (Forall_forall _ _) (inv_rows _ _ _ HI) a Ha).
  - intros b (a & Ha & ->)%elem_of_update_where Hstale. destruct (p a) eqn:E.
    + destruct (Hf a Ha E) as [Hid _]. rewrite Hid in Hstale. exfalso. apply Hstale. apply elem_of_app. right.
      apply key_elem, elem_of_List_filter. done.
    + apply (inv_mirror _ _ _ HI); [done|]. set_solver.
Qed.

(** Publishing rows one after the other. *)
Lemma publish_machine_inv S fr t a now :
  Inv_except S fr t -> 0 <= now -> a ∈ activations t ->
  publish_machine now t (Activation.machine_id a) = published (Some (machine_projection a)) now t /\
  Inv_except (filter (.≠ Activation.machine_id a) S) true (publish_machine now t (Activation.machine_id a)).
Proof.
  intros HI Hnow Ha. unfold publish_machine, is_machine.
  rewrite (find_by_key Activation.machine_id _ a (inv_ids _ _ _ HI) Ha). simpl. split; [done|].
  eapply published_inv; [exact HI|by eapply inv_rows_initialized|done|by exists a|].
  intros id Hn Hs. simpl. f_equal. apply dec_stable. intros Hne. apply Hn. by apply list_elem_of_filter.
Qed.

Lemma inv_weaken S S' (fr fr' : bool) t :
  Inv_except S fr t -> S ⊆ S' -> (fr' = true -> fr = true) -> Inv_except S' fr' t.
Proof.
  intros HI HS Hf. constructor; try apply HI.
  - intros a Ha Hn. apply (inv_mirror _ _ _ HI); [done|set_solver].
  - intros Ht. apply (inv_status _ _ _ HI), Hf, Ht.
Qed.

Lemma publish_all_inv ids : forall S fr t now,
  Inv_except S fr t -> 0 <= now ->
  (forall id, id ∈ ids -> exists a, a ∈ activations t /\ Activation.machine_id a = id) ->
  Inv_except (filter (.∉ ids) S) fr (publish_all now ids t).
Proof.
  induction ids as [|id ids IH]; intros S fr t now HI Hnow Hids; simpl.
  - eapply inv_weaken; [exact HI| |done]. intros x Hx. apply list_elem_of_filter. set_solver.
  - destruct (Hids id) as (a & Ha & <-); [left|].
    destruct (publish_machine_inv S fr t a now HI Hnow Ha) as [_ HI'].
    pose proof (IH _ true _ now HI' Hnow) as HI''. eapply inv_weaken; [apply HI''| |done].
    + intros x Hx. apply Hids. by right.
    + intros x Hx. apply list_elem_of_filter in Hx as [H1 H2].
      apply list_elem_of_filter in H2 as [H2 H3]. apply list_elem_of_filter. split; [set_solver|done].
Qed.

Lemma publish_all_frame now ids : forall t,
  activations (publish_all now ids t) = activations t /\
  (forall k, k <> "proj_version"%string -> meta (publish_all now ids t) !! k = meta t !! k).
Proof.
  induction ids as [|id ids IH]; intros t; simpl; [done|]. destruct (IH (publish_machine now t id)) as [H1 H2].
  split; [by rewrite H1|]. intros k Hk. rewrite H2 by done. unfold publish_machine, published. simpl.
  by rewrite lookup_insert_ne.
Qed.

(** ** Every move keeps the invariant *)
Lemma lift_meta S fr t m :
  Inv_except S fr t -> meta_ok m -> phase_ok (set_meta m t) ->
  (is_Some (m !! "license_id"%string) ->
     option_map as_integer (m !! "proj_version"%string) = Some (Z.of_nat (length (outbox t)))) ->
  (outbox t <> [] -> m !! "license_id"%string = meta t !! "license_id"%string) ->
  (fr = true -> outbox t <> [] -> m !! "status"%string = meta t !! "status"%string) ->
  Inv_except S fr (set_meta m t).
Proof.
  intros HI Hm Hp Hv Hl Hs. constructor; try apply HI; simpl; [done|done|exact Hv| | ].
  - intros i r Hr. simpl in Hr. assert (outbox t <> []) as Hne by (intros E; by rewrite E in Hr).
    destruct (inv_outbox _ _ _ HI _ _ Hr) as (Hid & e & He & Hpv & Hli). split; [done|]. exists e.
    split_and!; try done. rewrite Hli. unfold license_id_of. simpl. by rewrite Hl.
  - intros Hfr e He. unfold text_at. simpl. rewrite Hs; [by apply (inv_status _ _ _ HI)|done|].
    intros E. unfold events in He. simpl in He. by rewrite E in He.
Qed.

(** A key that is neither an identity, the status nor the version. *)
Lemma with_int_inv S fr t k z :
  Inv_except S fr t -> value_ok k (SqlInteger z) -> initialized t ->
  k ∉ ["license_id"; "status"; "proj_version"]%string -> k ∉ PENDING_ADMIN_KEYS ->
  Inv_except S fr (with_int k z t).
Proof.
  intros HI Hok Hi Hk Hk'. apply lift_meta; [done| | | | |].
  - apply map_Forall_insert_2; [done|apply HI].
  - eapply phase_insert; [apply HI|done|exact Hk'|reflexivity].
  - intros _. rewrite lookup_insert_ne by set_solver. by apply (inv_version _ _ _ HI).
  - intros _. apply lookup_insert_ne. set_solver.
  - intros _ _. apply lookup_insert_ne. set_solver.
Qed.

Lemma lookup_optional_ne k k' o (m : gmap string SqlStorageValue) :
  k <> k' -> set_optional k o m !! k' = m !! k'.
Proof. intros H. destruct o; simpl; [by apply lookup_insert_ne|by apply lookup_delete_ne]. Qed.

Lemma lookup_settings_ne status seats hb expiry m k :
  k ∉ ["status"; "seats"; "heartbeat_sec"; "expires_at"]%string ->
  with_settings status seats hb expiry m !! k = m !! k.
Proof.
  intros Hk. unfold with_settings. rewrite !lookup_optional_ne by set_solver. by rewrite !lookup_insert_ne by set_solver.
Qed.

Lemma lookup_settings_status status seats hb expiry m :
  with_settings status seats hb expiry m !! "status"%string = Some (SqlText status).
Proof.
  unfold with_settings. rewrite !lookup_optional_ne by done. rewrite lookup_insert_ne by done. apply lookup_insert_eq.
Qed.

Lemma lookup_settings_seats status seats hb expiry m :
  with_settings status seats hb expiry m !! "seats"%string = Some (SqlInteger seats).
Proof. unfold with_settings. rewrite !lookup_optional_ne by done. apply lookup_insert_eq. Qed.

Lemma lookup_or_insert_ne k v k' m : k <> k' -> or_insert k v m !! k' = m !! k'.
Proof. intros H. unfold or_insert. destruct (m !! k); [done|by apply lookup_insert_ne]. Qed.
Lemma lookup_or_insert k v m : or_insert k v m !! k = Some (default v (m !! k)).
Proof. unfold or_insert. destruct (m !! k) eqn:E; simpl; [done|apply lookup_insert_eq]. Qed.

Lemma meta_ok_insert k v m : value_ok k v -> meta_ok m -> meta_ok (<[k := v]> m).
Proof. intros H1 H2. by apply map_Forall_insert_2. Qed.
Lemma meta_ok_optional k o m :
  (forall z, o = Some z -> value_ok k (SqlInteger z)) -> meta_ok m -> meta_ok (set_optional k o m).
Proof. intros H1 H2. destruct o; simpl; [by apply meta_ok_insert; [apply H1|]|by apply map_Forall_delete]. Qed.
Lemma meta_ok_or_insert k v m : value_ok k v -> meta_ok m -> meta_ok (or_insert k v m).
Proof. intros H1 H2. unfold or_insert. destruct (m !! k); [done|by apply meta_ok_insert]. Qed.

Lemma meta_ok_settings status seats hb expiry m :
  settings_ok status seats hb -> meta_ok m -> meta_ok (with_settings status seats hb expiry m).
Proof.
  intros (H1 & H2 & H3) Hm. assert (one_of ["active"; "suspended"; "expired"; "revoked"]%string status = true) as H1'.
  { unfold one_of in *. apply bool_decide_eq_true in H1. apply bool_decide_eq_true. set_solver. }
  unfold with_settings. repeat (apply meta_ok_optional; [|]); [..|repeat (apply meta_ok_insert; [|]); [..|done]].
  - intros z ->. simpl. set_solver.
  - intros z ->. simpl. set_solver by lia.
  - simpl. set_solver by lia.
  - simpl. auto.
Qed.

Lemma settings_inv status seats hb expiry t : Inv t -> initialized t -> settings_ok status seats hb ->
  Inv_except [] false (set_meta (with_settings status seats hb expiry (meta t)) t).
Proof.
  intros HI Hi Hok. apply lift_meta; [eapply inv_weaken; [exact HI|done|done]| | | | |done].
  - apply meta_ok_settings; [done|apply HI].
  - left. unfold initialized. simpl. split_and!.
    + rewrite lookup_settings_ne by set_solver. done.
    + intros k Hk. destruct (decide (k ∈ ["status"; "seats"; "heartbeat_sec"; "expires_at"]%string)) as [Hin|Hin].
      * assert (k = "status"%string \/ k = "seats"%string) as [-> | ->] by (unfold LIVE_KEYS in Hk; set_solver).
        -- rewrite lookup_settings_status. by eexists.
        -- rewrite lookup_settings_seats. by eexists.
      * rewrite lookup_settings_ne by done. eapply inv_live; [exact HI|done|done].
    + intros k Hk. rewrite lookup_settings_ne by (unfold PENDING_ADMIN_KEYS in Hk; set_solver).
      destruct (inv_phase _ _ _ HI) as [(_ & _ & H)|(H & _)]; [by apply H|].
      destruct Hi as [x Hx]. rewrite H in Hx; [done|set_solver].
  - intros _. rewrite lookup_settings_ne by set_solver. by apply (inv_version _ _ _ HI).
  - intros _. apply lookup_settings_ne. set_solver.
Qed.

Lemma status_inv s t : Inv t -> initialized t -> one_of ["active"; "suspended"; "expired"; "revoked"] s = true ->
  Inv_except [] false (set_meta (<["status" := SqlText s]> (meta t)) t).
Proof.
  intros HI Hi Hok. apply lift_meta; [eapply inv_weaken; [exact HI|done|done]| | | | |done].
  - apply meta_ok_insert; [simpl; auto|apply HI].
  - eapply phase_insert; [apply HI|done| |reflexivity]. set_solver.
  - intros _. rewrite lookup_insert_ne by done. by apply (inv_version _ _ _ HI).
  - intros _. by apply lookup_insert_ne.
Qed.

Lemma announce t now : Inv_except [] false t -> initialized t -> 0 <= now -> Inv (published None now t).
Proof. intros HI Hi Hnow. eapply published_inv; [exact HI|done..|]. intros id _ Hid. by apply elem_of_nil in Hid. Qed.

Lemma released_ok now a : 0 <= now -> row_ok a -> row_ok (Activation.set_status_seen STATUS_RELEASED now a).
Proof.
  intros Hnow. unfold row_ok, MachineProjection.is_valid. simpl. intros H.
  repeat (apply andb_true_iff in H as [H ?]). repeat (apply andb_true_iff; split); try done. by apply Z.leb_le.
Qed.

Lemma release_inv fr p now t : Inv_except [] fr t -> 0 <= now -> Inv_except [] fr (release_rows p now t).
Proof.
  intros HI Hnow. unfold release_rows.
  eapply inv_weaken; [apply publish_all_inv; [apply update_inv; [exact HI|]|done|]| |done].
  - intros a Ha _. split; [done|]. apply released_ok; [done|].
    exact (proj1 (Forall_forall _ _) (inv_rows _ _ _ HI) a Ha).
  - intros id Hid. apply list_elem_of_In, in_map_iff in Hid as (a & <- & Ha). apply list_elem_of_In in Ha.
    apply elem_of_List_filter in Ha as [Ha Hp]. exists (Activation.set_status_seen STATUS_RELEASED now a).
    split; [|done]. simpl. apply elem_of_update_where. exists a. by rewrite Hp.
  - intros id Hid. apply list_elem_of_filter in Hid as [H1 H2]. set_solver.
Qed.

Lemma release_frame p now t : 
  activations (release_rows p now t) = update_where p (Activation.set_status_seen STATUS_RELEASED now) (activations t) /\
  (forall k, k <> "proj_version"%string -> meta (release_rows p now t) !! k = meta t !! k).
Proof. unfold release_rows. destruct (publish_all_frame now (map Activation.machine_id (List.filter p (activations t)))
  (set_activations (update_where p (Activation.set_status_seen STATUS_RELEASED now) (activations t)) t)) as [H1 H2]. done. Qed.

Lemma machine_inv a f now t : Inv t -> 0 <= now -> a ∈ activations t ->
  Activation.machine_id (f a) = Activation.machine_id a -> row_ok (f a) ->
  Inv (publish_machine now (set_activations (update_where (is_machine (Activation.machine_id a)) f (activations t)) t)
         (Activation.machine_id a)).
Proof.
  intros HI Hnow Ha Hid Hrow.
  set (t1 := set_activations _ t). assert (Hf : f a ∈ activations t1).
  { simpl. apply elem_of_update_where. exists a. split; [done|]. by rewrite (proj2 (is_machine_spec _ a) eq_refl). }
  rewrite <- Hid. eapply inv_weaken; [eapply publish_machine_inv; [|done|exact Hf]| |done].
  - apply update_inv; [exact HI|]. intros b Hb Hm%is_machine_spec.
    assert (b = a) as -> by (eapply key_unique; [apply (inv_ids _ _ _ HI)|done..]). done.
  - intros x Hx. apply list_elem_of_filter in Hx as [Hne Hx]. exfalso. simpl in Hx.
    unfold is_machine in Hx. rewrite (filter_by_key Activation.machine_id _ a (inv_ids _ _ _ HI) Ha) in Hx.
    simpl in Hx. set_solver.
Qed.

Lemma insert_inv a now t : Inv t -> initialized t -> 0 <= now -> row_ok a ->
  Activation.machine_id a ∉ map Activation.machine_id (activations t) ->
  Inv (publish_machine now (set_activations (activations t ++ [a]) t) (Activation.machine_id a)).
Proof.
  intros HI Hi Hnow Hrow Hn.
  assert (HI1 : Inv_except [Activation.machine_id a] true (set_activations (activations t ++ [a]) t)).
  { constructor; try apply HI; simpl.
    - destruct (inv_phase _ _ _ HI) as [H|(H & _)]; [by left|].
      destruct Hi as [x Hx]. rewrite H in Hx; [done|set_solver].
    - rewrite map_app. simpl. apply NoDup_app. split_and!; [apply HI| |apply NoDup_singleton].
      intros x Hx. by intros ->%list_elem_of_singleton.
    - apply Forall_app. split; [apply HI|by constructor].
    - intros b [Hb|Hb]%elem_of_app Hs; [|set_solver].
      apply (inv_mirror _ _ _ HI); [done|]. apply not_elem_of_nil. }
  eapply inv_weaken; [eapply publish_machine_inv; [exact HI1|done|]| |done].
  - simpl. set_solver.
  - intros x Hx. apply list_elem_of_filter in Hx as [Hne Hx]. set_solver.
Qed.

Lemma delete_rows_inv p t : Inv t -> Inv (set_activations (delete_where p (activations t)) t).
Proof.
  intros HI. constructor; try apply HI; simpl.
  - destruct (inv_phase _ _ _ HI) as [H|(H1 & H2 & H3 & H4)]; [by left|right]. simpl. by rewrite H3.
  - apply delete_where_NoDup, HI.
  - apply Forall_forall. intros a Ha. apply elem_of_delete_where in Ha as [Ha _].
    exact (proj1 (Forall_forall _ _) (inv_rows _ _ _ HI) a Ha).
  - intros a Ha Hs. apply elem_of_delete_where in Ha as [Ha _]. by apply (inv_mirror _ _ _ HI).
Qed.

(** ** Initialisation *)
Definition SETTINGS : list string := ["status"; "seats"; "heartbeat_sec"; "expires_at"]%string.

Lemma lookup_fold_delete (ks : list string) : forall (m : gmap string SqlStorageValue) k,
  fold_left (fun m k => delete k m) ks m !! k = if bool_decide (k ∈ ks) then None else m !! k.
Proof.
  induction ks as [|x ks IH]; intros m k; simpl; [done|]. rewrite IH.
  case_bool_decide; [by rewrite bool_decide_true by set_solver|].
  destruct (decide (k = x)) as [->|Hne].
  - rewrite lookup_delete_eq. by rewrite bool_decide_true by set_solver.
  - rewrite lookup_delete_ne by done. by rewrite bool_decide_false by set_solver.
Qed.

Lemma pending_value m v : meta_ok m -> m !! "pending_admin_update"%string = Some v -> v = SqlInteger 1.
Proof. intros Hm Hv. pose proof (Hm _ _ Hv) as H. destruct v as [z|s|b]; simpl in H; set_solver. Qed.

Lemma pending_settings m : meta_ok m -> pending_ok m -> m !! "pending_admin_update"%string <> None ->
  exists status seats, m !! "pending_admin_status"%string = Some (SqlText status) /\
    m !! "pending_admin_seats"%string = Some (SqlInteger seats) /\
    settings_ok status seats (option_map as_integer (m !! "pending_admin_heartbeat_sec"%string)).
Proof.
  intros Hm Hp Hne. destruct Hp as [Hp|Hp]; [exfalso; apply Hne, Hp; set_solver|].
  destruct (Hp "pending_admin_status"%string) as [v Hv]; [set_solver|].
  destruct (Hp "pending_admin_seats"%string) as [w Hw]; [set_solver|].
  pose proof (Hm _ _ Hv) as H1. pose proof (Hm _ _ Hw) as H2.
  destruct v as [z|status|b]; simpl in H1; [set_solver| |set_solver].
  destruct w as [seats|s|b]; simpl in H2; [|set_solver..]. exists status, seats. split_and!; [done|done|].
  split_and!; [set_solver|set_solver by lia..|].
  destruct (m !! "pending_admin_heartbeat_sec"%string) as [x|] eqn:Hx; [|done]. pose proof (Hm _ _ Hx) as H3.
  destruct x as [z|s|b]; simpl in H3 |- *; set_solver.
Qed.

Lemma apply_pending_cases m : meta_ok m -> pending_ok m ->
  (m !! "pending_admin_update"%string = None /\ apply_pending m = m /\
     forall k, k ∈ PENDING_ADMIN_KEYS -> m !! k = None) \/
  exists status seats hb expiry, settings_ok status seats hb /\
    apply_pending m = fold_left (fun m k => delete k m) PENDING_ADMIN_KEYS (with_settings status seats hb expiry m).
Proof.
  intros Hm Hp. destruct (m !! "pending_admin_update"%string) as [v|] eqn:Hv.
  - right. rewrite (pending_value _ _ Hm Hv) in Hv.
    destruct (pending_settings m Hm Hp) as (status & seats & H1 & H2 & H3); [congruence|].
    eexists _, _, _, _. split; [exact H3|]. unfold apply_pending. by rewrite Hv, H1, H2.
  - left. split_and!; [done|unfold apply_pending; by rewrite Hv|].
    destruct Hp as [Hp|Hp]; [done|]. destruct (Hp "pending_admin_update"%string) as [v Hv']; [set_solver|congruence].
Qed.

Lemma apply_pending_spec m : meta_ok m -> pending_ok m ->
  meta_ok (apply_pending m) /\ (forall k, k ∈ PENDING_ADMIN_KEYS -> apply_pending m !! k = None) /\
  (forall k, k ∉ PENDING_ADMIN_KEYS -> k ∉ SETTINGS -> apply_pending m !! k = m !! k) /\
  (forall k, k ∈ ["status"; "seats"]%string -> is_Some (m !! k) -> is_Some (apply_pending m !! k)).
Proof.
  intros Hm Hp. destruct (apply_pending_cases m Hm Hp) as [(H1 & H2 & H3)|(status & seats & hb & expiry & Hok & ->)].
  - rewrite H2. by split_and!.
  - assert (Hl : forall k, fold_left (fun m k => delete k m) PENDING_ADMIN_KEYS (with_settings status seats hb expiry m) !! k =
      if bool_decide (k ∈ PENDING_ADMIN_KEYS) then None else with_settings status seats hb expiry m !! k)
      by apply lookup_fold_delete.
    split_and!.
    + intros k v Hk. rewrite Hl in Hk. case_bool_decide; [done|]. by apply (meta_ok_settings status seats hb expiry m Hok Hm).
    + intros k Hk. by rewrite Hl, bool_decide_true.
    + intros k Hk1 Hk2. rewrite Hl, bool_decide_false by done. by apply lookup_settings_ne.
    + intros k Hk _. rewrite Hl, bool_decide_false by (unfold PENDING_ADMIN_KEYS; set_solver).
      apply elem_of_cons in Hk as [->|Hk]; [rewrite lookup_settings_status; by eexists|].
      apply list_elem_of_singleton in Hk as ->. rewrite lookup_settings_seats. by eexists.
Qed.

(** Keys that the initialisation itself writes. *)
Definition INIT_KEYS : list string :=
  ["license_id"; "product_id"; "suite_id"; "seats"; "heartbeat_sec"; "expires_at"; "nonce_ttl_sec"; "status"]%string.

Lemma lookup_base_ne i m k : k ∉ INIT_KEYS -> base_meta i m !! k = m !! k.
Proof.
  intros Hk. unfold base_meta, INIT_KEYS in *. rewrite lookup_or_insert_ne by set_solver.
  rewrite lookup_insert_ne by set_solver. rewrite !lookup_optional_ne by set_solver.
  by rewrite !lookup_insert_ne by set_solver.
Qed.

Lemma lookup_base i m :
  base_meta i m !! "license_id"%string = Some (SqlBlob (InitRequest.license_id i)) /\
  base_meta i m !! "status"%string = Some (default (SqlText "active") (m !! "status"%string)) /\
  (forall k, k ∈ ["license_id"; "product_id"; "suite_id"; "seats"; "nonce_ttl_sec"; "status"]%string ->
     is_Some (base_meta i m !! k)).
Proof.
  assert (Hl : base_meta i m !! "license_id"%string = Some (SqlBlob (InitRequest.license_id i))).
  { unfold base_meta. rewrite lookup_or_insert_ne by done. rewrite lookup_insert_ne by done.
    rewrite !lookup_optional_ne by done. rewrite !lookup_insert_ne by done. apply lookup_insert_eq. }
  assert (Hs : base_meta i m !! "status"%string = Some (default (SqlText "active") (m !! "status"%string))).
  { unfold base_meta. rewrite lookup_or_insert, lookup_insert_ne by done. rewrite !lookup_optional_ne by done.
    by rewrite !lookup_insert_ne by done. }
  split_and!; [exact Hl|exact Hs|]. intros k Hk.
  destruct (decide (k = "status"%string)) as [->|Hns]; [rewrite Hs; by eexists|].
  unfold base_meta. rewrite lookup_or_insert_ne by done. apply lookup_insert_is_Some.
  destruct (decide ("nonce_ttl_sec"%string = k)); [by left|right]. split; [done|].
  rewrite !lookup_optional_ne by set_solver. rewrite !lookup_insert_is_Some. set_solver.
Qed.

Lemma base_meta_ok t i : Inv t -> init_ok t i -> meta_ok (base_meta i (meta t)).
Proof.
  intros HI (H1 & H2 & H3 & H4 & H5 & H6). unfold base_meta.
  apply meta_ok_or_insert; [simpl; auto|]. apply meta_ok_insert.
  { simpl. right. left. split; [set_solver|]. destruct (InitRequest.nonce_ttl_sec i); simpl; [done|]. 
    unfold DEFAULT_NONCE_TTL_SECS. lia. }
  repeat (apply meta_ok_optional; [|]); [..|repeat (apply meta_ok_insert; [|]); [..|apply HI]]; simpl.
  - intros z _. set_solver.
  - intros z Hz. rewrite Hz in H4. set_solver.
  - set_solver.
  - set_solver.
  - set_solver.
  - set_solver.
Qed.

Lemma pending_ok_base t i : Inv t -> pending_ok (base_meta i (meta t)).
Proof.
  intros HI.
  assert (Hk : forall k, k ∈ PENDING_ADMIN_KEYS -> base_meta i (meta t) !! k = meta t !! k)
    by (intros k Hk; apply lookup_base_ne; unfold PENDING_ADMIN_KEYS, INIT_KEYS in *; set_solver).
  destruct (inv_phase _ _ _ HI) as [(_ & _ & H)|(_ & [H|H] & _)].
  - left. intros k Hin. rewrite Hk by done. by apply H.
  - left. intros k Hin. rewrite Hk by done. by apply H.
  - right. intros k Hin. rewrite Hk by (unfold PENDING_ADMIN_KEYS; set_solver). by apply H.
Qed.

(** What the initialisation leaves: a live object with nothing pending. *)
Lemma init_spec t i : Inv t -> init_ok t i ->
  meta_ok (init_meta i (meta t)) /\
  (forall k, k ∈ LIVE_KEYS -> is_Some (init_meta i (meta t) !! k)) /\
  (forall k, k ∈ PENDING_ADMIN_KEYS -> init_meta i (meta t) !! k = None) /\
  init_meta i (meta t) !! "license_id"%string = Some (SqlBlob (InitRequest.license_id i)) /\
  (forall k, k ∉ INIT_KEYS -> k ∉ PENDING_ADMIN_KEYS ->
     init_meta i (meta t) !! k = meta t !! k \/
     k ∈ ["proj_version"; "revocation_epoch"; "security_floor"]%string /\ meta t !! k = None /\
       init_meta i (meta t) !! k = Some (SqlInteger 0)) /\
  (initialized t -> init_meta i (meta t) !! "status"%string = meta t !! "status"%string).
Proof.
  intros HI Hok. pose proof (base_meta_ok t i HI Hok) as Hb. pose proof (pending_ok_base t i HI) as Hp.
  destruct (apply_pending_spec _ Hb Hp) as (A1 & A2 & A3 & A4). destruct (lookup_base i (meta t)) as (B1 & B2 & B3).
  assert (Hne : forall k, k ∉ ["proj_version"; "revocation_epoch"; "security_floor"]%string ->
    init_meta i (meta t) !! k = apply_pending (base_meta i (meta t)) !! k)
    by (intros k Hk; unfold init_meta; by rewrite !lookup_or_insert_ne by set_solver).
  assert (Hnew : forall k, k ∈ ["proj_version"; "revocation_epoch"; "security_floor"]%string ->
    init_meta i (meta t) !! k = Some (default (SqlInteger 0) (meta t !! k))).
  { intros k Hk. replace (meta t !! k) with (apply_pending (base_meta i (meta t)) !! k).
    - unfold init_meta. apply elem_of_cons in Hk as [->|Hk]; [|apply elem_of_cons in Hk as [->|Hk%list_elem_of_singleton]].
      + by rewrite !lookup_or_insert_ne, lookup_or_insert by done.
      + rewrite lookup_or_insert_ne, lookup_or_insert by done. by rewrite lookup_or_insert_ne by done.
      + subst k. rewrite lookup_or_insert. by rewrite !lookup_or_insert_ne by done.
    - rewrite A3 by (unfold PENDING_ADMIN_KEYS, SETTINGS; set_solver). apply lookup_base_ne. unfold INIT_KEYS. set_solver. }
  split_and!.
  - unfold init_meta. repeat (apply meta_ok_or_insert; [simpl; set_solver by lia|]). done.
  - intros k Hk. destruct (decide (k ∈ ["proj_version"; "revocation_epoch"; "security_floor"]%string)) as [Hin|Hin].
    + rewrite Hnew by done. by eexists.
    + rewrite Hne by done. destruct (decide (k ∈ ["status"; "seats"]%string)) as [Hs|Hs].
      * apply A4; [done|]. apply B3. set_solver.
      * rewrite A3 by (unfold LIVE_KEYS, PENDING_ADMIN_KEYS, SETTINGS in *; set_solver). apply B3.
        unfold LIVE_KEYS in Hk. set_solver.
  - intros k Hk. rewrite Hne by (unfold PENDING_ADMIN_KEYS in Hk; set_solver). by apply A2.
  - rewrite Hne by set_solver. rewrite A3 by (unfold PENDING_ADMIN_KEYS, SETTINGS; set_solver). done.
  - intros k Hk1 Hk2. destruct (decide (k ∈ ["proj_version"; "revocation_epoch"; "security_floor"]%string)) as [Hin|Hin].
    + rewrite Hnew by done. destruct (meta t !! k) as [v|] eqn:E; [by left|by right].
    + left. rewrite Hne by done. rewrite A3; [by apply lookup_base_ne|done|]. unfold SETTINGS, INIT_KEYS in *. set_solver.
  - intros Hi. rewrite Hne by set_solver. unfold apply_pending. rewrite lookup_base_ne by (unfold INIT_KEYS; set_solver).
    destruct (inv_phase _ _ _ HI) as [(_ & _ & H)|(H & _)].
    + rewrite H by set_solver. rewrite B2. by destruct (inv_live _ _ _ "status" HI Hi) as [v ->]; [set_solver|].
    + destruct Hi as [x Hx]. rewrite H in Hx; [done|set_solver].
Qed.

Lemma init_inv t i : Inv t -> init_ok t i -> Inv (set_meta (init_meta i (meta t)) t).
Proof.
  intros HI Hok. destruct (init_spec t i HI Hok) as (H1 & H2 & H3 & H4 & H5 & H6).
  assert (Hi : outbox t <> [] -> initialized t).
  { intros Hne. destruct (inv_phase _ _ _ HI) as [(? & _)|(_ & _ & _ & ?)]; done. }
  apply lift_meta; [done|done| | | |].
  - left. unfold initialized. simpl. rewrite H4. by split_and!.
  - intros _. destruct (H5 "proj_version"%string) as [E|(_ & E & ->)];
      [unfold INIT_KEYS; set_solver|unfold PENDING_ADMIN_KEYS; set_solver| |].
    + rewrite E. destruct (inv_phase _ _ _ HI) as [(Hin & _)|(Hn & _)]; [by apply (inv_version _ _ _ HI)|].
      exfalso. rewrite Hn in E by set_solver. destruct (H2 "proj_version"%string) as [v Hv]; [set_solver|congruence].
    + simpl. destruct (inv_phase _ _ _ HI) as [(_ & Hl & _)|(_ & _ & _ & ->)]; [|done].
      destruct (Hl "proj_version"%string) as [v Hv]; [set_solver|congruence].
  - intros Hne. rewrite H4. destruct (Hi Hne) as [v Hv]. rewrite Hv. f_equal. symmetry. by apply Hok.
  - intros _ Hne. by apply H6, Hi.
Qed.

Lemma pending_inv status seats hb expiry t : Inv t -> meta t !! "license_id"%string = None ->
  settings_ok status seats hb -> Inv (set_meta (pending_meta status seats hb expiry (meta t)) t).
Proof.
  intros HI Hn (S1 & S2 & S3).
  destruct (inv_phase _ _ _ HI) as [([v Hv] & _)|(P1 & P2 & P3 & P4)]; [congruence|].
  assert (Hk : forall k, k ∉ PENDING_ADMIN_KEYS -> pending_meta status seats hb expiry (meta t) !! k = meta t !! k).
  { intros k Hk. unfold pending_meta, PENDING_ADMIN_KEYS in *. rewrite lookup_insert_ne by set_solver.
    rewrite !lookup_optional_ne by set_solver. by rewrite !lookup_insert_ne by set_solver. }
  apply lift_meta; [done| | | | |].
  - unfold pending_meta. apply meta_ok_insert; [simpl; auto|]. apply meta_ok_optional; [intros z _; simpl; set_solver|].
    apply meta_ok_optional; [intros z ->; simpl; set_solver|].
    apply meta_ok_insert; [simpl; set_solver|]. apply meta_ok_insert; [simpl; auto|apply HI].
  - right. simpl. split_and!; [|right|done|done].
    + intros k Hin. rewrite Hk by (unfold LIVE_KEYS, PENDING_ADMIN_KEYS in *; set_solver). by apply P1.
    + intros k Hin. unfold pending_meta. apply lookup_insert_is_Some.
      destruct (decide ("pending_admin_update"%string = k)); [by left|right]. split; [done|].
      rewrite !lookup_optional_ne by set_solver. rewrite !lookup_insert_is_Some. set_solver.
  - rewrite Hk by (unfold PENDING_ADMIN_KEYS; set_solver). rewrite Hn. by intros [v Hv].
  - by rewrite P4.
  - by rewrite P4.
Qed.

(** A raised mark, also the version of an administrator's update before the initialisation. *)
Lemma raise_inv k z t : Inv t -> k ∈ ["revocation_epoch"; "security_floor"; "admin_version"]%string ->
  initialized t \/ k = "admin_version"%string -> 0 <= z -> Inv (with_int k z t).
Proof.
  intros HI Hk Hi Hz.
  assert (Hok : value_ok k (SqlInteger z)) by (simpl; set_solver).
  destruct (inv_phase _ _ _ HI) as [(Hin & _)|(P1 & P2 & P3 & P4)].
  - apply with_int_inv; [done|done|done|set_solver|unfold PENDING_ADMIN_KEYS; set_solver].
  - destruct Hi as [[v Hv]| ->]; [rewrite P1 in Hv; [done|set_solver]|]. apply lift_meta; [done| | | | |].
    + apply meta_ok_insert; [done|apply HI].
    + right. simpl. split_and!; [| |done|done].
      * intros k Hin. rewrite lookup_insert_ne; [by apply P1|]. unfold LIVE_KEYS in Hin. set_solver.
      * destruct P2 as [P2|P2]; [left|right]; intros k Hin; rewrite lookup_insert_ne; auto;
          unfold PENDING_ADMIN_KEYS in *; set_solver.
    + rewrite lookup_insert_ne by done. rewrite P1 by set_solver. by intros [v Hv].
    + by rewrite P4.
    + by rewrite P4.
Qed.

Lemma int_at_nonneg t k : Inv t -> k ∈ ["revocation_epoch"; "security_floor"; "admin_version"]%string ->
  0 <= default 0 (int_at t k).
Proof.
  intros HI Hk. unfold int_at. destruct (meta t !! k) as [v|] eqn:Hv; simpl; [|lia].
  pose proof (inv_meta _ _ _ HI _ _ Hv) as H.
  destruct v as [z|s|b]; simpl in H |- *; unfold PENDING_ADMIN_KEYS in *; set_solver by lia.
Qed.

(** ** Answers, nonces and sent events *)
Lemma answers_inv l t : Inv t -> NoDup (map IdemRow.key l) -> Forall idem_ok l -> Inv (set_idem l t).
Proof. intros HI H1 H2. constructor; try apply HI; done. Qed.

Lemma completed_ok envelope v : reservation_ok v -> reservation_ok (ReserveResponse.completed envelope v).
Proof. unfold reservation_ok. simpl. done. Qed.

Lemma complete_answer_inv k r v envelope t :
  Inv t -> r ∈ idem t -> IdemRow.key r = k -> IdemRow.kind r = Some "reserve"%string -> cached r = Some v ->
  Inv (set_idem (update_where (has_key k) (IdemRow.set_resp (to_vec (ReserveResponse.completed envelope v))) (idem t)) t).
Proof.
  intros HI Hr Hk Hkind Hv. apply answers_inv; [done| |].
  - rewrite update_where_keys; [apply HI|done].
  - pose proof (inv_idem _ _ _ HI) as Hall. rewrite Forall_forall in Hall.
    destruct (Hall r Hr Hkind) as (Hh & w & Hw & Hok). apply Forall_forall. intros x (y & Hy & ->)%elem_of_update_where.
    destruct (has_key k y) eqn:E; [|by apply Hall]. apply bool_decide_eq_true in E.
    assert (y = r) as -> by (eapply key_unique; [apply (inv_keys _ _ _ HI)|done..|congruence]).
    intros _. split; [done|]. exists (ReserveResponse.completed envelope v). unfold cached. simpl. rewrite from_to.
    split; [done|]. apply completed_ok. unfold cached in *. congruence.
Qed.

Lemma outbox_event_mark now r : outbox_event (OutboxRow.mark_sent now r) = outbox_event r.
Proof. done. Qed.

Lemma events_mark p now l : omap outbox_event (update_where p (OutboxRow.mark_sent now) l) = omap outbox_event l.
Proof.
  induction l as [|r l IH]; simpl; [done|]. destruct (p r); simpl; rewrite ?outbox_event_mark;
    destruct (outbox_event r); first [exact IH|f_equal; exact IH].
Qed.

Lemma sent_inv p now t : Inv t -> Inv (set_outbox (update_where p (OutboxRow.mark_sent now) (outbox t)) t).
Proof.
  intros HI.
  assert (Hev : events (set_outbox (update_where p (OutboxRow.mark_sent now) (outbox t)) t) = events t)
    by apply events_mark.
  constructor; try apply HI; simpl.
  - destruct (inv_phase _ _ _ HI) as [H|(H1 & H2 & H3 & H4)]; [by left|right]. simpl. by rewrite H4.
  - intros Hi. unfold update_where. rewrite length_map. by apply (inv_version _ _ _ HI).
  - intros i r Hr. simpl in Hr. unfold update_where in Hr. apply list_lookup_fmap_Some in Hr as (x & -> & Hx).
    destruct (inv_outbox _ _ _ HI _ _ Hx) as (Hid & e & He & Hrest). destruct (p x); simpl; (split; [done|]); by exists e.
  - rewrite Hev. apply HI.
  - rewrite Hev. apply HI.
Qed.

Theorem move_inv now t t' : 0 <= now -> Inv t -> move now t t' -> Inv t'.
Proof.
  intros Hnow HI Hm. destruct Hm as
    [k z Hk Hi Hz|k z Hk Hi|n Hn|r Hr1 Hr2 Hr3|k r v Hr Hkr Hv Hrep|k r v env Hr Hk Hkind Hv He|x|x|a f Ha (F1 & F2 & F3 & F4)
    |a seats Hn Hs Hc Hrow Hst Hex Hseats Hcount Hfp|status seats hb expiry Hi Hst Hok|Hi|status seats hb expiry Hn Hok
    |i Hok|id Hi|p Hi Hp|Hst Hex|].
  - pose proof (int_at_nonneg t k HI Hk). apply raise_inv; [done..|lia].
  - apply with_int_inv; [done| |done|set_solver|unfold PENDING_ADMIN_KEYS; set_solver]. simpl. set_solver.
  - constructor; try apply HI; simpl. rewrite map_app. apply NoDup_app. split_and!; [apply HI| |apply NoDup_singleton].
    intros y Hy ->%list_elem_of_singleton. done.
  - apply answers_inv; [done| |apply Forall_app; split; [apply HI|by constructor]].
    rewrite map_app. apply NoDup_app. split_and!; [apply HI| |apply NoDup_singleton].
    intros y Hy ->%list_elem_of_singleton. done.
  - apply answers_inv; [done|apply delete_where_NoDup, HI|]. apply Forall_forall. intros y [Hy _]%elem_of_delete_where.
    exact (proj1 (Forall_forall _ _) (inv_idem _ _ _ HI) y Hy).
  - by eapply complete_answer_inv.
  - constructor; apply HI.
  - constructor; apply HI.
  - by apply machine_inv.
  - apply insert_inv; [done| |done..]. unfold text_at in Hst.
    destruct (inv_phase _ _ _ HI) as [(? & _)|(H & _)]; [done|]. by rewrite H in Hst by set_solver.
  - apply announce; [by apply settings_inv| |done]. unfold initialized. simpl. rewrite lookup_settings_ne; [done|set_solver].
  - apply announce; [by apply status_inv| |done]. unfold initialized. simpl. by rewrite lookup_insert_ne.
  - by apply pending_inv.
  - by apply init_inv.
  - by apply delete_rows_inv.
  - by apply release_inv.
  - assert (Hi : initialized t).
    { unfold text_at in Hst. destruct (inv_phase _ _ _ HI) as [(? & _)|(H & _)]; [done|]. by rewrite H in Hst by set_solver. }
    apply announce; [apply release_inv; [by apply status_inv|done]| |done]. unfold initialized.
    rewrite (proj2 (release_frame _ _ _)) by done. simpl. by rewrite lookup_insert_ne.
  - unfold pruned. assert (HI1 : Inv (set_nonces (delete_where (fun n => n.2 <=?
        sat_sub_i64 now (default DEFAULT_NONCE_TTL_SECS (int_at t "nonce_ttl_sec"))) (nonces t)) t)).
    { constructor; try apply HI. simpl. apply delete_where_NoDup, HI. }
    set (t1 := set_nonces _ t) in *.
    assert (HI2 : Inv (set_idem (delete_where (fun r => IdemRow.created_at r <=? sat_sub_i64 now IDEMPOTENCY_TTL_SECS) (idem t)) t1)).
    { apply answers_inv; [done|apply delete_where_NoDup, HI|]. apply Forall_forall. intros y [Hy _]%elem_of_delete_where.
      exact (proj1 (Forall_forall _ _) (inv_idem _ _ _ HI) y Hy). }
    apply (delete_rows_inv _ _ HI2).
Qed.

(** The object before its first request. *)
Lemma empty_inv : Inv Tables.empty_.
Proof.
  constructor; simpl; try (by constructor).
  - apply map_Forall_empty.
  - right. simpl. split_and!; [done| |done|done]. left. done.
  - intros [v Hv]. done.
  - intros a Ha. by apply elem_of_nil in Ha.
  - intros _ e He. done.
Qed.
End Invariant.
