(* ===== verification/LicenseKeeps.v ===== *)
(** * What the handlers keep

    A preorder on tables that respects the statements the object executes is respected by every
    handler: the programs are traversed once, for any such preorder.  Its instances are the number
    of occupied seats, which only a reservation raises, the revocation of a machine, which only
    [admin_forget] undoes, and the nonces, which only the alarm forgets. *)

From S2P Require Import Prelude Types Cbor Field Artifacts Chain Messages Requests License Anomaly Suite StdSuite Events.
From S2P Require Import LicenseTables LicenseDO LicenseMoves LicenseInv.
Import Tables.

(** An update that gives no seat and forgives no revocation. *)
Definition modest (p : Activation -> bool) (f : Activation -> Activation) : Prop :=
  forall a, p a = true -> Activation.machine_id (f a) = Activation.machine_id a /\
    (Activation.occupies (f a) = true -> Activation.occupies a = true) /\
    (Activation.status a = STATUS_REVOKED -> Activation.status (f a) = STATUS_REVOKED).

Class Respectful (R : Tables -> Tables -> Prop) := {
  respectful_preorder :: PreOrder R;
  respectful_meta m t : R t (set_meta m t);
  respectful_transfers l t : R t (set_transfers l t);
  respectful_outbox l t : R t (set_outbox l t);
  respectful_idem l t : R t (set_idem l t);
  respectful_alarm o t : R t (set_alarm o t);
  respectful_nonce n t : R t (set_nonces (nonces t ++ [n]) t);
  respectful_update p f t : modest p f -> R t (set_activations (update_where p f (activations t)) t);
}.

Create HintDb keeps.

Section Keeps.
Context `{Host : LicenseHost} `{Prim : Primitives}.
Context (R : Tables -> Tables -> Prop) `{!Respectful R}.

Definition keeps {A} (m : Do A) : Prop := forall t, R t (m t).1.

(** ** Rules *)
Lemma keeps_still {A} (m : Do A) : (forall t, (m t).1 = t) -> keeps m.
Proof. intros H t. rewrite H. reflexivity. Qed.

Lemma keeps_seq {A B} (m : Do A) (k : A -> Do B) : keeps m -> (forall a, keeps (k a)) -> keeps (bind m k).
Proof.
  intros Hm Hk t. specialize (Hm t). unfold bind. destruct (m t) as [t1 [a|r|]]; [|exact Hm|exact Hm].
  etransitivity; [exact Hm|apply Hk].
Qed.

Lemma keeps_ret {A} (a : A) : keeps (ret a).
Proof. by apply keeps_still. Qed.
Lemma keeps_throw {A} : keeps (throw : Do A).
Proof. by apply keeps_still. Qed.
Lemma keeps_reply {A} c b : keeps (reply c b : Do A).
Proof. by apply keeps_still. Qed.
Lemma keeps_reads {A} (f : Tables -> A) : keeps (reads f).
Proof. by apply keeps_still. Qed.
Lemma keeps_writes f : (forall t, R t (f t)) -> keeps (writes f).
Proof. intros H t. apply H. Qed.
Lemma keeps_some_or {A} (o : option A) m : keeps m -> keeps (some_or o m).
Proof. intros H. destruct o; [apply keeps_ret|done]. Qed.
Lemma keeps_refuse_if b c s : keeps (refuse_if b c s).
Proof. destruct b; [apply keeps_reply|apply keeps_ret]. Qed.
Lemma keeps_meta_blob k : keeps (meta_blob k).
Proof. apply keeps_still. intros t. unfold meta_blob. by destruct (meta t !! k) as [[]|]. Qed.
Lemma keeps_upsert k v : keeps (upsert_meta k v).
Proof. apply keeps_writes. intros t. apply respectful_meta. Qed.
Lemma keeps_delete k : keeps (delete_meta k).
Proof. apply keeps_writes. intros t. apply respectful_meta. Qed.
Lemma keeps_or_ignore k v : keeps (insert_or_ignore_meta k v).
Proof. apply keeps_writes. intros t. destruct (meta t !! k); [reflexivity|apply respectful_meta]. Qed.
Lemma keeps_optional k o : keeps (upsert_optional_i64 k o).
Proof. destruct o; [apply keeps_upsert|apply keeps_delete]. Qed.
Lemma keeps_version : keeps next_version.
Proof. intros t. apply respectful_meta. Qed.
Lemma keeps_push p now : keeps (push_outbox p now).
Proof. intros t. apply respectful_outbox. Qed.
Lemma keeps_insert_idem r : keeps (insert_idem r).
Proof. intros t. unfold insert_idem. destruct (existsb _ _); [reflexivity|apply respectful_idem]. Qed.
Lemma keeps_delete_idem k : keeps (delete_idem k).
Proof. intros t. apply respectful_idem. Qed.
Lemma keeps_load_cached k : keeps (load_idempotent_response k).
Proof.
  apply keeps_still. intros t. unfold load_idempotent_response. destruct (find_first _ _); [|done]. by destruct (from_slice _).
Qed.
Lemma keeps_update_idem k v h : keeps (update_idempotent_response k v h).
Proof. intros t. unfold update_idempotent_response. destruct (_ =? _); apply respectful_idem. Qed.
Lemma keeps_nonce n now : keeps (record_nonce n now).
Proof. intros t. unfold record_nonce. destruct (existsb _ _); [reflexivity|apply respectful_nonce]. Qed.
Lemma keeps_transfer x : keeps (writes (fun t => set_transfers (transfers t ++ [x]) t)).
Proof. intros t. apply respectful_transfers. Qed.
Lemma keeps_project id : keeps (project_machine id).
Proof. apply keeps_still. intros t. unfold project_machine. by destruct (List.filter _ _) as [|? [|]]. Qed.
Lemma keeps_update p f : modest p f -> keeps (update_activations p f).
Proof. intros H t. by apply respectful_update. Qed.
Lemma keeps_returning p f : modest p f -> keeps (update_returning p f).
Proof. intros H t. by apply respectful_update. Qed.
Lemma keeps_schedule now : keeps (schedule_next_alarm now).
Proof. intros t. apply respectful_alarm. Qed.
Lemma keeps_for_rows {A} (body : A -> Do unit) rows : (forall r, keeps (body r)) -> keeps (for_rows body rows).
Proof. intros H. induction rows; simpl; [apply keeps_ret|by apply keeps_seq]. Qed.
End Keeps.

#[export] Hint Resolve keeps_ret keeps_throw keeps_reply keeps_reads keeps_some_or keeps_refuse_if keeps_meta_blob
  keeps_upsert keeps_delete keeps_or_ignore keeps_optional keeps_version keeps_push keeps_insert_idem keeps_delete_idem
  keeps_load_cached keeps_update_idem keeps_nonce keeps_transfer keeps_project keeps_schedule : keeps.
#[export] Hint Extern 2 (keeps _ (meta_i64 _)) => by apply keeps_reads : keeps.
#[export] Hint Extern 2 (keeps _ (meta_text _)) => by apply keeps_reads : keeps.
#[export] Hint Extern 2 (keeps _ (activation_status _)) => by apply keeps_reads : keeps.
#[export] Hint Extern 2 (keeps _ occupied) => by apply keeps_reads : keeps.
#[export] Hint Extern 2 (keeps _ (internal_error _ _)) => by apply keeps_reply : keeps.

(** Traverses a program down to its updates of rows. *)
Ltac keeps :=
  repeat first
    [ progress intros
    | solve [eauto 2 with keeps nocore]
    | apply keeps_seq | apply keeps_some_or | apply keeps_for_rows
    | match goal with |- keeps _ (match ?x with _ => _ end) => destruct x end
    | match goal with |- keeps _ (if ?x then _ else _) => destruct x end ].

Section Handlers.
Context `{Host : LicenseHost} `{Prim : Primitives}.
Context (R : Tables -> Tables -> Prop) `{!Respectful R}.

(** ** The updates the object makes *)
Lemma modest_same p f : (forall a, Activation.machine_id (f a) = Activation.machine_id a /\
  Activation.status (f a) = Activation.status a) -> modest p f.
Proof. intros H a _. destruct (H a) as [H1 H2]. unfold Activation.occupies. rewrite H2. auto. Qed.

(** Rows that occupy a seat may get any state. *)
Lemma modest_occupied p f : (forall a, p a = true -> Activation.occupies a = true) ->
  (forall a, Activation.machine_id (f a) = Activation.machine_id a) -> modest p f.
Proof.
  intros Hp Hf a Ha. specialize (Hp a Ha). split_and!; [done|done|]. intros Hs. unfold Activation.occupies in Hp. by rewrite Hs in Hp.
Qed.

Lemma modest_revoke p now : modest p (Activation.set_status_seen STATUS_REVOKED now).
Proof. done. Qed.

Lemma occupies_status s a : has_status s a = true -> s = STATUS_ACTIVE \/ s = STATUS_PENDING -> Activation.occupies a = true.
Proof. unfold has_status, Activation.occupies. intros H [-> | ->]; bprop; by rewrite H. Qed.

Lemma modest_seat q f : (forall a, Activation.machine_id (f a) = Activation.machine_id a) ->
  modest (fun a => q a && Activation.occupies a) f.
Proof. intros Hf. apply modest_occupied; [|done]. intros a Ha. apply andb_true_iff in Ha as [_ Ha]. exact Ha. Qed.

(** ** Every request but a reservation and a deletion *)
Lemma keeps_append id now : keeps R (append_projection id now).
Proof. unfold append_projection. keeps. Qed.
Lemma keeps_signals s v e now : keeps R (anomaly_signals s v e now).
Proof. unfold anomaly_signals. keeps. Qed.
Lemma keeps_suspicion i now : keeps R (refresh_suspicion i now).
Proof. unfold refresh_suspicion. keeps; by apply keeps_signals. Qed.
Lemma keeps_authenticate i k : keeps R (authenticate_device i k).
Proof. unfold authenticate_device. keeps. Qed.
Lemma keeps_pending : keeps R apply_pending_admin_update.
Proof. unfold apply_pending_admin_update. keeps. Qed.
Lemma keeps_completion e r m : keeps R (completion_matches e r m).
Proof. unfold completion_matches. keeps. Qed.
Lemma keeps_load k kd h : keeps R (load_operation_response k kd h).
Proof. by apply keeps_reads. Qed.
Lemma keeps_store k kd h now : keeps R (store_operation_response k kd h now).
Proof. by apply keeps_insert_idem. Qed.
End Handlers.

#[export] Hint Resolve keeps_append keeps_signals keeps_suspicion keeps_authenticate keeps_pending
  keeps_completion keeps_load keeps_store : keeps.

Section Requests.
Context `{Host : LicenseHost} `{Prim : Primitives}.
Context (R : Tables -> Tables -> Prop) `{!Respectful R}.

Lemma keeps_init now i : keeps R (init now i).
Proof. unfold init. keeps. Qed.
Lemma keeps_admin_update now i : keeps R (admin_update now i).
Proof. unfold admin_update. keeps. Qed.
Lemma keeps_complete now i : keeps R (complete now i).
Proof.
  unfold complete. keeps. apply keeps_update; [done|]. by apply modest_seat.
Qed.
Lemma keeps_commit now id : keeps R (commit now id).
Proof.
  unfold commit. keeps. apply keeps_update; [done|]. apply modest_occupied; [|done]. intros x Ha. apply andb_true_iff in Ha as [_ Ha].
  by eapply occupies_status; [exact Ha|right].
Qed.
Lemma keeps_deactivate now i : keeps R (deactivate now i).
Proof.
  unfold deactivate. keeps. apply keeps_update; [done|]. by apply modest_seat.
Qed.
Lemma keeps_heartbeat now i : keeps R (heartbeat now i).
Proof. unfold heartbeat. keeps. apply keeps_update; [done|]. by apply modest_same. Qed.
Lemma keeps_validate now i : keeps R (validate now i).
Proof. unfold validate, kill_reason. keeps; (apply keeps_update; [done|]; by apply modest_same). Qed.
Lemma keeps_revoke now i : keeps R (revoke now i).
Proof.
  unfold revoke, revoke_plan, revoke_write. keeps; [|by apply keeps_update].
  intros t. destruct (meta t !! _); [|reflexivity]. destruct (bool_decide _); [apply respectful_meta|reflexivity].
Qed.

Lemma keeps_release p now : (forall a, p a = true -> Activation.occupies a = true) ->
  keeps R (bind (update_returning p (Activation.set_status_seen STATUS_RELEASED now)) (project_all now)).
Proof. intros Hp. unfold project_all. keeps. apply keeps_returning; [done|]. by apply modest_occupied. Qed.

Lemma keeps_reclaim now : (forall t, R t (prune now t).1) -> keeps R (reclaim now).
Proof.
  intros H4.
  assert (H1 : keeps R (reclaim_pending now)).
  { apply keeps_release. intros a Ha. apply andb_true_iff in Ha as [Ha _]. by eapply occupies_status; [exact Ha|right]. }
  assert (H2 : keeps R (reclaim_zombies now)).
  { unfold reclaim_zombies, project_all. keeps. apply keeps_returning; [done|]. apply modest_occupied; [|done].
    intros x Hx. apply andb_true_iff in Hx as [Hx _]. by eapply occupies_status; [exact Hx|left]. }
  assert (H3 : keeps R (reclaim_expired now)).
  { unfold reclaim_expired, project_all. keeps. by apply keeps_returning, modest_occupied. }
  unfold reclaim. repeat (apply keeps_seq; [done|done|intros _]). done.
Qed.

(** ** A reservation, under what it inserts; a deletion, under what it deletes *)
Definition inserts : Prop := forall a t, Activation.machine_id a ∉ map Activation.machine_id (activations t) ->
  R t (set_activations (activations t ++ [a]) t).
Definition forgets (id : list byte) : Prop := forall t, R t (set_activations (delete_where (is_machine id) (activations t)) t).

Lemma keeps_insert a : inserts -> keeps R (insert_activation a).
Proof.
  intros Hins t. unfold insert_activation. destruct (existsb _ _) eqn:E; [reflexivity|]. apply Hins. intros Hin.
  apply list_elem_of_In, in_map_iff in Hin as (b & Hb & Hin).
  assert (existsb (is_machine (Activation.machine_id a)) (activations t) = true); [|congruence].
  apply existsb_exists. exists b. by rewrite is_machine_spec.
Qed.

Lemma keeps_reserve now i : inserts -> keeps R (reserve now i).
Proof.
  intros Hins. unfold reserve, reserve_fresh, take_seat, raise_floor, reserve_request_hash, score_activation, store_idempotent_response.
  keeps; first [by apply keeps_insert|apply keeps_update; [done|]; by apply modest_same].
Qed.

Lemma keeps_forget now i : forgets (AdminForgetRequest.machine_id i) -> keeps R (admin_forget now i).
Proof. intros Hdel. unfold admin_forget. keeps. Qed.

Definition spares (c : Call) : Prop :=
  match c with
  | Reserve _ => inserts
  | AdminForget i => forgets (AdminForgetRequest.machine_id i)
  | _ => True
  end.

Lemma keeps_fetch now c : spares c -> keeps R (fetch now c).
Proof.
  intros Hs. destruct c; cbn [fetch spares] in Hs |- *;
    first [by apply keeps_init|by apply keeps_reserve|by apply keeps_complete|by apply keeps_commit|by apply keeps_deactivate
          |by apply keeps_heartbeat|by apply keeps_revoke|by apply keeps_admin_update|by apply keeps_forget
          |by apply keeps_validate|by apply keeps_ret|by apply keeps_throw|by apply keeps_reply].
Qed.

Lemma keeps_request now c t : spares c -> R t (run (fetch now c) t).1.
Proof. intros Hs. pose proof (keeps_fetch now c Hs t) as H. unfold run. by destruct (fetch now c t) as [t' [r|r|]]. Qed.
End Requests.

(** ** Seats *)
Definition seats_used (t : Tables) : Z := count_where Activation.occupies (activations t).
Definition fewer (t t' : Tables) : Prop := seats_used t' <= seats_used t.

Lemma count_update p f l : modest p f ->
  count_where Activation.occupies (update_where p f l) <= count_where Activation.occupies l.
Proof.
  intros H. unfold count_where, count_if, update_where. induction l as [|a l IH]; simpl; [done|].
  destruct (p a) eqn:E; [|destruct (Activation.occupies a); simpl; lia]. destruct (H a E) as (_ & Ho & _).
  destruct (Activation.occupies (f a)), (Activation.occupies a); simpl; lia.
Qed.
Lemma count_delete (q p : Activation -> bool) l : count_where q (delete_where p l) <= count_where q l.
Proof.
  unfold count_where, count_if, delete_where. induction l as [|a l IH]; simpl; [done|].
  destruct (p a); simpl; destruct (q a); simpl; lia.
Qed.

#[export] Instance fewer_respectful : Respectful fewer.
Proof.
  split; try (intros; unfold fewer; reflexivity).
  - split; [intros t|intros t1 t2 t3]; unfold fewer; lia.
  - intros p f t. apply count_update.
Qed.
Lemma fewer_prune `{Host : LicenseHost} now t : fewer t (prune now t).1.
Proof. apply (count_delete Activation.occupies). Qed.

(** ** Revoked machines *)
Definition revoked_in (id : list byte) (t : Tables) : Prop :=
  exists a, a ∈ activations t /\ Activation.machine_id a = id /\ Activation.status a = STATUS_REVOKED.
Definition still_revoked (id : list byte) (t t' : Tables) : Prop := revoked_in id t -> revoked_in id t'.

#[export] Instance still_revoked_respectful id : Respectful (still_revoked id).
Proof.
  split; try (intros; intros Hx; exact Hx).
  - split; [intros l H; exact H|intros l1 l2 l3 H1 H2 H; apply H2, H1, H].
  - intros p f t Hm (a & Ha & Hid & Hs). exists (if p a then f a else a). split; [apply elem_of_update_where; by exists a|].
    destruct (p a) eqn:E; [|done]. destruct (Hm a E) as (H1 & _ & H3). split; [congruence|auto].
Qed.
Lemma still_revoked_delete id p t : (forall a, p a = true -> Activation.machine_id a = id -> Activation.status a <> STATUS_REVOKED) ->
  still_revoked id t (set_activations (delete_where p (activations t)) t).
Proof.
  intros Hp (a & Ha & Hid & Hs). exists a. split; [|done]. simpl. rewrite elem_of_delete_where. split; [done|].
  destruct (p a) eqn:E; [|done]. by destruct (Hp a E Hid).
Qed.
Lemma still_revoked_prune `{Host : LicenseHost} id now t : still_revoked id t (prune now t).1.
Proof.
  intros H. refine (still_revoked_delete id (fun a => has_status STATUS_RELEASED a &&
    (Activation.seen a <=? sat_sub_i64 now RELEASED_RETENTION_SECS)) t _ H). intros a Ha _ Hs.
  apply andb_true_iff in Ha as [Ha _]. unfold has_status in Ha. by rewrite Hs in Ha.
Qed.
Lemma still_revoked_insert id a t : still_revoked id t (set_activations (activations t ++ [a]) t).
Proof. intros (b & Hb & H). exists b. split; [|done]. apply elem_of_app. by left. Qed.
Lemma still_revoked_forget id id' t : id <> id' -> still_revoked id t (set_activations (delete_where (is_machine id') (activations t)) t).
Proof. intros Hne. apply still_revoked_delete. intros a Ha%is_machine_spec Hid. congruence. Qed.

(** ** Nonces *)
Definition remembered (n : list byte * Z) (t t' : Tables) : Prop := n ∈ nonces t -> n ∈ nonces t'.

#[export] Instance remembered_respectful n : Respectful (remembered n).
Proof.
  split; try (intros; intros Hx; exact Hx).
  - split; [intros l H; exact H|intros l1 l2 l3 H1 H2 H; apply H2, H1, H].
  - intros m t H. apply elem_of_app. by left.
Qed.
