(* ===== verification/LicenseSpec.v ===== *)
(** * The handlers of a licence object make only moves

    A weakest-precondition calculus for handlers, the contract of every helper and, for every
    handler, what it leaves in the tables and what it answers, branch by branch. *)

From S2P Require Import Prelude Types Cbor Field Artifacts Chain Messages Requests License Anomaly Suite StdSuite Events.
From S2P Require Import LicenseTables LicenseDO LicenseMoves LicenseInv.
Import Tables.

Section Calculus.
Context `{Host : LicenseHost} `{Prim : Primitives}.
Context `{JR : !JsonLaws ReserveResponse} `{JE : !JsonLaws ProjectionEvent}.
Implicit Types (t : Tables).

(** [E] of the tables and the response where the handler leaves early, [Q] where it goes on. *)
Definition wp {A} (m : Do A) (E : Tables -> option Response -> Prop) (Q : Tables -> A -> Prop) t : Prop :=
  match m t with
  | (t', Next a) => Q t' a
  | (t', Return r) => E t' (Some r)
  | (t', Throw) => E t' None
  end.

Lemma wp_run (m : Do Response) E t :
  wp m E (fun t' r => E t' (Some r)) t -> E (run m t).1 (run m t).2.
Proof. unfold wp, run. by destruct (m t) as [t' [a|r|]]. Qed.

Lemma dwp_mono {A} (m : Do A) E Q Q' t : wp m E Q t -> (forall t' a, Q t' a -> Q' t' a) -> wp m E Q' t.
Proof. unfold wp. destruct (m t) as [t' [a|r|]]; auto. Qed.

Lemma dwp_bind {A B} (m : Do A) (k : A -> Do B) E Q t : wp m E (fun t' a => wp (k a) E Q t') t -> wp (bind m k) E Q t.
Proof. unfold wp, bind. by destruct (m t) as [t' [a|r|]]. Qed.

Lemma dwp_ret {A} (a : A) E (Q : Tables -> A -> Prop) t : Q t a -> wp (ret a) E Q t.
Proof. done. Qed.
Lemma wp_error {A} c s E (Q : Tables -> A -> Prop) t :
  E t (Some (response c (InternalError s))) -> wp (internal_error c s) E Q t.
Proof. done. Qed.
Lemma wp_throw {A} E (Q : Tables -> A -> Prop) t : E t None -> wp throw E Q t.
Proof. done. Qed.
Lemma wp_reads {A} (f : Tables -> A) E (Q : Tables -> A -> Prop) t : Q t (f t) -> wp (reads f) E Q t.
Proof. done. Qed.
Lemma wp_writes f E (Q : Tables -> unit -> Prop) t : Q (f t) tt -> wp (writes f) E Q t.
Proof. done. Qed.

Lemma wp_some_or {A} (o : option A) m E (Q : Tables -> A -> Prop) t :
  (forall a, o = Some a -> Q t a) -> (o = None -> wp m E Q t) -> wp (some_or o m) E Q t.
Proof. destruct o; simpl; intros H1 H2; [by apply H1|by apply H2]. Qed.

Lemma wp_refuse_if b c s E (Q : Tables -> unit -> Prop) t :
  (b = true -> E t (Some (response c (InternalError s)))) -> (b = false -> Q t tt) -> wp (refuse_if b c s) E Q t.
Proof. destruct b; intros H1 H2; [by apply H1|by apply H2]. Qed.

Lemma wp_if {A} (b : bool) (m n : Do A) E Q t :
  (b = true -> wp m E Q t) -> (b = false -> wp n E Q t) -> wp (if b then m else n) E Q t.
Proof. destruct b; auto. Qed.

Lemma wp_optional k o E (Q : Tables -> unit -> Prop) t :
  Q (set_meta (set_optional k o (meta t)) t) tt -> wp (upsert_optional_i64 k o) E Q t.
Proof. by destruct o. Qed.

Lemma wp_or_insert k v E (Q : Tables -> unit -> Prop) t :
  Q (set_meta (or_insert k v (meta t)) t) tt -> wp (insert_or_ignore_meta k v) E Q t.
Proof.
  unfold wp, insert_or_ignore_meta, writes, or_insert. destruct (meta t !! k); [|done]. by destruct t.
Qed.

Lemma wp_delete_all ks : forall E (Q : Tables -> unit -> Prop) t,
  Q (set_meta (fold_left (fun m k => delete k m) ks (meta t)) t) tt -> wp (for_rows delete_meta ks) E Q t.
Proof.
  induction ks as [|k ks IH]; intros E Q t HQ; simpl; [apply dwp_ret; by destruct t|].
  apply dwp_bind, wp_writes, IH. exact HQ.
Qed.

Lemma wp_insert_idem r E (Q : Tables -> unit -> Prop) t :
  IdemRow.key r ∉ map IdemRow.key (idem t) -> Q (set_idem (idem t ++ [r]) t) tt -> wp (insert_idem r) E Q t.
Proof.
  intros Hn HQ. unfold wp, insert_idem. destruct (existsb _ _) eqn:Ex; [|done].
  apply existsb_exists in Ex as (x & Hx & Hk). apply bool_decide_eq_true in Hk. exfalso. apply Hn.
  rewrite <- Hk. by apply key_elem, list_elem_of_In.
Qed.

Lemma wp_record_nonce n now E (Q : Tables -> bool -> Prop) t :
  (n ∈ map fst (nonces t) -> Q t false) ->
  (n ∉ map fst (nonces t) -> Q (set_nonces (nonces t ++ [(n, now)]) t) true) -> wp (record_nonce n now) E Q t.
Proof.
  intros H1 H2. unfold wp, record_nonce. destruct (existsb _ _) eqn:Ex.
  - apply H1. apply existsb_exists in Ex as (x & Hx & Hk). apply bool_decide_eq_true in Hk. rewrite <- Hk.
    by apply key_elem, list_elem_of_In.
  - apply H2. intros Hin. apply list_elem_of_In, in_map_iff in Hin as (x & Hx & Hin).
    assert (existsb (fun n0 => bool_decide (n0.1 = n)) (nonces t) = true) as Ht; [|congruence].
    apply existsb_exists. exists x. split; [done|]. by apply bool_decide_eq_true.
Qed.

(** What the idempotency record says of a request. *)
Definition answer_for (t : Tables) (key kind : string) (h : list byte) (r : IdemRow) : Prop :=
  r ∈ idem t /\ IdemRow.key r = key /\ IdemRow.kind r = Some kind /\ default [] (IdemRow.request_hash r) = h.

Lemma wp_load_operation key kind h E (Q : Tables -> OperationReplay -> Prop) t :
  (key ∉ map IdemRow.key (idem t) -> Q t Missing) -> Q t Conflict ->
  (forall r, answer_for t key kind h r -> find_first (has_key key) (idem t) = Some r -> Q t Completed) ->
  wp (load_operation_response key kind h) E Q t.
Proof.
  intros H1 H2 H3. apply wp_reads. destruct (find_first (has_key key) (idem t)) as [r|] eqn:Ef.
  - destruct (_ && _) eqn:Eb; [|done]. apply andb_true_iff in Eb as [Ek Eh]. apply bool_decide_eq_true in Ek, Eh.
    apply find_first_Some in Ef as Hr. destruct Hr as [Hr Hk]. apply bool_decide_eq_true in Hk.
    by eapply H3.
  - apply H1. intros Hin. apply list_elem_of_In, in_map_iff in Hin as (x & Hx & Hin).
    pose proof (proj1 (find_first_None _ _) Ef x) as Hf.
    rewrite list_elem_of_In in Hf. specialize (Hf Hin). apply bool_decide_eq_false in Hf. done.
Qed.

(** ** Reading *)
Lemma wp_meta_blob k E (Q : Tables -> option (list byte) -> Prop) t :
  Inv t -> k ∈ ["license_id"; "suite_id"]%string ->
  (forall b, meta t !! k = Some (SqlBlob b) -> Q t (Some b)) -> (meta t !! k = None -> Q t None) ->
  wp (meta_blob k) E Q t.
Proof.
  intros HI Hk H1 H2. unfold wp, meta_blob. destruct (meta t !! k) as [v|] eqn:Hv; [|by apply H2].
  pose proof (inv_meta _ _ _ HI _ _ Hv) as Hok. destruct v as [z|s|b]; simpl in Hok; [| |by apply H1].
  - exfalso. set_solver.
  - exfalso. set_solver.
Qed.

(** The bytes under a key, where there are bytes. *)
Definition blob_at (t : Tables) (k : string) : option (list byte) :=
  match meta t !! k with Some (SqlBlob b) => Some b | _ => None end.

Lemma wp_blob k E (Q : Tables -> option (list byte) -> Prop) t :
  Inv t -> k ∈ ["license_id"; "suite_id"]%string -> Q t (blob_at t k) -> wp (meta_blob k) E Q t.
Proof.
  intros HI Hk HQ. apply wp_meta_blob; [done|done| |]; unfold blob_at in HQ.
  - intros b Hb. by rewrite Hb in HQ.
  - intros Hn. by rewrite Hn in HQ.
Qed.

Lemma blob_at_some t k b : blob_at t k = Some b -> meta t !! k = Some (SqlBlob b).
Proof. unfold blob_at. destruct (meta t !! k) as [[]|]; congruence. Qed.

Lemma wp_activation_status id E (Q : Tables -> option Z -> Prop) t :
  Inv t ->
  (forall a, a ∈ activations t -> Activation.machine_id a = id -> Q t (Some (Activation.status a))) ->
  (find_first (is_machine id) (activations t) = None -> Q t None) -> wp (activation_status id) E Q t.
Proof.
  intros HI H1 H2. apply wp_reads. destruct (find_first _ _) as [a|] eqn:Ef; simpl; [|by apply H2].
  apply find_first_Some in Ef as [Ha Hm%is_machine_spec]. by apply H1.
Qed.

(** ** Publishing and scheduling *)
Definition ready (t : Tables) : Prop :=
  (exists b, meta t !! "license_id"%string = Some (SqlBlob b)) /\ is_Some (meta t !! "status"%string) /\
  NoDup (map Activation.machine_id (activations t)).

Lemma inv_ready S fr t : Inv_except S fr t -> initialized t -> ready t.
Proof.
  intros HI Hi. split_and!; [|by eapply inv_live; [exact HI|done|set_solver]|apply HI].
  destruct (inv_license _ _ _ HI Hi) as [H _]. by eexists.
Qed.

Lemma wp_append_none now E (Q : Tables -> unit -> Prop) t :
  ready t -> Q (published None now t) tt -> wp (append_projection None now) E Q t.
Proof.
  intros ((b & Hb) & (v & Hv) & _) HQ. unfold append_projection. apply dwp_bind. unfold wp at 1, next_version.
  apply dwp_bind. unfold wp at 1, meta_blob. simpl. rewrite lookup_insert_ne, Hb by done.
  apply dwp_bind, dwp_ret, dwp_bind, wp_reads. simpl. rewrite lookup_insert_ne, Hv by done. simpl.
  apply dwp_bind, dwp_ret, dwp_bind, wp_reads, dwp_bind, wp_reads, dwp_bind, dwp_ret, wp_writes. simpl.
  unfold published, the_event, license_id_of, text_at, int_at in HQ. rewrite Hb, Hv in HQ. simpl in HQ.
  destruct (meta t !! "proj_version"%string); exact HQ.
Qed.

Lemma wp_append_machine id a now E (Q : Tables -> unit -> Prop) t :
  ready t -> a ∈ activations t -> Activation.machine_id a = id ->
  Q (publish_machine now t id) tt -> wp (append_projection (Some id) now) E Q t.
Proof.
  intros ((b & Hb) & (v & Hv) & Hd) Ha <- HQ. unfold append_projection. apply dwp_bind. unfold wp at 1, next_version.
  apply dwp_bind. unfold wp at 1, meta_blob. simpl. rewrite lookup_insert_ne, Hb by done.
  apply dwp_bind, dwp_ret, dwp_bind, wp_reads. simpl. rewrite lookup_insert_ne, Hv by done. simpl.
  apply dwp_bind, dwp_ret, dwp_bind, wp_reads, dwp_bind, wp_reads, dwp_bind, dwp_bind. unfold wp at 1, project_machine. simpl.
  unfold is_machine. rewrite (filter_by_key Activation.machine_id _ a Hd Ha).
  apply dwp_ret, wp_writes. simpl.
  unfold publish_machine, published, the_event, license_id_of, text_at, int_at, is_machine in HQ.
  rewrite (find_by_key Activation.machine_id _ a Hd Ha), Hb, Hv in HQ. simpl in HQ.
  destruct (meta t !! "proj_version"%string); exact HQ.
Qed.

Definition scheduled (now : Z) (t : Tables) : Tables := (schedule_next_alarm now t).1.

Lemma wp_schedule now E (Q : Tables -> unit -> Prop) t :
  Q (scheduled now t) tt -> wp (schedule_next_alarm now) E Q t.
Proof. done. Qed.

(** ** What a handler leaves *)
Definition moves (now : Z) : Tables -> Tables -> Prop := rtc (move now).

(** Nothing that the alarm has to watch is new. *)
Definition calm (t t' : Tables) : Prop :=
  (forall a, a ∈ activations t' -> a ∈ activations t) /\ outbox t' = outbox t /\ alarm t' = alarm t /\
  (forall k, k ∈ ["heartbeat_sec"; "status"; "expires_at"]%string -> meta t' !! k = meta t !! k).
Definition settled (now : Z) (t' : Tables) : Prop := exists t1, t' = scheduled now t1.
Definition post (now : Z) (t t' : Tables) : Prop := moves now t t' /\ (settled now t' \/ calm t t').

Definition refusal (r : option Response) : Prop := exists c s, r = Some (response c (InternalError s)) /\ 400 <= c.

Lemma calm_refl t : calm t t.
Proof. by split_and!. Qed.
Lemma post_stay now t : post now t t.
Proof. split; [constructor|right; apply calm_refl]. Qed.
Lemma scheduled_move now t : move now t (scheduled now t).
Proof. apply move_alarm. Qed.
Lemma post_scheduled now t t1 : moves now t t1 -> post now t (scheduled now t1).
Proof. intros H. split; [|left; by exists t1]. eapply rtc_r; [exact H|]. apply scheduled_move. Qed.
Lemma move_step now t t1 t2 : moves now t t1 -> move now t1 t2 -> moves now t t2.
Proof. apply rtc_r. Qed.
Lemma refusal_intro c s : 400 <= c -> refusal (Some (response c (InternalError s))).
Proof. intros H. by exists c, s. Qed.
End Calculus.

(** The pure steps of a handler; an early error leaves with what is given for it. *)
Ltac wp_pure :=
  repeat match goal with
  | |- wp (bind _ _) _ _ _ => apply dwp_bind
  | |- wp (ret _) _ _ _ => apply dwp_ret
  | |- wp (internal_error _ _) _ _ _ => apply wp_error
  | |- wp (meta_i64 _) _ _ _ => apply wp_reads
  | |- wp (meta_text _) _ _ _ => apply wp_reads
  | |- wp (reads _) _ _ _ => apply wp_reads
  | |- wp (some_or None ?m) ?E ?Q ?t => change (wp m E Q t)
  | |- wp (some_or (Some ?a) _) ?E ?Q ?t => apply (dwp_ret a E Q t)
  | |- wp (some_or _ _) _ _ _ => apply wp_some_or; intros
  | |- wp (refuse_if (negb true) _ _) ?E ?Q ?t => apply (dwp_ret tt E Q t)
  | |- wp (refuse_if (negb false) _ _) _ _ _ => apply wp_error
  | |- wp (refuse_if _ _ _) _ _ _ => apply wp_refuse_if; intros
  | |- wp (if _ then _ else _) _ _ _ => apply wp_if; intros
  end.

Section Devices.
Context `{Host : LicenseHost} `{Prim : Primitives}.
Context `{JR : !JsonLaws ReserveResponse} `{JE : !JsonLaws ProjectionEvent}.
Implicit Types (t : Tables) (a : Activation).

(** ** Authenticated devices *)

(** The row whose key signed the request, for this licence and this kind of request. *)
Definition authentic (t : Tables) (kind : ArtifactKind) (i : AuthenticatedMachineRequest) (a : Activation) : Prop :=
  a ∈ activations t /\ Activation.machine_id a = AuthenticatedMachineRequest.machine_id i /\
  meta t !! "license_id"%string = Some (SqlBlob (AuthenticatedMachineRequest.license_id i)) /\
  proof_input_matches kind i = true /\
  exists product vk, text_at t "product_id" = Some product /\
    FastSig.decode_vk (Activation.device_sig_vk a) = Ok vk /\
    FastSig.verify vk (DomainCtx.new kind (AuthenticatedMachineRequest.suite_id i) product)
      (AuthenticatedMachineRequest.proof_input i) (AuthenticatedMachineRequest.proof i) = Ok tt.

Lemma wp_authenticate i kind E (Q : Tables -> option AuthenticatedActivation -> Prop) t :
  Inv t -> Q t None -> (forall a, authentic t kind i a -> Q t (Some (AuthenticatedActivation.of_row a))) ->
  wp (authenticate_device i kind) E Q t.
Proof.
  intros HI HN HQ. unfold authenticate_device. apply wp_if; [intros _; exact HN|]. intros Hc.
  repeat (apply orb_false_iff in Hc as [Hc ?]). bprop. apply dwp_bind, wp_meta_blob; [done|set_solver| |].
  2: { intros _. simpl. apply dwp_ret, HN. }
  intros b Hb. apply wp_if; [intros _; apply dwp_ret, HN|intros Hlic]. bprop.
  apply dwp_bind, wp_meta_blob; [done|set_solver| |].
  2: { intros _. simpl. apply dwp_ret, HN. }
  intros b' Hb'. apply wp_if; [intros _; apply dwp_ret, HN|intros Hsuite]. bprop.
  apply dwp_bind, wp_reads. destruct (option_map as_text_ _) as [product|] eqn:Hp; [|apply dwp_ret, HN].
  destruct (SuiteId.from_slice _) as [suite|] eqn:Hs; [|apply dwp_ret, HN].
  apply dwp_bind, wp_reads. destruct (find_first _ _) as [a|] eqn:Ha; simpl; [|apply dwp_ret, HN].
  destruct (FastSig.decode_vk _) as [vk|] eqn:Hvk; [|apply dwp_ret, HN].
  destruct (FastSig.verify _ _ _ _) as [[]|] eqn:Hsig; [|apply dwp_ret, HN].
  apply dwp_ret, HQ. apply find_first_Some in Ha as [Ha Hm%is_machine_spec].
  split_and!; [done|done|congruence|done|]. exists product, vk. split_and!; [done|done|].
  unfold SuiteId.from_slice, ByteId.from_slice in Hs. case_bool_decide; [|done]. by injection Hs as <-.
Qed.

(** Statuses that occur. *)
Lemma row_status S fr t a : Inv_except S fr t -> a ∈ activations t ->
  exists s, activation_status_from_storage (Activation.status a) = Some s.
Proof.
  intros HI Ha. pose proof (proj1 (Forall_forall _ _) (inv_rows _ _ _ HI) a Ha) as Hrow.
  unfold row_ok, MachineProjection.is_valid in Hrow. simpl in Hrow. repeat (apply andb_true_iff in Hrow as [Hrow ?]).
  unfold activation_status_name, activation_status_from_storage in *.
  destruct (_ =? STATUS_ACTIVE); [by eexists|]. destruct (_ =? STATUS_RELEASED); [by eexists|].
  destruct (_ =? STATUS_REVOKED); [by eexists|]. by destruct (_ =? STATUS_PENDING); [eexists|].
Qed.

(** A condition that holds of the only row with the identifier can be left out. *)
Lemma update_only id (p : Activation -> bool) f t a :
  NoDup (map Activation.machine_id (activations t)) -> a ∈ activations t -> Activation.machine_id a = id -> p a = true ->
  update_where (fun x => is_machine id x && p x) f (activations t) = update_where (is_machine id) f (activations t).
Proof.
  intros Hd Ha Hid Hp. unfold update_where. apply map_ext_in. intros x Hx. apply list_elem_of_In in Hx.
  destruct (is_machine id x) eqn:Ex; [|done]. apply is_machine_spec in Ex.
  assert (x = a) as -> by (eapply key_unique; [exact Hd|done..|congruence]). by rewrite Hp.
Qed.

Lemma count_only id (p : Activation -> bool) t a :
  a ∈ activations t -> Activation.machine_id a = id -> p a = true ->
  (count_where (fun x => is_machine id x && p x) (activations t) =? 0) = false.
Proof.
  intros Ha Hid Hp. unfold count_where, count_if. apply Z.eqb_neq. 
  assert (Hin : a ∈ List.filter (fun x => is_machine id x && p x) (activations t)).
  { apply elem_of_List_filter. split; [done|]. rewrite Hp. by rewrite (proj2 (is_machine_spec id a) Hid). }
  destruct (List.filter _ _); [by apply elem_of_nil in Hin|simpl; lia].
Qed.

(** A changed row is in the changed table. *)
Lemma updated_row id f t a : a ∈ activations t -> Activation.machine_id a = id ->
  f a ∈ update_where (is_machine id) f (activations t).
Proof.
  intros Ha Hid. apply elem_of_update_where. exists a. by rewrite (proj2 (is_machine_spec id a) Hid).
Qed.

Lemma ready_update t p f :
  ready t -> (forall a, Activation.machine_id (f a) = Activation.machine_id a) ->
  ready (set_activations (update_where p f (activations t)) t).
Proof. intros (H1 & H2 & H3) Hf. split_and!; [done|done|]. simpl. rewrite update_where_keys; [done|by intros]. Qed.

(** The tables after a device's row has changed and has been published. *)
Definition with_nonce (n : list byte) (now : Z) (t : Tables) : Tables := set_nonces (nonces t ++ [(n, now)]) t.
Definition with_machine (id : list byte) (f : Activation -> Activation) (now : Z) (t : Tables) : Tables :=
  publish_machine now (set_activations (update_where (is_machine id) f (activations t)) t) id.

Lemma with_machine_move now t a f : a ∈ activations t -> row_evolves a (f a) ->
  move now t (with_machine (Activation.machine_id a) f now t).
Proof. intros Ha Hf. by apply move_machine. Qed.

(** Rows that keep what makes them valid. *)
Lemma row_ok_seen now a b : 0 <= now -> row_ok a ->
  Activation.machine_id b = Activation.machine_id a -> Activation.fingerprint b = Activation.fingerprint a ->
  Activation.activation_path b = Activation.activation_path a -> Activation.created_at b = Activation.created_at a ->
  Activation.last_seen_at b = Some now \/ Activation.last_seen_at b = Activation.last_seen_at a ->
  Activation.os b = Activation.os a -> Activation.arch b = Activation.arch a ->
  Activation.app_version b = Activation.app_version a -> Activation.sdk_version b = Activation.sdk_version a ->
  Activation.release_id b = Activation.release_id a -> Activation.build_fp b = Activation.build_fp a ->
  Activation.geo b = Activation.geo a -> 0 <= Activation.suspicion b ->
  is_none_or (fun v => 0 <=? v) (Activation.variant_id b) = true ->
  activation_status_from_storage (Activation.status b) <> None -> row_ok b.
Proof.
  intros Hnow Ha H1 H2 H3 H4 H5 H6 H7 H8 H9 H10 H11 H12 H13 H14 H15. unfold row_ok, MachineProjection.is_valid in *.
  simpl in *. rewrite H1, H2, H3, H4, H6, H7, H8, H9, H10, H11, H12. rewrite H14.
  repeat (apply andb_true_iff in Ha as [Ha ?]).
  assert (Hs : one_of ["active"; "pending"; "released"; "revoked"] (activation_status_name (Activation.status b)) = true).
  { clear - H15. unfold activation_status_name, activation_status_from_storage in *.
    destruct (_ =? STATUS_ACTIVE); [done|]. destruct (_ =? STATUS_PENDING); [done|].
    destruct (_ =? STATUS_RELEASED); [done|]. by destruct (_ =? STATUS_REVOKED). }
  rewrite Hs. repeat (apply andb_true_iff; split); try done; [|by apply Z.leb_le].
  destruct H5 as [->| ->]; [|done]. simpl. by apply Z.leb_le.
Qed.

Lemma license_status_active s : license_status_from_storage s = Some LicenseStatus.Active -> s = "active"%string.
Proof.
  unfold license_status_from_storage. destruct (String.eqb_spec s "active"); [done|].
  destruct (String.eqb s "suspended"); [done|]. destruct (String.eqb s "expired"); [done|].
  by destruct (String.eqb s "revoked").
Qed.

Lemma status_is_active s : activation_status_from_storage s = Some ActivationStatus.Active -> s = STATUS_ACTIVE.
Proof.
  unfold activation_status_from_storage. destruct (Z.eqb_spec s STATUS_ACTIVE); [done|].
  destruct (s =? STATUS_RELEASED); [done|]. destruct (s =? STATUS_REVOKED); [done|]. by destruct (s =? STATUS_PENDING).
Qed.

Lemma heartbeat_plan_ok st expiry act hb now p : Heartbeat.plan st expiry act hb now = Ok p ->
  st = LicenseStatus.Active /\ past_expiry expiry now = false /\ act = ActivationStatus.Active /\
  Heartbeat.next_after p = sat_add_i64 now (match hb with Some v => if 0 <? v then v else 0 | None => 0 end).
Proof.
  unfold Heartbeat.plan, past_expiry. destruct (_ || _) eqn:E; [done|]. intros [= <-]. bprop. done.
Qed.

Definition heartbeat_accepted (now : Z) (i : AuthenticatedMachineRequest) (t t' : Tables) (r : option Response) : Prop :=
  exists a, authentic t ArtifactKind.HeartbeatRequest i a /\ Activation.status a = STATUS_ACTIVE /\
    text_at t "status" = Some "active"%string /\ past_expiry (int_at t "expires_at") now = false /\
    AuthenticatedMachineRequest.nonce i ∉ map fst (nonces t) /\
    t' = scheduled now (with_machine (AuthenticatedMachineRequest.machine_id i) (Activation.set_beat now) now
           (with_nonce (AuthenticatedMachineRequest.nonce i) now t)) /\
    r = Some (response 200 (HeartbeatResponse (sat_add_i64 now (default 0 (int_at t "heartbeat_sec"))))).

Definition heartbeat_post (now : Z) (i : AuthenticatedMachineRequest) (t t' : Tables) (r : option Response) : Prop :=
  (refusal r /\ t' = t) \/ heartbeat_accepted now i t t' r.

Ltac refuse := left; split; [apply refusal_intro; done|done].

Lemma wp_update_one id p f a E (Q : Tables -> Z -> Prop) t :
  NoDup (map Activation.machine_id (activations t)) -> a ∈ activations t -> Activation.machine_id a = id -> p a = true ->
  (forall n, (n =? 0) = false -> Q (set_activations (update_where (is_machine id) f (activations t)) t) n) ->
  wp (update_activations (fun x => is_machine id x && p x) f) E Q t.
Proof.
  intros Hd Ha Hid Hp HQ. unfold wp, update_activations. rewrite (update_only id p f t a Hd Ha Hid Hp).
  apply HQ. by apply (count_only id p t a).
Qed.

Lemma wp_publish id f now a E (Q : Tables -> unit -> Prop) t :
  ready t -> a ∈ activations t -> Activation.machine_id a = id ->
  (forall x, Activation.machine_id (f x) = Activation.machine_id x) -> Q (with_machine id f now t) tt ->
  wp (append_projection (Some id) now) E Q (set_activations (update_where (is_machine id) f (activations t)) t).
Proof.
  intros Hr Ha Hid Hf HQ. eapply (wp_append_machine id (f a)); [by apply ready_update|by apply updated_row| |exact HQ].
  by rewrite Hf.
Qed.

Lemma with_nonce_ready n now t : ready t -> ready (with_nonce n now t).
Proof. done. Qed.

Lemma heartbeat_spec now i t : Inv t ->
  heartbeat_post now i t (run (heartbeat now i) t).1 (run (heartbeat now i) t).2.
Proof.
  intros HI. apply wp_run. unfold heartbeat.
  apply dwp_bind, wp_authenticate; [done|wp_pure; refuse|]. intros a Hauth.
  wp_pure; try refuse. rename H into Hst, H0 into Hls, H1 into Hlc, H2 into Hhb.
  destruct (Heartbeat.plan _ _ _ _ _) as [p|] eqn:Hplan; [|wp_pure; refuse].
  apply heartbeat_plan_ok in Hplan as (-> & Hexp & -> & Hnext). wp_pure.
  apply wp_record_nonce; [intros _; wp_pure; refuse|intros Hfresh]. wp_pure.
  pose proof Hauth as (Ha & Hid & _). apply status_is_active in Hst. simpl in Hst.
  eapply wp_update_one; [apply HI|exact Ha|done|by apply Z.eqb_eq|]. intros n Hn. wp_pure; [congruence|].
  assert (Hr : ready (with_nonce (AuthenticatedMachineRequest.nonce i) now t))
    by (eapply with_nonce_ready, inv_ready; [exact HI|by eapply inv_rows_initialized]).
  eapply (wp_publish _ _ now a _ _ (with_nonce _ now t)); [done..|]. apply dwp_bind, wp_schedule, dwp_ret.
  right. exists a. split_and!; try done.
  - apply license_status_active in Hlc as ->. done.
  - rewrite Hnext. repeat f_equal. unfold int_at.
    destruct (option_map as_integer (meta t !! "heartbeat_sec"%string)) as [v|]; [|done]. simpl. bprop.
    destruct (Z.ltb_spec 0 v); [done|lia].
Qed.

(** ** Deactivation *)
Definition released (now : Z) (a : Activation) : Activation :=
  Activation.add_transfer (Activation.set_status_seen STATUS_RELEASED now a).
Definition with_transfer (x : Transfer) (t : Tables) : Tables := set_transfers (transfers t ++ [x]) t.
Definition answered (key kind : string) (h : list byte) (now : Z) (t : Tables) : Tables :=
  set_idem (idem t ++ [IdemRow.mk key OK_JSON now (Some kind) (Some h)]) t.

Definition deactivation_key (i : AuthenticatedMachineRequest) : string :=
  String.append "deactivate:" (AuthenticatedMachineRequest.idempotency_key i).
Definition deactivate_post (now : Z) (i : AuthenticatedMachineRequest) (t t' : Tables) (r : option Response) : Prop :=
  (refusal r /\ t' = t) \/
  (refusal r /\ (exists a, authentic t ArtifactKind.DeactivateRequest i a) /\
     AuthenticatedMachineRequest.nonce i ∉ map fst (nonces t) /\
     t' = with_nonce (AuthenticatedMachineRequest.nonce i) now t) \/
  (r = Some (response 200 OkResponse) /\ t' = scheduled now t /\ exists x, answer_for t (deactivation_key i) "deactivate"
     (authenticated_request_hash ArtifactKind.DeactivateRequest i) x) \/
  (r = Some (response 200 OkResponse) /\ exists a, authentic t ArtifactKind.DeactivateRequest i a /\
     AuthenticatedMachineRequest.nonce i ∉ map fst (nonces t) /\ deactivation_key i ∉ map IdemRow.key (idem t) /\
     let t1 := with_nonce (AuthenticatedMachineRequest.nonce i) now t in
     let t2 := if Activation.occupies a then with_machine (AuthenticatedMachineRequest.machine_id i) (released now) now
                      (with_transfer (Transfer.mk (AuthenticatedMachineRequest.machine_id i) 1 now) t1)
               else t1 in
     (Activation.occupies a = false -> Activation.status a = STATUS_RELEASED) /\
     t' = scheduled now (answered (deactivation_key i) "deactivate"
            (authenticated_request_hash ArtifactKind.DeactivateRequest i) now t2)).

Lemma deactivate_plan_occupies s st p : activation_status_from_storage s = Some st -> Deactivate.plan st = Ok p ->
  (p = Deactivate.mk true true /\ (s =? STATUS_ACTIVE) || (s =? STATUS_PENDING) = true) \/
  (p = Deactivate.mk false false /\ s = STATUS_RELEASED).
Proof.
  unfold activation_status_from_storage, Deactivate.plan, STATUS_ACTIVE, STATUS_RELEASED, STATUS_REVOKED, STATUS_PENDING.
  destruct (Z.eqb_spec s 0); [intros [= <-] [= <-]; by left|].
  destruct (Z.eqb_spec s 1); [intros [= <-] [= <-]; by right|]. destruct (Z.eqb_spec s 2); [by intros [= <-]|].
  destruct (Z.eqb_spec s 3); [|done]. intros [= <-] [= <-]. by left.
Qed.

Lemma deactivate_spec now i t : Inv t ->
  deactivate_post now i t (run (deactivate now i) t).1 (run (deactivate now i) t).2.
Proof.
  intros HI. apply wp_run. unfold deactivate. wp_pure; [refuse|]. apply wp_load_operation.
  2: { wp_pure. refuse. }
  2: { intros x Hx _. apply dwp_bind, wp_schedule, dwp_ret. right. right. left. split_and!; [done|done|by exists x]. }
  intros Hmiss. apply dwp_bind, wp_authenticate; [done|wp_pure; refuse|]. intros a Hauth. wp_pure.
  apply wp_record_nonce; [intros _; wp_pure; refuse|intros Hfresh]. wp_pure.
  2: { exfalso. pose proof Hauth as (Ha & _). destruct (row_status _ _ _ a HI Ha) as [s Hs]. simpl in *. congruence. }
  rename a0 into st, H0 into Hst. destruct (Deactivate.plan st) as [p|] eqn:Hplan.
  2: { wp_pure. right. left. split_and!; [by apply refusal_intro|by exists a|done|done]. }
  apply dwp_ret, dwp_bind. pose proof Hauth as (Ha & Hid & _). simpl in Hst.
  assert (Hr : ready (with_transfer (Transfer.mk (AuthenticatedMachineRequest.machine_id i) 1 now)
      (with_nonce (AuthenticatedMachineRequest.nonce i) now t)))
    by (eapply with_nonce_ready, inv_ready; [exact HI|by eapply inv_rows_initialized]).
  assert (Hdone : forall t2, idem t2 = idem t ->
    (Activation.occupies a = false -> Activation.status a = STATUS_RELEASED) ->
    t2 = (if Activation.occupies a then with_machine (AuthenticatedMachineRequest.machine_id i) (released now) now
            (with_transfer (Transfer.mk (AuthenticatedMachineRequest.machine_id i) 1 now)
              (with_nonce (AuthenticatedMachineRequest.nonce i) now t))
          else with_nonce (AuthenticatedMachineRequest.nonce i) now t) ->
    wp (store_operation_response (deactivation_key i) "deactivate"
          (authenticated_request_hash ArtifactKind.DeactivateRequest i) now) (deactivate_post now i t)
      (fun t' _ => wp (bind (schedule_next_alarm now) (fun _ => ret (response 200 OkResponse)))
        (deactivate_post now i t) (fun t' r => deactivate_post now i t t' (Some r)) t') t2).
  { intros t2 Hidem Hocc Ht2. apply wp_insert_idem; [by rewrite Hidem|].
    apply dwp_bind, wp_schedule, dwp_ret. right. right. right. split; [done|]. exists a. split_and!; try done.
    rewrite Ht2. done. }
  apply (deactivate_plan_occupies _ _ _ Hst) in Hplan as [(-> & Hocc)|(-> & Hrel)]; simpl; wp_pure; try done.
  - eapply (wp_update_one _ Activation.occupies _ a); [apply HI|done|done|done|]. intros n Hn. wp_pure; [congruence|].
    apply wp_writes.
    eapply (wp_publish _ (released now) now a _ _ (with_transfer (Transfer.mk _ 1 now) (with_nonce _ now t))); [done..|].
    apply dwp_bind, Hdone; [done|intros Hn'; unfold Activation.occupies in Hn'; congruence|].
    replace (Activation.occupies a) with true by (symmetry; exact Hocc). done.
  - apply Hdone; [done|done|]. replace (Activation.occupies a) with false; [done|].
    unfold Activation.occupies. by rewrite Hrel.
Qed.

(** ** Validation *)
Lemma score_range s : 0 <= AnomalyScore.score (Anomaly.score s) <= 100.
Proof.
  unfold Anomaly.score. simpl. unfold try_into_or. destruct (_ && _) eqn:E; [bprop; lia|lia].
Qed.

Lemma wp_signals seats v e now E (Q : Tables -> AnomalySignals -> Prop) t :
  (forall s, Q t s) -> wp (anomaly_signals seats v e now) E Q t.
Proof.
  intros HQ. unfold anomaly_signals. wp_pure; [|by apply HQ]. exfalso. unfold count_distinct in *.
  apply orb_true_iff in H as [H|H]; bprop; lia.
Qed.

Lemma wp_score_activation seats now E (Q : Tables -> Z -> Prop) t :
  (forall s, 0 <= s <= 100 -> Q t s) -> wp (score_activation seats now) E Q t.
Proof. intros HQ. apply dwp_bind, wp_signals. intros s. apply dwp_ret, HQ, score_range. Qed.

Definition with_window (start count : Z) (t : Tables) : Tables :=
  with_int "anomaly_window_count" count (with_int "anomaly_window_start" start t).

Lemma wp_refresh_suspicion i now E (Q : Tables -> Z * list SuspicionContribution -> Prop) t :
  (forall start count s cs, 0 <= s <= 100 -> Q (with_window start count t) (s, cs)) ->
  wp (refresh_suspicion i now) E Q t.
Proof.
  intros HQ. unfold refresh_suspicion. apply dwp_bind, wp_reads, dwp_bind, wp_reads.
  destruct (match option_map as_integer (meta t !! "anomaly_window_start") with Some _ => _ | None => _ end) as [ws wc].
  apply dwp_bind, wp_writes, dwp_bind, wp_writes, dwp_bind, wp_reads, wp_if.
  { intros H. exfalso. unfold count_where in H. bprop. lia. }
  intros _. apply dwp_bind, wp_reads, dwp_bind, wp_signals. intros sg. apply dwp_ret, HQ, score_range.
Qed.

(** The marks of the signer, raised to what the caller knows. *)
Definition with_mark (k : string) (z : Z) (t : Tables) : Tables :=
  if Z.max (default 0 (int_at t k)) z =? default 0 (int_at t k) then t
  else with_int k (Z.max (default 0 (int_at t k)) z) t.
Definition with_marks (i : ValidateMachineRequest) (t : Tables) : Tables :=
  with_mark "security_floor" (ValidateMachineRequest.authoritative_security_floor i)
    (with_mark "revocation_epoch" (ValidateMachineRequest.authoritative_revocation_epoch i) t).

Lemma with_mark_frame k z t : activations (with_mark k z t) = activations t /\ nonces (with_mark k z t) = nonces t /\
  (forall k', k' <> k -> meta (with_mark k z t) !! k' = meta t !! k').
Proof.
  unfold with_mark. destruct (_ =? _); [done|]. split_and!; [done|done|]. intros k' Hk. simpl. by apply lookup_insert_ne.
Qed.

Lemma with_marks_frame i t : activations (with_marks i t) = activations t /\ nonces (with_marks i t) = nonces t /\
  (forall k, k <> "security_floor"%string -> k <> "revocation_epoch"%string -> meta (with_marks i t) !! k = meta t !! k).
Proof.
  unfold with_marks. destruct (with_mark_frame "security_floor" (ValidateMachineRequest.authoritative_security_floor i)
    (with_mark "revocation_epoch" (ValidateMachineRequest.authoritative_revocation_epoch i) t)) as (-> & -> & H1).
  destruct (with_mark_frame "revocation_epoch" (ValidateMachineRequest.authoritative_revocation_epoch i) t) as (-> & -> & H2).
  split_and!; [done|done|]. intros k Hk1 Hk2. by rewrite H1, H2.
Qed.

Definition kill_of (t : Tables) (a : Activation) : option Z :=
  if bool_decide (text_at t "status" = Some "revoked"%string) then Some 1
  else if Activation.status a =? STATUS_REVOKED then Some 2
  else if Activation.status a =? STATUS_RELEASED then Some 3 else None.

Definition revalidated (now s : Z) (i : ValidateMachineRequest) (a : Activation) : Activation :=
  Activation.set_suspicion s (Activation.set_validated now (ValidateMachineRequest.next_refresh_after i)
    (ValidateMachineRequest.not_after i) (ValidateMachineRequest.variant_id i) a).

Definition validate_post (now : Z) (i : ValidateMachineRequest) (t t' : Tables) (r : option Response) : Prop :=
  let auth := ValidateMachineRequest.auth i in
  let epoch := Z.max (default 0 (int_at t "revocation_epoch")) (ValidateMachineRequest.authoritative_revocation_epoch i) in
  let floor := Z.max (default 0 (int_at t "security_floor")) (ValidateMachineRequest.authoritative_security_floor i) in
  let t1 := with_marks i t in
  let t2 := with_nonce (AuthenticatedMachineRequest.nonce auth) now t1 in
  (refusal r /\ t' = t) \/
  exists a, authentic t ArtifactKind.ValidateRequest auth a /\
    (ValidateMachineRequest.known_revocation_epoch i <= epoch /\ ValidateMachineRequest.known_security_floor i <= floor) /\
    ((refusal r /\ t' = t1 /\ AuthenticatedMachineRequest.nonce auth ∈ map fst (nonces t)) \/
     (AuthenticatedMachineRequest.nonce auth ∉ map fst (nonces t) /\
      ((refusal r /\ t' = t2 /\ kill_of t a = None /\
          (text_at t "status" <> Some "active"%string \/ past_expiry (int_at t "expires_at") now = true)) \/
       (exists reason, kill_of t a = Some reason /\ t' = scheduled now t2 /\
          r = Some (response 200 (ValidateState (ValidateStateResponse.mk true "kill" (Some reason) epoch floor
                (Activation.suspicion a) (Activation.suspicion a) None None None None)))) \/
       (kill_of t a = None /\ Activation.occupies a = true /\ text_at t "status" = Some "active"%string /\
          past_expiry (int_at t "expires_at") now = false /\
          is_none_or (fun v => 0 <=? v) (ValidateMachineRequest.variant_id i) = true /\
          exists start count s cs, 0 <= s <= 100 /\
            t' = scheduled now (with_machine (AuthenticatedMachineRequest.machine_id auth) (revalidated now s i) now
                   (with_window start count t2)) /\
            r = Some (response 200 (ValidateState (ValidateStateResponse.mk true "ticket" None epoch floor s
                  (Activation.suspicion a) (Some cs) (Some (Activation.fingerprint a)) (Activation.credential_state a)
                  (Some (Activation.activation_path a))))))))).

Lemma try_i64_id z v : try_i64 z = Some v -> v = z /\ 0 <= z <= i64_max.
Proof. unfold try_i64. destruct (_ && _) eqn:E; [|done]. intros [= <-]. bprop. split; [done|lia]. Qed.

Lemma wp_mark k z d E (Q : Tables -> unit -> Prop) t :
  default 0 (int_at t k) = d -> Q (with_mark k z t) tt ->
  wp (if Z.max d z =? d then ret tt else upsert_meta k (SqlInteger (Z.max d z))) E Q t.
Proof. intros <- HQ. unfold with_mark in HQ. by destruct (_ =? _). Qed.

Lemma wp_kill s a E (Q : Tables -> option Z -> Prop) t t0 :
  activation_status_from_storage (Activation.status a) = Some s ->
  Q t (kill_of t0 a) -> wp (kill_reason (text_at t0 "status") (Activation.status a)) E Q t.
Proof.
  intros Hs HQ. unfold kill_reason, kill_of, activation_status_from_storage in *.
  case_bool_decide; [exact HQ|]. destruct (_ =? STATUS_REVOKED); [exact HQ|]. destruct (_ =? STATUS_RELEASED); [exact HQ|].
  destruct (_ =? STATUS_ACTIVE); [exact HQ|]. destruct (_ =? STATUS_PENDING); [exact HQ|done].
Qed.

Lemma kill_none_occupies t a s : activation_status_from_storage (Activation.status a) = Some s -> kill_of t a = None ->
  Activation.occupies a = true.
Proof.
  unfold kill_of, activation_status_from_storage, Activation.occupies. intros Hs. case_bool_decide; [done|].
  destruct (_ =? STATUS_REVOKED); [done|]. destruct (_ =? STATUS_RELEASED); [done|].
  destruct (_ =? STATUS_ACTIVE); [done|]. by destruct (_ =? STATUS_PENDING).
Qed.

Lemma update_where_twice {A} p (f g : A -> A) l : (forall x, p (f x) = p x) ->
  update_where p g (update_where p f l) = update_where p (fun x => g (f x)) l.
Proof.
  intros Hp. unfold update_where. rewrite map_map. apply map_ext. intros x. destruct (p x) eqn:E; [by rewrite Hp, E|by rewrite E].
Qed.

Lemma ready_frame t t' : ready t -> activations t' = activations t ->
  (forall k, k ∈ ["license_id"; "status"]%string -> meta t' !! k = meta t !! k) -> ready t'.
Proof. intros (H1 & H2 & H3) Ha Hm. unfold ready. by rewrite Ha, !Hm by set_solver. Qed.

Lemma validate_spec now i t : Inv t ->
  validate_post now i t (run (validate now i) t).1 (run (validate now i) t).2.
Proof.
  intros HI. apply wp_run. unfold validate. wp_pure; try refuse.
  repeat match goal with H : try_i64 _ = Some _ |- _ => apply try_i64_id in H as [-> ?] end.
  apply wp_authenticate; [done|wp_pure; refuse|]. intros a Hauth.
  apply dwp_bind, dwp_ret, dwp_bind, wp_reads, dwp_bind, wp_reads, dwp_bind, wp_refuse_if; [intros _; refuse|intros Hk].
  apply orb_false_iff in Hk as [Hk1%Z.ltb_ge Hk2%Z.ltb_ge]. pose proof Hauth as (Ha & Hid & _).
  destruct (row_status _ _ _ a HI Ha) as [st Hst].
  assert (Hv : is_none_or (fun v => 0 <=? v) (ValidateMachineRequest.variant_id i) = true).
  { apply orb_false_iff in H as [_ H]. destruct (ValidateMachineRequest.variant_id i) as [v|]; [|done]. simpl. bprop.
    by apply Z.leb_le. }
  apply dwp_bind, wp_mark; [done|]. apply dwp_bind, wp_mark.
  { unfold int_at. by rewrite (proj2 (proj2 (with_mark_frame _ _ _))). }
  fold (with_marks i t). destruct (with_marks_frame i t) as (Fa & Fn & Fm).
  apply dwp_bind, wp_record_nonce; rewrite Fn; intros Hfresh; wp_pure.
  { right. exists a. split; [done|]. split; [done|]. left. split_and!; [by apply refusal_intro|done|done]. }
  rewrite <- Fn. fold (with_nonce (AuthenticatedMachineRequest.nonce
    (ValidateMachineRequest.auth i)) now (with_marks i t)). set (t2 := with_nonce _ now (with_marks i t)).
  assert (Hm : forall k, k ∈ ["license_id"; "status"; "expires_at"]%string -> meta t2 !! k = meta t !! k)
    by (intros k Hkk; simpl; apply Fm; set_solver).
  rewrite Hm by set_solver. eapply (wp_kill st a _ _ _ t); [done|].
  destruct (kill_of t a) as [reason|] eqn:Hkill; wp_pure.
  - apply wp_schedule, dwp_ret. right. exists a. split; [done|]. split; [done|]. right. split; [done|]. right. left.
    exists reason. done.
  - right. exists a. split; [done|]. split; [done|]. right. split; [done|]. left. rewrite Hm in H4 by set_solver.
    split_and!; [by apply refusal_intro|done|done|]. apply orb_true_iff in H4 as [H4|H4]; bprop; [by left|by right].
  - rewrite Hm in H4 by set_solver. apply orb_false_iff in H4 as [Hact Hexp]. bprop.
    pose proof (kill_none_occupies t a st Hst Hkill) as Hocc.
    assert (Hr : ready t2).
    { eapply ready_frame; [eapply inv_ready; [exact HI|by eapply inv_rows_initialized]|done|].
      intros k Hkk. apply Hm. set_solver. }
    assert (Ha2 : a ∈ activations t2) by (simpl; by rewrite Fa).
    eapply (wp_update_one _ Activation.occupies _ a); [apply Hr|done|done|done|]. intros n _.
    apply dwp_bind, wp_refresh_suspicion. intros start count s cs Hs. apply dwp_bind. unfold wp at 1, update_activations.
    simpl. rewrite update_where_twice by done. apply dwp_bind.
    eapply (wp_publish _ (revalidated now s i) now a _ _ (with_window start count t2)); [|done|done|done|].
    { eapply ready_frame; [exact Hr|done|]. intros k Hkk. simpl. by rewrite !lookup_insert_ne by set_solver. }
    apply dwp_ret, dwp_bind, wp_schedule, dwp_ret. right. exists a. split; [done|]. split; [done|]. right. split; [done|].
    right. right. split_and!; try done. by exists start, count, s, cs.
Qed.
End Devices.

Section Seats.
Context `{Host : LicenseHost} `{Prim : Primitives}.
Context `{JR : !JsonLaws ReserveResponse} `{JE : !JsonLaws ProjectionEvent}.
Implicit Types (t : Tables) (a : Activation).

(** ** Reservations *)
Lemma first_ordered_spec rows :
  match first_ordered rows with Some a => a ∈ rows | None => rows = [] end.
Proof.
  induction rows as [|x rows IH]; simpl; [done|]. destruct (first_ordered rows) as [s|]; [|by left].
  destruct (ordered_before x s); [by left|by right].
Qed.

Lemma validated_row i v now s : validate_reservation i = Some v -> 0 <= now -> 0 <= s ->
  row_ok (Activation.set_suspicion s (new_activation i v now)).
Proof.
  unfold validate_reservation. destruct (_ && _) eqn:E; [|done]. intros Hv%try_i64_id Hnow Hs. destruct Hv as [-> Hv].
  repeat (apply andb_true_iff in E as [E ?]). unfold row_ok, MachineProjection.is_valid. simpl.
  repeat (apply andb_true_iff; split); try done; try by apply Z.leb_le. apply Z.leb_le. lia.
Qed.

Lemma validated_material i v : validate_reservation i = Some v ->
  material_ok (ReserveRequest.fingerprint i) (ReserveMaterial.from_ i).
Proof.
  unfold validate_reservation. destruct (_ && _) eqn:E; [|done]. intros Hv%try_i64_id. destruct Hv as [-> Hv].
  repeat (apply andb_true_iff in E as [E ?]). unfold material_ok, MachineProjection.is_valid. simpl.
  repeat (apply andb_true_iff; split); try done. apply Z.leb_le. unfold try_into_or, i64_max. destruct (_ && _); lia.
Qed.

Definition reserve_key (i : ReserveRequest) : string := String.append "reserve:" (ReserveRequest.idempotency_key i).
Definition reserve_hash (i : ReserveRequest) : list byte :=
  match ReserveRequest.request_hash i with
  | Some h => h
  | None => Hash.hash_parts [OPERATION_HASH_LABEL; text_bytes "reserve"; to_vec i]
  end.
Definition reserve_row (i : ReserveRequest) (v : ReserveResponse) (now : Z) : IdemRow :=
  IdemRow.mk (reserve_key i) (to_vec v) now (Some "reserve"%string) (Some (reserve_hash i)).
Definition stored (i : ReserveRequest) (v : ReserveResponse) (now : Z) (t : Tables) : Tables :=
  set_idem (idem t ++ [reserve_row i v now]) t.

(** A reservation that is not a replay: refused, a seat the device holds already, or a new seat. *)
Definition fresh_post (now : Z) (i : ReserveRequest) (variant epoch floor : Z) (t t' : Tables) (r : option Response) : Prop :=
  (refusal r /\ t' = t) \/
  (r = None /\ t' = t /\ ReserveRequest.machine_id i ∈ map Activation.machine_id (activations t)) \/
  (exists e, e ∈ activations t /\ Activation.fingerprint e = ReserveRequest.fingerprint i /\
     Activation.status e = STATUS_ACTIVE /\
     let v := reservation i (Activation.machine_id e) true "active" epoch floor variant in
     t' = scheduled now (stored i v now t) /\ r = Some (response 200 (Reservation v))) \/
  (exists seats s, int_at t "seats" = Some seats /\ count_where Activation.occupies (activations t) < seats /\
     ReserveRequest.machine_id i ∉ map Activation.machine_id (activations t) /\
     List.filter (same_device (ReserveRequest.fingerprint i)) (activations t) = [] /\ 0 <= s <= 100 /\
     let v := reservation i (ReserveRequest.machine_id i) false "pending" epoch floor variant in
     t' = scheduled now (stored i v now (publish_machine now
            (set_activations (activations t ++ [Activation.set_suspicion s (new_activation i variant now)]) t)
            (ReserveRequest.machine_id i))) /\
     r = Some (response 201 (Reservation v))).

Lemma update_where_last id f (rows : list Activation) a :
  id ∉ map Activation.machine_id rows -> Activation.machine_id a = id ->
  update_where (is_machine id) f (rows ++ [a]) = rows ++ [f a].
Proof.
  intros Hn Ha. unfold update_where. rewrite map_app. simpl. rewrite (proj2 (is_machine_spec id a) Ha). f_equal.
  rewrite <- (map_id rows) at 2. apply map_ext_in. intros x Hx. destruct (is_machine id x) eqn:E; [|done].
  apply is_machine_spec in E. exfalso. apply Hn. rewrite <- E. by apply key_elem, list_elem_of_In.
Qed.

Lemma wp_insert_activation a E (Q : Tables -> unit -> Prop) t :
  (Activation.machine_id a ∈ map Activation.machine_id (activations t) -> E t None) ->
  (Activation.machine_id a ∉ map Activation.machine_id (activations t) -> Q (set_activations (activations t ++ [a]) t) tt) ->
  wp (insert_activation a) E Q t.
Proof.
  intros H1 H2. unfold wp, insert_activation. destruct (existsb _ _) eqn:Ex.
  - apply H1. apply existsb_exists in Ex as (x & Hx & Hk%is_machine_spec). rewrite <- Hk.
    by apply key_elem, list_elem_of_In.
  - apply H2. intros Hin. apply list_elem_of_In, in_map_iff in Hin as (x & Hx & Hin).
    assert (existsb (is_machine (Activation.machine_id a)) (activations t) = true) as Ht; [|congruence].
    apply existsb_exists. exists x. split; [done|]. by apply is_machine_spec.
Qed.

Ltac refuse := left; split; [apply refusal_intro; done|done].

Lemma fresh_spec now i variant epoch floor seats t E (Q : Tables -> Response -> Prop) :
  NoDup (map Activation.machine_id (activations t)) -> ready t ->
  int_at t "seats" = Some seats -> reserve_key i ∉ map IdemRow.key (idem t) ->
  (forall t' r, fresh_post now i variant epoch floor t t' r -> E t' r) ->
  (forall t' r, fresh_post now i variant epoch floor t t' (Some r) -> Q t' r) ->
  wp (reserve_fresh now i (reserve_key i) (reserve_hash i) seats variant epoch floor) E Q t.
Proof.
  intros Hd Hr Hseats Hkey HE HQ. unfold reserve_fresh. apply dwp_bind, wp_reads.
  pose proof (first_ordered_spec (List.filter (same_device (ReserveRequest.fingerprint i)) (activations t))) as Hf.
  destruct (first_ordered _) as [e|].
  - apply elem_of_List_filter in Hf as [He Hdev]. apply andb_true_iff in Hdev as [Hfp Hocc]. bprop.
    apply dwp_bind. wp_pure; [apply HE; refuse|].
    assert (Hact : Activation.status e = STATUS_ACTIVE).
    { unfold Activation.occupies in Hocc. apply orb_true_iff in Hocc as [Hocc|Hocc]; bprop; congruence. }
    apply wp_insert_idem; [done|]. apply dwp_bind, wp_schedule, dwp_ret, HQ. right. right. left. exists e.
    rewrite Hact. done.
  - apply dwp_bind, dwp_bind, wp_reads, dwp_bind, wp_refuse_if; [intros _; apply HE; refuse|intros Hcount]. bprop.
    apply dwp_bind.
    apply wp_insert_activation; [intros Hin; apply HE; right; by left|intros Hnew]. simpl in Hnew.
    apply dwp_bind, wp_score_activation. intros s Hs. apply dwp_bind. unfold wp at 1, update_activations. simpl.
    rewrite (update_where_last (ReserveRequest.machine_id i) _ _ (new_activation i variant now) Hnew eq_refl). apply dwp_bind.
    eapply (wp_append_machine _ (Activation.set_suspicion s (new_activation i variant now))); [| |done|].
    + destruct Hr as (R1 & R2 & R3). split_and!; [done|done|]. simpl. rewrite map_app. apply NoDup_app.
      split_and!; [done| |apply NoDup_singleton]. intros x Hx ->%list_elem_of_singleton. done.
    + simpl. apply elem_of_app. right. by left.
    + apply dwp_ret, dwp_bind, wp_insert_idem; [done|]. apply dwp_bind, wp_schedule, dwp_ret, HQ. right. right. right.
      exists seats, s. split_and!; try done; lia.
Qed.

Lemma wp_reserve_hash i v E (Q : Tables -> list byte -> Prop) t :
  validate_reservation i = Some v -> Q t (reserve_hash i) -> wp (reserve_request_hash i) E Q t.
Proof.
  intros Hv HQ. unfold validate_reservation in Hv. destruct (_ && _) eqn:E0; [|done]. clear Hv.
  repeat (apply andb_true_iff in E0 as [E0 ?]). unfold reserve_request_hash, reserve_hash in *.
  destruct (ReserveRequest.request_hash i) as [h|]; [|exact HQ]. unfold is_none_or in *.
  unfold ByteId.from_slice. rewrite bool_decide_true; [exact HQ|]. by apply Nat.eqb_eq.
Qed.

Lemma wp_load_cached key x v E (Q : Tables -> option ReserveResponse -> Prop) t :
  find_first (has_key key) (idem t) = Some x -> cached x = Some v -> Q t (Some v) ->
  wp (load_idempotent_response key) E Q t.
Proof. intros Hf Hv HQ. unfold wp, load_idempotent_response. rewrite Hf. unfold cached in Hv. by rewrite Hv. Qed.

Lemma answer_cached S fr t key h x : Inv_except S fr t -> answer_for t key "reserve" h x ->
  exists v, cached x = Some v /\ reservation_ok v.
Proof.
  intros HI (Hx & _ & Hk & _). destruct (proj1 (Forall_forall _ _) (inv_idem _ _ _ HI) x Hx Hk) as (_ & v & Hv & Hok).
  by exists v.
Qed.

Definition dropped (key : string) (t : Tables) : Tables := set_idem (delete_where (has_key key) (idem t)) t.

Definition reserve_post (now : Z) (i : ReserveRequest) (t t' : Tables) (r : option Response) : Prop :=
  (refusal r /\ t' = t) \/
  exists variant, validate_reservation i = Some variant /\ text_at t "status" = Some "active"%string /\
    past_expiry (int_at t "expires_at") now = false /\
    let epoch := default 0 (int_at t "revocation_epoch") in
    let floor := Z.max (default 0 (int_at t "security_floor")) (ReserveRequest.authoritative_security_floor i) in
    let t1 := with_mark "security_floor" (ReserveRequest.authoritative_security_floor i) t in
    (refusal r /\ t' = t1) \/
    (exists x v, answer_for t (reserve_key i) "reserve" (reserve_hash i) x /\ cached x = Some v /\
       ((replayable v (status_of t (ReserveResponse.machine_id v)) = true /\ t' = t1 /\
           r = Some (response (if ReserveResponse.reused_existing v then 200 else 201) (Reservation v))) \/
        (replayable v (status_of t (ReserveResponse.machine_id v)) = false /\
           fresh_post now i variant epoch floor (dropped (reserve_key i) t1) t' r))) \/
    (reserve_key i ∉ map IdemRow.key (idem t) /\ fresh_post now i variant epoch floor t1 t' r).

Lemma dropped_keys key t : key ∉ map IdemRow.key (idem (dropped key t)).
Proof.
  simpl. intros Hin. apply list_elem_of_In, in_map_iff in Hin as (x & Hx & Hin). apply list_elem_of_In in Hin.
  apply elem_of_delete_where in Hin as [_ Hin]. apply bool_decide_eq_false in Hin. done.
Qed.

Lemma with_mark_idem k z t : idem (with_mark k z t) = idem t.
Proof. unfold with_mark. by destruct (_ =? _). Qed.

Lemma reserve_spec now i t : Inv t ->
  reserve_post now i t (run (reserve now i) t).1 (run (reserve now i) t).2.
Proof.
  intros HI. apply wp_run. unfold reserve. wp_pure; try refuse.
  rename a into variant, H into Hvar, a0 into seats, H0 into Hseats, H1 into Hopen, a1 into auth, H2 into Hauth.
  apply orb_false_iff in Hopen as [Hact Hexp]. bprop. apply try_i64_id in Hauth as [-> Hfl].
  pose (t1 := with_mark "security_floor" (ReserveRequest.authoritative_security_floor i) t).
  destruct (with_mark_frame "security_floor" (ReserveRequest.authoritative_security_floor i) t) as (Fa & _ & Fm).
  unfold raise_floor. apply dwp_bind, wp_reads, dwp_bind, wp_mark; [done|]. apply dwp_ret. fold t1.
  assert (HE : forall t' r, let floor := Z.max (default 0 (int_at t "security_floor")) (ReserveRequest.authoritative_security_floor i) in
     (refusal r /\ t' = t1) \/
     (exists x v, answer_for t (reserve_key i) "reserve" (reserve_hash i) x /\ cached x = Some v /\
       ((replayable v (status_of t (ReserveResponse.machine_id v)) = true /\ t' = t1 /\
           r = Some (response (if ReserveResponse.reused_existing v then 200 else 201) (Reservation v))) \/
        (replayable v (status_of t (ReserveResponse.machine_id v)) = false /\
           fresh_post now i variant (default 0 (int_at t "revocation_epoch")) floor (dropped (reserve_key i) t1) t' r))) \/
     (reserve_key i ∉ map IdemRow.key (idem t) /\ fresh_post now i variant (default 0 (int_at t "revocation_epoch")) floor t1 t' r) ->
     reserve_post now i t t' r).
  { intros t' r floor H. right. exists variant. by split_and!. }
  assert (Hr : ready t1).
  { eapply ready_frame; [eapply inv_ready; [exact HI|]|exact Fa|]; [|intros k Hk; apply Fm; set_solver].
    destruct (inv_phase _ _ _ HI) as [(? & _)|(Hn & _)]; [done|]. by rewrite Hn in Hseats by set_solver. }
  assert (Hs1 : int_at t1 "seats" = Some seats) by (unfold int_at; by rewrite Fm).
  apply dwp_bind, (wp_reserve_hash i variant); [done|]. apply dwp_bind, wp_load_operation.
  - unfold t1 at 1. rewrite with_mark_idem. intros Hmiss. eapply fresh_spec; [apply Hr|done|done| | |].
    + unfold t1. by rewrite with_mark_idem.
    + intros t' r Hp. apply HE. right. by right.
    + intros t' r Hp. apply HE. right. by right.
  - wp_pure. apply HE. refuse.
  - intros x Hx Hfind. assert (Hx' : answer_for t (reserve_key i) "reserve" (reserve_hash i) x)
      by (unfold answer_for, t1 in *; by rewrite with_mark_idem in Hx).
    destruct (answer_cached _ _ _ _ _ _ HI Hx') as (v & Hv & _).
    apply dwp_bind. eapply wp_load_cached; [exact Hfind|exact Hv|]. wp_pure.
    apply wp_reads. unfold t1 at 1. rewrite Fa. fold (status_of t (ReserveResponse.machine_id v)). wp_pure.
    + apply HE. right. left. exists x, v. split_and!; [done|done|]. by left.
    + apply wp_writes. eapply fresh_spec; [apply Hr|exact Hr|done|apply dropped_keys| |].
      * intros t' r Hp. apply HE. right. left. exists x, v. split_and!; [done|done|]. by right.
      * intros t' r Hp. apply HE. right. left. exists x, v. split_and!; [done|done|]. by right.
Qed.
End Seats.

Section Administration.
Context `{Host : LicenseHost} `{Prim : Primitives}.
Context `{JR : !JsonLaws ReserveResponse} `{JE : !JsonLaws ProjectionEvent}.
Implicit Types (t : Tables) (a : Activation).

(** ** Initialisation *)
Lemma set_meta_same t : set_meta (meta t) t = t.
Proof. by destruct t. Qed.

Lemma wp_apply_pending E (Q : Tables -> unit -> Prop) t :
  meta_ok (meta t) -> pending_ok (meta t) -> Q (set_meta (apply_pending (meta t)) t) tt ->
  wp apply_pending_admin_update E Q t.
Proof.
  intros Hm Hp HQ. unfold apply_pending_admin_update, apply_pending in *. apply dwp_bind, wp_reads.
  destruct (meta t !! "pending_admin_update"%string) as [v|] eqn:Hv.
  - rewrite (pending_value _ _ Hm Hv) in *. rewrite bool_decide_true by done. cbn [negb].
    destruct (pending_settings _ Hm Hp) as (status & seats & H1 & H2 & H3 & H4 & H5); [congruence|].
    rewrite H1, H2 in HQ. simpl in HQ.
    apply dwp_bind, wp_reads. rewrite H1. apply dwp_bind, dwp_ret, dwp_bind, wp_reads. rewrite H2.
    apply dwp_bind, dwp_ret. cbn [as_text_ as_integer option_map]. rewrite H3. cbn [negb orb]. apply wp_if.
    { intros Hbad. exfalso. apply negb_true_iff, andb_false_iff in Hbad as [Hbad|Hbad]; bprop; lia. }
    intros _. apply dwp_bind, wp_writes, dwp_bind, wp_writes, dwp_bind, wp_reads.
    apply dwp_bind, wp_optional, dwp_bind, wp_reads, dwp_bind, wp_optional, wp_delete_all. simpl.
    rewrite !lookup_insert_ne by done. rewrite lookup_optional_ne by done. rewrite !lookup_insert_ne by done. exact HQ.
  - rewrite bool_decide_false by done. apply dwp_ret. by rewrite set_meta_same in HQ.
Qed.

Lemma try_i64_opt_id o o' : try_i64_opt o = Some o' -> o' = o /\ (forall v, o = Some v -> 0 <= v).
Proof.
  unfold try_i64_opt. destruct o as [v|]; [|by intros [= <-]]. destruct (try_i64 v) eqn:E; [|done].
  apply try_i64_id in E as [-> E]. intros [= <-]. split; [done|]. intros w [= <-]. lia.
Qed.

Definition init_post (now : Z) (i : InitRequest) (t t' : Tables) (r : option Response) : Prop :=
  (refusal r /\ t' = t) \/
  (init_ok t i /\ t' = scheduled now (set_meta (init_meta i (meta t)) t) /\ r = Some (response 200 OkResponse)).

Ltac refuse := left; split; [apply refusal_intro; done|done].

Lemma init_handler_spec now i t : Inv t -> 0 <= InitRequest.seats i ->
  init_post now i t (run (init now i) t).1 (run (init now i) t).2.
Proof.
  intros HI Hseats. apply wp_run. unfold init. wp_pure; try refuse. rename a into hb, H into Hhb.
  apply try_i64_opt_id in Hhb as [-> Hhb]. repeat (apply orb_false_iff in H0 as [H0 ?]).
  rename H4 into Hs0, H3 into Hs1, H2 into Hhb0, H into Httl, H1 into Hown. bprop.
  assert (Hgo : (forall v, meta t !! "license_id"%string = Some v -> v = SqlBlob (InitRequest.license_id i)) -> init_ok t i).
  { intros Hid. split_and!; [by apply Nat.eqb_eq|done|lia|lia| | |exact Hid].
    - destruct (InitRequest.heartbeat_sec i) as [v|] eqn:E; [|done]. specialize (Hhb v eq_refl).
      assert (v <> 0) by (intros ->; done). lia.
    - destruct (InitRequest.nonce_ttl_sec i); [|done]. bprop. lia. }
  apply wp_blob; [done|set_solver|]. wp_pure; try refuse.
  apply wp_blob; [done|set_solver|]. wp_pure; [refuse|].
  assert (Hok : init_ok t i).
  { apply Hgo. intros v Hv. pose proof (inv_meta _ _ _ HI _ _ Hv) as Hval. unfold blob_at in H. rewrite Hv in H.
    destruct v as [z|x|b]; simpl in Hval; [set_solver|set_solver|]. by bprop; subst b. }
  apply wp_writes, dwp_bind, wp_writes, dwp_bind, wp_writes, dwp_bind, wp_writes, dwp_bind, wp_optional, dwp_bind, wp_optional.
  apply dwp_bind, wp_writes, dwp_bind, wp_or_insert, dwp_bind, wp_apply_pending.
  - exact (base_meta_ok t i HI Hok).
  - exact (pending_ok_base t i HI).
  - apply dwp_bind, wp_or_insert, dwp_bind, wp_or_insert, dwp_bind, wp_or_insert, dwp_bind, wp_schedule, dwp_ret.
    right. split_and!; [done|reflexivity|done].
Qed.

(** ** Administration *)
Definition handled (now : Z) (t t' : Tables) (r : option Response) : Prop := post now t t' /\ r <> None.

Lemma handled_stay now t x : handled now t t (Some x).
Proof. split; [apply post_stay|done]. Qed.

(** The row of an operation whose answer is the constant one. *)
Lemma answer_move now t key kind h : key ∉ map IdemRow.key (idem t) -> kind <> "reserve"%string ->
  move now t (answered key kind h now t).
Proof. intros Hk Hn. apply move_answer; [done|done|]. intros H. simpl in H. congruence. Qed.

Lemma lookup_pending_ne status seats hb expiry m k : k ∉ PENDING_ADMIN_KEYS ->
  pending_meta status seats hb expiry m !! k = m !! k.
Proof.
  intros Hk. unfold pending_meta, PENDING_ADMIN_KEYS in *. rewrite lookup_insert_ne by set_solver.
  rewrite !lookup_optional_ne by set_solver. by rewrite !lookup_insert_ne by set_solver.
Qed.

Lemma published_int m now t k : k <> "proj_version"%string -> int_at (published m now t) k = int_at t k.
Proof. intros Hk. unfold int_at, published. simpl. by rewrite lookup_insert_ne. Qed.

Lemma admin_update_spec now i t : Inv t -> 0 <= AdminUpdateRequest.seats i ->
  handled now t (run (admin_update now i) t).1 (run (admin_update now i) t).2.
Proof.
  intros HI Hseats. apply wp_run. unfold admin_update. wp_pure; try apply handled_stay. rename a into hb, H into Hhb.
  apply try_i64_opt_id in Hhb as [-> Hhb]. repeat (apply orb_false_iff in H0 as [H0 ?]). bprop.
  assert (Hok : settings_ok (AdminUpdateRequest.status i) (AdminUpdateRequest.seats i) (AdminUpdateRequest.heartbeat_sec i)).
  { split_and!; [done|lia|lia|]. destruct (AdminUpdateRequest.heartbeat_sec i) as [v|] eqn:E; [|done].
    specialize (Hhb v eq_refl). assert (v <> 0) by (intros ->; done). lia. }
  apply wp_load_operation; [|wp_pure; apply handled_stay|intros x _ _; apply dwp_bind, wp_blob; [done|set_solver|]; apply handled_stay].
  intros Hmiss. apply dwp_bind, wp_blob; [done|set_solver|]. apply dwp_bind, wp_reads, wp_if; intros Hver; bprop.
  { apply dwp_bind, wp_insert_idem; [done|]. apply dwp_ret. split; [|done]. split; [apply rtc_once, answer_move; done|].
    right. done. }
  fold (int_at t "admin_version") in Hver.
  apply dwp_bind, wp_meta_blob; [done|set_solver| |]; intros.
  - wp_pure; try apply handled_stay. bprop. apply wp_writes, dwp_bind, wp_writes, dwp_bind, wp_optional, dwp_bind, wp_optional.
    assert (Hi : initialized t) by (by eexists).
    assert (Hr : ready (set_meta (with_settings (AdminUpdateRequest.status i) (AdminUpdateRequest.seats i)
        (AdminUpdateRequest.heartbeat_sec i) (AdminUpdateRequest.expires_at i) (meta t)) t)).
    { eapply inv_ready; [by apply settings_inv|]. unfold initialized. simpl. rewrite lookup_settings_ne; [done|set_solver]. }
    apply dwp_bind, (wp_append_none now _ _ _ Hr). apply dwp_bind, wp_writes, dwp_bind, wp_insert_idem; [done|].
    apply dwp_bind, wp_schedule, dwp_ret. split; [|done]. apply post_scheduled.
    eapply rtc_l; [apply (move_settings now t (AdminUpdateRequest.status i) (AdminUpdateRequest.seats i)
      (AdminUpdateRequest.heartbeat_sec i) (AdminUpdateRequest.expires_at i)); done|].
    eapply rtc_l; [apply (move_raise _ _ "admin_version" (AdminUpdateRequest.version i)); [set_solver|by right|]|].
    + rewrite published_int by done. unfold int_at. simpl. rewrite lookup_settings_ne by set_solver.
      unfold int_at in Hver. lia.
    + apply rtc_once. by apply answer_move.
  - apply dwp_bind, wp_writes, dwp_bind, wp_writes, dwp_bind, wp_optional, dwp_bind, wp_optional, dwp_bind, wp_writes.
    apply dwp_bind, wp_writes, dwp_bind, wp_insert_idem; [done|]. apply dwp_ret. split; [|done]. split.
    + eapply rtc_l; [apply (move_pending now t (AdminUpdateRequest.status i) (AdminUpdateRequest.seats i)
        (AdminUpdateRequest.heartbeat_sec i) (AdminUpdateRequest.expires_at i)); done|].
      eapply rtc_l; [apply (move_raise _ _ "admin_version" (AdminUpdateRequest.version i)); [set_solver|by right|]|].
      * unfold int_at. simpl. fold (pending_meta (AdminUpdateRequest.status i) (AdminUpdateRequest.seats i)
          (AdminUpdateRequest.heartbeat_sec i) (AdminUpdateRequest.expires_at i) (meta t)).
        rewrite lookup_pending_ne by (unfold PENDING_ADMIN_KEYS; set_solver). unfold int_at in Hver. lia.
      * apply rtc_once. by apply answer_move.
    + right. split_and!; [done|done|done|]. intros k Hk. simpl. rewrite lookup_insert_ne by set_solver.
      fold (pending_meta (AdminUpdateRequest.status i) (AdminUpdateRequest.seats i)
          (AdminUpdateRequest.heartbeat_sec i) (AdminUpdateRequest.expires_at i) (meta t)).
      apply lookup_pending_ne. unfold PENDING_ADMIN_KEYS. set_solver.
Qed.

Lemma admin_forget_spec now i t : Inv t ->
  handled now t (run (admin_forget now i) t).1 (run (admin_forget now i) t).2.
Proof.
  intros HI. apply wp_run. unfold admin_forget. wp_pure; try apply handled_stay.
  apply wp_load_operation; [|wp_pure; apply handled_stay|intros x _ _; apply dwp_ret, handled_stay].
  intros Hmiss. apply dwp_bind, wp_meta_blob; [done|set_solver| |]; intros.
  - apply dwp_bind. case_bool_decide.
    + unfold wp at 1. apply dwp_bind, wp_insert_idem; [done|]. apply dwp_ret. split; [|done]. split.
      * eapply rtc_l; [apply (move_forget now t (AdminForgetRequest.machine_id i)); by eexists|].
        apply rtc_once. by apply answer_move.
      * right. split_and!; [|done|done|done]. simpl. intros a Ha. by apply elem_of_delete_where in Ha as [Ha _].
    + apply dwp_ret, dwp_bind, wp_insert_idem; [done|]. apply dwp_ret. split; [|done].
      split; [apply rtc_once, answer_move; done|by right].
  - apply dwp_bind. case_bool_decide; [done|]. apply dwp_ret, dwp_bind, wp_insert_idem; [done|]. apply dwp_ret. split; [|done].
    split; [apply rtc_once, answer_move; done|by right].
Qed.

(** ** Commit, completion and revocation *)
Lemma status_step_of s s' x y : activation_status_from_storage s = Some x -> activation_status_from_storage s' = Some y ->
  lifecycle x y -> status_step s s'.
Proof. intros. by exists x, y. Qed.

Lemma inv_row t a : Inv t -> a ∈ activations t -> row_ok a.
Proof. intros HI Ha. exact (proj1 (Forall_forall _ _) (inv_rows _ _ _ HI) a Ha). Qed.

Lemma row_variant a : row_ok a -> is_none_or (fun v => 0 <=? v) (Activation.variant_id a) = true /\ 0 <= Activation.suspicion a.
Proof.
  unfold row_ok, MachineProjection.is_valid. simpl. intros H. repeat (apply andb_true_iff in H as [H ?]). bprop. done.
Qed.

Lemma status_seen_ok now s a : 0 <= now -> row_ok a -> activation_status_from_storage s <> None ->
  row_ok (Activation.set_status_seen s now a).
Proof.
  intros Hnow Ha Hs. destruct (row_variant a Ha) as [Hv Hsus]. eapply (row_ok_seen now a); auto.
Qed.

Lemma commit_spec now id t : Inv t -> 0 <= now ->
  handled now t (run (commit now id) t).1 (run (commit now id) t).2.
Proof.
  intros HI Hnow. apply wp_run. unfold commit. wp_pure; [apply handled_stay|].
  apply wp_activation_status; [done| |intros _; wp_pure; apply handled_stay]. intros a Ha Hid.
  wp_pure; try apply handled_stay.
  - bprop. eapply (wp_update_one _ (has_status STATUS_PENDING) _ a); [apply HI|done|done|by apply Z.eqb_eq|]. intros n _.
    eapply wp_publish; [eapply inv_ready; [exact HI|by eapply inv_rows_initialized]|done|done|done|].
    apply dwp_bind, wp_schedule, dwp_ret. split; [|done]. apply post_scheduled. apply rtc_once. subst id.
    apply with_machine_move; [done|]. split_and!; [done|done| |].
    + rewrite H0. by eapply status_step_of; [..|apply life_commit].
    + apply status_seen_ok; [done|by eapply inv_row|done].
  - apply wp_schedule, dwp_ret. split; [|done]. apply post_scheduled. constructor.
Qed.

Lemma completed_row_ok fp m cs now a : 0 <= now -> row_ok a -> material_ok fp m -> row_ok (complete_row fp m cs now a).
Proof.
  unfold row_ok, material_ok, MachineProjection.is_valid. simpl. intros Hnow H1 H2.
  repeat (apply andb_true_iff in H1 as [H1 ?]). repeat (apply andb_true_iff in H2 as [H2 ?]).
  repeat (apply andb_true_iff; split); try done. by apply Z.leb_le.
Qed.

Lemma wp_completion env r m E (Q : Tables -> bool -> Prop) t :
  Inv t -> (forall b, Q t b) -> wp (completion_matches env r m) E Q t.
Proof.
  intros HI HQ. unfold completion_matches. destruct (Envelope.decode env); [|apply dwp_ret, HQ].
  destruct (Envelope.peek_unverified _ _); [|apply dwp_ret, HQ]. apply dwp_bind, wp_blob; [done|set_solver|].
  destruct (blob_at t "license_id"); [|apply dwp_ret, HQ]. apply dwp_bind, wp_reads.
  destruct (option_map _ _); [|apply dwp_ret, HQ]. apply dwp_bind, wp_blob; [done|set_solver|].
  destruct (blob_at t "suite_id"); apply dwp_ret, HQ.
Qed.

(** The answer of a reservation is replaced in place. *)
Lemma wp_update_idem key h x v E (Q : Tables -> unit -> Prop) t :
  NoDup (map IdemRow.key (idem t)) -> answer_for t key "reserve" h x -> IdemRow.request_hash x <> None ->
  Q (set_idem (update_where (has_key key) (IdemRow.set_resp (to_vec v)) (idem t)) t) tt ->
  wp (update_idempotent_response key v h) E Q t.
Proof.
  intros Hd (Hx & Hkey & Hkind & Hh) Hne HQ. unfold wp, update_idempotent_response.
  set (p := fun r => _ && _ && _).
  assert (Hhash : IdemRow.request_hash x = Some h) by (destruct (IdemRow.request_hash x); simpl in Hh; congruence).
  assert (Hp : forall y, y ∈ idem t -> p y = has_key key y).
  { intros y Hy. unfold p. destruct (has_key key y) eqn:E0; [|done]. apply bool_decide_eq_true in E0.
    assert (y = x) as -> by (eapply key_unique; [exact Hd|done..|congruence]). by rewrite !bool_decide_true. }
  assert (Hf : List.filter p (idem t) = [x]).
  { rewrite <- (filter_by_key IdemRow.key (idem t) x Hd Hx). apply filter_ext_in. intros y Hy.
    rewrite Hp by (by apply list_elem_of_In). unfold has_key. by rewrite Hkey. }
  unfold count_where, count_if. rewrite Hf. simpl.
  replace (update_where p (IdemRow.set_resp (to_vec v)) (idem t)) with
    (update_where (has_key key) (IdemRow.set_resp (to_vec v)) (idem t)); [exact HQ|].
  unfold update_where. apply map_ext_in. intros y Hy. by rewrite Hp by (by apply list_elem_of_In).
Qed.

Lemma complete_spec now i t : Inv t -> 0 <= now ->
  handled now t (run (complete now i) t).1 (run (complete now i) t).2.
Proof.
  intros HI Hnow. apply wp_run. unfold complete. wp_pure; [apply handled_stay|].
  apply wp_load_operation; [intros _; wp_pure; apply handled_stay|wp_pure; apply handled_stay|]. intros x Hx Hfind.
  destruct (answer_cached _ _ _ _ _ _ HI Hx) as (v & Hv & Hok). wp_pure. eapply wp_load_cached; [exact Hfind|exact Hv|].
  wp_pure; [apply handled_stay|]. destruct (ReserveResponse.activation_envelope v) as [env|] eqn:Henv.
  { apply dwp_bind, wp_schedule, dwp_ret. split; [|done]. apply post_scheduled. constructor. }
  wp_pure; try apply handled_stay. apply wp_completion; [done|]. intros b. wp_pure; [apply handled_stay|].
  apply wp_activation_status; [done| |intros _; wp_pure; apply handled_stay]. intros e He Hid. wp_pure; [apply handled_stay|].
  bprop. rename a into m, H1 into Hmat, a0 into cs, H2 into Hcs, H4 into Hocc.
  eapply (wp_update_one _ Activation.occupies _ e); [apply HI|done|done|done|]. intros n _. apply dwp_bind.
  eapply wp_publish; [eapply inv_ready; [exact HI|by eapply inv_rows_initialized]|done|done|done|].
  destruct Hx as (Hx & Hkey & Hkind & Hh).
  destruct (proj1 (Forall_forall _ _) (inv_idem _ _ _ HI) x Hx Hkind) as (Hne & _).
  apply dwp_bind. eapply (wp_update_idem _ _ x); [apply HI|by split_and!|done|].
  apply dwp_bind, wp_schedule, dwp_ret. split; [|done]. apply post_scheduled. rewrite <- Hid.
  eapply rtc_l; [apply (with_machine_move now t e (complete_row (ReserveResponse.fingerprint v) m cs now)); [done|]|].
  - split_and!; [done|done| |].
    + unfold STATUS_ACTIVE, STATUS_PENDING in Hocc. destruct (Z.eqb_spec (Activation.status e) 0) as [E|E].
      * rewrite E. by eapply status_step_of; [..|apply life_stay].
      * simpl in Hocc. bprop. rewrite Hocc. by eapply status_step_of; [..|apply life_commit].
    + apply completed_row_ok; [done|by eapply inv_row|]. unfold reservation_ok in Hok. by rewrite Hmat in Hok.
  - apply rtc_once. eapply (move_complete_answer _ _ _ x v); done.
Qed.

Lemma plan_for_state_spec revoked cur req p : Revoke.plan_for_state revoked cur req = Ok p ->
  (Revoke.state_changed p = negb revoked) /\ (Revoke.state_changed p = true -> Revoke.epoch_changed p = true) /\
  (Revoke.epoch_changed p = true -> Revoke.revocation_epoch p = req /\ cur < req).
Proof.
  unfold Revoke.plan_for_state. destruct (_ =? 0); [done|]. destruct revoked.
  - intros [= <-]. simpl. split_and!; [done|done|]. intros H. bprop. lia.
  - destruct (_ <=? _) eqn:E; [done|]. intros [= <-]. simpl. bprop. done.
Qed.

(** The row or the licence that is to be revoked, and the plan for it. *)
Lemma wp_revoke_plan subject cur req E (Q : Tables -> option string * result Revoke.RevokePlan Revoke.RevokeError -> Prop) t :
  Inv t -> initialized t ->
  (subject = SubjectLicense -> forall s revoked, text_at t "status" = Some s ->
     Q t (Some s, Revoke.plan_for_state revoked cur req)) ->
  (forall id, subject = SubjectMachine id ->
     Q t (None, Err Revoke.UnknownMachine)) ->
  (forall id a, subject = SubjectMachine id -> a ∈ activations t -> Activation.machine_id a = id ->
     Q t (None, Revoke.plan_for_state (has_status STATUS_REVOKED a) cur req)) ->
  wp (revoke_plan subject cur req) E Q t.
Proof.
  intros HI Hi H1 H2 H3. destruct subject as [|id]; simpl.
  - destruct (inv_text_status _ _ _ HI Hi) as (s & Hs & Hs' & Hok).
    apply dwp_bind, wp_reads. rewrite Hs. apply dwp_bind, dwp_ret, dwp_bind. simpl.
    destruct (license_status_from_storage s) as [l|] eqn:El.
    + apply dwp_ret, dwp_ret. by apply H1.
    + exfalso. unfold one_of in Hok. apply bool_decide_eq_true in Hok. unfold license_status_from_storage in El.
      repeat match goal with H : context [if String.eqb s ?x then _ else _] |- _ => destruct (String.eqb_spec s x); [done|] end.
      set_solver.
  - apply dwp_bind, wp_activation_status; [done| |].
    + intros a Ha Hid. destruct (row_status _ _ _ a HI Ha) as [st Hst]. apply dwp_bind, dwp_bind. rewrite Hst.
      apply dwp_ret, dwp_ret, dwp_ret. unfold Revoke.plan_machine.
      replace (bool_decide (st = ActivationStatus.Revoked)) with (has_status STATUS_REVOKED a); [by eapply H3|].
      unfold has_status, activation_status_from_storage in *. destruct (Z.eqb_spec (Activation.status a) STATUS_ACTIVE) as [->|].
      { by injection Hst as <-. }
      destruct (Z.eqb_spec (Activation.status a) STATUS_RELEASED) as [->|]; [by injection Hst as <-|].
      destruct (Z.eqb_spec (Activation.status a) STATUS_REVOKED); [by injection Hst as <-|].
      destruct (_ =? STATUS_PENDING); [by injection Hst as <-|done].
    + intros _. apply dwp_bind, dwp_ret, dwp_ret. by eapply H2.
Qed.

Lemma revoke_row_evolves now a : 0 <= now -> row_ok a -> (exists s, activation_status_from_storage (Activation.status a) = Some s) ->
  row_evolves a (Activation.set_status_seen STATUS_REVOKED now a).
Proof.
  intros Hnow Hok [s Hs]. split_and!; [done|done| |by apply status_seen_ok]. by eapply status_step_of; [exact Hs| |apply life_revoke].
Qed.

Lemma revoke_handled now i t : Inv t -> 0 <= now ->
  handled now t (run (revoke now i) t).1 (run (revoke now i) t).2.
Proof.
  intros HI Hnow. apply wp_run. unfold revoke. wp_pure; try apply handled_stay.
  rename a into subject, H into Hsub, H0 into Hreq, H1 into Hown.
  repeat (apply orb_false_iff in Hreq as [Hreq ?]). bprop. rename H into Htry.
  apply wp_blob; [done|set_solver|]. wp_pure; try apply handled_stay. bprop. apply blob_at_some in H.
  assert (Hi : initialized t) by (by eexists).
  fold (int_at t "revocation_epoch") in *. set (cur := default 0 (int_at t "revocation_epoch")) in *.
  set (req := RevokeRequest.revocation_epoch i) in *.
  assert (Hreq64 : try_i64 req = Some req).
  { unfold try_i64 in *. by destruct (_ && _). }
  pose proof (inv_ready _ _ _ HI Hi) as Hr.
  assert (Hraise : cur < req -> move now t (with_int "revocation_epoch" req t)).
  { intros Hlt. apply move_raise; [set_solver|by left|]. fold cur. lia. }
  apply wp_revoke_plan; [done|done| | |].
  - intros -> s revoked Hs. apply dwp_bind. destruct (Revoke.plan_for_state revoked cur req) as [p|[]] eqn:Hp;
      [|wp_pure; apply handled_stay..]. simpl. apply plan_for_state_spec in Hp as (P1 & P2 & P3). apply dwp_ret.
    destruct (Revoke.state_changed p) eqn:Hsc.
    + rewrite P2 by done. destruct P3 as [-> Hlt]; [by apply P2|]. apply dwp_bind, dwp_bind, dwp_bind, dwp_ret.
      unfold wp at 1. unfold text_at in Hs. destruct (meta t !! "status"%string) as [sv|] eqn:Hsv; [|done].
      simpl in Hs. injection Hs as Hs. rewrite bool_decide_true by done. rewrite Hreq64. wp_pure; [done|].
      apply wp_writes, dwp_bind. apply wp_append_none.
      { destruct Hr as ((b' & R1) & R2 & R3). split_and!; [|simpl; rewrite lookup_insert_ne, lookup_insert_eq by done; by eexists|done].
        simpl. rewrite !lookup_insert_ne by done. by eexists. }
      apply dwp_bind, wp_schedule, dwp_ret. split; [|done]. apply post_scheduled. simpl.
      rewrite (insert_insert_ne _ "revocation_epoch"%string "status"%string) by done.
      eapply rtc_l; [by apply Hraise|].
      apply rtc_once. apply (move_revoke_license now (with_int "revocation_epoch" req t)).
      unfold initialized. simpl. by rewrite lookup_insert_ne.
    + apply dwp_bind, dwp_ret. destruct (Revoke.epoch_changed p) eqn:Hec.
      * destruct P3 as [-> Hlt]; [done|]. rewrite Hreq64. wp_pure. apply wp_writes. wp_pure. apply wp_schedule, dwp_ret.
        split; [|done]. apply post_scheduled, rtc_once. by apply Hraise.
      * wp_pure. apply wp_schedule, dwp_ret. split; [|done]. apply post_scheduled. constructor.
  - intros id ->. wp_pure. apply handled_stay.
  - intros id a -> Ha Hid. apply dwp_bind. destruct (Revoke.plan_for_state _ cur req) as [p|[]] eqn:Hp;
      [|wp_pure; apply handled_stay..]. simpl. apply plan_for_state_spec in Hp as (P1 & P2 & P3). apply dwp_ret.
    destruct (Revoke.state_changed p) eqn:Hsc.
    + rewrite P2 by done. destruct P3 as [-> Hlt]; [by apply P2|]. symmetry in P1. apply dwp_bind, dwp_bind.
      eapply (wp_update_one _ (fun x => negb (has_status STATUS_REVOKED x)) _ a); [apply HI|done|done|done|].
      intros n Hn. rewrite Hreq64. wp_pure; [congruence|]. apply wp_writes, dwp_bind.
      eapply (wp_publish _ _ now a _ _ (with_int "revocation_epoch" req t)); [|done|done|done|].
      { eapply ready_frame; [exact Hr|done|]. intros k Hk. simpl. apply lookup_insert_ne. set_solver. }
      apply dwp_bind, wp_schedule, dwp_ret. split; [|done]. apply post_scheduled.
      eapply rtc_l; [by apply Hraise|].
      apply rtc_once. subst id. apply (with_machine_move now (with_int "revocation_epoch" req t)); [done|].
      apply revoke_row_evolves; [done|by eapply inv_row|by eapply row_status].
    + apply dwp_bind, dwp_ret. destruct (Revoke.epoch_changed p) eqn:Hec.
      * destruct P3 as [-> Hlt]; [done|]. rewrite Hreq64. wp_pure. apply wp_writes. wp_pure. apply wp_schedule, dwp_ret.
        split; [|done]. apply post_scheduled, rtc_once. by apply Hraise.
      * wp_pure. apply wp_schedule, dwp_ret. split; [|done]. apply post_scheduled. constructor.
Qed.
End Administration.
