(* ===== verification/LicenseRuns.v ===== *)
(** * Runs of a licence object

    The object with its alarm: requests and the regions of the alarm's handler interleave, the
    alarm waits for the queue between two rows of its batch, and a send may fail or fail after
    it has reached the queue.  Every step makes only moves, so what the moves keep holds along
    every run. *)

From S2P Require Import Prelude Types Cbor Field Artifacts Chain Messages Requests License Anomaly Suite StdSuite Events.
From S2P Require Import LicenseTables LicenseDO LicenseMoves LicenseInv LicenseSpec.
Import Tables.

Section Runs.
Context `{Host : LicenseHost} `{Prim : Primitives}.
Context `{JR : !JsonLaws ReserveResponse} `{JE : !JsonLaws ProjectionEvent}.
Implicit Types (t : Tables) (a : Activation).

(** ** Requests of devices make only moves *)
Lemma mark_move now k z t : k ∈ ["revocation_epoch"; "security_floor"]%string -> initialized t ->
  moves now t (with_mark k z t).
Proof.
  intros Hk Hi. unfold with_mark. destruct (_ =? _); [constructor|]. apply rtc_once, move_raise; [set_solver|by left|lia].
Qed.

Lemma nonce_move now n t : n ∉ map fst (nonces t) -> move now t (with_nonce n now t).
Proof. intros Hn. by apply move_nonce. Qed.

Lemma beat_evolves now a : 0 <= now -> row_ok a -> Activation.status a = STATUS_ACTIVE ->
  row_evolves a (Activation.set_beat now a).
Proof.
  intros Hnow Hok Hs. destruct (row_variant a Hok) as [Hv Hsus]. split_and!; [done|done| |].
  - simpl. rewrite Hs. by eapply status_step_of; [..|apply life_stay].
  - eapply (row_ok_seen now a); auto. simpl. by rewrite Hs.
Qed.

Lemma occupies_cases a : Activation.occupies a = true -> Activation.status a = STATUS_ACTIVE \/ Activation.status a = STATUS_PENDING.
Proof. unfold Activation.occupies. intros H. apply orb_true_iff in H as [H|H]; bprop; auto. Qed.

Lemma release_evolves now a f : 0 <= now -> row_ok a -> Activation.occupies a = true ->
  row_ok (f a) -> Activation.machine_id (f a) = Activation.machine_id a -> Activation.created_at (f a) = Activation.created_at a ->
  Activation.status (f a) = STATUS_RELEASED -> row_evolves a (f a).
Proof.
  intros Hnow Hok Hocc Hf H1 H2 H3. split_and!; [done|done| |done]. rewrite H3.
  destruct (occupies_cases a Hocc) as [-> | ->].
  - by eapply status_step_of; [..|apply life_release_active].
  - by eapply status_step_of; [..|apply life_release_pending].
Qed.

Lemma revalidated_evolves now s i a : 0 <= now -> row_ok a -> Activation.occupies a = true -> 0 <= s ->
  is_none_or (fun v => 0 <=? v) (ValidateMachineRequest.variant_id i) = true ->
  row_evolves a (revalidated now s i a).
Proof.
  intros Hnow Hok Hocc Hs Hv. destruct (row_variant a Hok) as [Hv' _]. destruct (occupies_cases a Hocc) as [E|E].
  all: split_and!; [done|done|simpl; rewrite E; by eapply status_step_of; [..|apply life_stay]|].
  all: eapply (row_ok_seen now a); auto; simpl; [|by rewrite E].
  all: by destruct (ValidateMachineRequest.variant_id i).
Qed.

Lemma heartbeat_moves now i t t' r : Inv t -> 0 <= now -> heartbeat_post now i t t' r -> post now t t'.
Proof.
  intros HI Hnow [[_ ->]|(a & (Ha & Hid & _) & Hs & _ & _ & Hn & -> & _)]; [apply post_stay|].
  apply post_scheduled. eapply rtc_l; [by apply nonce_move|]. apply rtc_once. rewrite <- Hid.
  apply with_machine_move; [done|]. apply beat_evolves; [done|by eapply inv_row|done].
Qed.

Lemma deactivate_moves now i t t' r : Inv t -> 0 <= now -> deactivate_post now i t t' r -> post now t t'.
Proof.
  intros HI Hnow [[_ ->]|[(_ & _ & Hn & ->)|[(_ & -> & _)|(_ & a & (Ha & Hid & _) & Hn & Hk & Hrel & ->)]]].
  - apply post_stay.
  - split; [apply rtc_once, nonce_move; done|right; by split_and!].
  - apply post_scheduled. constructor.
  - apply post_scheduled. eapply rtc_l; [apply nonce_move; exact Hn|].
    destruct (Activation.occupies a) eqn:Hocc.
    + rewrite <- Hid. eapply rtc_l; [apply move_transfer|]. eapply rtc_l.
      * apply with_machine_move; [exact Ha|]. pose proof (inv_row t a HI Ha) as Hok.
        destruct (row_variant a Hok) as [Hv Hsus]. apply (release_evolves now a (released now)); try done.
        eapply (row_ok_seen now a); auto.
      * apply rtc_once. by apply answer_move.
    + apply rtc_once. by apply answer_move.
Qed.

Lemma marks_moves now i t : initialized t -> moves now t (with_marks i t).
Proof.
  intros Hi. unfold with_marks. etrans; [apply (mark_move now "revocation_epoch"); [set_solver|done]|].
  apply mark_move; [set_solver|]. unfold initialized. by rewrite (proj2 (proj2 (with_mark_frame _ _ _))).
Qed.

Lemma marks_calm i t : calm t (with_marks i t).
Proof.
  destruct (with_marks_frame i t) as (Fa & _ & Fm). split_and!; [by rewrite Fa| | |].
  - unfold with_marks, with_mark. by repeat destruct (_ =? _).
  - unfold with_marks, with_mark. by repeat destruct (_ =? _).
  - intros k Hk. apply Fm; set_solver.
Qed.

Lemma validate_moves now i t t' r : Inv t -> 0 <= now -> validate_post now i t t' r -> post now t t'.
Proof.
  intros HI Hnow [[_ ->]|(a & (Ha & Hid & _) & _ & H)]; [apply post_stay|].
  assert (Hi : initialized t) by (by eapply inv_rows_initialized).
  pose proof (marks_moves now i t Hi) as Hm. destruct (with_marks_frame i t) as (Fa & Fn & Fm).
  destruct H as [(_ & -> & _)|(Hn & H)]; [split; [done|right; apply marks_calm]|].
  set (n := AuthenticatedMachineRequest.nonce (ValidateMachineRequest.auth i)) in *.
  assert (Hm2 : moves now t (with_nonce n now (with_marks i t)))
    by (eapply move_step; [exact Hm|apply nonce_move; by rewrite Fn]).
  destruct H as [(_ & -> & _)|[(reason & _ & -> & _)|(_ & Hocc & _ & _ & Hv & start & count & s & cs & Hs & -> & _)]].
  - split; [done|right; apply marks_calm].
  - by apply post_scheduled.
  - apply post_scheduled. eapply move_step; [eapply move_step; [eapply move_step; [exact Hm2|]|]|].
    + apply (move_window _ _ "anomaly_window_start" start); [set_solver|]. unfold initialized. simpl. by rewrite Fm.
    + apply (move_window _ _ "anomaly_window_count" count); [set_solver|]. unfold initialized. simpl.
      rewrite lookup_insert_ne by done. by rewrite Fm.
    + rewrite <- Hid. apply with_machine_move; [simpl; by rewrite Fa|].
      apply revalidated_evolves; [done|by eapply inv_row|done|lia|done].
Qed.

Lemma stored_move now i v t : reserve_key i ∉ map IdemRow.key (idem t) -> reservation_ok v -> move now t (stored i v now t).
Proof.
  intros Hk Hok. apply move_answer; [done|done|]. intros _. split; [done|]. exists v. unfold cached. simpl.
  by rewrite from_to.
Qed.

Lemma fresh_moves now i variant epoch floor t t' r :
  validate_reservation i = Some variant -> 0 <= now -> text_at t "status" = Some "active"%string ->
  past_expiry (int_at t "expires_at") now = false -> reserve_key i ∉ map IdemRow.key (idem t) ->
  fresh_post now i variant epoch floor t t' r -> post now t t'.
Proof.
  intros Hv Hnow Hst Hex Hk [[_ ->]|[(_ & -> & _)|[(e & He & Hfp & Hact & -> & _)|
    (seats & sc & Hseats & Hcount & Hnew & Hdev & Hsc & -> & _)]]]; [apply post_stay|apply post_stay| |].
  - apply post_scheduled, rtc_once, stored_move; [done|]. exact (validated_material i variant Hv).
  - apply post_scheduled. eapply rtc_l.
    + eapply (move_take now t (Activation.set_suspicion sc (new_activation i variant now)) seats); try done.
      apply validated_row; [done|done|lia].
    + apply rtc_once, stored_move; [done|]. exact (validated_material i variant Hv).
Qed.

Lemma post_trans now t t1 t' : moves now t t1 -> calm t t1 -> post now t1 t' -> post now t t'.
Proof.
  intros Hm (C1 & C2 & C3 & C4) [Hm' [Hs|(D1 & D2 & D3 & D4)]]; (split; [by etrans|]); [by left|right].
  split_and!; [auto|congruence|congruence|]. intros k Hk. by rewrite D4, C4.
Qed.

Lemma mark_calm k z t : k ∈ ["revocation_epoch"; "security_floor"]%string -> calm t (with_mark k z t).
Proof.
  intros Hk. unfold with_mark. destruct (_ =? _); [apply calm_refl|]. split_and!; [done|done|done|].
  intros k' Hk'. simpl. apply lookup_insert_ne. set_solver.
Qed.

Lemma reserve_moves now i t t' r : Inv t -> 0 <= now -> reserve_post now i t t' r -> post now t t'.
Proof.
  intros HI Hnow [[_ ->]|(variant & Hv & Hst & Hex & H)]; [apply post_stay|].
  assert (Hi : initialized t).
  { unfold text_at in Hst. destruct (inv_phase _ _ _ HI) as [(? & _)|(Hn & _)]; [done|]. by rewrite Hn in Hst by set_solver. }
  set (z := ReserveRequest.authoritative_security_floor i) in *.
  pose proof (mark_move now "security_floor" z t ltac:(set_solver) Hi) as Hm.
  pose proof (mark_calm "security_floor" z t ltac:(set_solver)) as Hc.
  destruct (with_mark_frame "security_floor" z t) as (Fa & _ & Fm).
  assert (Hst1 : text_at (with_mark "security_floor" z t) "status" = Some "active"%string) by (unfold text_at; by rewrite Fm).
  assert (Hex1 : past_expiry (int_at (with_mark "security_floor" z t) "expires_at") now = false) by (unfold int_at; by rewrite Fm).
  apply (post_trans now t (with_mark "security_floor" z t)); [done|done|].
  destruct H as [(_ & ->)|[(x & v & Hx & Hc' & [(_ & -> & _)|(Hrep & Hf)])|(Hk & Hf)]]; [apply post_stay..| |].
  - assert (Hd : move now (with_mark "security_floor" z t) (dropped (reserve_key i) (with_mark "security_floor" z t))).
    { destruct Hx as (Hx1 & Hx2 & _). eapply (move_drop_answer _ _ _ x v); [by rewrite with_mark_idem|done|done|].
      unfold status_of. by rewrite Fa. }
    apply (post_trans now _ (dropped (reserve_key i) (with_mark "security_floor" z t))); [by apply rtc_once|by split_and!|].
    eapply fresh_moves; [exact Hv|done|exact Hst1|exact Hex1|apply dropped_keys|exact Hf].
  - eapply fresh_moves; [exact Hv|done|exact Hst1|exact Hex1|by rewrite with_mark_idem|exact Hf].
Qed.

(** ** Every request *)
Definition call_typed (c : Call) : Prop :=
  match c with
  | Init i => 0 <= InitRequest.seats i
  | AdminUpdate i => 0 <= AdminUpdateRequest.seats i
  | _ => True
  end.

Lemma fetch_moves now c t : Inv t -> 0 <= now -> call_typed c -> post now t (run (fetch now c) t).1.
Proof.
  intros HI Hnow Hc. destruct c as [|i|i|i|id|i|i|i|i|i|i| | | |]; simpl in Hc |- *; try apply post_stay.
  - destruct (init_handler_spec now i t HI Hc) as [[_ ->]|(Hok & -> & _)]; [apply post_stay|].
    apply post_scheduled, rtc_once, move_init, Hok.
  - eapply reserve_moves; [done|done|by apply reserve_spec].
  - apply complete_spec; done.
  - apply commit_spec; done.
  - eapply deactivate_moves; [done|done|by apply deactivate_spec].
  - eapply heartbeat_moves; [done|done|by apply heartbeat_spec].
  - apply revoke_handled; done.
  - apply admin_update_spec; done.
  - apply admin_forget_spec; done.
  - eapply validate_moves; [done|done|by apply validate_spec].
Qed.

(** ** The alarm's regions *)
Lemma wp_project_all now ids : forall E (Q : Tables -> unit -> Prop) t,
  ready t -> (forall id, id ∈ ids -> exists a, a ∈ activations t /\ Activation.machine_id a = id) ->
  Q (publish_all now ids t) tt -> wp (project_all now ids) E Q t.
Proof.
  unfold project_all. induction ids as [|id ids IH]; intros E Q t Hr Hids HQ; simpl; [exact HQ|].
  destruct (Hids id) as (a & Ha & Hid); [left|]. apply dwp_bind. eapply (wp_append_machine id a); [done|done|done|].
  apply IH; [|intros id' Hin; apply Hids; by right|exact HQ].
  destruct Hr as ((b & R1) & R2 & R3). unfold publish_machine, published.
  split_and!; simpl; [exists b; by rewrite lookup_insert_ne|by rewrite lookup_insert_ne|done].
Qed.

Lemma wp_release p now E (Q : Tables -> unit -> Prop) t :
  ready t -> Q (release_rows p now t) tt ->
  wp (bind (update_returning p (Activation.set_status_seen STATUS_RELEASED now)) (project_all now)) E Q t.
Proof.
  intros Hr HQ. apply dwp_bind. unfold wp at 1, update_returning. apply wp_project_all; [by apply ready_update| |exact HQ].
  intros id Hid. apply list_elem_of_In, in_map_iff in Hid as (a & <- & Ha). apply list_elem_of_In in Ha.
  apply elem_of_List_filter in Ha as [Ha Hp]. exists (Activation.set_status_seen STATUS_RELEASED now a).
  split; [|done]. simpl. apply elem_of_update_where. exists a. by rewrite Hp.
Qed.

(** An object without a licence has no rows to release. *)
Lemma release_nothing p now t : activations t = [] -> release_rows p now t = t.
Proof. intros H. unfold release_rows. rewrite H. simpl. destruct t. simpl in *. by subst. Qed.

(** What the alarm's first region leaves. *)
Definition without_silent (now : Z) (t : Tables) : Tables :=
  match int_at t "heartbeat_sec" with
  | Some hb => match Heartbeat.zombie_cutoff hb now with
               | Some cutoff => release_rows (silent cutoff) now t
               | None => t
               end
  | None => t
  end.
Definition due (now : Z) (t : Tables) : bool :=
  bool_decide (text_at t "status" = Some "active"%string) && past_expiry (int_at t "expires_at") now.
Definition without_expired (now : Z) (t : Tables) : Tables :=
  if due now t then published None now (release_rows Activation.occupies now
                      (set_meta (<["status" := SqlText "expired"]> (meta t)) t))
  else t.
Definition reclaimed (now : Z) (t : Tables) : Tables :=
  pruned now (without_expired now (without_silent now (release_rows (lapsed now) now t))).

Lemma release_move p now t : Inv t -> 0 <= now -> reclaimable now t p ->
  moves now t (release_rows p now t) /\ Inv (release_rows p now t).
Proof.
  intros HI Hnow Hp. split; [|by apply release_inv]. destruct (inv_phase _ _ _ HI) as [(Hi & _)|(_ & _ & Hn & _)].
  - by apply rtc_once, move_release.
  - rewrite release_nothing by done. constructor.
Qed.

Lemma hb_positive t hb : Inv t -> int_at t "heartbeat_sec" = Some hb -> 0 < hb.
Proof.
  unfold int_at. intros HI. destruct (meta t !! "heartbeat_sec"%string) as [v|] eqn:Hv; [|done]. intros [= <-].
  pose proof (inv_meta _ _ _ HI _ _ Hv) as H. destruct v as [z|x|b]; simpl in H |- *; set_solver by lia.
Qed.

Lemma wp_release_inv p now E (Q : Tables -> unit -> Prop) t : Inv t -> Q (release_rows p now t) tt ->
  wp (bind (update_returning p (Activation.set_status_seen STATUS_RELEASED now)) (project_all now)) E Q t.
Proof.
  intros HI HQ. destruct (inv_phase _ _ _ HI) as [(Hi & _)|(_ & _ & Hn & _)].
  - apply wp_release; [by eapply inv_ready|exact HQ].
  - rewrite release_nothing in HQ by done. apply dwp_bind. unfold wp at 1, update_returning. rewrite Hn. simpl.
    unfold wp, project_all. simpl. destruct t. simpl in *. by subst.
Qed.

Lemma zombies_move now t : Inv t -> 0 <= now ->
  moves now t (without_silent now t) /\ Inv (without_silent now t).
Proof.
  intros HI Hnow. unfold without_silent. destruct (int_at t "heartbeat_sec") as [hb|] eqn:Hhb; [|split; [constructor|done]].
  destruct (Heartbeat.zombie_cutoff hb now) as [cutoff|] eqn:Hz; [|split; [constructor|done]].
  apply release_move; [done|done|]. right. by exists hb, cutoff.
Qed.

Lemma expired_move now t : Inv t -> 0 <= now ->
  moves now t (without_expired now t) /\ Inv (without_expired now t).
Proof.
  intros HI Hnow. unfold without_expired, due. destruct (_ && _) eqn:E; [|split; [constructor|done]]. bprop.
  assert (Hm : move now t (published None now (release_rows Activation.occupies now
    (set_meta (<["status" := SqlText "expired"]> (meta t)) t)))) by (by apply move_expire).
  split; [by apply rtc_once|]. by eapply move_inv.
Qed.

Lemma reclaim_moves now t : Inv t -> 0 <= now -> moves now t (reclaimed now t) /\ Inv (reclaimed now t).
Proof.
  intros HI Hnow. destruct (release_move (lapsed now) now t HI Hnow) as [M1 I1]; [by left|].
  destruct (zombies_move now _ I1 Hnow) as [M2 I2]. destruct (expired_move now _ I2 Hnow) as [M3 I3].
  split; [|eapply move_inv; [done|exact I3|apply move_prune]].
  eapply move_step; [etrans; [exact M1|etrans; [exact M2|exact M3]]|apply move_prune].
Qed.

Lemma reclaim_run now t : Inv t -> 0 <= now -> reclaim now t = (reclaimed now t, Next tt).
Proof.
  intros HI Hnow. cut (wp (reclaim now) (fun _ _ => False) (fun t' _ => t' = reclaimed now t) t).
  { unfold wp. destruct (reclaim now t) as [t' [[]|r|]]; [by intros ->|done|done]. }
  unfold reclaim. apply dwp_bind, (wp_release_inv (lapsed now)); [done|].
  destruct (release_move (lapsed now) now t HI Hnow) as [_ I1]; [by left|]. unfold reclaimed.
  set (t1 := release_rows (lapsed now) now t) in *. clearbody t1. apply dwp_bind.
  assert (Hz : wp (reclaim_zombies now) (fun _ _ => False) (fun t' _ => t' = without_silent now t1) t1).
  { unfold reclaim_zombies, without_silent. apply dwp_bind, wp_reads. fold (int_at t1 "heartbeat_sec").
    destruct (int_at t1 "heartbeat_sec") as [hb|] eqn:Hhb; [|done]. pose proof (hb_positive _ _ I1 Hhb) as Hpos.
    unfold Heartbeat.zombie_cutoff. destruct (Z.ltb_spec 0 hb); [|lia]. apply dwp_bind, dwp_ret.
    by apply wp_release_inv. }
  eapply dwp_mono; [exact Hz|]. intros t2 _ ->. destruct (zombies_move now _ I1 Hnow) as [_ I2].
  set (t2 := without_silent now t1) in *. clearbody t2. apply dwp_bind.
  assert (He : wp (reclaim_expired now) (fun _ _ => False) (fun t' _ => t' = without_expired now t2) t2).
  { unfold reclaim_expired, without_expired, due. apply dwp_bind, wp_reads, dwp_bind, wp_reads.
    fold (text_at t2 "status") (int_at t2 "expires_at"). destruct (_ && _) eqn:E; [|done]. bprop.
    assert (Hi : initialized t2).
    { unfold text_at in H. destruct (inv_phase _ _ _ I2) as [(? & _)|(Hn & _)]; [done|]. by rewrite Hn in H by set_solver. }
    apply dwp_bind, wp_writes. set (t3 := set_meta _ t2).
    assert (I3 : Inv_except [] false t3) by (by apply status_inv).
    assert (Hi3 : initialized t3) by (unfold initialized; simpl; by rewrite lookup_insert_ne).
    pose proof (wp_release Activation.occupies now (fun _ _ => False)
      (fun t' _ => t' = release_rows Activation.occupies now t3) t3 (inv_ready _ _ _ I3 Hi3) eq_refl) as Hrel.
    apply dwp_bind. unfold wp, bind in Hrel |- *. destruct (update_returning _ _ t3) as [t4 [ids|r|]]; [|done|done].
    destruct (project_all now ids t4) as [t5 [[]|r|]] eqn:Ep; [|done|done]. subst t5.
    apply (wp_append_none now (fun _ _ => False) (fun t' _ => t' = _)); [|done].
    eapply inv_ready; [by apply release_inv|]. unfold initialized. by rewrite (proj2 (release_frame _ _ _)). }
  eapply dwp_mono; [exact He|]. intros t3 _ ->. done.
Qed.

(** ** The object and its queue *)
Inductive SendOutcome := Accepted | Failed | AcceptedUnheard.
Inductive Event :=
| Request (now : Z) (c : Call)
| Fire (now : Z)
| Send (o : SendOutcome)
| Finish.

(** [flight] is the alarm's handler between two regions: its clock and the rows still to send. *)
Record Sys := sys { tables : Tables; queue : list ProjectionEvent; flight : option (Z * list OutboxRow) }.

Definition step (s : Sys) (e : Event) : Sys :=
  match e with
  | Request now c => sys (run (fetch now c) (tables s)).1 (queue s) (flight s)
  | Fire now =>
      match flight s with
      | Some _ => s
      | None =>
          match bind (reclaim now) (fun _ => outbox_batch) (tables s) with
          | (t, Next rows) => sys t (queue s) (Some (now, rows))
          | (t, _) => sys t (queue s) None
          end
      end
  | Send o =>
      match flight s with
      | Some (now, row :: rows) =>
          match outbox_event row with
          | None => sys (tables s) (queue s) None
          | Some event =>
              match o with
              | Accepted => sys (mark_sent now row (tables s)).1 (queue s ++ [event]) (Some (now, rows))
              | Failed => sys (tables s) (queue s) None
              | AcceptedUnheard => sys (tables s) (queue s ++ [event]) None
              end
          end
      | _ => s
      end
  | Finish =>
      match flight s with
      | Some (now, []) => sys (schedule_next_alarm now (tables s)).1 (queue s) None
      | _ => s
      end
  end.
Definition run_events (s : Sys) (es : list Event) : Sys := fold_left step es s.
Definition new_object : Sys := sys Tables.empty_ [] None.

Definition event_typed (e : Event) : Prop :=
  match e with Request now c => 0 <= now /\ call_typed c | Fire now => 0 <= now | _ => True end.

(** A change that is a sequence of moves, or the mark of a sent row. *)
Inductive change (t : Tables) : Tables -> Prop :=
| change_moves now t' : 0 <= now -> moves now t t' -> change t t'
| change_sent now row : change t (mark_sent now row t).1.

Lemma moves_inv now t t' : 0 <= now -> Inv t -> moves now t t' -> Inv t'.
Proof. intros Hnow HI Hm. induction Hm as [|x y z Hxy _ IH]; [done|]. apply IH. by eapply move_inv. Qed.

Lemma change_inv t t' : Inv t -> change t t' -> Inv t'.
Proof. intros HI [now t'' Hnow Hm|now row]; [by eapply moves_inv|]. by apply sent_inv. Qed.

Lemma step_change s e : Inv (tables s) -> event_typed e ->
  (forall now rows, flight s = Some (now, rows) -> 0 <= now) -> change (tables s) (tables (step s e)).
Proof.
  intros HI He Hf. assert (Hstay : change (tables s) (tables s)) by exact (change_moves _ 0 _ (Z.le_refl 0) (rtc_refl _ _)).
  destruct e as [now c|now|o|]; cbn [step event_typed tables] in He |- *.
  - destruct He as [Hnow Hc]. apply (change_moves _ now); [done|]. apply (fetch_moves now c (tables s) HI Hnow Hc).
  - destruct (flight s); [done|]. unfold bind. rewrite reclaim_run by done. cbn [outbox_batch reads tables].
    apply (change_moves _ now); [done|]. by apply reclaim_moves.
  - destruct (flight s) as [[now [|row rows]]|] eqn:Ef; [done| |done].
    destruct (outbox_event row); [|done]. destruct o; [apply change_sent|done|done].
  - destruct (flight s) as [[now [|row rows]]|] eqn:Ef; [|done|done].
    apply (change_moves _ now); [by eapply Hf|]. apply rtc_once, scheduled_move.
Qed.

(** *** Published rows are only added and marked *)
Lemma published_outbox m now t : exists r, outbox (published m now t) = outbox t ++ [r] /\ OutboxRow.sent_at r = None.
Proof. eexists. split; [reflexivity|done]. Qed.

Lemma publish_all_outbox now ids : forall t, exists new, outbox (publish_all now ids t) = outbox t ++ new /\
  Forall (fun r => OutboxRow.sent_at r = None) new.
Proof.
  induction ids as [|id ids IH]; intros t; simpl; [exists []; by rewrite app_nil_r|].
  destruct (IH (publish_machine now t id)) as (new & H1 & H2). eexists (_ :: new). split.
  - rewrite H1. unfold publish_machine, published. simpl. by rewrite <- app_assoc.
  - by constructor.
Qed.

Lemma move_outbox now t t' : move now t t' -> exists new, outbox t' = outbox t ++ new /\
  Forall (fun r => OutboxRow.sent_at r = None) new.
Proof.
  intros Hm. assert (Hstay : exists new, outbox t = outbox t ++ new /\ Forall (fun r => OutboxRow.sent_at r = None) new)
    by (exists []; by rewrite app_nil_r). destruct Hm; try exact Hstay.
  1-4: (eexists [_]; split; [reflexivity|by repeat constructor]).
  - destruct (publish_all_outbox now (map Activation.machine_id (List.filter p (activations t)))
      (set_activations (update_where p (Activation.set_status_seen STATUS_RELEASED now) (activations t)) t)) as (new & H1 & H2).
    exists new. split; [|exact H2]. unfold release_rows. by rewrite H1.
  - destruct (publish_all_outbox now (map Activation.machine_id (List.filter Activation.occupies (activations t)))
      (set_activations (update_where Activation.occupies (Activation.set_status_seen STATUS_RELEASED now) (activations t))
         (set_meta (<["status" := SqlText "expired"]> (meta t)) t))) as (new & H1 & H2).
    eexists. split; [unfold published, release_rows; simpl; rewrite H1; simpl; rewrite <- app_assoc; reflexivity|].
    apply Forall_app. split; [exact H2|by constructor].
Qed.

(** A row of a later outbox is the row it was, perhaps marked. *)
Definition same_row (r r' : OutboxRow) : Prop := OutboxRow.id r' = OutboxRow.id r /\ OutboxRow.payload r' = OutboxRow.payload r.
Definition extends (t t' : Tables) : Prop :=
  (forall r, r ∈ outbox t -> exists r', r' ∈ outbox t' /\ same_row r r') /\
  (exists es, events t' = events t ++ es).

Lemma extends_trans t1 t2 t3 : extends t1 t2 -> extends t2 t3 -> extends t1 t3.
Proof.
  intros [A1 (e1 & E1)] [A2 (e2 & E2)]. split.
  - intros r Hr. destruct (A1 r Hr) as (r' & Hr' & H1 & H2). destruct (A2 r' Hr') as (r'' & Hr'' & H3 & H4).
    exists r''. split; [done|]. split; congruence.
  - exists (e1 ++ e2). by rewrite E2, E1, app_assoc.
Qed.

Lemma move_extends now t t' : move now t t' -> extends t t'.
Proof.
  intros Hm. destruct (move_outbox now t t' Hm) as (new & H & _). split.
  - intros r Hr. exists r. split; [rewrite H; set_solver|done].
  - exists (omap outbox_event new). unfold events. by rewrite H, omap_app.
Qed.

Lemma change_extends t t' : change t t' -> extends t t'.
Proof.
  intros [now t'' _ Hm|now row].
  - induction Hm as [x|x y z Hxy _ IH]; [split; [intros r Hr; by exists r|exists []; by rewrite app_nil_r]|].
    eapply extends_trans; [by eapply move_extends|exact IH].
  - split.
    + intros r Hr. eexists. split; [apply elem_of_update_where; by exists r|]. by destruct (_ && _).
    + exists []. unfold events. simpl. by rewrite events_mark, app_nil_r.
Qed.

(** Rows that a step adds are not marked. *)
Lemma moves_sent now t t' r : moves now t t' -> r ∈ outbox t' -> OutboxRow.sent_at r <> None -> r ∈ outbox t.
Proof.
  intros Hm. induction Hm as [x|x y z Hxy _ IH]; [done|]. intros Hr Hs. specialize (IH Hr Hs).
  destruct (move_outbox now x y Hxy) as (new & H & Hnew). rewrite H in IH. apply elem_of_app in IH as [?|Hin]; [done|].
  rewrite Forall_forall in Hnew. by apply Hnew in Hin.
Qed.

(** ** The invariant of the object with its queue *)
Record SysInv (s : Sys) : Prop := {
  sys_inv : Inv (tables s);
  sys_flight : forall now rows, flight s = Some (now, rows) -> 0 <= now /\
    forall row, row ∈ rows -> exists r, r ∈ outbox (tables s) /\ same_row r row;
  sys_sent : forall r, r ∈ outbox (tables s) -> OutboxRow.sent_at r <> None ->
    exists e, outbox_event r = Some e /\ e ∈ queue s;
  sys_queue : forall e, e ∈ queue s -> e ∈ events (tables s);
}.

Lemma row_event t r : Inv t -> r ∈ outbox t -> exists e, outbox_event r = Some e /\ e ∈ events t.
Proof.
  intros HI Hr. apply list_elem_of_lookup in Hr as (i & Hi). destruct (inv_outbox _ _ _ HI i r Hi) as (_ & e & He & _).
  exists e. split; [done|]. apply list_elem_of_omap. exists r. split; [by eapply list_elem_of_lookup_2|done].
Qed.

Lemma same_row_event r r' : same_row r r' -> outbox_event r' = outbox_event r.
Proof. intros [_ H]. unfold outbox_event. by rewrite H. Qed.

(** The rows of the alarm's batch never hold the flush up: each is an event that was published. *)
Lemma flight_event s now row rows : SysInv s -> flight s = Some (now, row :: rows) ->
  exists e, outbox_event row = Some e /\ e ∈ events (tables s).
Proof.
  intros HS Hf. destruct (sys_flight _ HS _ _ Hf) as [_ Hrows]. destruct (Hrows row) as (r & Hr & Hsame); [left|].
  rewrite (same_row_event _ _ Hsame). by apply row_event; [apply sys_inv|].
Qed.

Lemma extends_rows t t' row : extends t t' -> (exists r, r ∈ outbox t /\ same_row r row) ->
  exists r, r ∈ outbox t' /\ same_row r row.
Proof.
  intros [H _] (r & Hr & H1 & H2). destruct (H r Hr) as (r' & Hr' & H3 & H4). exists r'. split; [done|]. split; congruence.
Qed.
Lemma extends_events t t' e : extends t t' -> e ∈ events t -> e ∈ events t'.
Proof. intros [_ (es & ->)] He. apply elem_of_app. by left. Qed.

Lemma new_object_inv : SysInv new_object.
Proof. split; [apply empty_inv|done|by intros r Hr%not_elem_of_nil|by intros e He%not_elem_of_nil]. Qed.

(** Moves of the object while its alarm waits. *)
Lemma moves_sys now t' fl s : SysInv s -> 0 <= now -> moves now (tables s) t' ->
  (forall at_ rows, fl = Some (at_, rows) -> 0 <= at_ /\ forall row, row ∈ rows -> exists r, r ∈ outbox t' /\ same_row r row) ->
  SysInv (sys t' (queue s) fl).
Proof.
  intros HS Hnow Hm Hfl. pose proof (change_extends _ _ (change_moves _ now _ Hnow Hm)) as He. split; simpl.
  - by eapply moves_inv; [|apply (sys_inv _ HS)|].
  - exact Hfl.
  - intros r Hr Hs. by apply (sys_sent _ HS); [eapply moves_sent|].
  - intros e Hq. eapply extends_events; [exact He|by apply (sys_queue _ HS)].
Qed.

Lemma outbox_unique t r r' : Inv t -> r ∈ outbox t -> r' ∈ outbox t -> OutboxRow.id r = OutboxRow.id r' -> r = r'.
Proof.
  intros HI Hr Hr' Hid. apply list_elem_of_lookup in Hr as (x & Hx). apply list_elem_of_lookup in Hr' as (y & Hy).
  destruct (inv_outbox _ _ _ HI _ _ Hx) as [Ix _]. destruct (inv_outbox _ _ _ HI _ _ Hy) as [Iy _].
  assert (x = y) as -> by lia. congruence.
Qed.

(** A row that the queue took and that is marked. *)
Lemma accept_inv s now row rows e : SysInv s -> flight s = Some (now, row :: rows) -> outbox_event row = Some e ->
  e ∈ events (tables s) -> SysInv (sys (mark_sent now row (tables s)).1 (queue s ++ [e]) (Some (now, rows))).
Proof.
  intros HS Ef Hev Hin. pose proof (sys_inv _ HS) as HI. destruct (sys_flight _ HS _ _ Ef) as [Hnow Hrows].
  pose proof (change_extends _ _ (change_sent (tables s) now row)) as Hext. split.
  - by apply sent_inv.
  - intros at_ rows' [= <- <-]. split; [done|]. intros r Hr. apply (extends_rows _ _ r Hext), Hrows. by right.
  - intros r' Hr Hs. apply elem_of_update_where in Hr as (r & Hr & ->). destruct (_ && _) eqn:E.
    + rewrite outbox_event_mark. destruct (Hrows row) as (r0 & Hr0 & Hsame); [left|].
      assert (r = r0) as ->.
      { apply andb_true_iff in E as [E _]. bprop. destruct Hsame as [Hs1 _]. apply (outbox_unique (tables s)); [done..|congruence]. }
      exists e. rewrite <- (same_row_event _ _ Hsame). simpl. split; [done|]. set_solver.
    + destruct (sys_sent _ HS r Hr Hs) as (e' & H1 & H2). exists e'. simpl. split; [done|]. set_solver.
  - intros e' He'. apply (extends_events _ _ e' Hext). apply elem_of_app in He' as [He'|He'].
    + by apply (sys_queue _ HS).
    + apply list_elem_of_singleton in He' as ->. exact Hin.
Qed.

Lemma step_inv s e : SysInv s -> event_typed e -> SysInv (step s e).
Proof.
  intros HS He. pose proof (sys_inv _ HS) as HI. destruct e as [now c|now|o|]; cbn [step event_typed] in He |- *.
  - destruct He as [Hnow Hc]. destruct (fetch_moves now c _ HI Hnow Hc) as [Hm _]. eapply moves_sys; [done|exact Hnow|exact Hm|].
    intros at_ rows Hf. destruct (sys_flight _ HS _ _ Hf) as [H1 H2]. split; [done|]. intros row Hrow.
    eapply extends_rows; [|by apply H2]. eapply change_extends, change_moves; [exact Hnow|exact Hm].
  - destruct (flight s) eqn:Ef; [done|]. unfold bind. rewrite reclaim_run by done. cbn [outbox_batch reads].
    destruct (reclaim_moves now _ HI He) as [Hm _]. eapply moves_sys; [done|exact He|exact Hm|]. intros at_ rows [= <- <-].
    split; [done|]. intros row Hrow. exists row. split; [|done]. apply subseteq_take in Hrow.
    by apply elem_of_List_filter in Hrow as [? _].
  - destruct (flight s) as [[now [|row rows]]|] eqn:Ef; [done| |done].
    destruct (flight_event s now row rows HS Ef) as (e & Hev & Hin). rewrite Hev.
    destruct (sys_flight _ HS _ _ Ef) as [Hnow Hrows]. destruct o.
    + by eapply accept_inv.
    + by split; [..|apply (sys_sent _ HS)|apply (sys_queue _ HS)].
    + split; simpl; [done|done| |].
      * intros r Hr Hs. destruct (sys_sent _ HS r Hr Hs) as (e' & H1 & H2). exists e'. set_solver.
      * intros e' He'. apply elem_of_app in He' as [He'|He']; [by apply (sys_queue _ HS)|].
        apply list_elem_of_singleton in He' as ->. exact Hin.
  - destruct (flight s) as [[now [|row rows]]|] eqn:Ef; [|done|done].
    destruct (sys_flight _ HS _ _ Ef) as [Hnow _]. eapply moves_sys; [done|exact Hnow|apply rtc_once, scheduled_move|done].
Qed.
End Runs.
