(* ===== verification/LicenseDemo.v ===== *)
(** * A licence object on a toy host

    A host whose serializer writes one number per field, so that the object runs by evaluation, and
    a short life of a licence on it: the witnesses that the hypotheses of its theorems hold. *)

From S2P Require Import Prelude Types Cbor Field Artifacts Chain Messages Requests License Anomaly Suite StdSuite Events.
From S2P Require Import Projection LicenseTables LicenseDO LicenseMoves LicenseInv LicenseSpec LicenseRuns.

Module DemoHost.
(** ** A serializer *)
Definition cell {A} `{Countable A} (a : A) : Z := Z.pos (countable.encode a).
Definition uncell {A} `{Countable A} (z : Z) : option A := match z with Zpos p => countable.decode p | _ => None end.
Lemma uncell_cell {A} `{Countable A} (a : A) : uncell (cell a) = Some a.
Proof. apply decode_encode. Qed.
Ltac read_cells := repeat (rewrite uncell_cell; cbn [mbind option_bind]).

Definition write_material (m : ReserveMaterial) : list Z :=
  [cell (ReserveMaterial.attrs m); cell (ReserveMaterial.device_kem_ek m); cell (ReserveMaterial.device_sig_vk m);
   cell (ReserveMaterial.activation_path m); cell (ReserveMaterial.release_id m); cell (ReserveMaterial.variant_id m);
   cell (ReserveMaterial.refresh_after m); cell (ReserveMaterial.not_after m); cell (ReserveMaterial.build_fp m);
   cell (ReserveMaterial.app_version m); cell (ReserveMaterial.os m); cell (ReserveMaterial.arch m);
   cell (ReserveMaterial.sdk_version m); cell (ReserveMaterial.geo m)].
Definition read_material (l : list Z) : option ReserveMaterial :=
  match l with
  | [a; b; c; d; e; f; g; h; i; j; k; l; m; n] =>
      a ← uncell a; b ← uncell b; c ← uncell c; d ← uncell d; e ← uncell e; f ← uncell f; g ← uncell g;
      h ← uncell h; i ← uncell i; j ← uncell j; k ← uncell k; l ← uncell l; m ← uncell m; n ← uncell n;
      Some (ReserveMaterial.mk a b c d e f g h i j k l m n)
  | _ => None
  end.
Lemma read_write_material m : read_material (write_material m) = Some m.
Proof. destruct m. unfold read_material, write_material. cbv beta iota. by read_cells. Qed.

Definition write_reservation (r : ReserveResponse) : list Z :=
  [cell (ReserveResponse.ok r); cell (ReserveResponse.machine_id r); cell (ReserveResponse.reused_existing r);
   cell (ReserveResponse.status r); cell (ReserveResponse.revocation_epoch r); cell (ReserveResponse.security_floor r);
   cell (ReserveResponse.variant_id r); cell (ReserveResponse.refresh_after r); cell (ReserveResponse.not_after r);
   cell (ReserveResponse.build_fp r); cell (ReserveResponse.fingerprint r); cell (ReserveResponse.credential_state r);
   cell (ReserveResponse.activation_envelope r)] ++
  match ReserveResponse.material r with Some m => write_material m | None => [] end.
Definition read_reservation (l : list Z) : option ReserveResponse :=
  match l with
  | a :: b :: c :: d :: e :: f :: g :: h :: i :: j :: k :: l :: m :: rest =>
      a ← uncell a; b ← uncell b; c ← uncell c; d ← uncell d; e ← uncell e; f ← uncell f; g ← uncell g;
      h ← uncell h; i ← uncell i; j ← uncell j; k ← uncell k; l ← uncell l; m ← uncell m;
      n ← match rest with [] => Some None | _ => option_map Some (read_material rest) end;
      Some (ReserveResponse.mk a b c d e f g h i j k l m n)
  | _ => None
  end.
Lemma read_write_reservation r : read_reservation (write_reservation r) = Some r.
Proof.
  destruct r as [? ? ? ? ? ? ? ? ? ? ? ? ? [m|]]; unfold read_reservation, write_reservation; cbn [app ReserveResponse.material ProjectionEvent.machine]; read_cells; [|done].
  pose proof (read_write_material m) as H. destruct (write_material m) eqn:E; [done|]. by rewrite H.
Qed.

Definition write_machine (m : MachineProjection) : list Z :=
  [cell (MachineProjection.machine_id m); cell (MachineProjection.fingerprint m); cell (MachineProjection.status m);
   cell (MachineProjection.activation_path m); cell (MachineProjection.first_seen_at m); cell (MachineProjection.last_seen_at m);
   cell (MachineProjection.os m); cell (MachineProjection.arch m); cell (MachineProjection.app_version m);
   cell (MachineProjection.sdk_version m); cell (MachineProjection.release_id m); cell (MachineProjection.variant_id m);
   cell (MachineProjection.build_fp m); cell (MachineProjection.geo_country m); cell (MachineProjection.suspicion m)].
Definition read_machine (l : list Z) : option MachineProjection :=
  match l with
  | [a; b; c; d; e; f; g; h; i; j; k; l; m; n; o] =>
      a ← uncell a; b ← uncell b; c ← uncell c; d ← uncell d; e ← uncell e; f ← uncell f; g ← uncell g;
      h ← uncell h; i ← uncell i; j ← uncell j; k ← uncell k; l ← uncell l; m ← uncell m; n ← uncell n; o ← uncell o;
      Some (MachineProjection.mk a b c d e f g h i j k l m n o)
  | _ => None
  end.
Lemma read_write_machine m : read_machine (write_machine m) = Some m.
Proof. destruct m. unfold read_machine, write_machine. cbv beta iota. by read_cells. Qed.

Definition write_event (e : ProjectionEvent) : list Z :=
  [cell (ProjectionEvent.event e); cell (ProjectionEvent.schema_version e); cell (ProjectionEvent.license_id e);
   cell (ProjectionEvent.license_status e); cell (ProjectionEvent.seats_used e); cell (ProjectionEvent.last_seen_at e);
   cell (ProjectionEvent.proj_version e); cell (ProjectionEvent.occurred_at e)] ++
  match ProjectionEvent.machine e with Some m => write_machine m | None => [] end.
Definition read_event (l : list Z) : option ProjectionEvent :=
  match l with
  | a :: b :: c :: d :: e :: f :: g :: h :: rest =>
      a ← uncell a; b ← uncell b; c ← uncell c; d ← uncell d; e ← uncell e; f ← uncell f; g ← uncell g; h ← uncell h;
      m ← match rest with [] => Some None | _ => option_map Some (read_machine rest) end;
      Some (ProjectionEvent.mk a b c d e f m g h)
  | _ => None
  end.
Lemma read_write_event e : read_event (write_event e) = Some e.
Proof.
  destruct e as [? ? ? ? ? ? [m|] ? ?]; unfold read_event, write_event; cbn [app ReserveResponse.material ProjectionEvent.machine]; read_cells; [|done].
  pose proof (read_write_machine m) as H. destruct (write_machine m) eqn:E; [done|]. by rewrite H.
Qed.

(** ** The host; of a request only the bytes that are hashed matter. *)
Definition host : LicenseHost := {|
  own_id := ByteId.to_hex (repeat 1 16);
  id_from_name s := s;
  cast_integer _ := 0;
  cast_text _ := EmptyString;
  json_reservation := {| to_vec := write_reservation; from_slice := read_reservation |};
  json_projection := {| to_vec := write_event; from_slice := read_event |};
  json_reserve_request := {| to_vec i := ReserveRequest.machine_id i; from_slice _ := None |};
  json_admin_update := {| to_vec i := [AdminUpdateRequest.version i]; from_slice _ := None |};
  json_admin_forget := {| to_vec i := AdminForgetRequest.machine_id i; from_slice _ := None |};
|}.

Lemma reservation_laws : JsonLaws (J := json_reservation (LicenseHost := host)) ReserveResponse.
Proof. constructor. apply read_write_reservation. Qed.
Lemma event_laws : JsonLaws (J := json_projection (LicenseHost := host)) ProjectionEvent.
Proof. constructor. apply read_write_event. Qed.

(** ** Requests *)
Definition license : list byte := repeat 1 16.
Definition machine (n : Z) : list byte := repeat n 16.
Definition init_request : InitRequest := InitRequest.mk license "acme" [0; 0; 0; 1] 1 (Some 3600) (Some 100000) None.
Definition reserve_request (n : Z) : ReserveRequest :=
  ReserveRequest.mk "key" (Some (repeat n 32)) (machine n) [n; n] None [1] (DemoPrim.vk_bytes (DemoPrim.vk_of [n])) "online" "r1" 7 2000 3000 None None
    None None None None None 0.
Definition proof_body (nonce : list byte) (n : Z) : list byte :=
  CborValue.to_canonical (CborValue.Map
    [(CborValue.Uint 0, CborValue.Uint PROTO_VER); (CborValue.Uint 1, CborValue.Bytes [0; 0; 0; 1]);
     (CborValue.Uint 2, CborValue.Bytes license); (CborValue.Uint 3, CborValue.Bytes (machine n));
     (CborValue.Uint 4, CborValue.Bytes nonce)]).
Definition heartbeat_request (nonce : list byte) (n : Z) : AuthenticatedMachineRequest :=
  AuthenticatedMachineRequest.mk license (machine n) [0; 0; 0; 1] nonce (proof_body nonce n)
    (DemoPrim.ed_mac (DemoPrim.vk_of [n]) (hybrid_tbs (Prim := DemoPrim.prims)
       (DomainCtx.new ArtifactKind.HeartbeatRequest [0; 0; 0; 1] "acme") (proof_body nonce n))) "beat".
Definition revoke_request (kind : RevokeKind) (id : option (list byte)) : RevokeRequest :=
  RevokeRequest.mk license kind id 5.

(** ** A life: a device takes the only seat and confirms it. *)
Definition life : list Event :=
  [Request 10 (Init init_request); Request 20 (Reserve (reserve_request 3)); Request 25 (Commit (machine 3))].
Definition revoked_license : list Event := [Request 30 (RevokeCall (revoke_request RevokeLicense None))].
Definition revoked_machine : list Event := [Request 30 (RevokeCall (revoke_request RevokeMachine (Some (machine 3))))].
(** The alarm sends the two projections of the life. *)
Definition flushed : list Event := [Fire 40; Send Failed; Fire 41; Send Accepted; Send Accepted; Finish].

(** The life at work: the seat is taken, a second device is refused, the device's heartbeat is accepted. *)
#[local] Existing Instances host DemoPrim.prims.
Definition object : Tables := tables (run_events new_object life).
Example life_takes_the_seat :
  status_of object (machine 3) = Some STATUS_ACTIVE /\
  (run (fetch 30 (HeartbeatCall (heartbeat_request (repeat 9 32) 3))) object).2 = Some (response 200 (HeartbeatResponse 3630)).
Proof. split; vm_compute; reflexivity. Qed.

(** A device whose last beat is three intervals old is not silent yet; the alarm finds nothing to do and is due again at once. *)
Example alarm_due_again_at_once :
  let s := run_events new_object (life ++ [Fire 10825; Send Accepted; Send Accepted; Finish]) in
  status_of (tables s) (machine 3) = Some STATUS_ACTIVE /\ Tables.alarm (tables s) = Some 10825.
Proof. split; vm_compute; reflexivity. Qed.
End DemoHost.
