(* ===== verification/LicenseTheorems.v ===== *)
(** * Properties of a licence object

    Along every run of the object - requests in any order, alarms whose sends fail or repeat -
    the tables keep their invariant and change only by moves; seats are never oversold, revocations
    are final, the marks never fall, a nonce is accepted once, a reservation can be repeated; every
    event reaches the queue and the read model ends up showing the object's state. *)

From S2P Require Import Prelude Types Cbor Field Artifacts Chain Messages Requests License Anomaly Suite StdSuite Events.
From S2P Require Import Projection LicenseTables LicenseDO LicenseMoves LicenseInv LicenseKeeps LicenseSpec LicenseRuns LicenseDemo.
Import Tables.

Section Theorems.
Context `{Host : LicenseHost} `{Prim : Primitives}.
Context `{JR : !JsonLaws ReserveResponse} `{JE : !JsonLaws ProjectionEvent}.
Implicit Types (t : Tables) (a : Activation).

(** ** Runs *)
Lemma events_run_snoc s es e : run_events s (es ++ [e]) = step (run_events s es) e.
Proof. unfold run_events. by rewrite fold_left_app. Qed.
Lemma events_run_app s es es' : run_events s (es ++ es') = run_events (run_events s es) es'.
Proof. unfold run_events. by rewrite fold_left_app. Qed.

Lemma runs_inv s es : SysInv s -> Forall event_typed es -> SysInv (run_events s es).
Proof.
  revert s. induction es as [|e es IH]; intros s HS Hes; [done|]. apply Forall_cons in Hes as [He Hes].
  apply IH; [by apply step_inv|done].
Qed.

Lemma sys_change s e : SysInv s -> event_typed e -> change (tables s) (tables (step s e)).
Proof. intros HS He. apply step_change; [apply HS|done|]. intros now rows Hf. apply (sys_flight _ HS _ _ Hf). Qed.

(** What every change of an object's tables keeps, its runs keep. *)
Lemma run_keeps (P : Tables -> Prop) s es : SysInv s -> Forall event_typed es ->
  (forall t t', Inv t -> change t t' -> P t -> P t') -> P (tables s) -> P (tables (run_events s es)).
Proof.
  intros HS Hes HP. revert s HS. induction Hes as [|e es He Hes IH]; intros s HS H; [done|].
  apply IH; [by apply step_inv|]. eapply HP; [apply HS|by apply sys_change|done].
Qed.

(** ** Keys of the metadata *)
Lemma published_key m now t k : k <> "proj_version"%string -> meta (published m now t) !! k = meta t !! k.
Proof. intros Hk. simpl. by rewrite lookup_insert_ne. Qed.

Lemma init_int t i k : Inv t -> init_ok t i -> k ∈ ["revocation_epoch"; "security_floor"; "admin_version"]%string ->
  default 0 (int_at (set_meta (init_meta i (meta t)) t) k) = default 0 (int_at t k).
Proof.
  intros HI Hok Hk. destruct (init_spec t i HI Hok) as (_ & _ & _ & _ & H & _). unfold int_at. simpl.
  destruct (H k) as [->|(_ & -> & ->)]; [unfold INIT_KEYS; set_solver|unfold PENDING_ADMIN_KEYS; set_solver|done|done].
Qed.

(** A mark rises or stays under every move. *)
Lemma move_mark now t t' k : Inv t -> move now t t' -> k ∈ ["revocation_epoch"; "security_floor"; "admin_version"]%string ->
  default 0 (int_at t k) <= default 0 (int_at t' k).
Proof.
  intros HI Hm Hk. assert (Hp : k <> "proj_version"%string) by set_solver.
  assert (Hsame : forall t2, meta t2 !! k = meta t !! k -> default 0 (int_at t k) <= default 0 (int_at t2 k))
    by (intros t2 E; unfold int_at; by rewrite E).
  destruct Hm; try (by apply Hsame).
  - unfold int_at at 2, with_int. simpl. destruct (decide (k = k0)) as [->|Hne]; [by rewrite lookup_insert_eq|].
    rewrite lookup_insert_ne by done. by apply Hsame.
  - apply Hsame. simpl. apply lookup_insert_ne. set_solver.
  - apply Hsame. unfold publish_machine. by rewrite published_key.
  - apply Hsame. unfold publish_machine. by rewrite published_key.
  - apply Hsame. rewrite published_key by done. apply lookup_settings_ne. set_solver.
  - apply Hsame. rewrite published_key by done. simpl. apply lookup_insert_ne. set_solver.
  - apply Hsame. simpl. apply lookup_pending_ne. unfold PENDING_ADMIN_KEYS. set_solver.
  - by rewrite init_int.
  - apply Hsame. by apply release_frame.
  - apply Hsame. rewrite published_key by done. rewrite (proj2 (release_frame _ _ _)) by done. simpl. apply lookup_insert_ne. set_solver.
Qed.

(** A licence that is revoked stays so. *)
Lemma move_revoked now t t' : Inv t -> move now t t' -> text_at t "status" = Some "revoked"%string ->
  text_at t' "status" = Some "revoked"%string.
Proof.
  intros HI Hm Hs. assert (Hi : initialized t).
  { unfold text_at in Hs. destruct (inv_phase _ _ _ HI) as [(? & _)|(Hn & _)]; [done|]. by rewrite Hn in Hs by set_solver. }
  assert (Hsame : forall t2, meta t2 !! "status"%string = meta t !! "status"%string -> text_at t2 "status" = Some "revoked"%string)
    by (intros t2 E; unfold text_at; by rewrite E).
  destruct Hm; try (by apply Hsame).
  - apply Hsame. simpl. apply lookup_insert_ne. set_solver.
  - apply Hsame. simpl. apply lookup_insert_ne. set_solver.
  - apply Hsame. unfold publish_machine. by rewrite published_key.
  - congruence.
  - unfold text_at. rewrite published_key by done. simpl. by rewrite lookup_insert_eq.
  - destruct Hi as [v Hv]. congruence.
  - apply Hsame. by apply init_spec.
  - apply Hsame. by apply release_frame.
  - congruence.
Qed.

Lemma change_revoked t t' : Inv t -> change t t' -> text_at t "status" = Some "revoked"%string ->
  text_at t' "status" = Some "revoked"%string.
Proof.
  intros HI [now t'' Hnow Hm|now row]; [|done]. induction Hm as [|x y z Hxy _ IH]; [done|]. intros Hs.
  apply IH; [by eapply move_inv|by eapply move_revoked].
Qed.

Lemma version_is_length t : Inv t -> default 0 (int_at t "proj_version") = Z.of_nat (length (outbox t)).
Proof.
  intros HI. destruct (inv_phase _ _ _ HI) as [(Hi & _)|(Hn & _ & _ & ->)]; [by rewrite (inv_version _ _ _ HI Hi)|].
  unfold int_at. by rewrite Hn by set_solver.
Qed.

Definition MARKS : list string := ["revocation_epoch"; "security_floor"; "admin_version"; "proj_version"]%string.

Lemma change_mark t t' k z : Inv t -> change t t' -> k ∈ MARKS -> z <= default 0 (int_at t k) -> z <= default 0 (int_at t' k).
Proof.
  intros HI [now t'' Hnow Hm|now row] Hk; [|done]. induction Hm as [|x y w Hxy _ IH]; [done|]. intros Hz.
  assert (HI' : Inv y) by (by eapply move_inv). apply IH; [done|]. etrans; [exact Hz|].
  destruct (decide (k = "proj_version"%string)) as [->|Hne]; [|eapply move_mark; [done|exact Hxy|unfold MARKS in Hk; set_solver]].
  rewrite !version_is_length by done. destruct (move_outbox _ _ _ Hxy) as (new & -> & _). rewrite length_app. lia.
Qed.

(** ** Refinement *)

(** C7 Along every run - requests, alarms and sends that fail or repeat, in any order - the object
    keeps its invariant, and every step changes the tables only by moves of the specification or by
    marking a row that was sent. *)
Theorem object_refines_moves es e : Forall event_typed es -> event_typed e ->
  let s := run_events new_object es in SysInv s /\ change (tables s) (tables (step s e)).
Proof.
  intros Hes He s. assert (HS : SysInv s) by (apply runs_inv; [apply new_object_inv|done]). split; [done|by apply sys_change].
Qed.

(** ** Seats *)
Definition seats_of (t : Tables) : Z := default 0 (int_at t "seats").

Lemma with_mark_seats k z t : k <> "seats"%string -> seats_used (with_mark k z t) = seats_used t /\ seats_of (with_mark k z t) = seats_of t.
Proof.
  intros Hk. destruct (with_mark_frame k z t) as (Fa & _ & Fm). unfold seats_used, seats_of, int_at. rewrite Fa, Fm by done. done.
Qed.

Lemma fresh_seats now i v e f t t' r : fresh_post now i v e f t t' r -> seats_used t' <= Z.max (seats_used t) (seats_of t).
Proof.
  intros [[_ ->]|[(_ & -> & _)|[(x & _ & _ & _ & -> & _)|(seats & sc & Hs & Hc & _ & _ & _ & -> & _)]]]; [lia|lia| |].
  - change (seats_used t <= Z.max (seats_used t) (seats_of t)). lia.
  - unfold seats_of. rewrite Hs. unfold seats_used, count_where, count_if in *. cbn [activations scheduled stored publish_machine published].
    simpl. rewrite List.filter_app, length_app. simpl. lia.
Qed.

Lemma reserve_seats now i t : Inv t -> seats_used (run (reserve now i) t).1 <= Z.max (seats_used t) (seats_of t).
Proof.
  intros HI. destruct (with_mark_seats "security_floor" (ReserveRequest.authoritative_security_floor i) t) as [E1 E2]; [done|].
  destruct (reserve_spec now i t HI) as [[_ ->]|(v & _ & _ & _ & [[_ ->]|[(x & w & _ & _ & [(_ & -> & _)|(_ & Hf)])|(_ & Hf)]])];
    [lia|lia|lia| |]; apply fresh_seats in Hf.
  - change (seats_used (dropped ?k ?t)) with (seats_used t) in Hf. change (seats_of (dropped ?k ?t)) with (seats_of t) in Hf. lia.
  - lia.
Qed.

Lemma step_seats s e : SysInv s -> event_typed e ->
  seats_used (tables (step s e)) <= Z.max (seats_used (tables s)) (seats_of (tables s)).
Proof.
  intros HS He. destruct e as [now c|now|o|]; cbn [step event_typed tables] in He |- *.
  - assert (Hkeep : spares fewer c -> seats_used (run (fetch now c) (tables s)).1 <= Z.max (seats_used (tables s)) (seats_of (tables s))).
    { intros Hc. pose proof (keeps_request fewer now c (tables s) Hc) as H. unfold fewer in H. lia. }
    destruct c; try (by apply Hkeep); [apply reserve_seats, HS|apply Hkeep; intros t; apply (count_delete Activation.occupies)].
  - destruct (flight s); [lia|]. pose proof (keeps_reclaim fewer now (fewer_prune now) (tables s)) as H. unfold fewer in H. unfold bind.
    rewrite reclaim_run in H |- * by (done || apply HS). cbn [outbox_batch reads tables fst] in H |- *. lia.
  - destruct (flight s) as [[now [|row rows]]|]; [simpl; lia| |simpl; lia].
    destruct (outbox_event row), o; simpl; try lia; change (seats_used (set_outbox ?l ?t)) with (seats_used t); lia.
  - destruct (flight s) as [[now [|row rows]]|]; [|simpl; lia|simpl; lia].
    change (seats_used (tables s) <= Z.max (seats_used (tables s)) (seats_of (tables s))). lia.
Qed.

(** C4 As long as a licence never had more than [n] seats, it never has more than [n] occupied ones,
    whatever devices, administrators and the alarm do and in which order. *)
Theorem seats_are_never_oversold es n : Forall event_typed es ->
  (forall k, seats_of (tables (run_events new_object (take k es))) <= n) ->
  seats_used (tables (run_events new_object es)) <= n.
Proof.
  induction es as [|e es IH] using rev_ind; intros Hes Hn.
  - specialize (Hn 0%nat). unfold seats_of, int_at in Hn. simpl in Hn. rewrite lookup_empty in Hn. done.
  - apply Forall_app in Hes as [Hes [He _]%Forall_cons].
    assert (Hn' : forall k, seats_of (tables (run_events new_object (take k es))) <= n).
    { intros k. destruct (decide (k <= length es)%nat) as [Hk|Hk].
      - specialize (Hn k). by rewrite take_app_le in Hn.
      - rewrite take_ge by lia. specialize (Hn (length es)). by rewrite take_app_length in Hn. }
    specialize (IH Hes Hn'). specialize (Hn' (length es)). rewrite take_ge in Hn' by done. rewrite events_run_snoc.
    pose proof (step_seats (run_events new_object es) e (runs_inv _ _ new_object_inv Hes) He). lia.
Qed.

(** ** Revocation *)
Lemma refused_reserve now i t : Inv t -> text_at t "status" <> Some "active"%string -> refusal (run (reserve now i) t).2.
Proof. intros HI Hs. by destruct (reserve_spec now i t HI) as [[H _]|(v & _ & H & _)]. Qed.

Lemma refused_heartbeat now i t : Inv t -> text_at t "status" <> Some "active"%string -> refusal (run (heartbeat now i) t).2.
Proof. intros HI Hs. by destruct (heartbeat_spec now i t HI) as [[H _]|(a & _ & _ & H & _)]. Qed.

Lemma validate_answer now i t st : Inv t -> (run (validate now i) t).2 = Some (response 200 (ValidateState st)) ->
  exists a, authentic t ArtifactKind.ValidateRequest (ValidateMachineRequest.auth i) a /\
    match kill_of t a with
    | Some reason => ValidateStateResponse.outcome st = "kill"%string /\ ValidateStateResponse.kill_reason st = Some reason
    | None => text_at t "status" = Some "active"%string /\ past_expiry (int_at t "expires_at") now = false /\ Activation.occupies a = true
    end.
Proof.
  intros HI Hr. pose proof (validate_spec now i t HI) as H. rewrite Hr in H.
  destruct H as [[(c & x & [=] & _) _]|(a & Ha & _ & [((c & x & [=] & _) & _)|(_ & [((c & x & [=] & _) & _)|[(reason & Hk & _ & [= ->])|(Hk & Ho & Hs & He & _)]])])].
  - exists a. rewrite Hk. done.
  - exists a. rewrite Hk. done.
Qed.

(** C5 The revocation of a licence is final: no sequence of requests and alarms takes it back, and
    from then on no seat is reserved, no heartbeat is accepted and every validation that is answered
    tells the device to stop. *)
Theorem license_revocation_is_final es es' : Forall event_typed (es ++ es') ->
  text_at (tables (run_events new_object es)) "status" = Some "revoked"%string ->
  let t := tables (run_events new_object (es ++ es')) in
  text_at t "status" = Some "revoked"%string /\
  (forall now i, refusal (run (reserve now i) t).2) /\ (forall now i, refusal (run (heartbeat now i) t).2) /\
  (forall now i st, (run (validate now i) t).2 = Some (response 200 (ValidateState st)) ->
     ValidateStateResponse.outcome st = "kill"%string /\ ValidateStateResponse.kill_reason st = Some 1).
Proof.
  intros Hes Hs t. apply Forall_app in Hes as [Hes Hes']. pose proof (runs_inv _ _ new_object_inv Hes) as HS.
  assert (HI : Inv t) by (unfold t; rewrite events_run_app; by apply (runs_inv _ es')).
  assert (Hrev : text_at t "status" = Some "revoked"%string).
  { unfold t. rewrite events_run_app. apply (run_keeps (fun t => text_at t "status" = Some "revoked"%string)); [done|done| |done].
    intros t1 t2. apply change_revoked. }
  split_and!; [done| | |].
  - intros now i. apply refused_reserve; [done|]. by rewrite Hrev.
  - intros now i. apply refused_heartbeat; [done|]. by rewrite Hrev.
  - intros now i st Hv. destruct (validate_answer now i t st HI Hv) as (a & _ & H). unfold kill_of in H.
    by rewrite Hrev, bool_decide_eq_true_2 in H by done.
Qed.

(** C31 The revocation epoch, the security floor and the versions of the administrator's updates and
    of the projections never fall. *)
Theorem marks_never_fall es es' k : Forall event_typed (es ++ es') -> k ∈ MARKS ->
  default 0 (int_at (tables (run_events new_object es)) k) <= default 0 (int_at (tables (run_events new_object (es ++ es'))) k).
Proof.
  intros Hes Hk. apply Forall_app in Hes as [Hes Hes']. rewrite events_run_app.
  apply (run_keeps (fun t => default 0 (int_at (tables (run_events new_object es)) k) <= default 0 (int_at t k)));
    [by apply runs_inv; [apply new_object_inv|]|done| |done].
  intros t t' HI Hc Hle. by eapply change_mark.
Qed.

(** *** A machine's revocation *)
Definition forgotten_by (id : list byte) (e : Event) : bool :=
  match e with Request _ (AdminForget i) => bool_decide (AdminForgetRequest.machine_id i = id) | _ => false end.

Lemma revoked_status t id : Inv t -> status_of t id = Some STATUS_REVOKED <-> revoked_in id t.
Proof.
  intros HI. unfold status_of. split.
  - destruct (find_first (is_machine id) (activations t)) as [a|] eqn:E; [|done]. intros [= Hs].
    apply find_some in E as [Ha%list_elem_of_In Hid%is_machine_spec]. by exists a.
  - intros (a & Ha & <- & Hs). unfold is_machine.
    rewrite (find_by_key Activation.machine_id _ a (inv_ids _ _ _ HI) Ha). simpl. by rewrite Hs.
Qed.

Lemma step_still_revoked s e id : SysInv s -> event_typed e -> forgotten_by id e = false ->
  still_revoked id (tables s) (tables (step s e)).
Proof.
  intros HS He Hf. destruct e as [now c|now|o|]; cbn [step event_typed tables] in He |- *.
  - apply keeps_request; [apply _|]. destruct c; try done; cbn [spares].
    + intros a t _. apply still_revoked_insert.
    + intros t. apply still_revoked_forget. cbn [forgotten_by] in Hf. bprop. congruence.
  - destruct (flight s); [reflexivity|].
    pose proof (keeps_reclaim (still_revoked id) now (still_revoked_prune id now) (tables s)) as H. unfold bind.
    rewrite reclaim_run in H |- * by (done || apply HS). exact H.
  - destruct (flight s) as [[now [|row rows]]|]; [reflexivity| |reflexivity].
    destruct (outbox_event row), o; try reflexivity. apply respectful_outbox.
  - destruct (flight s) as [[now [|row rows]]|]; [|reflexivity|reflexivity]. apply respectful_alarm.
Qed.

(** C28 A revoked machine stays revoked until an administrator has its record deleted: no request and
    no alarm frees or reactivates it, its heartbeats are refused and its validations answered with
    an order to stop. *)
Theorem machine_revocation_is_final es es' id : Forall event_typed (es ++ es') ->
  status_of (tables (run_events new_object es)) id = Some STATUS_REVOKED ->
  Forall (fun e => forgotten_by id e = false) es' ->
  let t := tables (run_events new_object (es ++ es')) in
  status_of t id = Some STATUS_REVOKED /\
  (forall now i, AuthenticatedMachineRequest.machine_id i = id -> refusal (run (heartbeat now i) t).2) /\
  (forall now i st, AuthenticatedMachineRequest.machine_id (ValidateMachineRequest.auth i) = id ->
     (run (validate now i) t).2 = Some (response 200 (ValidateState st)) -> ValidateStateResponse.outcome st = "kill"%string).
Proof.
  intros Hes Hs Hnf t. apply Forall_app in Hes as [Hes Hes']. pose proof (runs_inv _ _ new_object_inv Hes) as HS.
  assert (HI : Inv t) by (unfold t; rewrite events_run_app; by apply (runs_inv _ es')).
  apply revoked_status in Hs; [|apply HS].
  assert (Hrev : revoked_in id t).
  { unfold t. rewrite events_run_app. clear t HI Hes. revert Hs HS. generalize (run_events new_object es) as s0. clear es.
    induction es' as [|e es' IH]; intros s0 Hs HS; [done|]. apply Forall_cons in Hes' as [He Hes']. apply Forall_cons in Hnf as [Hn Hnf].
    apply IH; [done|done| |by apply step_inv]. by eapply step_still_revoked. }
  assert (Hrow : forall a, a ∈ activations t -> Activation.machine_id a = id -> Activation.status a = STATUS_REVOKED).
  { intros a Ha Hid. destruct Hrev as (b & Hb & Hidb & Hsb).
    by rewrite (key_unique Activation.machine_id _ a b (inv_ids _ _ _ HI) Ha Hb (eq_trans Hid (eq_sym Hidb))). }
  split_and!; [by apply revoked_status| |].
  - intros now i Hid. destruct (heartbeat_spec now i t HI) as [[H _]|(a & (Ha & Ha' & _) & H & _)]; [done|].
    by rewrite (Hrow a Ha (eq_trans Ha' Hid)) in H.
  - intros now i st Hid Hv. destruct (validate_answer now i t st HI Hv) as (a & (Ha & Ha' & _) & H).
    unfold kill_of in H. rewrite (Hrow a Ha (eq_trans Ha' Hid)) in H. simpl in H. destruct (bool_decide _); by destruct H.
Qed.

(** ** Nonces *)
Definition nonce_of (c : Call) : option (list byte) :=
  match c with
  | HeartbeatCall i => Some (AuthenticatedMachineRequest.nonce i)
  | ValidateCall i => Some (AuthenticatedMachineRequest.nonce (ValidateMachineRequest.auth i))
  | _ => None
  end.

(** The alarm keeps a nonce recorded at [at_] while it is younger than the licence's limit. *)
Definition young (at_ : Z) (s : Sys) (e : Event) : Prop :=
  match e with
  | Fire now => sat_sub_i64 now (default DEFAULT_NONCE_TTL_SECS (int_at (tables s) "nonce_ttl_sec")) < at_
  | _ => True
  end.

Lemma publish_all_nonces now ids : forall t, nonces (publish_all now ids t) = nonces t.
Proof. induction ids as [|id ids IH]; intros t; simpl; [done|]. by rewrite IH. Qed.

Lemma release_nonces p now t : nonces (release_rows p now t) = nonces t /\
  int_at (release_rows p now t) "nonce_ttl_sec" = int_at t "nonce_ttl_sec".
Proof. split; [unfold release_rows; by rewrite publish_all_nonces|]. unfold int_at. by rewrite (proj2 (release_frame p now t)). Qed.

Lemma reclaimed_nonces now t n at_ : (n, at_) ∈ nonces t ->
  sat_sub_i64 now (default DEFAULT_NONCE_TTL_SECS (int_at t "nonce_ttl_sec")) < at_ -> (n, at_) ∈ nonces (reclaimed now t).
Proof.
  intros Hin Hy. destruct (release_nonces (lapsed now) now t) as [A1 A2]. unfold reclaimed.
  set (t1 := release_rows (lapsed now) now t) in *. clearbody t1.
  assert (B : nonces (without_silent now t1) = nonces t1 /\ int_at (without_silent now t1) "nonce_ttl_sec" = int_at t1 "nonce_ttl_sec").
  { unfold without_silent. destruct (int_at t1 "heartbeat_sec"); [|done]. destruct (Heartbeat.zombie_cutoff _ _); [|done]. apply release_nonces. }
  set (t2 := without_silent now t1) in *. clearbody t2. destruct B as [B1 B2].
  assert (C : nonces (without_expired now t2) = nonces t2 /\ int_at (without_expired now t2) "nonce_ttl_sec" = int_at t2 "nonce_ttl_sec").
  { unfold without_expired. destruct (due now t2); [|done]. rewrite published_int by done.
    change (nonces (published ?m ?n ?t)) with (nonces t). destruct (release_nonces Activation.occupies now
      (set_meta (<["status" := SqlText "expired"]> (meta t2)) t2)) as [-> ->]. split; [done|]. unfold int_at. simpl. by rewrite lookup_insert_ne. }
  destruct C as [C1 C2]. unfold pruned. cbn [nonces set_activations set_idem set_nonces]. apply elem_of_delete_where.
  rewrite C1, B1, A1, C2, B2, A2. split; [done|]. simpl. lia.
Qed.

Lemma step_remembered s e n at_ : SysInv s -> event_typed e -> young at_ s e ->
  (n, at_) ∈ nonces (tables s) -> (n, at_) ∈ nonces (tables (step s e)).
Proof.
  intros HS He Hy Hin. destruct e as [now c|now|o|]; cbn [step event_typed young tables] in He, Hy |- *.
  - eapply (keeps_request (remembered (n, at_))); [|done]. destruct c; try done; [intros a t _ H; exact H|intros t H; exact H].
  - destruct (flight s); [done|]. unfold bind. rewrite reclaim_run by (done || apply HS). cbn [outbox_batch reads tables].
    by apply reclaimed_nonces.
  - destruct (flight s) as [[now [|row rows]]|]; [done| |done]. by destruct (outbox_event row), o.
  - by destruct (flight s) as [[now [|row rows]]|].
Qed.

(** An accepted request leaves its nonce; a request with a nonce on record is refused. *)
Lemma accepted_nonce now c t n b : Inv t -> nonce_of c = Some n -> (run (fetch now c) t).2 = Some (response 200 b) ->
  (n, now) ∈ nonces (run (fetch now c) t).1.
Proof.
  intros HI Hn Hr. destruct c as [| | | | | |i| | | |i| | | |]; try done; injection Hn as <-; cbn [fetch] in Hr |- *.
  - destruct (heartbeat_spec now i t HI) as [[(c & x & H & ?) _]|(a & _ & _ & _ & _ & _ & -> & _)]; [rewrite Hr in H; naive_solver lia|].
    simpl. apply elem_of_app. right. by apply list_elem_of_singleton.
  - pose proof (validate_spec now i t HI) as H. rewrite Hr in H.
    destruct H as [[(c & x & [=] & ?) _]|(a & _ & _ & [((c & x & [=] & ?) & _)|(_ & [((c & x & [=] & ?) & _)|[(reason & _ & -> & _)|(_ & _ & _ & _ & _ & st & ct & sc & cs & _ & -> & _)]])])];
      try lia; simpl; apply elem_of_app; right; by apply list_elem_of_singleton.
Qed.

Lemma refused_nonce now c t n at_ : Inv t -> nonce_of c = Some n -> (n, at_) ∈ nonces t -> refusal (run (fetch now c) t).2.
Proof.
  intros HI Hn Hin. assert (Hin' : n ∈ map fst (nonces t)) by (apply list_elem_of_In, in_map_iff; exists (n, at_); by rewrite <- list_elem_of_In).
  destruct c as [| | | | | |i| | | |i| | | |]; try done; injection Hn as <-; cbn [fetch].
  - by destruct (heartbeat_spec now i t HI) as [[H _]|(a & _ & _ & _ & _ & Hni & _)].
  - by destruct (validate_spec now i t HI) as [[H _]|(a & _ & _ & [(H & _)|(Hni & _)])].
Qed.

(** C8 A nonce is good for one request: after a heartbeat or a validation was accepted, every
    heartbeat and every validation with the same nonce is refused, whatever happens in between,
    until the alarm finds the nonce older than the licence's limit. *)
Theorem nonces_are_single_use es now c n b es' : Forall event_typed (es ++ Request now c :: es') ->
  nonce_of c = Some n -> (run (fetch now c) (tables (run_events new_object es))).2 = Some (response 200 b) ->
  (forall k e, es' !! k = Some e -> young now (run_events new_object (es ++ Request now c :: take k es')) e) ->
  forall now' c', nonce_of c' = Some n ->
    refusal (run (fetch now' c') (tables (run_events new_object (es ++ Request now c :: es')))).2.
Proof.
  intros Hes Hn Hr Hy now' c' Hn'. apply Forall_app in Hes as [Hes [He Hes']%Forall_cons].
  pose proof (runs_inv _ _ new_object_inv Hes) as HS. pose proof (accepted_nonce now c _ n b (sys_inv _ HS) Hn Hr) as Hin.
  assert (Hkeep : forall k, (k <= length es')%nat -> let s := run_events new_object (es ++ Request now c :: take k es') in
    SysInv s /\ (n, now) ∈ nonces (tables s)).
  { induction k as [|k IH]; intros Hk s; unfold s; clear s.
    - rewrite events_run_app. split; [by apply (step_inv _ (Request now c))|done].
    - destruct (lookup_lt_is_Some_2 es' k) as [e Hk']; [lia|]. rewrite (take_S_r _ _ _ Hk'), app_comm_cons, app_assoc, events_run_snoc.
      destruct IH as [IH1 IH2]; [lia|]. assert (event_typed e) by (rewrite Forall_forall in Hes'; apply Hes'; by eapply list_elem_of_lookup_2).
      split; [by apply step_inv|]. apply step_remembered; [done|done|by apply Hy|done]. }
  destruct (Hkeep (length es') (Nat.le_refl _)) as [HS' Hin']. rewrite firstn_all in HS', Hin'.
  by eapply refused_nonce; [apply HS'|..].
Qed.

(** ** Repeated reservations *)
Lemma wp_any {A} (m : Do A) (E : Tables -> option Response -> Prop) (Q : Tables -> A -> Prop) t :
  (forall t' r, E t' r) -> (forall t' (x : A), Q t' x) -> wp m E Q t.
Proof. intros H1 H2. unfold wp. by destruct (m t) as [t' [a|r|]]. Qed.

(** A reservation that is not refused passed the checks before the idempotency record. *)
Lemma reserve_checked now i t c v : (run (reserve now i) t).2 = Some (response c (Reservation v)) ->
  (exists variant, validate_reservation i = Some variant) /\ is_Some (int_at t "seats") /\
  try_i64 (ReserveRequest.authoritative_security_floor i) = Some (ReserveRequest.authoritative_security_floor i).
Proof.
  set (G := _ /\ _). assert (H : refusal (run (reserve now i) t).2 \/ G).
  { apply (wp_run _ (fun _ r => refusal r \/ G)). unfold reserve. wp_pure; try (left; by apply refusal_intro).
    assert G; [|apply wp_any; [intros t' r; by right|intros t' b; apply wp_any; intros; by right]].
    apply try_i64_id in H2 as E. destruct E as [-> _]. split_and!; [by eexists|by eexists|done]. }
  intros Hr. rewrite Hr in H. destruct H as [(c' & x & [=] & _)|H]; done.
Qed.

Lemma answer_found t key kind h x : Inv t -> answer_for t key kind h x -> find_first (has_key key) (idem t) = Some x.
Proof. intros HI (Hx & <- & _). exact (find_by_key IdemRow.key (idem t) x (inv_keys _ _ _ HI) Hx). Qed.

(** A request whose answer is on record and whose seat is held gets the same answer again. *)
Lemma reserve_replay now i t x v : Inv t -> (exists variant, validate_reservation i = Some variant) -> is_Some (int_at t "seats") ->
  try_i64 (ReserveRequest.authoritative_security_floor i) = Some (ReserveRequest.authoritative_security_floor i) ->
  text_at t "status" = Some "active"%string -> past_expiry (int_at t "expires_at") now = false ->
  answer_for t (reserve_key i) "reserve" (reserve_hash i) x -> cached x = Some v ->
  replayable v (status_of t (ReserveResponse.machine_id v)) = true ->
  let t1 := with_mark "security_floor" (ReserveRequest.authoritative_security_floor i) t in
  (run (reserve now i) t).1 = t1 /\
  (run (reserve now i) t).2 = Some (response (if ReserveResponse.reused_existing v then 200 else 201) (Reservation v)).
Proof.
  intros HI [variant Hv] [seats Hseats] Htry Hst Hex Hx Hc Hrep t1.
  apply (wp_run _ (fun t' r => t' = t1 /\ r = Some _)). unfold reserve. rewrite Hv.
  apply dwp_bind, dwp_ret, dwp_bind, wp_reads. fold (int_at t "seats"). rewrite Hseats. wp_pure; fold (text_at t "status") (int_at t "expires_at") in *.
  { rewrite Hst, Hex in *. by rewrite bool_decide_eq_true_2 in H. }
  2: congruence. rewrite Htry in H0. injection H0 as <-. unfold raise_floor. apply dwp_bind, wp_reads, dwp_bind, wp_mark; [done|]. apply dwp_ret. fold t1.
  apply dwp_bind, (wp_reserve_hash i variant); [done|]. pose proof (answer_found _ _ _ _ _ HI Hx) as Hf.
  assert (Hidem : idem t1 = idem t) by apply with_mark_idem. destruct Hx as (_ & _ & Hk & Hh).
  apply dwp_bind, wp_reads. rewrite Hidem. unfold reserve_key in Hf. rewrite Hf, Hk, Hh, !bool_decide_eq_true_2 by done. simpl.
  apply dwp_bind. eapply wp_load_cached; [by rewrite Hidem|exact Hc|]. wp_pure. apply wp_reads.
  assert (Ha : activations t1 = activations t) by apply with_mark_frame. unfold status_of in Hrep. by rewrite Ha, Hrep.
Qed.

(** What an accepted reservation leaves: its answer on record, and the seat it names. *)
Lemma fresh_recorded now i v e f t t' c r : fresh_post now i v e f t t' (Some (response c (Reservation r))) ->
  (exists x, answer_for t' (reserve_key i) "reserve" (reserve_hash i) x /\ cached x = Some r) /\
  c = (if ReserveResponse.reused_existing r then 200 else 201) /\
  (exists a, a ∈ activations t' /\ Activation.machine_id a = ReserveResponse.machine_id r /\ Activation.occupies a = true) /\
  (forall k, k <> "proj_version"%string -> meta t' !! k = meta t !! k).
Proof.
  assert (Hrec : forall u t2, answer_for (stored i u now t2) (reserve_key i) "reserve" (reserve_hash i) (reserve_row i u now) /\
    cached (reserve_row i u now) = Some u).
  { intros u t2. split; [split_and!; [apply elem_of_app; right; by apply list_elem_of_singleton|done..]|]. unfold cached. apply from_to. }
  intros [[(x & y & [=] & _) _]|[([=] & _)|[(a & Ha & _ & Hs & -> & [= -> ->])|(seats & sc & _ & _ & _ & _ & _ & -> & [= -> ->])]]].
  - split_and!; [eexists; apply Hrec|done| |done]. exists a. split_and!; [done|done|]. unfold Activation.occupies. by rewrite Hs.
  - split_and!; [eexists; apply Hrec|done| |].
    + eexists. split_and!; [apply elem_of_app; right; by apply list_elem_of_singleton|done|done].
    + intros k Hk. simpl. by rewrite lookup_insert_ne.
Qed.

Lemma occupied_replayable t a v : Inv t -> a ∈ activations t -> Activation.machine_id a = ReserveResponse.machine_id v ->
  Activation.occupies a = true -> replayable v (status_of t (ReserveResponse.machine_id v)) = true.
Proof.
  intros HI Ha Hid Ho. unfold status_of, is_machine. rewrite <- Hid.
  rewrite (find_by_key Activation.machine_id _ a (inv_ids _ _ _ HI) Ha). simpl. unfold replayable.
  destruct (occupies_cases a Ho) as [-> | ->]; simpl; by rewrite ?orb_true_r.
Qed.

Lemma reserve_recorded now i t c v : Inv t -> 0 <= now ->
  (run (reserve now i) t).2 = Some (response c (Reservation v)) -> let t1 := (run (reserve now i) t).1 in
  (exists x, answer_for t1 (reserve_key i) "reserve" (reserve_hash i) x /\ cached x = Some v) /\
  c = (if ReserveResponse.reused_existing v then 200 else 201) /\
  replayable v (status_of t1 (ReserveResponse.machine_id v)) = true /\
  text_at t1 "status" = Some "active"%string /\ is_Some (int_at t1 "seats").
Proof.
  intros HI Hnow Hr t1. destruct (reserve_checked now i t c v Hr) as (_ & Hseats & _).
  assert (HI1 : Inv t1) by (eapply moves_inv; [exact Hnow|exact HI|]; by apply (fetch_moves now (Reserve i))).
  destruct (with_mark_frame "security_floor" (ReserveRequest.authoritative_security_floor i) t) as (Fa & _ & Fm).
  pose proof (reserve_spec now i t HI) as H. fold t1 in H. rewrite Hr in H.
  destruct H as [[(x & y & [=] & _) _]|(variant & _ & Hst & _ & [((x & y & [=] & _) & _)|H])].
  assert (Hdone : forall t0 e f, (forall k, k <> "security_floor"%string -> meta t0 !! k = meta t !! k) ->
    fresh_post now i variant e f t0 t1 (Some (response c (Reservation v))) ->
    (exists x, answer_for t1 (reserve_key i) "reserve" (reserve_hash i) x /\ cached x = Some v) /\
    c = (if ReserveResponse.reused_existing v then 200 else 201) /\
    replayable v (status_of t1 (ReserveResponse.machine_id v)) = true /\
    text_at t1 "status" = Some "active"%string /\ is_Some (int_at t1 "seats")).
  { intros t0 e f Hm Hf. apply fresh_recorded in Hf as (Hx & Hc & (a & Ha & Hid & Ho) & Hk).
    split_and!; [exact Hx|exact Hc|by eapply occupied_replayable|..].
    - unfold text_at. by rewrite Hk, Hm.
    - unfold int_at. by rewrite Hk, Hm. }
  destruct H as [(x & w & Hx & Hcx & [(Hrep & Ht1 & [= -> <-])|(_ & Hf)])|(_ & Hf)].
  - rewrite Ht1. split_and!; [|done|..].
    + exists x. split; [|done]. unfold answer_for. by rewrite with_mark_idem.
    + unfold status_of. by rewrite Fa.
    + unfold text_at. by rewrite Fm.
    + unfold int_at. by rewrite Fm.
  - by eapply Hdone, Hf.
  - by eapply Hdone, Hf.
Qed.

End Theorems.

(** ** Witnesses *)
Section Witnesses.
#[local] Existing Instances DemoHost.host DemoHost.reservation_laws DemoHost.event_laws DemoPrim.prims.
Import DemoHost.

Lemma life_typed : Forall event_typed life /\ Forall event_typed revoked_license /\ Forall event_typed revoked_machine /\
  Forall event_typed flushed.
Proof. split_and!; repeat constructor; simpl; lia. Qed.

Lemma life_then_typed es : es = revoked_license \/ es = revoked_machine \/ es = flushed -> Forall event_typed (life ++ es).
Proof. intros H. destruct life_typed as (? & ? & ? & ?). apply Forall_app. split; [done|]. by destruct H as [-> |[-> | ->]]. Qed.

Lemma object_refines_moves_witness : change (tables (run_events new_object life)) (tables (step (run_events new_object life) (Fire 40))).
Proof. destruct (object_refines_moves life (Fire 40)) as [_ H]; [apply life_typed|simpl; lia|exact H]. Defined.

Lemma seats_are_never_oversold_witness : seats_used (tables (run_events new_object life)) <= 1.
Proof.
  apply seats_are_never_oversold; [apply life_typed|]. intros k. do 3 (destruct k; [vm_compute; discriminate|]).
  rewrite take_ge by (simpl; lia). vm_compute. discriminate.
Defined.

Lemma license_revocation_is_final_witness : refusal (run (reserve 50 (reserve_request 4))
  (tables (run_events new_object ((life ++ revoked_license) ++ flushed)))).2.
Proof.
  destruct (license_revocation_is_final (life ++ revoked_license) flushed) as (_ & H & _); [|vm_compute; reflexivity|exact (H 50 _)].
  apply Forall_app. split; [apply life_then_typed; auto|apply life_typed].
Defined.

Lemma marks_never_fall_witness : default 0 (int_at (tables (run_events new_object life)) "revocation_epoch") <=
  default 0 (int_at (tables (run_events new_object (life ++ revoked_machine))) "revocation_epoch").
Proof. exact (marks_never_fall life revoked_machine "revocation_epoch" (life_then_typed _ (or_intror (or_introl eq_refl))) ltac:(left)). Defined.

Lemma machine_revocation_is_final_witness :
  status_of (tables (run_events new_object ((life ++ revoked_machine) ++ flushed))) (machine 3) = Some STATUS_REVOKED.
Proof.
  destruct (machine_revocation_is_final (life ++ revoked_machine) flushed (machine 3)) as (H & _);
    [|vm_compute; reflexivity|repeat constructor|exact H].
  apply Forall_app. split; [apply life_then_typed; auto|apply life_typed].
Defined.

Lemma nonces_are_single_use_witness :
  let beat := HeartbeatCall (heartbeat_request (repeat 9 32) 3) in
  refusal (run (fetch 50 beat) (tables (run_events new_object (life ++ Request 30 beat :: [Fire 40])))).2.
Proof.
  intros beat. apply (nonces_are_single_use life 30 beat (repeat 9 32) (HeartbeatResponse 3630) [Fire 40]).
  - apply Forall_app. split; [apply life_typed|]. repeat constructor; simpl; lia.
  - reflexivity.
  - vm_compute. reflexivity.
  - intros [|k] e He; [|done]. injection He as <-. vm_compute. reflexivity.
  - reflexivity.
Defined.

End Witnesses.
