(* ===== verification/LicenseAlarm.v ===== *)
(** * The alarm, the queue and the read model

    What the alarm's handler frees and when it is due; that every published event reaches the
    queue, perhaps more than once; and that the database the queue's consumer writes ends up
    showing what the object holds. *)

From S2P Require Import Prelude Types Cbor Field Artifacts Chain Messages Requests License Anomaly Suite StdSuite Events.
From S2P Require Import Projection LicenseTables LicenseDO LicenseMoves LicenseInv LicenseKeeps LicenseSpec LicenseRuns.
From S2P Require Import LicenseDemo LicenseTheorems.
Import Tables.

Section Alarm.
Context `{Host : LicenseHost} `{Prim : Primitives}.
Context `{JR : !JsonLaws ReserveResponse} `{JE : !JsonLaws ProjectionEvent}.
Implicit Types (t : Tables) (a : Activation).

(** ** The history and the queue *)
Lemma omap_lookup {A B} (f : A -> option B) (l : list A) : (forall (i : nat) x, l !! i = Some x -> exists y, f x = Some y) ->
  forall i : nat, omap f l !! i = l !! i ≫= f.
Proof.
  induction l as [|x l IH]; intros H i; [done|]. destruct (H 0%nat x eq_refl) as [y Hy]. cbn [omap list_omap]. rewrite Hy.
  destruct i as [|i]; [done|]. simpl. apply IH. intros j z Hz. exact (H (S j) z Hz).
Qed.

Lemma events_lookup t i e : Inv t -> events t !! i = Some e <-> exists r, outbox t !! i = Some r /\ outbox_event r = Some e.
Proof.
  intros HI. unfold events. rewrite omap_lookup.
  - destruct (outbox t !! i); simpl; naive_solver.
  - intros j r Hr. destruct (inv_outbox _ _ _ HI j r Hr) as (_ & e' & He' & _). by exists e'.
Qed.

Lemma events_numbered t : Inv t -> numbered (events t).
Proof.
  intros HI i e He. apply events_lookup in He as (r & Hr & Hev); [|done].
  destruct (inv_outbox _ _ _ HI i r Hr) as (_ & e' & He' & Hv & _). by simplify_eq.
Qed.

Lemma event_fine t e : Inv t -> e ∈ events t ->
  ProjectionEvent.is_valid e = true /\ ProjectionEvent.license_id e = license_id_of t.
Proof.
  intros HI He. apply list_elem_of_lookup in He as (i & Hi). apply events_lookup in Hi as (r & Hr & Hev); [|done].
  destruct (inv_outbox _ _ _ HI i r Hr) as (_ & e' & He' & _ & Hl). simplify_eq. split; [|done].
  unfold outbox_event in Hev. destruct (from_slice _) as [x|]; [|done]. by destruct (ProjectionEvent.is_valid x) eqn:E; simplify_eq.
Qed.

Lemma events_length t : Inv t -> length (events t) = length (outbox t).
Proof.
  intros HI. apply Nat.le_antisymm; apply Nat.nlt_ge; intros Hlt.
  - destruct (lookup_lt_is_Some_2 _ _ Hlt) as [e He]. apply events_lookup in He as (r & Hr & _); [|done].
    apply lookup_lt_Some in Hr. lia.
  - destruct (lookup_lt_is_Some_2 _ _ Hlt) as [r Hr]. destruct (inv_outbox _ _ _ HI _ r Hr) as (_ & e & He & _).
    assert (Hi : events t !! length (events t) = Some e) by (apply events_lookup; [done|by exists r]).
    apply lookup_lt_Some in Hi. lia.
Qed.

(** C10 The queue carries the object's history: the outbox numbers its events from one without a gap,
    each is valid and of this licence, no row can hold the flush up, a row marked as sent is in the
    queue, and nothing is in the queue that was not published. *)
Theorem queue_carries_history es : Forall event_typed es ->
  let s := run_events new_object es in let t := tables s in
  numbered (events t) /\ length (events t) = length (outbox t) /\
  (forall e, e ∈ events t -> ProjectionEvent.is_valid e = true /\ ProjectionEvent.license_id e = license_id_of t) /\
  (forall r, r ∈ outbox t -> OutboxRow.sent_at r <> None -> exists e, outbox_event r = Some e /\ e ∈ queue s) /\
  (forall e, e ∈ queue s -> e ∈ events t) /\
  (forall now row rows, flight s = Some (now, row :: rows) -> is_Some (outbox_event row)).
Proof.
  intros Hes s t. assert (HS : SysInv s) by (apply runs_inv; [apply new_object_inv|done]). pose proof (sys_inv _ HS) as HI.
  split_and!; [by apply events_numbered|by apply events_length|intros e; by apply event_fine|apply HS|apply HS|].
  intros now row rows Hf. destruct (flight_event s now row rows HS Hf) as (e & He & _). by exists e.
Qed.

(** ** A flush without failures *)
Definition in_batch (rows : list OutboxRow) (r : OutboxRow) : bool :=
  existsb (fun row => OutboxRow.id r =? OutboxRow.id row) rows && unsent r.

Lemma mark_twice now row rows l :
  update_where (in_batch rows) (OutboxRow.mark_sent now)
    (update_where (fun r => (OutboxRow.id r =? OutboxRow.id row) && unsent r) (OutboxRow.mark_sent now) l) =
  update_where (in_batch (row :: rows)) (OutboxRow.mark_sent now) l.
Proof.
  unfold update_where. rewrite map_map. apply map_ext. intros r. unfold in_batch. simpl.
  destruct (OutboxRow.id r =? OutboxRow.id row); simpl; [|done].
  destruct (unsent r) eqn:E; simpl; [by rewrite andb_false_r|]. by rewrite E, andb_false_r.
Qed.

Lemma send_all now rows : forall s, SysInv s -> flight s = Some (now, rows) ->
  let s' := run_events s (replicate (length rows) (Send Accepted)) in
  flight s' = Some (now, []) /\ queue s' = queue s ++ omap outbox_event rows /\
  tables s' = set_outbox (update_where (in_batch rows) (OutboxRow.mark_sent now) (outbox (tables s))) (tables s).
Proof.
  induction rows as [|row rows IH]; intros s HS Hf s'; unfold s'; clear s'.
  - simpl. rewrite app_nil_r. split_and!; [done|done|]. assert (E : update_where (in_batch []) (OutboxRow.mark_sent now) (outbox (tables s)) = outbox (tables s)).
    { unfold update_where. rewrite <- (map_id (outbox (tables s))) at 2. apply map_ext. done. }
    rewrite E. by destruct (tables s).
  - destruct (flight_event s now row rows HS Hf) as (e & He & Hin).
    cbn [length replicate run_events fold_left]. fold (run_events (step s (Send Accepted)) (replicate (length rows) (Send Accepted))).
    assert (Hs : step s (Send Accepted) = sys (mark_sent now row (tables s)).1 (queue s ++ [e]) (Some (now, rows)))
      by (cbn [step]; by rewrite Hf, He).
    rewrite Hs. destruct (IH (sys (mark_sent now row (tables s)).1 (queue s ++ [e]) (Some (now, rows)))) as (F1 & F2 & F3).
    { by eapply accept_inv. } { done. }
    split_and!; [exact F1| |].
    + rewrite F2. cbn [omap list_omap queue]. by rewrite He, <- app_assoc.
    + rewrite F3. cbn [tables mark_sent writes fst set_outbox outbox]. by rewrite mark_twice.
Qed.

(** C11 An alarm whose sends succeed delivers its batch: it ends, every row it selected is marked and
    its event is in the queue, and when no more rows were waiting than a batch holds, none is left. *)
Theorem alarm_delivers es now : Forall event_typed es -> 0 <= now -> flight (run_events new_object es) = None ->
  let s := step (run_events new_object es) (Fire now) in
  let rows := take OUTBOX_BATCH_SIZE (List.filter unsent (outbox (tables s))) in
  let s' := run_events s (replicate (length rows) (Send Accepted) ++ [Finish]) in
  flight s' = None /\
  (forall r, r ∈ rows -> exists e, outbox_event r = Some e /\ e ∈ queue s' /\ OutboxRow.mark_sent now r ∈ outbox (tables s')) /\
  ((length (List.filter unsent (outbox (tables s))) <= OUTBOX_BATCH_SIZE)%nat -> List.filter unsent (outbox (tables s')) = []).
Proof.
  intros Hes Hnow Hf s rows s'. assert (HS0 : SysInv (run_events new_object es)) by (apply runs_inv; [apply new_object_inv|done]).
  assert (HS : SysInv s) by (by apply step_inv).
  assert (Hfl : flight s = Some (now, rows)).
  { unfold rows, s. cbn [step]. rewrite Hf. unfold bind. rewrite reclaim_run by (done || apply HS0). done. }
  destruct (send_all now rows s HS Hfl) as (F1 & F2 & F3). unfold s'. rewrite events_run_snoc.
  set (s1 := run_events s _) in *. cbn [step]. rewrite F1. cbn [flight queue tables].
  change (outbox (schedule_next_alarm now (tables s1)).1) with (outbox (tables s1)). rewrite F3. cbn [outbox set_outbox].
  assert (Hrow : forall r, r ∈ rows -> r ∈ outbox (tables s) /\ unsent r = true).
  { intros r Hr. apply subseteq_take in Hr. by apply elem_of_List_filter in Hr. }
  split_and!; [done| |].
  - intros r Hr. destruct (Hrow r Hr) as [Hin Hun]. destruct (row_event (tables s) r (sys_inv _ HS) Hin) as (e & He & _).
    exists e. split_and!; [done| |].
    + rewrite F2. apply elem_of_app. right. apply list_elem_of_omap. by exists r.
    + apply elem_of_update_where. exists r. split; [done|]. unfold in_batch. rewrite Hun, andb_true_r.
      assert (existsb (fun row => OutboxRow.id r =? OutboxRow.id row) rows = true) as ->; [|done].
      apply existsb_exists. exists r. split; [by apply list_elem_of_In|]. apply Z.eqb_refl.
  - intros Hlen. unfold rows. rewrite take_ge by done.
    match goal with |- ?l = [] => destruct l as [|r l0] eqn:E; [done|] end. exfalso.
    assert (Hr : r ∈ r :: l0) by left. rewrite <- E in Hr. apply elem_of_List_filter in Hr as [Hr Hun].
    apply elem_of_update_where in Hr as (r0 & Hr0 & ->). destruct (in_batch _ r0) eqn:Eb; [done|].
    unfold in_batch in Eb. rewrite Hun, andb_true_r in Eb. apply not_true_iff_false in Eb. apply Eb, existsb_exists.
    exists r0. split; [|apply Z.eqb_refl]. apply filter_In. split; [by apply list_elem_of_In|done].
Qed.

(** ** The read model *)


(** ** The alarm is due in time *)
Definition watched (now : Z) (t : Tables) (d : Z) : Prop :=
  (exists r, r ∈ outbox t /\ unsent r = true /\ d = now) \/
  (exists a, a ∈ activations t /\ has_status STATUS_PENDING a = true /\ d = Activation.created_at a + 60) \/
  (exists a, a ∈ activations t /\ has_status STATUS_RELEASED a = true /\ d = Activation.seen a + 7776000) \/
  (exists a hb, a ∈ activations t /\ has_status STATUS_ACTIVE a = true /\ int_at t "heartbeat_sec" = Some hb /\
     d = Activation.beat a + sat_mul_i64 hb 3) \/
  (text_at t "status" = Some "active"%string /\ int_at t "expires_at" = Some d).
Definition armed (now : Z) (t : Tables) : Prop :=
  forall d, watched now t d -> exists x, alarm t = Some x /\ x <= Z.max d now.

Lemma earliest {A} (f : A -> Z) p (l : list A) x : x ∈ l -> p x = true -> exists v, min_of (map f (List.filter p l)) = Some v /\ v <= f x.
Proof.
  intros Hx Hp. apply min_of_le. apply list_elem_of_In, in_map_iff. exists x. split; [done|]. apply filter_In. by rewrite <- list_elem_of_In.
Qed.

Lemma watched_deadline now t d : watched now t d -> exists v, Some v ∈ deadlines now t /\ v <= d.
Proof.
  unfold deadlines. fold (int_at t "heartbeat_sec") (text_at t "status") (int_at t "expires_at").
  intros [(r & Hr & Hu & ->)|[(a & Ha & Hs & ->)|[(a & Ha & Hs & ->)|[(a & hb & Ha & Hs & -> & ->)|(Hst & Hd)]]]].
  - destruct (earliest (fun _ => now) unsent _ r Hr Hu) as (v & Hv & ?). exists v. split; [rewrite <- Hv; set_solver|done].
  - destruct (earliest (fun a => Activation.created_at a + 60) _ _ a Ha Hs) as (v & Hv & ?). exists v. split; [rewrite <- Hv; set_solver|done].
  - destruct (earliest (fun a => Activation.seen a + 7776000) _ _ a Ha Hs) as (v & Hv & ?). exists v. split; [rewrite <- Hv; set_solver|done].
  - destruct (earliest (fun a => Activation.beat a + sat_mul_i64 hb 3) _ _ a Ha Hs) as (v & Hv & ?). exists v.
    split; [rewrite <- Hv; set_solver|done].
  - exists d. rewrite Hst, Hd, bool_decide_eq_true_2 by done. split; [set_solver|done].
Qed.

Lemma scheduled_armed now t : armed now (scheduled now t).
Proof.
  intros d Hd. assert (Hw : watched now t d) by exact Hd. destruct (watched_deadline now t d Hw) as (v & Hv & Hle).
  destruct (min_of_le (omap id (deadlines now t)) v) as (next & Hn & Hnext); [apply list_elem_of_omap; by exists (Some v)|].
  unfold scheduled, schedule_next_alarm. cbn [writes fst alarm set_alarm]. rewrite Hn. eexists. split; [done|]. unfold sat_sub_i64, sat_i64, clamp, i64_min, i64_max. lia.
Qed.

Lemma calm_watched T now t t' d : calm t t' -> T <= now -> watched now t' d -> exists d', watched T t d' /\ Z.max d' T <= Z.max d now.
Proof.
  intros (C1 & C2 & _ & C4) HT. assert (E1 : forall k, k ∈ ["heartbeat_sec"; "expires_at"]%string -> int_at t' k = int_at t k)
    by (intros k Hk; unfold int_at; rewrite C4; [done|set_solver]).
  assert (E2 : text_at t' "status" = text_at t "status") by (unfold text_at; rewrite C4; [done|set_solver]).
  intros [(r & Hr & Hu & ->)|[(a & Ha & Hs & ->)|[(a & Ha & Hs & ->)|[(a & hb & Ha & Hs & Hhb & ->)|(Hst & Hd)]]]].
  - exists T. split; [left; exists r; rewrite <- C2; done|lia].
  - eexists. split; [right; left; exists a; by eauto|lia].
  - eexists. split; [right; right; left; exists a; by eauto|lia].
  - eexists. split; [right; right; right; left; exists a, hb; rewrite E1 in Hhb by set_solver; by eauto|lia].
  - exists d. split; [right; right; right; right; rewrite E2 in Hst; rewrite E1 in Hd by set_solver; done|lia].
Qed.


(** ** What the alarm frees *)
Lemma release_elem p now t a' : a' ∈ activations (release_rows p now t) ->
  (a' ∈ activations t /\ p a' = false) \/ Activation.status a' = STATUS_RELEASED.
Proof.
  rewrite (proj1 (release_frame p now t)). intros (a & Ha & ->)%elem_of_update_where. destruct (p a) eqn:E; [by right|by left].
Qed.

(** A condition that released rows do not meet is met by no more rows after a release. *)
Definition alive (q : Activation -> bool) : Prop := forall a, Activation.status a = STATUS_RELEASED -> q a = false.
Lemma alive_status s r : s <> STATUS_RELEASED -> alive (fun a => has_status s a && r a).
Proof. intros Hs a Ha. unfold has_status. rewrite Ha. destruct (Z.eqb_spec STATUS_RELEASED s); [congruence|done]. Qed.
Lemma alive_occupies : alive Activation.occupies.
Proof. intros a Ha. unfold Activation.occupies. by rewrite Ha. Qed.

Definition none (q : Activation -> bool) (t : Tables) : Prop := forall a, a ∈ activations t -> q a = false.
Lemma none_released q now t : alive q -> none q (release_rows q now t).
Proof. intros Hq a Ha. destruct (release_elem _ _ _ _ Ha) as [[_ H]|H]; [done|by apply Hq]. Qed.
Lemma none_kept q p now t : alive q -> none q t -> none q (release_rows p now t).
Proof. intros Hq Hn a Ha. destruct (release_elem _ _ _ _ Ha) as [[H _]|H]; [by apply Hn|by apply Hq]. Qed.
Lemma none_pruned q now t : none q t -> none q (pruned now t).
Proof. intros Hn a Ha. apply Hn. simpl in Ha. by apply elem_of_delete_where in Ha as [? _]. Qed.
Lemma none_expired q now t : alive q -> none q t -> none q (without_expired now t).
Proof. intros Hq Hn. unfold without_expired. destruct (due now t); [|done]. by apply (none_kept q Activation.occupies now (set_meta _ t)). Qed.

Lemma seats_none t : none Activation.occupies t -> seats_used t = 0.
Proof.
  unfold none, seats_used, count_where, count_if. intros H. destruct (List.filter Activation.occupies (activations t)) as [|a l] eqn:E; [done|].
  assert (Ha : a ∈ List.filter Activation.occupies (activations t)) by (rewrite E; left).
  apply elem_of_List_filter in Ha as [Ha Ho]. by rewrite H in Ho.
Qed.

Lemma silent_hb now t : int_at (without_silent now t) "heartbeat_sec" = int_at t "heartbeat_sec" /\
  due now (without_silent now t) = due now t.
Proof.
  unfold without_silent. destruct (int_at t "heartbeat_sec") as [hb|] eqn:E; [|done]. destruct (Heartbeat.zombie_cutoff hb now); [|done].
  unfold due, int_at, text_at in *. by rewrite !(proj2 (release_frame _ _ _)) by done.
Qed.

Lemma none_silent now t hb cutoff : int_at t "heartbeat_sec" = Some hb -> Heartbeat.zombie_cutoff hb now = Some cutoff ->
  none (silent cutoff) (without_silent now t).
Proof. intros Hhb Hc. unfold without_silent. rewrite Hhb, Hc. by apply none_released, alive_status. Qed.
Lemma none_through_silent q now t : alive q -> none q t -> none q (without_silent now t).
Proof.
  intros Hq Hn. unfold without_silent. destruct (int_at t "heartbeat_sec"); [|done]. destruct (Heartbeat.zombie_cutoff _ _); [|done]. by apply none_kept.
Qed.

Lemma expired_outcome now t : due now t = true ->
  none Activation.occupies (without_expired now t) /\ text_at (without_expired now t) "status" = Some "expired"%string.
Proof.
  intros Hd. unfold without_expired. rewrite Hd. split.
  - apply (none_released Activation.occupies now (set_meta _ t) alive_occupies).
  - unfold text_at. rewrite published_key by done. rewrite (proj2 (release_frame _ _ _)) by done. simpl. by rewrite lookup_insert_eq.
Qed.

(** C30 When the alarm fires nothing that is over is left: no reservation is older than its time limit,
    no device silent for longer than its grace keeps its seat, and a licence past its end is
    expired and has no seat occupied. *)
Theorem alarm_reclaims es now : Forall event_typed es -> 0 <= now -> flight (run_events new_object es) = None ->
  let t := tables (run_events new_object es) in let t' := tables (step (run_events new_object es) (Fire now)) in
  (forall a, a ∈ activations t' -> Activation.status a = STATUS_PENDING -> sat_sub_i64 now PENDING_TTL_SECS < Activation.created_at a) /\
  (forall a hb cutoff, a ∈ activations t' -> int_at t "heartbeat_sec" = Some hb -> Heartbeat.zombie_cutoff hb now = Some cutoff ->
     Activation.status a = STATUS_ACTIVE -> cutoff <= Activation.beat a) /\
  (text_at t "status" = Some "active"%string -> past_expiry (int_at t "expires_at") now = true ->
     text_at t' "status" = Some "expired"%string /\ seats_used t' = 0).
Proof.
  intros Hes Hnow Hf t t'. assert (HS : SysInv (run_events new_object es)) by (apply runs_inv; [apply new_object_inv|done]).
  assert (Ht' : t' = reclaimed now t).
  { unfold t'. cbn [step]. rewrite Hf. unfold bind. by rewrite reclaim_run by (done || apply HS). }
  rewrite Ht'. clear Ht' t'. unfold reclaimed. set (t1 := release_rows (lapsed now) now t).
  assert (Hm : forall k, k <> "proj_version"%string -> meta t1 !! k = meta t !! k) by apply release_frame.
  assert (H1 : none (lapsed now) t1) by (by apply none_released, alive_status).
  destruct (silent_hb now t1) as [Hhb Hdue]. split_and!.
  - intros a Ha Hs. assert (Hl : lapsed now a = false).
    { revert Ha. apply none_pruned, none_expired; [by apply alive_status|]. by apply none_through_silent; [apply alive_status|]. }
    unfold lapsed, has_status in Hl. rewrite Hs in Hl. simpl in Hl. lia.
  - intros a hb cutoff Ha Hb Hc Hs. assert (Hl : silent cutoff a = false).
    { revert Ha. apply none_pruned, none_expired; [by apply alive_status|]. eapply none_silent; [|exact Hc].
      unfold int_at. by rewrite Hm. }
    unfold silent, has_status in Hl. rewrite Hs in Hl. simpl in Hl. lia.
  - intros Hst Hex. assert (Hd : due now (without_silent now t1) = true).
    { rewrite Hdue. unfold due, text_at, int_at in *. rewrite !Hm, Hst, Hex by done. done. }
    destruct (expired_outcome now _ Hd) as [Hn Hs']. split; [exact Hs'|]. by apply seats_none, none_pruned.
Qed.
End Alarm.

(** ** Witnesses *)
Section Witnesses.
#[local] Existing Instances DemoHost.host DemoHost.reservation_laws DemoHost.event_laws DemoPrim.prims.
Import DemoHost.

Lemma queue_carries_history_witness : numbered (events (tables (run_events new_object (life ++ flushed)))).
Proof. destruct (queue_carries_history (life ++ flushed)) as (H & _); [apply life_then_typed; auto|exact H]. Defined.

Lemma alarm_delivers_witness :
  flight (run_events (step (run_events new_object life) (Fire 40)) [Send Accepted; Send Accepted; Finish]) = None.
Proof.
  destruct (alarm_delivers life 40) as (H & _); [apply life_typed|lia|vm_compute; reflexivity|].
  match type of H with flight (run_events _ ?es) = None => assert (E : es = [Send Accepted; Send Accepted; Finish]) by (vm_compute; reflexivity) end.
  rewrite <- E. exact H.
Defined.



Lemma alarm_reclaims_witness :
  text_at (tables (step (run_events new_object life) (Fire 100000))) "status" = Some "expired"%string.
Proof.
  destruct (alarm_reclaims life 100000) as (_ & _ & H); [apply life_typed|lia|vm_compute; reflexivity|].
  by destruct H as [H _]; [vm_compute; reflexivity|vm_compute; reflexivity|].
Defined.

(** ** Erasure *)

(** An administrator's erasure deletes the machine's row of the read model and its record of the
    object; the events the object has not sent yet still carry it, and the first of them that is
    delivered writes the row again. *)
Theorem erased_machine_comes_back :
  let forget := Request 30 (AdminForget (AdminForgetRequest.mk license (machine 3) "erase")) in
  let s := run_events new_object (life ++ forget :: flushed) in
  let erased := Database.mk {[license := LicenseRow.mk "active" 0 None 0 0]} ∅ in
  (run (fetch 30 (AdminForget (AdminForgetRequest.mk license (machine 3) "erase"))) object).2 =
    Some (response 200 (AdminForgetResponse true)) /\
  status_of (tables s) (machine 3) = None /\ Database.machines erased !! machine 3 = None /\
  option_map (fun r => MachineProjection.fingerprint (MachineRow.columns r)) (Database.machines (deliver erased (queue s)) !! machine 3) = Some [3; 3].
Proof. split_and!; vm_compute; reflexivity. Qed.
End Witnesses.
